(** * Spectator MCP setup client: configuration adapters and setup command

    A shallow embedding of the JavaScript sources
      - client/src/platforms/base.js        (BasePlatform)
      - client/src/platforms/{cursor,claude,windsurf,vscode,cline,claudecode}.js
      - client/src/platforms/index.js       (platform table)
      - client/src/config/detector.js       (PlatformDetector)
      - client/bin/spectator-mcp.js         (runSetup and its dispatch, the
                                             validate and remove commands)
      - client/src/utils/api.js             (ApiValidator, the version check)
      - unnamed/part_001, unnamed/part_002  (earlier copies of the script)
    and of the properties their specification states about them.

    Modelling conventions.
      - A parsed JSON value is a [json]; a JavaScript object used as a map
        is a [gmap string json] (keys are unique, the order of keys is not
        observable in what is proved here).  JavaScript [null] is [JNull];
        [undefined] is the [None] of an [option json].
      - The file system is a finite map from paths to nodes.  A path is
        the list of its segments from the root.  A file holds a [content]:
        blank text, the text of a JSON value, or other text.
      - Code runs in the monad [prog]: it threads the file system, may
        throw, may end the process ([process.exit]) and may be suspended
        at an [await].
      - Console output (chalk, logger) is not modelled, but for the
        [validate] command, whose result is the lines it reports. *)

From stdpp Require Import gmap strings list pretty.
From Stdlib Require Import ZArith Ascii.

#[local] Set Warnings "-register-all".


(** ** JSON values and the JavaScript operations the adapters use *)

Inductive json : Type :=
| JNull
| JBool (b : bool)
| JNum (n : Z)
| JStr (s : string)
| JArr (elems : list json)
| JObj (fields : gmap string json).

(** JSON numbers are modelled by integers.  In the text of a file a
    number is an integer of any size.  In a value of the program a number
    is a double: here one that holds an integer, or an infinity, for
    which [INFINITY] and its opposite stand. *)

(** ToBoolean on a JSON value. *)
Definition truthy (j : json) : bool :=
  match j with
  | JNull => false
  | JBool b => b
  | JNum n => negb (n =? 0)%Z
  | JStr s => negb (String.eqb s "")
  | JArr _ | JObj _ => true
  end.

(** ToBoolean on a value that may be [undefined]. *)
Definition truthy_opt (o : option json) : bool :=
  match o with Some j => truthy j | None => false end.

(** [x || {}], [x || false] ... on a value that may be [undefined]. *)
Definition or_else (o : option json) (dflt : json) : json :=
  match o with Some j => if truthy j then j else dflt | None => dflt end.

(** The two property names the adapters use: [config.mcpServers] and
    [config.mcpServers['spectator-voice-memory']]. *)
Definition MCP_SERVERS : string := "mcpServers".
Definition SPECTATOR : string := "spectator-voice-memory".

(** A value or a thrown error (the error's [message]). *)
Inductive outcome (A : Type) : Type :=
| Ok (a : A)
| Err (msg : string).
Arguments Ok {A} a.
Arguments Err {A} msg.

(** How V8 names a primitive in "Cannot create property" messages. *)
Definition describe (j : json) : string :=
  match j with
  | JNull => "null"
  | JBool true => "boolean 'true'"
  | JBool false => "boolean 'false'"
  | JNum n => "number '" +:+ pretty n +:+ "'"
  | JStr s => "string '" +:+ s +:+ "'"
  | JArr _ => "array"
  | JObj _ => "object"
  end.

(** A value held in a variable while a method runs.  [shown] is what
    [JSON.stringify] prints.  [named] holds the properties that were
    stored on an array under a name: the array keeps them, [Object.keys]
    lists them, [JSON.stringify] does not print them.  A value that comes
    out of [JSON.parse] has none. *)
Record live : Type := Live { shown : json; named : gmap string json }.

Definition live_of (j : json) : live := Live j ∅.

(** [o[k]] for a name [k] (never an array index, never "length") on a
    value that is not [null]. *)
Definition lget (o : live) (k : string) : option json :=
  match shown o with
  | JObj fs => fs !! k
  | JArr _ => named o !! k
  | _ => None
  end.

(** [o[k] = v] in strict mode (class bodies are strict): storing a
    property on a primitive throws a TypeError. *)
Definition lset (o : live) (k : string) (v : json) : outcome live :=
  match shown o with
  | JObj fs => Ok (Live (JObj (<[k := v]> fs)) (named o))
  | JArr _ => Ok (Live (shown o) (<[k := v]> (named o)))
  | j => Err ("Cannot create property '" +:+ k +:+ "' on " +:+ describe j)
  end.

(** [Object.assign(o, src)]: copies the properties of [src] onto [o].  On
    a primitive the properties land on a temporary wrapper object, and
    the primitive is unchanged. *)
Definition Object_assign (o : live) (src : gmap string json) : live :=
  match shown o with
  | JObj fs => Live (JObj (src ∪ fs)) (named o)
  | JArr _ => Live (shown o) (src ∪ named o)
  | _ => o
  end.

(** [Object.keys(o)]: the indices of an array or string, then the names. *)
Definition Object_keys (o : live) : list string :=
  match shown o with
  | JObj fs => (map_to_list fs).*1
  | JArr elems => (pretty <$> seq 0 (length elems)) ++ (map_to_list (named o)).*1
  | JStr s => pretty <$> seq 0 (String.length s)
  | _ => []
  end.

(** [o.mcpServers] of a parsed value that is not [null]. *)
Definition prop (j : json) (k : string) : option json := lget (live_of j) k.

(** [j[k]] where [j] may be [null]: reading a property of [null] throws. *)
Definition member (j : json) (k : string) : outcome (option json) :=
  match j with
  | JNull => Err ("Cannot read properties of null (reading '" +:+ k +:+ "')")
  | _ => Ok (prop j k)
  end.

(** ** Paths and the file system *)

Abbreviation path := (list string).

Definition path_str (p : path) : string := "/" +:+ String.concat "/" p.

(** [path.dirname]. *)
Definition dirname (p : path) : path := removelast p.

(** [`${p}${suffix}`]: the suffix lands on the last segment. *)
Fixpoint add_suffix (p : path) (suffix : string) : path :=
  match p with
  | [] => [suffix]
  | [x] => [x +:+ suffix]
  | x :: rest => x :: add_suffix rest suffix
  end.

(** What a file holds: nothing but white space, the text of a JSON value,
    or any other text. *)
Inductive content : Type :=
| Blank
| JsonText (j : json)
| Garbage (raw : string).

Inductive node : Type :=
| File (c : content)
| Dir.

Abbreviation fs := (gmap path node).

(** The root is a directory of every file system. *)
Definition node_at (σ : fs) (p : path) : option node :=
  match p with [] => Some Dir | _ => σ !! p end.

Definition existsSync (σ : fs) (p : path) : bool :=
  match node_at σ p with Some _ => true | None => false end.

Definition readFileSync (σ : fs) (p : path) : outcome content :=
  match node_at σ p with
  | Some (File c) => Ok c
  | Some Dir => Err "EISDIR: illegal operation on a directory, read"
  | None => Err ("ENOENT: no such file or directory, open '" +:+ path_str p +:+ "'")
  end.

(** [fs.writeFileSync]: the failures are those of opening the file.  The
    disk is taken to have room and to work: a write that has opened its
    file puts the whole content there.  What the program does when a
    write fails after the file was opened, and cut short, is not
    described by this model. *)
Definition writeFileSync (σ : fs) (p : path) (c : content) : outcome fs :=
  match node_at σ p with
  | Some Dir => Err ("EISDIR: illegal operation on a directory, open '" +:+ path_str p +:+ "'")
  | _ =>
    match node_at σ (dirname p) with
    | Some Dir => Ok (<[p := File c]> σ)
    | Some (File _) => Err ("ENOTDIR: not a directory, open '" +:+ path_str p +:+ "'")
    | None => Err ("ENOENT: no such file or directory, open '" +:+ path_str p +:+ "'")
    end
  end.

Definition copyFileSync (σ : fs) (src dst : path) : outcome fs :=
  match readFileSync σ src with
  | Ok c => writeFileSync σ dst c
  | Err m => Err m
  end.

(** *** Numbers, from text to double and back *)

Definition INFINITY : Z := 2 ^ 1024.

(** A positive integer rounded to 53 significant bits, ties to even. *)
Definition round_to_53 (n : Z) : Z :=
  let e := Z.log2 n in
  if (e <? 53)%Z then n
  else
    let unit := (2 ^ (e - 52))%Z in
    let q := (n / unit)%Z in
    let r := (n mod unit)%Z in
    ((if (unit <? 2 * r)%Z || ((unit =? 2 * r)%Z && Z.odd q) then q + 1 else q) * unit)%Z.

(** The Number value of an integer literal: the nearest double, an
    infinity from [2^1024 - 2^970] on. *)
Definition to_double (n : Z) : Z :=
  let m := round_to_53 (Z.abs n) in
  (Z.sgn n * (if (INFINITY <=? m)%Z then INFINITY else m))%Z.

(** Number::toString on a finite double [v >= 0] that holds an integer:
    of the decimals that read back as [v], the one with the fewest
    significant digits, the closest to [v] among those, the even one of
    two equally close.  A decimal that ends in as many zeros as [s] and
    reads back as [v] is the multiple of [s] just below [v] or just
    above; when neither does, none with more zeros does. *)
Fixpoint shortest_from (v : Z) (fuel : nat) (s : Z) (best : Z) : Z :=
  match fuel with
  | O => best
  | S fuel =>
    let lo := (v / s * s)%Z in
    let hi := (lo + s)%Z in
    let fits c := (to_double c =? v)%Z in
    if fits lo && (negb (fits hi) || (2 * v <? lo + hi)%Z
                   || ((2 * v =? lo + hi)%Z && Z.even (lo / s)))
    then shortest_from v fuel (10 * s) lo
    else if fits hi then shortest_from v fuel (10 * s) hi
    else best
  end.
Definition shortest (v : Z) : Z :=
  if (v =? 0)%Z then 0%Z else shortest_from v 400 1 v.

(** What [JSON.stringify] prints for a number: [null] for an infinity. *)
Definition number_text (v : Z) : option Z :=
  if (INFINITY <=? Z.abs v)%Z then None else Some (Z.sgn v * shortest (Z.abs v))%Z.

(** A JSON value with each number [n] replaced by [f n], by [null]
    where [f] gives none. *)
Fixpoint jmap (f : Z → option Z) (j : json) : json :=
  match j with
  | JNum n => match f n with Some m => JNum m | None => JNull end
  | JArr elems => JArr (jmap f <$> elems)
  | JObj fields => JObj (jmap f <$> fields)
  | _ => j
  end.

(** The value [JSON.parse] makes of a text, and the text
    [JSON.stringify] prints for a value. *)
Definition parsed (text : json) : json := jmap (λ n, Some (to_double n)) text.
Definition printed (value : json) : json := jmap number_text value.

(** [JSON.parse] on the text of a file.  The wording of a SyntaxError is
    the engine's; the model fixes one. *)
Definition JSON_parse (c : content) : outcome json :=
  match c with
  | JsonText j => Ok (parsed j)
  | Blank => Err "Unexpected end of JSON input"
  | Garbage raw => Err ("Unexpected token in JSON: " +:+ raw)
  end.

(** [JSON.stringify(o, null, 2)], as the text of a file. *)
Definition JSON_stringify (o : live) : content := JsonText (printed (shown o)).

(** [content.trim()] is the empty string. *)
Definition is_blank (c : content) : bool :=
  match c with Blank => true | _ => false end.

(** ** The monad of the program *)

(** The result of running code from a file system: it returned, it threw,
    the process was ended by [process.exit], or it is suspended at an
    [await] with [rest] still to run once the event loop resumes it. *)
Inductive res (A : Type) : Type :=
| Done (a : A) (σ : fs)
| Raised (e : string) (σ : fs)
| Exited (code : Z) (σ : fs)
| Paused (σ : fs) (rest : res A).
Arguments Done {A} a σ.
Arguments Raised {A} e σ.
Arguments Exited {A} code σ.
Arguments Paused {A} σ rest.

Definition prog (A : Type) : Type := fs → res A.

Fixpoint bind_res {A B} (r : res A) (f : A → prog B) : res B :=
  match r with
  | Done a σ => f a σ
  | Raised e σ => Raised e σ
  | Exited c σ => Exited c σ
  | Paused σ rest => Paused σ (bind_res rest f)
  end.

Definition ret {A} (a : A) : prog A := λ σ, Done a σ.
Definition bind {A B} (m : prog A) (f : A → prog B) : prog B :=
  λ σ, bind_res (m σ) f.

Declare Scope prog_scope.
Delimit Scope prog_scope with prog.
Bind Scope prog_scope with prog.
Notation "x ← y ; z" := (bind y (λ x, z))
  (at level 20, y at level 100, z at level 200, only parsing) : prog_scope.
Notation "y ;; z" := (bind y (λ _, z))
  (at level 100, z at level 200, only parsing, right associativity) : prog_scope.
#[local] Open Scope prog_scope.

Definition throw {A} (e : string) : prog A := λ σ, Raised e σ.

(** [process.exit(code)]. *)
Definition process_exit {A} (code : Z) : prog A := λ σ, Exited code σ.

(** [try { m } catch (error) { h error.message }]. *)
Fixpoint catch_res {A} (r : res A) (h : string → prog A) : res A :=
  match r with
  | Raised e σ => h e σ
  | Paused σ rest => Paused σ (catch_res rest h)
  | _ => r
  end.
Definition try_catch {A} (m : prog A) (h : string → prog A) : prog A :=
  λ σ, catch_res (m σ) h.

(** [await m()], [m] an async function.  The body of [m] runs at once, up
    to its own first [await] if it has one; the caller is suspended in
    either case, and gets the value (or the exception) when resumed. *)
Definition await {A} (m : prog A) : prog A :=
  λ σ, match m σ with
       | Done a σ' => Paused σ' (Done a σ')
       | Raised e σ' => Paused σ' (Raised e σ')
       | r => r
       end.

(** Running to the end: what the event loop makes of a suspended result. *)
Fixpoint settle {A} (r : res A) : res A :=
  match r with
  | Paused _ rest => settle rest
  | _ => r
  end.

(** The file system a result leaves. *)
Fixpoint final_fs {A} (r : res A) : fs :=
  match r with
  | Done _ σ | Raised _ σ | Exited _ σ => σ
  | Paused _ rest => final_fs rest
  end.

(** A value or an error computed without touching the file system. *)
Definition lift {A} (o : outcome A) : prog A :=
  λ σ, match o with Ok a => Done a σ | Err m => Raised m σ end.

(** The calls into Node's [fs] module. *)
Definition fs_existsSync (p : path) : prog bool := λ σ, Done (existsSync σ p) σ.
Definition fs_readFileSync (p : path) : prog content :=
  λ σ, lift (readFileSync σ p) σ.
Definition fs_writeFileSync (p : path) (c : content) : prog unit :=
  λ σ, match writeFileSync σ p c with Ok σ' => Done () σ' | Err m => Raised m σ end.

(** [fs.mkdirSync(base/rest, { recursive: true })], [base] being a
    directory already: every missing ancestor is created in turn, and
    those created before a failure stay. *)
Fixpoint mkdir_from (base rest : path) : prog unit :=
  match rest with
  | [] => λ σ, Done () σ
  | seg :: rest' =>
    λ σ,
      let d := base ++ [seg] in
      match σ !! d with
      | Some (File _) =>
        Raised ("ENOTDIR: not a directory, mkdir '" +:+ path_str (base ++ rest) +:+ "'") σ
      | _ => mkdir_from d rest' (<[d := Dir]> σ)
      end
  end.
Definition fs_mkdirSync (p : path) : prog unit := mkdir_from [] p.
Definition fs_copyFileSync (src dst : path) : prog unit :=
  λ σ, match copyFileSync σ src dst with Ok σ' => Done () σ' | Err m => Raised m σ end.

(** The object a property of [config] refers to, held in a local of its
    own: what is then stored on it is seen by the later reads of
    [config.mcpServers], as through the JavaScript reference. *)
Definition alias (config : live) (k : string) : live :=
  live_of (default JNull (lget config k)).

(** [config] with the object behind [config[k]] as it now stands. *)
Definition store_back (config : live) (k : string) (o : live) : live :=
  match shown config with
  | JObj fs => Live (JObj (<[k := shown o]> fs)) (named config)
  | JArr _ => Live (shown config) (<[k := shown o]> (named config))
  | _ => config
  end.

(** [delete o[k]]. *)
Definition ldelete (o : live) (k : string) : live :=
  match shown o with
  | JObj fs => Live (JObj (delete k fs)) (named o)
  | JArr _ => Live (shown o) (delete k (named o))
  | _ => o
  end.

(** ** client/src/config/detector.js *)

(** [os.platform()]. *)
Inductive OS : Type := darwin | win32 | linux | other_os.

(** The [type] argument of [getConfigPath], the [--scope] of the command
    line: 'global' or 'project'. *)
Inductive scope : Type := global | project.

(** A detector, with the parts of the process environment it reads:
    [os.platform()], [os.homedir()], [process.cwd()], three environment
    variables ([None] when unset or empty), and whether a [claude]
    command is found by [which] or [where]. *)
Record PlatformDetector : Type := {
  platform : OS;
  homeDir : path;
  cwd : path;
  APPDATA : option path;
  ProgramFiles : option path;
  LOCALAPPDATA : option path;
  claude_on_PATH : bool
}.

(** [path.join(process.env.X || '', ...)]: with [X] unset the joined path
    is relative, and resolves against the working directory. *)
Definition env_dir (d : PlatformDetector) (v : option path) : path :=
  default (cwd d) v.

(** [table[this.platform]] for a table with the keys darwin, win32, linux. *)
Definition per_os {A} (d : PlatformDetector) (on_darwin on_win32 on_linux : A) : option A :=
  match platform d with
  | darwin => Some on_darwin
  | win32 => Some on_win32
  | linux => Some on_linux
  | other_os => None
  end.

Definition getConfigPath (d : PlatformDetector) (name : string) (type : scope) : option path :=
  if decide (name = "claude") then
    per_os d
      (homeDir d ++ ["Library"; "Application Support"; "Claude"; "claude_desktop_config.json"])
      (env_dir d (APPDATA d) ++ ["Claude"; "claude_desktop_config.json"])
      (homeDir d ++ [".config"; "Claude"; "claude_desktop_config.json"])
  else if decide (name = "cline") then
    per_os d
      (homeDir d ++ ["Library"; "Application Support"; "Code"; "User"; "globalStorage";
                     "saoudrizwan.claude-dev"; "cline_mcp_settings.json"])
      (env_dir d (APPDATA d) ++ ["Code"; "User"; "globalStorage";
                                 "saoudrizwan.claude-dev"; "cline_mcp_settings.json"])
      (homeDir d ++ [".config"; "Code"; "User"; "globalStorage";
                     "saoudrizwan.claude-dev"; "cline_mcp_settings.json"])
  else if decide (name = "claudecode") then
    per_os d
      (homeDir d ++ [".claudecode"; "settings.json"])
      (homeDir d ++ [".claudecode"; "settings.json"])
      (homeDir d ++ [".claudecode"; "settings.json"])
  else if decide (name = "cursor") then
    Some match type with
         | global => homeDir d ++ [".cursor"; "mcp.json"]
         | project => cwd d ++ [".cursor"; "mcp.json"]
         end
  else if decide (name = "windsurf") then
    Some (homeDir d ++ [".codeium"; "windsurf"; "mcp_config.json"])
  else if decide (name = "vscode") then
    Some match type with
         | global => homeDir d ++ [".mcp.json"]
         | project => cwd d ++ [".vscode"; "mcp.json"]
         end
  else None.

(** [fs.existsSync(appPaths[this.platform] || '')]. *)
Definition exists_opt (σ : fs) (p : option path) : bool :=
  match p with Some p => existsSync σ p | None => false end.

Definition isPlatformInstalled (d : PlatformDetector) (σ : fs) (name : string) : bool :=
  if decide (name = "claude") then
    exists_opt σ (per_os d ["Applications"; "Claude.app"]
                           (env_dir d (ProgramFiles d) ++ ["Claude"])
                           ["usr"; "bin"; "claude"])
    || exists_opt σ (dirname <$> getConfigPath d "claude" global)
  else if decide (name = "claudecode") then
    claude_on_PATH d || existsSync σ (homeDir d ++ [".claudecode"])
  else if decide (name = "cursor") then
    existsSync σ (homeDir d ++ [".cursor"])
    || exists_opt σ (per_os d ["Applications"; "Cursor.app"]
                              (env_dir d (LOCALAPPDATA d) ++ ["Programs"; "cursor"])
                              ["usr"; "bin"; "cursor"])
  else if decide (name = "windsurf") then
    existsSync σ (homeDir d ++ [".codeium"; "windsurf"])
  else if decide (name = "vscode") then
    exists_opt σ (per_os d ["Applications"; "Visual Studio Code.app"]
                           (env_dir d (ProgramFiles d) ++ ["Microsoft VS Code"])
                           ["usr"; "bin"; "code"])
  else if decide (name = "cline") then
    exists_opt σ (dirname <$> getConfigPath d "cline" global)
  else false.

Definition getInstalledPlatforms (d : PlatformDetector) (σ : fs) : list string :=
  filter (λ name, isPlatformInstalled d σ name = true)
         ["claude"; "claudecode"; "cursor"; "windsurf"; "vscode"; "cline"].

Definition getPlatformDisplayName (name : string) : string :=
  if decide (name = "claude") then "Claude Desktop"
  else if decide (name = "claudecode") then "Claude Code"
  else if decide (name = "cursor") then "Cursor"
  else if decide (name = "windsurf") then "Windsurf"
  else if decide (name = "vscode") then "VS Code"
  else if decide (name = "cline") then "Cline (VS Code Extension)"
  else name.

(** The object literal both [BasePlatform.getMcpServerConfig] and
    [ClaudeCode.configure] spell out:
      [{ command: 'npx',
         args: ['-y', 'mcp-remote',
                `https://spectatorcontext.com/mcp-server/mcp/${apiKey}`] }] *)
Definition spectator_url (apiKey : string) : string :=
  "https://spectatorcontext.com/mcp-server/mcp/" +:+ apiKey.
Definition spectator_entry (apiKey : string) : json :=
  JObj (<["command" := JStr "npx"]>
        (<["args" := JArr [JStr "-y"; JStr "mcp-remote"; JStr (spectator_url apiKey)]]>
         ∅)).

(** ** client/src/platforms/base.js *)

Module BasePlatform.

Definition getMcpServerConfig (apiKey : string) : gmap string json :=
    {[ SPECTATOR := spectator_entry apiKey ]}.

Definition readConfig (configPath : path) : prog json :=
    found ← fs_existsSync configPath;
    if negb found then ret JNull
    else
      try_catch
        (content ← fs_readFileSync configPath;
         lift (JSON_parse content))
        (λ message,
           throw ("Failed to read config from " +:+ path_str configPath +:+ ": " +:+ message)).

Definition writeConfig (configPath : path) (config : live) : prog unit :=
    try_catch
      (let dir := dirname configPath in
       found ← fs_existsSync dir;
       (if negb found then fs_mkdirSync dir else ret ());;
       fs_writeFileSync configPath (JSON_stringify config))
      (λ message,
         throw ("Failed to write config to " +:+ path_str configPath +:+ ": " +:+ message)).

  (** [now] is the value [Date.now()] returns during the call. *)
Definition backupConfig (configPath : path) (now : N) : prog (option path) :=
    found ← fs_existsSync configPath;
    if negb found then ret None
    else
      let backupPath := add_suffix configPath (".backup." +:+ pretty now) in
      fs_copyFileSync configPath backupPath;;
      ret (Some backupPath).

End BasePlatform.

(** ** The platform adapters *)

(** What a [configure] returns: [true], or an object
    [{ updated, hasOtherServers, configPath }] ([updated] may hold
    [undefined]; only Claude Code sets [configPath]). *)
Inductive configure_result : Type :=
| ReturnedTrue
| Report (updated : option json) (hasOtherServers : bool) (configPath : option path).

(** What a [validate] returns: [{ scope, valid, error }]. *)
Record validation : Type := Validation {
  in_scope : option scope;
  valid : bool;
  error : option string
}.

(** [if (!config.mcpServers) { config.mcpServers = {}; }] *)
Definition ensure_mcpServers (config : live) : outcome live :=
  if negb (truthy_opt (lget config MCP_SERVERS))
  then lset config MCP_SERVERS (JObj ∅)
  else Ok config.

(** [config.mcpServers && config.mcpServers['spectator-voice-memory']],
    as a condition; [config] may be [null]. *)
Definition has_entry (config : json) : outcome bool :=
  match member config MCP_SERVERS with
  | Err m => Err m
  | Ok servers =>
    Ok (truthy_opt servers && truthy_opt (prop (default JNull servers) SPECTATOR))
  end.

(** [delete config.mcpServers['spectator-voice-memory']] *)
Definition delete_entry (config : live) : live :=
  store_back config MCP_SERVERS (ldelete (alias config MCP_SERVERS) SPECTATOR).

(** src/unnamed/part_003, first file: cursor.js *)
Module CursorPlatform.

Definition configure (d : PlatformDetector) (apiKey : string)
      (options_scope : option scope) (now : N) : prog configure_result :=
    let scope := default global options_scope in
    match getConfigPath d "cursor" scope with
    | None => throw "Could not determine Cursor configuration path"
    | Some configPath =>
      read ← await (BasePlatform.readConfig configPath);
      let config := live_of (or_else (Some read) (JObj ∅)) in
      config ← lift (ensure_mcpServers config);
      let servers := alias config MCP_SERVERS in
      let isAlreadyConfigured := lget servers SPECTATOR in
      (if truthy_opt isAlreadyConfigured
       then await (BasePlatform.backupConfig configPath now);; ret ()
       else ret ());;
      let mcpConfig := BasePlatform.getMcpServerConfig apiKey in
      let servers := Object_assign servers mcpConfig in
      let config := store_back config MCP_SERVERS servers in
      await (BasePlatform.writeConfig configPath config);;
      ret (Report isAlreadyConfigured
                   (bool_decide (1 < length (Object_keys servers))) None)
    end.

  (** One of the two [if (path && fs.existsSync(path)) { try ... }] blocks. *)
Definition check (configPath : option path) (s : scope)
      (results : list validation) : prog (list validation) :=
    match configPath with
    | None => ret results
    | Some p =>
      found ← fs_existsSync p;
      if negb found then ret results
      else
        try_catch
          (config ← await (BasePlatform.readConfig p);
           ok ← lift (has_entry config);
           if ok then ret (results ++ [Validation (Some s) true None])
           else ret results)
          (λ message, ret (results ++ [Validation (Some s) false (Some message)]))
    end.

Definition validate (d : PlatformDetector) : prog validation :=
    let globalPath := getConfigPath d "cursor" global in
    let projectPath := getConfigPath d "cursor" project in
    results ← check globalPath global [];
    results ← check projectPath project results;
    match results with
    | [] => ret (Validation None false (Some "No configuration found"))
    | first :: _ => ret (default first (find valid results))
    end.

  (** The body of [for (const scope of ['global', 'project'])]. *)
Definition remove_in (d : PlatformDetector) (s : scope) (removed : bool) : prog bool :=
    match getConfigPath d "cursor" s with
    | None => ret removed
    | Some configPath =>
      found ← fs_existsSync configPath;
      if negb found then ret removed
      else
        config ← await (BasePlatform.readConfig configPath);
        ok ← (if truthy config then lift (has_entry config) else ret false);
        if ok then
          await (BasePlatform.writeConfig configPath (delete_entry (live_of config)));;
          ret true
        else ret removed
    end.

Definition remove (d : PlatformDetector) : prog (option bool) :=
    removed ← remove_in d global false;
    removed ← remove_in d project removed;
    ret (Some removed).

End CursorPlatform.

(** src/unnamed/part_003, second file: claude.js *)
Module ClaudePlatform.

Definition configure (d : PlatformDetector) (apiKey : string)
      (options_scope : option scope) (now : N) : prog configure_result :=
    match getConfigPath d "claude" global with
    | None => throw "Could not determine Claude configuration path for this platform"
    | Some configPath =>
      await (BasePlatform.backupConfig configPath now);;
      read ← await (BasePlatform.readConfig configPath);
      let config := live_of (or_else (Some read) (JObj ∅)) in
      config ← lift (ensure_mcpServers config);
      let servers := alias config MCP_SERVERS in
      let mcpConfig := BasePlatform.getMcpServerConfig apiKey in
      let servers := Object_assign servers mcpConfig in
      let config := store_back config MCP_SERVERS servers in
      await (BasePlatform.writeConfig configPath config);;
      ret ReturnedTrue
    end.

Definition validate (d : PlatformDetector) : prog validation :=
    match getConfigPath d "claude" global with
    | None => ret (Validation None false (Some "Configuration file not found"))
    | Some configPath =>
      found ← fs_existsSync configPath;
      if negb found
      then ret (Validation None false (Some "Configuration file not found"))
      else
        try_catch
          (config ← await (BasePlatform.readConfig configPath);
           ok ← lift (has_entry config);
           if negb ok
           then ret (Validation None false (Some "Spectator MCP server not configured"))
           else ret (Validation None true None))
          (λ message, ret (Validation None false (Some message)))
    end.

Definition remove (d : PlatformDetector) : prog (option bool) :=
    match getConfigPath d "claude" global with
    | None => throw "Could not determine Claude configuration path"
    | Some configPath =>
      config ← await (BasePlatform.readConfig configPath);
      if negb (truthy config) || negb (truthy_opt (prop config MCP_SERVERS))
      then ret (Some false)
      else if truthy_opt (prop (default JNull (prop config MCP_SERVERS)) SPECTATOR)
      then
        await (BasePlatform.writeConfig configPath (delete_entry (live_of config)));;
        ret (Some true)
      else ret (Some false)
    end.

End ClaudePlatform.

(** src/unnamed/part_004, first file: windsurf.js *)
Module WindsurfPlatform.

Definition configure (d : PlatformDetector) (apiKey : string)
      (options_scope : option scope) (now : N) : prog configure_result :=
    match getConfigPath d "windsurf" global with
    | None => throw "Could not determine Windsurf configuration path"
    | Some configPath =>
      read ← await (BasePlatform.readConfig configPath);
      let config := live_of (or_else (Some read) (JObj ∅)) in
      config ← lift (ensure_mcpServers config);
      let servers := alias config MCP_SERVERS in
      let isAlreadyConfigured := lget servers SPECTATOR in
      (if truthy_opt isAlreadyConfigured
       then await (BasePlatform.backupConfig configPath now);; ret ()
       else ret ());;
      let mcpConfig := BasePlatform.getMcpServerConfig apiKey in
      let servers := Object_assign servers mcpConfig in
      let config := store_back config MCP_SERVERS servers in
      await (BasePlatform.writeConfig configPath config);;
      ret (Report isAlreadyConfigured
                  (bool_decide (1 < length (Object_keys servers))) None)
    end.

Definition validate (d : PlatformDetector) : prog validation :=
    match getConfigPath d "windsurf" global with
    | None => ret (Validation None false (Some "Configuration file not found"))
    | Some configPath =>
      found ← fs_existsSync configPath;
      if negb found
      then ret (Validation None false (Some "Configuration file not found"))
      else
        try_catch
          (config ← await (BasePlatform.readConfig configPath);
           ok ← lift (has_entry config);
           if negb ok
           then ret (Validation None false (Some "Spectator MCP server not configured"))
           else ret (Validation None true None))
          (λ message, ret (Validation None false (Some message)))
    end.

Definition remove (d : PlatformDetector) : prog (option bool) :=
    match getConfigPath d "windsurf" global with
    | None => throw "Could not determine Windsurf configuration path"
    | Some configPath =>
      config ← await (BasePlatform.readConfig configPath);
      if negb (truthy config) || negb (truthy_opt (prop config MCP_SERVERS))
      then ret (Some false)
      else if truthy_opt (prop (default JNull (prop config MCP_SERVERS)) SPECTATOR)
      then
        await (BasePlatform.writeConfig configPath (delete_entry (live_of config)));;
        ret (Some true)
      else ret (Some false)
    end.

End WindsurfPlatform.

(** src/unnamed/part_004, second file: the earlier windsurf.js.  Its
    [validate] and [remove] are those of the first file. *)
Module WindsurfPlatformOld.

Definition configure (d : PlatformDetector) (apiKey : string)
      (options_scope : option scope) (now : N) : prog configure_result :=
    match getConfigPath d "windsurf" global with
    | None => throw "Could not determine Windsurf configuration path"
    | Some configPath =>
      await (BasePlatform.backupConfig configPath now);;
      read ← await (BasePlatform.readConfig configPath);
      let config := live_of (or_else (Some read) (JObj ∅)) in
      config ← lift (ensure_mcpServers config);
      let servers := alias config MCP_SERVERS in
      let mcpConfig := BasePlatform.getMcpServerConfig apiKey in
      let servers := Object_assign servers mcpConfig in
      let config := store_back config MCP_SERVERS servers in
      await (BasePlatform.writeConfig configPath config);;
      ret ReturnedTrue
    end.

Definition validate := WindsurfPlatform.validate.
Definition remove := WindsurfPlatform.remove.

End WindsurfPlatformOld.

(** client/src/platforms/vscode.js *)
Module VSCodePlatform.

Definition configure (d : PlatformDetector) (apiKey : string)
      (options_scope : option scope) (now : N) : prog configure_result :=
    let scope := default project options_scope in
    match getConfigPath d "vscode" scope with
    | None => throw "Could not determine VS Code configuration path"
    | Some configPath =>
      await (BasePlatform.backupConfig configPath now);;
      read ← await (BasePlatform.readConfig configPath);
      let config := live_of (or_else (Some read) (JObj ∅)) in
      config ← lift (ensure_mcpServers config);
      let servers := alias config MCP_SERVERS in
      let mcpConfig := BasePlatform.getMcpServerConfig apiKey in
      let servers := Object_assign servers mcpConfig in
      let config := store_back config MCP_SERVERS servers in
      await (BasePlatform.writeConfig configPath config);;
      ret ReturnedTrue
    end.

Definition check (configPath : option path) (s : scope)
      (results : list validation) : prog (list validation) :=
    match configPath with
    | None => ret results
    | Some p =>
      found ← fs_existsSync p;
      if negb found then ret results
      else
        try_catch
          (config ← await (BasePlatform.readConfig p);
           ok ← lift (has_entry config);
           if ok then ret (results ++ [Validation (Some s) true None])
           else ret results)
          (λ message, ret (results ++ [Validation (Some s) false (Some message)]))
    end.

Definition validate (d : PlatformDetector) : prog validation :=
    let globalPath := getConfigPath d "vscode" global in
    let projectPath := getConfigPath d "vscode" project in
    results ← check globalPath global [];
    results ← check projectPath project results;
    match results with
    | [] => ret (Validation None false (Some "No configuration found"))
    | first :: _ => ret (default first (find valid results))
    end.

Definition remove_in (d : PlatformDetector) (s : scope) (removed : bool) : prog bool :=
    match getConfigPath d "vscode" s with
    | None => ret removed
    | Some configPath =>
      found ← fs_existsSync configPath;
      if negb found then ret removed
      else
        config ← await (BasePlatform.readConfig configPath);
        ok ← (if truthy config then lift (has_entry config) else ret false);
        if ok then
          await (BasePlatform.writeConfig configPath (delete_entry (live_of config)));;
          ret true
        else ret removed
    end.

Definition remove (d : PlatformDetector) : prog (option bool) :=
    removed ← remove_in d global false;
    removed ← remove_in d project removed;
    ret (Some removed).

End VSCodePlatform.

(** client/src/platforms/cline.js *)
Module ClinePlatform.

Definition configure (d : PlatformDetector) (apiKey : string)
      (options_scope : option scope) (now : N) : prog configure_result :=
    match getConfigPath d "cline" global with
    | None =>
      throw ("Could not determine Cline configuration path. "
             +:+ "Make sure VS Code and Cline extension are installed.")
    | Some configPath =>
      await (BasePlatform.backupConfig configPath now);;
      read ← await (BasePlatform.readConfig configPath);
      let config := live_of (or_else (Some read) (JObj ∅)) in
      config ← lift (ensure_mcpServers config);
      let servers := alias config MCP_SERVERS in
      let mcpConfig := BasePlatform.getMcpServerConfig apiKey in
      let servers := Object_assign servers mcpConfig in
      let config := store_back config MCP_SERVERS servers in
      await (BasePlatform.writeConfig configPath config);;
      ret ReturnedTrue
    end.

Definition validate (d : PlatformDetector) : prog validation :=
    let not_found :=
      Validation None false
        (Some "Configuration file not found. Cline extension may not be installed.") in
    match getConfigPath d "cline" global with
    | None => ret not_found
    | Some configPath =>
      found ← fs_existsSync configPath;
      if negb found then ret not_found
      else
        try_catch
          (config ← await (BasePlatform.readConfig configPath);
           ok ← lift (has_entry config);
           if negb ok
           then ret (Validation None false (Some "Spectator MCP server not configured"))
           else ret (Validation None true None))
          (λ message, ret (Validation None false (Some message)))
    end.

Definition remove (d : PlatformDetector) : prog (option bool) :=
    match getConfigPath d "cline" global with
    | None => throw "Could not determine Cline configuration path"
    | Some configPath =>
      config ← await (BasePlatform.readConfig configPath);
      if negb (truthy config) || negb (truthy_opt (prop config MCP_SERVERS))
      then ret (Some false)
      else if truthy_opt (prop (default JNull (prop config MCP_SERVERS)) SPECTATOR)
      then
        await (BasePlatform.writeConfig configPath (delete_entry (live_of config)));;
        ret (Some true)
      else ret (Some false)
    end.

End ClinePlatform.

(** client/src/platforms/claudecode.js.  This adapter calls [fs] and
    [JSON] itself and has no [await]: each method runs in one go. *)
Module ClaudeCode.

Definition getConfigPath (d : PlatformDetector) : path :=
    homeDir d ++ [".claudecode"; "settings.json"].

Definition configure (d : PlatformDetector) (apiKey : string)
      (options_scope : option scope) (now : N) : prog configure_result :=
    let configPath := getConfigPath d in
    let configDir := dirname configPath in
    found ← fs_existsSync configDir;
    (if negb found then fs_mkdirSync configDir else ret ());;
    found ← fs_existsSync configPath;
    read ← (if found then
              content ← fs_readFileSync configPath;
              if negb (is_blank content) then lift (JSON_parse content)
              else ret (JObj ∅)
            else ret (JObj ∅));
    servers ← lift (member read MCP_SERVERS);
    config ← lift (if negb (truthy_opt servers)
                   then lset (live_of read) MCP_SERVERS (JObj ∅)
                   else Ok (live_of read));
    let servers := alias config MCP_SERVERS in
    let hasOtherServers :=
      bool_decide (0 < length (filter (λ k, k ≠ SPECTATOR) (Object_keys servers))) in
    let isUpdated := truthy_opt (lget servers SPECTATOR) in
    servers ← lift (lset servers SPECTATOR (spectator_entry apiKey));
    let config := store_back config MCP_SERVERS servers in
    fs_writeFileSync configPath (JSON_stringify config);;
    ret (Report (Some (JBool isUpdated)) hasOtherServers (Some configPath)).

Definition validate (d : PlatformDetector) : prog validation :=
    let configPath := getConfigPath d in
    found ← fs_existsSync configPath;
    if negb found
    then ret (Validation None false (Some "Configuration file not found"))
    else
      try_catch
        (content ← fs_readFileSync configPath;
         config ← lift (JSON_parse content);
         ok ← lift (has_entry config);
         if negb ok
         then ret (Validation None false (Some "Spectator MCP not configured"))
         else
           let spectatorConfig :=
             default JNull (prop (default JNull (prop config MCP_SERVERS)) SPECTATOR) in
           if negb (truthy_opt (prop spectatorConfig "command"))
              || negb (truthy_opt (prop spectatorConfig "args"))
           then ret (Validation None false (Some "Invalid Spectator MCP configuration"))
           else ret (Validation None true None))
        (λ message, ret (Validation None false (Some ("Configuration error: " +:+ message)))).

Definition remove (d : PlatformDetector) : prog (option bool) :=
    let configPath := getConfigPath d in
    found ← fs_existsSync configPath;
    if negb found then ret None
    else
      try_catch
        (content ← fs_readFileSync configPath;
         config ← lift (JSON_parse content);
         ok ← lift (has_entry config);
         if ok then
           let config := delete_entry (live_of config) in
           let config :=
             if bool_decide (length (Object_keys (alias config MCP_SERVERS)) = 0)
             then ldelete config MCP_SERVERS
             else config in
           fs_writeFileSync configPath (JSON_stringify config);;
           ret None
         else ret None)
        (λ message, throw ("Failed to remove configuration: " +:+ message)).

End ClaudeCode.

(** ** client/src/platforms/index.js *)

(** The adapters of the repository: the six of the platform table, and
    the earlier copy of the Windsurf adapter. *)
Inductive adapter : Type :=
| Claude | ClaudeCodeAdapter | Cursor | Windsurf | VSCode | Cline | WindsurfOld.

#[export] Instance adapter_eq_dec : EqDecision adapter.
Proof. solve_decision. Defined.

Definition all_adapters : list adapter :=
  [Claude; ClaudeCodeAdapter; Cursor; Windsurf; VSCode; Cline; WindsurfOld].

Definition platforms (name : string) : option adapter :=
  if decide (name = "claude") then Some Claude
  else if decide (name = "claudecode") then Some ClaudeCodeAdapter
  else if decide (name = "cursor") then Some Cursor
  else if decide (name = "windsurf") then Some Windsurf
  else if decide (name = "vscode") then Some VSCode
  else if decide (name = "cline") then Some Cline
  else None.

(** [new PlatformClass(detector).configure(apiKey, { scope })] *)
Definition configure (a : adapter) :
    PlatformDetector → string → option scope → N → prog configure_result :=
  match a with
  | Claude => ClaudePlatform.configure
  | ClaudeCodeAdapter => ClaudeCode.configure
  | Cursor => CursorPlatform.configure
  | Windsurf => WindsurfPlatform.configure
  | VSCode => VSCodePlatform.configure
  | Cline => ClinePlatform.configure
  | WindsurfOld => WindsurfPlatformOld.configure
  end.

Definition validate (a : adapter) : PlatformDetector → prog validation :=
  match a with
  | Claude => ClaudePlatform.validate
  | ClaudeCodeAdapter => ClaudeCode.validate
  | Cursor => CursorPlatform.validate
  | Windsurf => WindsurfPlatform.validate
  | VSCode => VSCodePlatform.validate
  | Cline => ClinePlatform.validate
  | WindsurfOld => WindsurfPlatformOld.validate
  end.

Definition remove (a : adapter) : PlatformDetector → prog (option bool) :=
  match a with
  | Claude => ClaudePlatform.remove
  | ClaudeCodeAdapter => ClaudeCode.remove
  | Cursor => CursorPlatform.remove
  | Windsurf => WindsurfPlatform.remove
  | VSCode => VSCodePlatform.remove
  | Cline => ClinePlatform.remove
  | WindsurfOld => WindsurfPlatformOld.remove
  end.

(** The file an adapter's [configure] reads and writes. *)
Definition config_path (a : adapter) (d : PlatformDetector) (s : option scope) : option path :=
  match a with
  | Claude => getConfigPath d "claude" global
  | ClaudeCodeAdapter => Some (ClaudeCode.getConfigPath d)
  | Cursor => getConfigPath d "cursor" (default global s)
  | Windsurf | WindsurfOld => getConfigPath d "windsurf" global
  | VSCode => getConfigPath d "vscode" (default project s)
  | Cline => getConfigPath d "cline" global
  end.

(** The files an adapter's [validate] and [remove] look at. *)
Definition scope_paths (a : adapter) (d : PlatformDetector) : list (option path) :=
  match a with
  | Claude => [getConfigPath d "claude" global]
  | ClaudeCodeAdapter => [Some (ClaudeCode.getConfigPath d)]
  | Cursor => [getConfigPath d "cursor" global; getConfigPath d "cursor" project]
  | Windsurf | WindsurfOld => [getConfigPath d "windsurf" global]
  | VSCode => [getConfigPath d "vscode" global; getConfigPath d "vscode" project]
  | Cline => [getConfigPath d "cline" global]
  end.

(** ** client/bin/spectator-mcp.js *)

(** The methods of [String.prototype] the command line uses, on ASCII text. *)
Fixpoint split_on (sep : Ascii.ascii) (s : string) : list string :=
  match s with
  | EmptyString => [EmptyString]
  | String c rest =>
    match split_on sep rest with
    | [] => [String c EmptyString]
    | w :: ws => if Ascii.eqb c sep then EmptyString :: w :: ws else String c w :: ws
    end
  end.

Fixpoint trimStart (s : string) : string :=
  match s with
  | String c rest => if Ascii.is_space c then trimStart rest else s
  | EmptyString => EmptyString
  end.

Definition trim (s : string) : string :=
  String.rev (trimStart (String.rev (trimStart s))).

Definition lower (c : Ascii.ascii) : Ascii.ascii :=
  let n := Ascii.nat_of_ascii c in
  if (65 <=? n) && (n <=? 90) then Ascii.ascii_of_nat (n + 32) else c.

Fixpoint toLowerCase (s : string) : string :=
  match s with
  | String c rest => String (lower c) (toLowerCase rest)
  | EmptyString => EmptyString
  end.

(** The [options] object of [runSetup]; a field is [None] when it is
    [undefined]. *)
Record options : Type := Options {
  opt_apiKey : option string;
  opt_platforms : option string;
  opt_scope : option scope
}.

(** An element of [results]. *)
Record setup_result : Type := SetupResult {
  platformName : string;
  success : bool;
  updated : json;
  hasOtherServers : bool;
  failure : option string
}.

(** [result?.updated || false] and [result?.hasOtherServers || false]. *)
Definition recorded_updated (r : configure_result) : json :=
  match r with
  | ReturnedTrue => JBool false
  | Report u _ _ => or_else u (JBool false)
  end.
Definition recorded_others (r : configure_result) : bool :=
  match r with
  | ReturnedTrue => false
  | Report _ h _ => h
  end.

(** A string that may be [undefined], as a condition. *)
Definition given (o : option string) : bool :=
  match o with Some s => negb (String.eqb s "") | None => false end.

(** [for (const platformName of platformsToConfig) { ... }].  [clock i]
    is what [Date.now()] returns while the [i]-th name is handled. *)
Fixpoint configure_each (d : PlatformDetector) (apiKey : string) (sc : option scope)
    (clock : nat → N) (i : nat) (platformsToConfig : list string)
    (results : list setup_result) : prog (list setup_result) :=
  match platformsToConfig with
  | [] => ret results
  | platformName :: rest =>
    match platforms platformName with
    | None => configure_each d apiKey sc clock (S i) rest results
    | Some PlatformClass =>
      results ←
        try_catch
          (result ← await (configure PlatformClass d apiKey sc (clock i));
           ret (results ++ [SetupResult platformName true (recorded_updated result)
                                        (recorded_others result) None]))
          (λ message,
             ret (results ++ [SetupResult platformName false (JBool false) false
                                          (Some message)]));
      configure_each d apiKey sc clock (S i) rest results
    end
  end.

(** [options.platforms.split(',').map(p => p.trim().toLowerCase())] *)
Definition requested_platforms (given_list : string) : list string :=
  (λ p, toLowerCase (trim p)) <$> split_on ","%char given_list.

(** src/client/src/utils/logger.js defines [info], [success], [error],
    [warning], the spinner methods, [header], [section], [code] and
    [url].  It defines no [step] and no [result]: a call of
    [logger.step(...)] or [logger.result(...)] throws a TypeError. *)
Definition logger_step : prog unit := throw "logger.step is not a function".
Definition logger_result : prog unit := throw "logger.result is not a function".

(** [list.forEach(r => { ... })] *)
Fixpoint forEach {A} (l : list A) (body : A → prog unit) : prog unit :=
  match l with
  | [] => ret ()
  | x :: rest => body x;; forEach rest body
  end.

(** The part of [runSetup] from "Detect installed platforms" on (line 47
    of client/bin/spectator-mcp.js, line 66 of src/unnamed/part_002); the
    two copies of the function share it word for word. *)
Definition setup_platforms (d : PlatformDetector) (clock : nat → N)
    (options : options) (apiKey : string) : prog unit :=
  logger_step;;
  installedPlatforms ← (λ σ, Done (getInstalledPlatforms d σ) σ);
  if bool_decide (length installedPlatforms = 0) then process_exit 1
  else
    platformsToConfig ←
      (if given (opt_platforms options)
          && negb (String.eqb (default "" (opt_platforms options)) "all")
       then
         let platformsToConfig := requested_platforms (default "" (opt_platforms options)) in
         let invalidPlatforms :=
           filter (λ p, p ∉ installedPlatforms) platformsToConfig in
         if bool_decide (0 < length invalidPlatforms) then process_exit 1
         else ret platformsToConfig
       else ret installedPlatforms);
    logger_step;;
    results ← configure_each d (apiKey) (opt_scope options) clock 0 platformsToConfig [];
    let successful := filter (λ r, success r = true) results in
    let failed := filter (λ r, success r = false) results in
    (if bool_decide (0 < length successful)
     then forEach successful (λ r, logger_result) else ret ());;
    (if bool_decide (0 < length failed)
     then forEach failed (λ r, logger_result) else ret ());;
    if bool_decide (0 < length successful) then
      logger_step;;
      (if existsb (λ r, String.eqb (platformName r) "claude") successful
       then logger_step else ret ())
    else process_exit 1.

(** [runSetup(options)].  [answer] is what the user types when prompted
    for the key.  How the command line becomes the [options] object is
    the work of the commander library, which is not described here. *)
Definition runSetup (d : PlatformDetector) (answer : string) (clock : nat → N)
    (options : options) : prog unit :=
  try_catch
    (apiKey ← (if negb (given (opt_apiKey options)) then await (ret answer)
               else ret (default "" (opt_apiKey options)));
     logger_step;;
     setup_platforms d clock options apiKey)
    (λ message, process_exit 1).

Definition KNOWN_COMMANDS : list string := ["setup"; "validate"; "config"; "remove"; "help"].

(** [args.length === 1 && !args[0].startsWith('-') && !KNOWN.includes(args[0])] *)
Definition inferredApiKey (args : list string) : option string :=
  match args with
  | [a] => if negb (String.prefix "-" a) && negb (bool_decide (a ∈ KNOWN_COMMANDS))
           then Some a else None
  | _ => None
  end.

(** The script when [inferredApiKey] is set:
      [runSetup({ apiKey, platforms: undefined, scope: 'global' }); process.exit(0);]
    The promise of [runSetup] is not awaited: the process ends where
    [runSetup] is first suspended. *)
Definition run_inferred (d : PlatformDetector) (answer : string) (clock : nat → N)
    (key : string) : prog unit :=
  λ σ, match runSetup d answer clock (Options (Some key) None (Some global)) σ with
       | Exited code σ' => Exited code σ'
       | Done _ σ' | Raised _ σ' | Paused σ' _ => Exited 0 σ'
       end.

(** The exit status of the process: that of [process.exit], 0 when the
    script runs to its end, 1 on an unhandled rejection. *)
Definition exit_status {A} (r : res A) : Z :=
  match settle r with
  | Exited code _ => code
  | Raised _ _ => 1
  | _ => 0
  end.

(** src/unnamed/part_002: the copy of the script with a length check on
    the key, and whose short-hand dispatch waits for [runSetup]. *)
Module Part002.

Definition MIN_API_KEY_LENGTH : nat := 10.

Definition runSetup (d : PlatformDetector) (answer : string) (clock : nat → N)
      (options : options) : prog unit :=
    try_catch
      (apiKey ← (if negb (given (opt_apiKey options)) then await (ret answer)
                 else ret (default "" (opt_apiKey options)));
       if negb (negb (String.eqb apiKey ""))
          || bool_decide (String.length (trim apiKey) < MIN_API_KEY_LENGTH)
       then process_exit 1
       else logger_step;; setup_platforms d clock options apiKey)
      (λ message, process_exit 1).

  (** [runSetup({...}).then(() => process.exit(0)).catch(... process.exit(1))] *)
Definition run_inferred (d : PlatformDetector) (answer : string) (clock : nat → N)
      (key : string) : prog unit :=
    λ σ, match settle (runSetup d answer clock (Options (Some key) None (Some global)) σ) with
         | Done _ σ' => Exited 0 σ'
         | Raised _ σ' => Exited 1 σ'
         | r => r
         end.

End Part002.


(** ** client/src/config/detector.js: [hasExistingConfig] *)

(** [hasExistingConfig(platform, type)]: the value it returns, [None] for
    [undefined].  Whatever is thrown while the file is read is caught. *)
Definition hasExistingConfig (d : PlatformDetector) (σ : fs) (name : string)
    (type : scope) : option json :=
  match getConfigPath d name type with
  | None => Some (JBool false)
  | Some configPath =>
    if negb (existsSync σ configPath) then Some (JBool false)
    else
      match readFileSync σ configPath with
      | Err _ => Some (JBool false)
      | Ok text =>
        match JSON_parse text with
        | Err _ => Some (JBool false)
        | Ok config =>
          match member config MCP_SERVERS with
          | Err _ => Some (JBool false)
          | Ok servers =>
            if truthy_opt servers then prop (default JNull servers) SPECTATOR
            else servers
          end
        end
      end
  end.

(** ** client/bin/spectator-mcp.js: the [validate] and [remove] commands *)

(** A call of the logger. *)
Inductive log_line : Type :=
| LogHeader (message : string)
| LogSection (message : string)
| LogSuccess (message : string)
| LogError (message : string)
| LogWarning (message : string).

(** [for (const platformName of installedPlatforms) { ... results.push(...) }] *)
Fixpoint validate_each (d : PlatformDetector) (installedPlatforms : list string)
    (results : list (string * validation)) : prog (list (string * validation)) :=
  match installedPlatforms with
  | [] => ret results
  | platformName :: rest =>
    match platforms platformName with
    | None => validate_each d rest results
    | Some PlatformClass =>
      validation ← await (validate PlatformClass d);
      validate_each d rest (results ++ [(platformName, validation)])
    end
  end.

(** The body of [results.forEach]. *)
Definition result_line (result : string * validation) : log_line :=
  let displayName := getPlatformDisplayName result.1 in
  if valid result.2 then LogSuccess (displayName +:+ ": Configured correctly")
  else LogError (displayName +:+ ": " +:+
                 (if given (error result.2) then default "" (error result.2)
                  else "Not configured")).

(** The action of the [validate] command.  It returns what it has
    reported through the logger. *)
Definition validate_command (d : PlatformDetector) : prog (list log_line) :=
  try_catch
    (installedPlatforms ← (λ σ, Done (getInstalledPlatforms d σ) σ);
     if bool_decide (length installedPlatforms = 0)
     then ret [LogHeader "Validating Spectator MCP Configurations";
               LogWarning "No supported platforms detected."]
     else
       results ← validate_each d installedPlatforms [];
       ret ([LogHeader "Validating Spectator MCP Configurations";
             LogSection "Validation Results:"] ++ (result_line <$> results)))
    (λ message, process_exit 1).

(** [platforms[name]] for any string.  The table is an object literal:
    beside its six keys it answers to the names it inherits from
    [Object.prototype].  Of those, [constructor] is [Object], and
    [new Object(detector)] is the detector itself, which has no adapter
    method; the others are no constructors, and [new] throws. *)
Inductive table_entry : Type :=
| AdapterClass (a : adapter)
| ObjectFunction
| NotAConstructor
| NoEntry.

Definition Object_prototype_names : list string :=
  ["__defineGetter__"; "__defineSetter__"; "hasOwnProperty"; "__lookupGetter__";
   "__lookupSetter__"; "isPrototypeOf"; "propertyIsEnumerable"; "toString"; "valueOf";
   "__proto__"; "toLocaleString"].

Definition platforms_entry (name : string) : table_entry :=
  match platforms name with
  | Some a => AdapterClass a
  | None =>
    if decide (name = "constructor") then ObjectFunction
    else if bool_decide (name ∈ Object_prototype_names) then NotAConstructor
    else NoEntry
  end.

(** [for (const platformName of platformsToRemove) { ... }] *)
Fixpoint remove_each (d : PlatformDetector) (platformsToRemove : list string) : prog unit :=
  match platformsToRemove with
  | [] => ret ()
  | platformName :: rest =>
    match platforms_entry platformName with
    | NoEntry => remove_each d rest
    | NotAConstructor => throw "PlatformClass is not a constructor"
    | ObjectFunction =>
      try_catch (throw "platform.remove is not a function") (λ message, ret ());;
      remove_each d rest
    | AdapterClass a =>
      try_catch (_ ← await (remove a d); ret ()) (λ message, ret ());;
      remove_each d rest
    end
  end.

(** The action of the [remove] command, as a function of its [options]
    object: [given_list] is [options.platforms], [confirm] the user's
    answer to the prompt.  How the command line becomes that object is
    the work of the commander library, and is not described here (the
    script declares [-p] on the program as well, line 21); nor is what
    the script does after [program.parse]. *)
Definition remove_action (d : PlatformDetector) (confirm : bool)
    (given_list : option string) : prog unit :=
  try_catch
    (installedPlatforms ← (λ σ, Done (getInstalledPlatforms d σ) σ);
     let platformsToRemove :=
       if given given_list && negb (String.eqb (default "" given_list) "all")
       then requested_platforms (default "" given_list)
       else installedPlatforms in
     confirm ← await (ret confirm);
     if negb confirm then ret ()
     else remove_each d platformsToRemove)
    (λ message, process_exit 1).

(** ** client/src/utils/api.js *)

Module ApiValidator.

Definition baseUrl : string := "https://api.spectatorcontext.com".

(** [`${this.baseUrl}/mcp-server/mcp/${apiKey}`] *)
Definition formatApiUrl (apiKey : string) : string :=
  baseUrl +:+ "/mcp-server/mcp/" +:+ apiKey.

(** The class [[^\/\s]], on ASCII text. *)
Definition key_char (c : ascii) : bool :=
  negb (Ascii.eqb c "/") && negb (Ascii.is_space c).

Fixpoint every (f : ascii → bool) (s : string) : bool :=
  match s with
  | String c rest => f c && every f rest
  | EmptyString => true
  end.

Fixpoint strip_prefix (pre s : string) : option string :=
  match pre, s with
  | EmptyString, _ => Some s
  | String a pre', String b s' => if Ascii.eqb a b then strip_prefix pre' s' else None
  | String _ _, EmptyString => None
  end.

(** The pattern [/\/mcp-server\/mcp\/([^\/\s]+)$/] tried where [s]
    starts: the text of its group when it matches.  After the literal
    the class has to take all that is left, for [$] to hold. *)
Definition match_at_start (s : string) : option string :=
  match strip_prefix "/mcp-server/mcp/" s with
  | Some rest =>
    if negb (String.eqb rest "") && every key_char rest then Some rest else None
  | None => None
  end.

(** [url.match(pattern)]: the pattern is tried at each index, from the left. *)
Fixpoint match_first (s : string) : option string :=
  match match_at_start s with
  | Some key => Some key
  | None =>
    match s with
    | String _ rest => match_first rest
    | EmptyString => None
    end
  end.

(** [extractApiKeyFromUrl(url)]; [None] is [null]. *)
Definition extractApiKeyFromUrl (url : string) : option string := match_first url.

(** What [axios.get] comes to: a response with a status, or an error
    with its [code] and [message]. *)
Inductive reply : Type :=
| Response (status : Z)
| Failure (code : option string) (message : string).

(** [validateApiKey(apiKey)]; [server url] is what the request to [url]
    comes to. *)
Definition validateApiKey (server : string → reply) (apiKey : string) : prog validation :=
  if negb (negb (String.eqb apiKey "")) || negb (negb (String.eqb (trim apiKey) ""))
  then ret (Validation None false (Some "API key is required"))
  else
    answer ← await (ret (server (formatApiUrl apiKey)));
    match answer with
    | Response status =>
      if bool_decide (status = 200%Z) then ret (Validation None true None)
      else if bool_decide (status = 401%Z) || bool_decide (status = 403%Z)
      then ret (Validation None false
                  (Some "Invalid API key, please get a new one at spectatorcontext.com"))
      else ret (Validation None false (Some ("Unexpected response: " +:+ pretty status)))
    | Failure code message =>
      if bool_decide (code = Some "ECONNREFUSED") || bool_decide (code = Some "ENOTFOUND")
      then ret (Validation None false
                  (Some "Cannot connect to Spectator API. Please check your internet connection."))
      else ret (Validation None false (Some message))
    end.

End ApiValidator.

(** src/unnamed/part_001: the copy of the script that asks the server
    about the key, and whose results record success or failure only. *)
Module Part001.

(** [for (const platformName of platformsToConfig) { ... }] *)
Fixpoint configure_each (d : PlatformDetector) (apiKey : string) (sc : option scope)
    (clock : nat → N) (i : nat) (platformsToConfig : list string)
    (results : list (string * option string)) : prog (list (string * option string)) :=
  match platformsToConfig with
  | [] => ret results
  | platformName :: rest =>
    match platforms platformName with
    | None => configure_each d apiKey sc clock (S i) rest results
    | Some PlatformClass =>
      results ←
        try_catch
          (_ ← await (configure PlatformClass d apiKey sc (clock i));
           ret (results ++ [(platformName, None)]))
          (λ message, ret (results ++ [(platformName, Some message)]));
      configure_each d apiKey sc clock (S i) rest results
    end
  end.

Definition runSetup (d : PlatformDetector) (server : string → ApiValidator.reply)
    (answer : string) (clock : nat → N) (options : options) : prog unit :=
  try_catch
    (apiKey ← (if negb (given (opt_apiKey options)) then await (ret answer)
               else ret (default "" (opt_apiKey options)));
     validation ← await (ApiValidator.validateApiKey server apiKey);
     if negb (valid validation) then process_exit 1
     else
       installedPlatforms ← (λ σ, Done (getInstalledPlatforms d σ) σ);
       if bool_decide (length installedPlatforms = 0) then process_exit 1
       else
         platformsToConfig ←
           (if given (opt_platforms options)
               && negb (String.eqb (default "" (opt_platforms options)) "all")
            then
              let platformsToConfig :=
                requested_platforms (default "" (opt_platforms options)) in
              let invalidPlatforms :=
                filter (λ p, p ∉ installedPlatforms) platformsToConfig in
              if bool_decide (0 < length invalidPlatforms) then process_exit 1
              else ret platformsToConfig
            else ret installedPlatforms);
         results ← configure_each d apiKey (opt_scope options) clock 0 platformsToConfig [];
         ret ())
    (λ message, process_exit 1).

End Part001.
(** * Vocabulary of the properties *)

Definition write_error (p : path) (m : string) : string :=
  "Failed to write config to " +:+ path_str p +:+ ": " +:+ m.

(** When [writeConfig] succeeds: the path is not a directory and no file
    stands where a directory is needed. *)
Definition writable (σ : fs) (p : path) : Prop :=
  σ !! p ≠ Some Dir ∧ ∀ q c, q `prefix_of` dirname p → σ !! q ≠ Some (File c).

(** A document as it is printed once it has been read: each number as
    the double that JavaScript holds for it, an infinity as [null]. *)
Definition rewritten (text : json) : json := printed (parsed text).

(** A measure of a JSON value, for induction. *)
Fixpoint json_size (j : json) : nat :=
  match j with
  | JArr elems => S (foldr (λ e acc, json_size e + acc) 0 elems)
  | JObj fields => S (map_fold (λ _ e acc, json_size e + acc) 0 fields)
  | _ => 0
  end.

(** Every number in a value satisfies [P]. *)
Inductive numbers_all (P : Z → Prop) : json → Prop :=
| NullAll : numbers_all P JNull
| BoolAll b : numbers_all P (JBool b)
| NumAll n : P n → numbers_all P (JNum n)
| StrAll s : numbers_all P (JStr s)
| ArrAll elems : (∀ e, e ∈ elems → numbers_all P e) → numbers_all P (JArr elems)
| ObjAll fields :
    (∀ k v, fields !! k = Some v → numbers_all P v) → numbers_all P (JObj fields).

(** A number that a double holds, other than the infinities. *)
Definition finite_double (v : Z) : Prop := to_double v = v ∧ (Z.abs v < INFINITY)%Z.

(** The [mcpServers] mapping of a document ([null] when it has none). *)
Definition servers_of (D : json) : json := default JNull (prop D MCP_SERVERS).

(** [D'] is [D] but for the entry of the tool: the same top-level
    fields beside [mcpServers], the same entries beside the tool's. *)
Definition same_but_entry (D D' : json) : Prop :=
  (∀ k, k ≠ MCP_SERVERS → prop D' k = prop D k) ∧
  (∀ k, k ≠ SPECTATOR → prop (servers_of D') k = prop (servers_of D) k).

Definition returns_or_throws {A} (r : res A) : Prop :=
  (∃ a σ, r = Done a σ) ∨ (∃ e σ, r = Raised e σ).

(** Cursor and Windsurf: read, back up when the entry is there, write. *)
Definition configure_checked (configPath : path) (apiKey : string) (now : N)
    : prog configure_result :=
  read ← await (BasePlatform.readConfig configPath);
  let config := live_of (or_else (Some read) (JObj ∅)) in
  config ← lift (ensure_mcpServers config);
  let servers := alias config MCP_SERVERS in
  let isAlreadyConfigured := lget servers SPECTATOR in
  (if truthy_opt isAlreadyConfigured
   then await (BasePlatform.backupConfig configPath now);; ret ()
   else ret ());;
  let mcpConfig := BasePlatform.getMcpServerConfig apiKey in
  let servers := Object_assign servers mcpConfig in
  let config := store_back config MCP_SERVERS servers in
  await (BasePlatform.writeConfig configPath config);;
  ret (Report isAlreadyConfigured
              (bool_decide (1 < length (Object_keys servers))) None).

(** Claude Desktop, VS Code, Cline and the earlier Windsurf: back up
    whatever is there, read, write. *)
Definition configure_backup_first (configPath : path) (apiKey : string) (now : N)
    : prog configure_result :=
  await (BasePlatform.backupConfig configPath now);;
  read ← await (BasePlatform.readConfig configPath);
  let config := live_of (or_else (Some read) (JObj ∅)) in
  config ← lift (ensure_mcpServers config);
  let servers := alias config MCP_SERVERS in
  let mcpConfig := BasePlatform.getMcpServerConfig apiKey in
  let servers := Object_assign servers mcpConfig in
  let config := store_back config MCP_SERVERS servers in
  await (BasePlatform.writeConfig configPath config);;
  ret ReturnedTrue.

(** Whether an adapter backs up only a file that holds the entry. *)
Definition checks_entry (a : adapter) : bool :=
  match a with Cursor | Windsurf => true | _ => false end.

Definition no_path_message (a : adapter) : string :=
  match a with
  | Claude => "Could not determine Claude configuration path for this platform"
  | Cursor => "Could not determine Cursor configuration path"
  | Windsurf | WindsurfOld => "Could not determine Windsurf configuration path"
  | VSCode => "Could not determine VS Code configuration path"
  | Cline => "Could not determine Cline configuration path. "
             +:+ "Make sure VS Code and Cline extension are installed."
  | ClaudeCodeAdapter => ""
  end.

(** The value written, the entry found and the object it was found in,
    from the value read. *)
Definition upserted (read : json) (apiKey : string) : outcome (option json * live * live) :=
  match ensure_mcpServers (live_of (or_else (Some read) (JObj ∅))) with
  | Err m => Err m
  | Ok config =>
    let servers := alias config MCP_SERVERS in
    let servers' := Object_assign servers (BasePlatform.getMcpServerConfig apiKey) in
    Ok (lget servers SPECTATOR, servers', store_back config MCP_SERVERS servers')
  end.

(** [hasOtherServers] as Cursor's and Windsurf's [configure] compute it
    on the value read: after the insert, more than one key in
    [mcpServers]. *)
Definition others_after_insert (read : json) (apiKey : string) : outcome bool :=
  match upserted read apiKey with
  | Ok (_, servers, _) => Ok (bool_decide (1 < length (Object_keys servers)))
  | Err m => Err m
  end.

(** [hasOtherServers] as Claude Code's [configure] computes it on the
    value read: before the insert, a key of [mcpServers] other than the
    tool's. *)
Definition others_before_insert (read : json) : outcome bool :=
  match member read MCP_SERVERS with
  | Err m => Err m
  | Ok found =>
    match (if negb (truthy_opt found)
           then lset (live_of read) MCP_SERVERS (JObj ∅)
           else Ok (live_of read)) with
    | Err m => Err m
    | Ok config =>
      Ok (bool_decide (0 < length (filter (λ k, k ≠ SPECTATOR)
                                     (Object_keys (alias config MCP_SERVERS)))))
    end
  end.

(** C10 as stated: on every document on which both are computed, the
    two flags are equal. *)
Definition hasOtherServers_as_stated : Prop :=
  ∀ D apiKey b1 b2,
    others_after_insert D apiKey = Ok b1 → others_before_insert D = Ok b2 → b1 = b2.

(** [{ "mcpServers": "a" }], in Cursor's file and in Claude Code's. *)
Definition string_servers_document : json := JObj {[MCP_SERVERS := JStr "a"]}.
Definition cursor_with_string_servers : fs :=
  <[["home"; "u"; ".cursor"; "mcp.json"] := File (JsonText string_servers_document)]>
    (<[["home"; "u"; ".cursor"] := Dir]> (<[["home"; "u"] := Dir]> (<[["home"] := Dir]> ∅))).
Definition claudecode_with_string_servers : fs :=
  <[["home"; "u"; ".claudecode"; "settings.json"] := File (JsonText string_servers_document)]>
    (<[["home"; "u"; ".claudecode"] := Dir]>
       (<[["home"; "u"] := Dir]> (<[["home"] := Dir]> ∅))).

(** What [ClaudeCode.configure] takes as the existing document. *)
Definition claudecode_read (σ : fs) (p : path) : outcome json :=
  if existsSync σ p then
    match readFileSync σ p with
    | Ok content => if negb (is_blank content) then JSON_parse content else Ok (JObj ∅)
    | Err m => Err m
    end
  else Ok (JObj ∅).

Definition claudecode_upserted (read : json) (apiKey : string)
    : outcome (bool * bool * live) :=
  match member read MCP_SERVERS with
  | Err m => Err m
  | Ok found =>
    match (if negb (truthy_opt found)
           then lset (live_of read) MCP_SERVERS (JObj ∅)
           else Ok (live_of read)) with
    | Err m => Err m
    | Ok config =>
      let servers := alias config MCP_SERVERS in
      match lset servers SPECTATOR (spectator_entry apiKey) with
      | Err m => Err m
      | Ok servers' =>
        Ok (bool_decide (0 < length (filter (λ k, k ≠ SPECTATOR) (Object_keys servers))),
            truthy_opt (lget servers SPECTATOR),
            store_back config MCP_SERVERS servers')
      end
    end
  end.

(** The elements of an array (no element for another value). *)
Definition elements (j : json) : list json :=
  match j with JArr elems => elems | _ => [] end.

(** Between two values of the program: [X] is [read] but for the entry
    of the tool, the elements of an array included. *)
Definition same_rest (read X : json) : Prop :=
  same_but_entry read X
  ∧ elements X = elements read
  ∧ elements (servers_of X) = elements (servers_of read).

(** Between two texts: beside the entry of the tool, [D'] holds what
    [D] holds, each field, entry and element as [JSON.parse] and then
    [JSON.stringify] make it. *)
Definition rest_rewritten (D D' : json) : Prop :=
  (∀ k, k ≠ MCP_SERVERS → prop D' k = rewritten <$> prop D k)
  ∧ (∀ k, k ≠ SPECTATOR → prop (servers_of D') k = rewritten <$> prop (servers_of D) k)
  ∧ elements D' = rewritten <$> elements D
  ∧ elements (servers_of D') = rewritten <$> elements (servers_of D).

(** C1 as stated: the file a [configure] has written holds the document
    it found, but for the entry of the tool. *)
Definition keeps_the_rest_as_stated : Prop :=
  ∀ a d apiKey s now (σ : fs) p D r σ',
    config_path a d s = Some p →
    σ !! p = Some (File (JsonText D)) →
    settle (configure a d apiKey s now σ) = Done r σ' →
    ∃ D', σ' !! p = Some (File (JsonText D')) ∧ same_but_entry D D'.

(** ** Concrete inputs *)

(** A Linux host: home /home/u, working directory /work, no [claude]
    command on the search path. *)
Definition linux_host : PlatformDetector :=
  {| platform := linux; homeDir := ["home"; "u"]; cwd := ["work"];
     APPDATA := None; ProgramFiles := None; LOCALAPPDATA := None;
     claude_on_PATH := false |}.

(** The same host under an operating system the path table does not list. *)
Definition other_host : PlatformDetector :=
  {| platform := other_os; homeDir := ["home"; "u"]; cwd := ["work"];
     APPDATA := None; ProgramFiles := None; LOCALAPPDATA := None;
     claude_on_PATH := false |}.

(** A home directory and nothing in it. *)
Definition empty_home : fs := <[["home"; "u"] := Dir]> (<[["home"] := Dir]> ∅).

(** A home directory with Cursor's directory in it. *)
Definition cursor_home : fs := <[["home"; "u"; ".cursor"] := Dir]> empty_home.

(** Cursor's global configuration file on that host. *)
Definition cursor_file : path := ["home"; "u"; ".cursor"; "mcp.json"].

(** [{ "foo": 1, "mcpServers": { "other-tool": { "command": "x", "args": [] } } }] *)
Definition other_tool_document : json :=
  JObj (<["foo" := JNum 1]>
        (<[MCP_SERVERS :=
             JObj {["other-tool" := JObj (<["command" := JStr "x"]> (<["args" := JArr []]> ∅))]}]>
         ∅)).

(** A home directory where Cursor is configured for another tool. *)
Definition cursor_with_other_tool : fs :=
  <[cursor_file := File (JsonText other_tool_document)]> cursor_home.

(** [{ "id": 12345678901234567890, "limit": 1e400 }], the second number
    written out in full. *)
Definition big_number_document : json :=
  JObj (<["id" := JNum 12345678901234567890]> (<["limit" := JNum (10 ^ 400)]> ∅)).

(** A home directory where Cursor's file holds these two numbers. *)
Definition cursor_with_big_numbers : fs :=
  <[cursor_file := File (JsonText big_number_document)]> cursor_home.

(** ** What the specification states, where the code does otherwise *)

(** C3 as stated: [readConfig] gives [{}] for a missing file, and for a
    file that is not JSON an error naming the path, the file left alone. *)
Definition readConfig_as_stated : Prop :=
  ∀ (σ : fs) (p : path),
    (existsSync σ p = false →
     settle (BasePlatform.readConfig p σ) = Done (JObj ∅) σ)
    ∧ (∀ c m, σ !! p = Some (File c) → JSON_parse c = Err m →
       ∃ before after,
         settle (BasePlatform.readConfig p σ)
         = Raised (before +:+ path_str p +:+ after) σ).

(** The document a first [configure] writes:
    [{ "mcpServers": { "spectator-voice-memory": entry } }]. *)
Definition fresh_document (apiKey : string) : json :=
  JObj {[MCP_SERVERS := JObj {[SPECTATOR := spectator_entry apiKey]}]}.

(** What each adapter returns from a first [configure]. *)
Definition first_result (a : adapter) (p : path) : configure_result :=
  match a with
  | ClaudeCodeAdapter => Report (Some (JBool false)) false (Some p)
  | Cursor | Windsurf => Report None false None
  | _ => ReturnedTrue
  end.

(** C4 as stated: on a platform whose file does not exist yet, every
    adapter's [configure] creates the directory, writes the canonical
    entry and returns an object with [updated: false]. *)
Definition first_configure_as_stated : Prop :=
  ∀ a d apiKey s now (σ : fs) p,
    config_path a d s = Some p → σ !! p = None → writable σ p →
    ∃ others configPath σ',
      settle (configure a d apiKey s now σ)
      = Done (Report (Some (JBool false)) others configPath) σ'
      ∧ σ' !! p = Some (File (JsonText (fresh_document apiKey)))
      ∧ node_at σ' (dirname p) = Some Dir.

(** Whether a document holds the tool's entry:
    [D.mcpServers['spectator-voice-memory']] is there and truthy. *)
Definition configured (D : json) : bool :=
  truthy_opt (prop (servers_of D) SPECTATOR).

(** Whether the file at [p] is a document that holds the tool's entry. *)
Definition configured_file (σ : fs) (p : path) : bool :=
  match σ !! p with
  | Some (File (JsonText D)) => configured D
  | _ => false
  end.

(** [`${p}.backup.${now}`] *)
Definition backup_path (p : path) (now : N) : path :=
  add_suffix p (".backup." +:+ pretty now).

(** [σ1] is [σ] with, at most, directories created on the way to [p]. *)
Definition dirs_made (σ σ1 : fs) (p : path) : Prop :=
  (∀ q, ¬ q `prefix_of` dirname p → σ1 !! q = σ !! q) ∧
  (∀ q, σ1 !! q = σ !! q ∨ (σ1 !! q = Some Dir ∧ ∀ c, σ !! q ≠ Some (File c))).

(** [σ'] is [σ] with, at most, those directories and the file [p] written. *)
Definition touched (σ σ' : fs) (p : path) : Prop :=
  ∃ σ1, dirs_made σ σ1 p ∧ (σ' = σ1 ∨ ∃ c, σ' = <[p := File c]> σ1).

(** When an adapter's [configure] leaves a backup behind.  Claude Code's,
    which never calls [backupConfig], is not described. *)
Definition backs_up (a : adapter) (σ : fs) (p : path) : Prop :=
  match a with
  | Cursor | Windsurf => configured_file σ p = true
  | _ => ∃ c, σ !! p = Some (File c)
  end.

(** A VS Code project whose [mcp.json] is the empty document. *)
Definition vscode_file : path := ["work"; ".vscode"; "mcp.json"].
Definition vscode_project : fs :=
  <[vscode_file := File (JsonText (JObj ∅))]>
    (<[["work"; ".vscode"] := Dir]> (<[["work"] := Dir]> ∅)).

(** C2 as stated: a backup appears exactly when the file is there and
    holds the entry. *)
Definition backup_as_stated : Prop :=
  ∀ a d apiKey s now (σ : fs) p,
    config_path a d s = Some p →
    σ !! backup_path p now = None →
    (σ !! p ≠ None → node_at σ (dirname p) = Some Dir) →
    (is_Some (final_fs (configure a d apiKey s now σ) !! backup_path p now)
     ↔ configured_file σ p = true).

(** A decimal digit, and a string of decimal digits: what an array index
    looks like as a property name. *)
Definition is_digit (c : ascii) : bool :=
  let n := nat_of_ascii c in (48 <=? n) && (n <=? 57).
Fixpoint all_digits (s : string) : bool :=
  match s with
  | EmptyString => true
  | String c rest => is_digit c && all_digits rest
  end.

(** What a run returns, when it returns. *)
Definition returned {A} (r : res A) : option A :=
  match settle r with Done a _ => Some a | _ => None end.

(** A home directory where Claude Code is configured for another tool. *)
Definition claudecode_file : path := ["home"; "u"; ".claudecode"; "settings.json"].
Definition claudecode_with_other_tool : fs :=
  <[claudecode_file := File (JsonText other_tool_document)]>
    (<[["home"; "u"; ".claudecode"] := Dir]> empty_home).

(** ** [remove] *)

(** Claude Desktop, Windsurf and Cline: [remove], once the path is known. *)
Definition remove_single (configPath : path) : prog (option bool) :=
  config ← await (BasePlatform.readConfig configPath);
  if negb (truthy config) || negb (truthy_opt (prop config MCP_SERVERS))
  then ret (Some false)
  else if truthy_opt (prop (default JNull (prop config MCP_SERVERS)) SPECTATOR)
  then
    await (BasePlatform.writeConfig configPath (delete_entry (live_of config)));;
    ret (Some true)
  else ret (Some false).

(** Cursor and VS Code: the body of the loop over the two scopes. *)
Definition remove_scope (configPath : option path) (removed : bool) : prog bool :=
  match configPath with
  | None => ret removed
  | Some configPath =>
    found ← fs_existsSync configPath;
    if negb found then ret removed
    else
      config ← await (BasePlatform.readConfig configPath);
      ok ← (if truthy config then lift (has_entry config) else ret false);
      if ok then
        await (BasePlatform.writeConfig configPath (delete_entry (live_of config)));;
        ret true
      else ret removed
  end.

Definition no_path_to_remove (a : adapter) : string :=
  match a with
  | Claude => "Could not determine Claude configuration path"
  | Cline => "Could not determine Cline configuration path"
  | _ => "Could not determine Windsurf configuration path"
  end.

(** The value read from a file once [remove] has gone over it: the entry
    is deleted when it is there and truthy. *)
Definition without_entry (D : json) : json :=
  if configured D then shown (delete_entry (live_of D)) else D.

(** The same for Claude Code, which also deletes [mcpServers] when no
    entry is left in it. *)
Definition claudecode_without_entry (D : json) : json :=
  if configured D then
    let config := delete_entry (live_of D) in
    shown (if bool_decide (length (Object_keys (alias config MCP_SERVERS)) = 0)
           then ldelete config MCP_SERVERS
           else config)
  else D.

Definition doc_after_remove (a : adapter) (D : json) : json :=
  match a with
  | ClaudeCodeAdapter => claudecode_without_entry D
  | _ => without_entry D
  end.

(** The text a [remove] leaves in a file that held the text [D]: when
    the entry is there, what is printed of the value read once [remove]
    has gone over it; the text as it was when there is nothing to remove. *)
Definition text_after_remove (a : adapter) (D : json) : json :=
  if configured D then printed (doc_after_remove a (parsed D)) else D.

(** [D2] is [D] without the tool's entry: the same top-level fields
    beside [mcpServers], and in [mcpServers] (none counts as empty) the
    entries of [D] beside the tool's. *)
Definition entry_removed (D D2 : json) : Prop :=
  (∀ k, k ≠ MCP_SERVERS → prop D2 k = prop D k) ∧
  (∀ k, prop (servers_of D2) k
        = if decide (k = SPECTATOR) then None else prop (servers_of D) k).

(** The same between two texts, [D2] written after [D] was read: each
    field and entry that is left is as [JSON.parse] and then
    [JSON.stringify] make it. *)
Definition entry_removed_rewritten (D D2 : json) : Prop :=
  (∀ k, k ≠ MCP_SERVERS → prop D2 k = rewritten <$> prop D k) ∧
  (∀ k, prop (servers_of D2) k
        = if decide (k = SPECTATOR) then None else rewritten <$> prop (servers_of D) k).

(** Cursor and VS Code: [remove] over the global and the project path. *)
Definition remove_two (globalPath projectPath : option path) : prog (option bool) :=
  removed ← remove_scope globalPath false;
  removed ← remove_scope projectPath removed;
  ret (Some removed).

Definition remove_error (m : string) : string := "Failed to remove configuration: " +:+ m.

(** What is there stays there, and a file stays a file. *)
Definition nodes_kept (σ σ' : fs) : Prop :=
  ∀ q, (is_Some (σ !! q) → is_Some (σ' !! q))
       ∧ (∀ c, σ !! q = Some (File c) → ∃ c', σ' !! q = Some (File c')).

(** Nothing for [remove] to do at [q]: no file, or a document without
    the entry (for Claude Code, which reads [config.mcpServers] without a
    test on [config], a document other than [null]). *)
Definition unconfigured_at (a : adapter) (σ : fs) (q : path) : Prop :=
  σ !! q = None
  ∨ ∃ D, σ !! q = Some (File (JsonText D)) ∧ configured D = false
         ∧ (a = ClaudeCodeAdapter → D ≠ JNull).

(** A file [remove] cannot take a document from: a directory stands
    there, or a file that [JSON.parse] refuses. *)
Definition unreadable (σ : fs) (q : path) : Prop :=
  σ !! q = Some Dir ∨ ∃ c m, σ !! q = Some (File c) ∧ JSON_parse c = Err m.

(** What [remove] returns when it removed nothing: [false], and in
    Claude Code, whose [remove] has no [return], [undefined]. *)
Definition nothing_removed (a : adapter) : option bool :=
  match a with ClaudeCodeAdapter => None | _ => Some false end.

(** C8 as stated: with the entry in no scope's file, [remove] returns a
    falsy value, throws nothing and leaves the file system as it was. *)
Definition remove_as_stated : Prop :=
  ∀ a d (σ : fs),
    (∀ q, Some q ∈ scope_paths a d → configured_file σ q = false) →
    ∃ r, settle (remove a d σ) = Done r σ ∧ (r = None ∨ r = Some false).

(** [configure], then [remove]. *)
Definition round_trip (a : adapter) (d : PlatformDetector) (apiKey : string)
    (s : option scope) (now : N) : prog (option bool) :=
  configure a d apiKey s now;; remove a d.

(** C6 as stated: the round trip leaves the document it found. *)
Definition round_trip_as_stated : Prop :=
  ∀ a d apiKey s now (σ : fs) p D r,
    config_path a d s = Some p →
    σ !! p = Some (File (JsonText D)) →
    returned (round_trip a d apiKey s now σ) = Some r →
    final_fs (round_trip a d apiKey s now σ) !! p = Some (File (JsonText D)).

(** A home directory where Cursor's file is the empty document. *)
Definition cursor_with_empty_document : fs :=
  <[cursor_file := File (JsonText (JObj ∅))]> cursor_home.

(** ** [configure], twice *)

(** What the second of two [configure] returns, the first having created
    the file. *)
Definition second_result (a : adapter) (apiKey : string) (p : path) : configure_result :=
  match a with
  | ClaudeCodeAdapter => Report (Some (JBool true)) false (Some p)
  | Cursor | Windsurf => Report (Some (spectator_entry apiKey)) false None
  | _ => ReturnedTrue
  end.

(** What the second [configure] leaves at its backup path. *)
Definition second_backup (a : adapter) (apiKey : string) : option node :=
  match a with
  | ClaudeCodeAdapter => None
  | _ => Some (File (JsonText (fresh_document apiKey)))
  end.

(** ** The setup command *)

(** The key [runSetup] goes on with: the option, or what the user types. *)
Definition the_key (answer : string) (options : options) : string :=
  if given (opt_apiKey options) then default "" (opt_apiKey options) else answer.

(** [options.platforms && options.platforms !== 'all'] *)
Definition explicit_list (options : options) : bool :=
  given (opt_platforms options)
  && negb (String.eqb (default "" (opt_platforms options)) "all").

(** The names asked for on the command line. *)
Definition requested (options : options) : list string :=
  requested_platforms (default "" (opt_platforms options)).

(** The platforms a run is to configure: those asked for, or those
    detected. *)
Definition targeted (installed : list string) (options : options) : list string :=
  if explicit_list options then requested options else installed.

(** The [results] of the loop over the targeted platforms, run from [σ]. *)
Definition setup_results (d : PlatformDetector) (apiKey : string) (clock : nat → N)
    (options : options) (σ : fs) : list setup_result :=
  match settle (configure_each d apiKey (opt_scope options) clock 0
                  (targeted (getInstalledPlatforms d σ) options) [] σ) with
  | Done results _ => results
  | _ => []
  end.

(** A name asked for that is not among the detected platforms. *)
Definition asks_for_unknown (installed : list string) (options : options) : Prop :=
  explicit_list options = true ∧ ∃ p, p ∈ requested options ∧ p ∉ installed.

(** A platform was configured: one of the results is a success. *)
Definition configured_one (results : list setup_result) : Prop :=
  ∃ r, r ∈ results ∧ success r = true.

(** [apiKey.trim().length < MIN_API_KEY_LENGTH], or no key at all: the
    check of src/unnamed/part_002. *)
Definition fails_format_check (apiKey : string) : bool :=
  negb (negb (String.eqb apiKey ""))
  || bool_decide (String.length (trim apiKey) < Part002.MIN_API_KEY_LENGTH).

(** A result that is suspended, as a condition. *)
Definition is_paused {A} (r : res A) : Prop :=
  match r with Paused _ _ => True | _ => False end.

(** A home directory where Cursor's file is not JSON. *)
Definition cursor_with_broken_file : fs :=
  <[cursor_file := File (Garbage "{ mcpServers: ")]> cursor_home.


(** A clock that stands still. *)
Definition still (i : nat) : N := 17%N.

(** ** [validate] on files that exist *)

(** Claude Desktop, Windsurf and Cline: [validate], [not_found] being the
    adapter's message for a missing file. *)
Definition validate_single (configPath : option path) (not_found : string)
    : prog validation :=
  match configPath with
  | None => ret (Validation None false (Some not_found))
  | Some configPath =>
    found ← fs_existsSync configPath;
    if negb found then ret (Validation None false (Some not_found))
    else
      try_catch
        (config ← await (BasePlatform.readConfig configPath);
         ok ← lift (has_entry config);
         if negb ok
         then ret (Validation None false (Some "Spectator MCP server not configured"))
         else ret (Validation None true None))
        (λ message, ret (Validation None false (Some message)))
  end.

(** Cursor and VS Code: one of the two blocks of [validate], and the
    whole of it. *)
Definition check_scope (configPath : option path) (s : scope)
    (results : list validation) : prog (list validation) :=
  match configPath with
  | None => ret results
  | Some p =>
    found ← fs_existsSync p;
    if negb found then ret results
    else
      try_catch
        (config ← await (BasePlatform.readConfig p);
         ok ← lift (has_entry config);
         if ok then ret (results ++ [Validation (Some s) true None])
         else ret results)
        (λ message, ret (results ++ [Validation (Some s) false (Some message)]))
  end.

Definition validate_two (globalPath projectPath : option path) : prog validation :=
  results ← check_scope globalPath global [];
  results ← check_scope projectPath project results;
  match results with
  | [] => ret (Validation None false (Some "No configuration found"))
  | first :: _ => ret (default first (find valid results))
  end.

Definition not_found_message (a : adapter) : string :=
  match a with
  | Cline => "Configuration file not found. Cline extension may not be installed."
  | _ => "Configuration file not found"
  end.

(** The entry of a document as Claude Code's [validate] wants it: with a
    truthy [command] and truthy [args]. *)
Definition well_formed_entry (D : json) : bool :=
  let entry := default JNull (prop (servers_of D) SPECTATOR) in
  truthy_opt (prop entry "command") && truthy_opt (prop entry "args").

(** A document an adapter's [validate] accepts. *)
Definition valid_document (a : adapter) (D : json) : bool :=
  configured D
  && match a with ClaudeCodeAdapter => well_formed_entry D | _ => true end.

(** A file an adapter's [validate] accepts. *)
Definition valid_file (a : adapter) (σ : fs) (p : path) : bool :=
  match σ !! p with
  | Some (File (JsonText D)) => valid_document a D
  | _ => false
  end.

(** A document in which [configure] can store the entry: [null] or
    another falsy value (read as [{}]), or an object whose [mcpServers],
    if it has one that is truthy, is an object.  An array, and an object
    whose [mcpServers] is an array or a truthy primitive, take the
    assignment and are printed as they were. *)
Definition takes_entry (D : json) : bool :=
  match D with
  | JObj fs =>
    match fs !! MCP_SERVERS with
    | Some (JObj _) => true
    | Some ms => negb (truthy ms)
    | None => true
    end
  | JArr _ => false
  | _ => negb (truthy D)
  end.

(** [{ "mcpServers": 1e400 }], in Cursor's file: a number that is read
    as [Infinity]. *)
Definition infinite_servers_document : json := JObj {[MCP_SERVERS := JNum (10 ^ 400)]}.
Definition cursor_with_infinite_servers : fs :=
  <[cursor_file := File (JsonText infinite_servers_document)]> cursor_home.

(** [[1, 2]], in Cursor's file. *)
Definition cursor_with_array : fs :=
  <[cursor_file := File (JsonText (JArr [JNum 1; JNum 2]))]> cursor_home.

(** What [readConfig] returns for the node at its path, when it returns:
    [null] for no file, the value of a JSON text. *)
Definition read_doc (n : option node) : option json :=
  match n with
  | None => Some JNull
  | Some (File (JsonText D)) => Some (parsed D)
  | _ => None
  end.

(** What Claude Code's [configure] takes as the existing document: [{}]
    for no file and for a blank one. *)
Definition claudecode_read_doc (n : option node) : option json :=
  match n with
  | None | Some (File Blank) => Some (JObj ∅)
  | Some (File (JsonText D)) => Some (parsed D)
  | _ => None
  end.

(** The document an adapter's [configure] finds at a node, and the one it
    makes of it for a key (none when an assignment throws). *)
Definition input_doc (a : adapter) (n : option node) : option json :=
  match a with
  | ClaudeCodeAdapter => claudecode_read_doc n
  | _ => read_doc n
  end.

Definition upsert_doc (a : adapter) (D : json) (apiKey : string) : option json :=
  match a with
  | ClaudeCodeAdapter =>
    match claudecode_upserted D apiKey with
    | Ok (_, _, config) => Some (shown config)
    | Err _ => None
    end
  | _ =>
    match upserted D apiKey with
    | Ok (_, _, config) => Some (shown config)
    | Err _ => None
    end
  end.

(** A VS Code project whose [mcp.json] holds an entry of the tool edited
    by hand, beside another tool's:
    [{ "mcpServers": { "spectator-voice-memory":
         { "command": "node", "env": { "DEBUG": "1" } },
       "other-tool": { "command": "x" } } }]. *)
Definition edited_document : json :=
  JObj {[MCP_SERVERS :=
    JObj (<[SPECTATOR := JObj (<["command" := JStr "node"]>
                               (<["env" := JObj {["DEBUG" := JStr "1"]}]> ∅))]>
          (<["other-tool" := JObj {["command" := JStr "x"]}]> ∅))]}.
Definition vscode_project_edited : fs :=
  <[vscode_file := File (JsonText edited_document)]>
    (<[["work"; ".vscode"] := Dir]> (<[["work"] := Dir]> ∅)).

(** Whether an adapter's [configure] returns a report, and not [true]. *)
Definition reports (a : adapter) : bool :=
  match a with Cursor | Windsurf | ClaudeCodeAdapter => true | _ => false end.

(** An entry of [mcpServers] under another name than the tool's. *)
Definition other_server (D : json) : Prop :=
  ∃ k v, k ≠ SPECTATOR ∧ prop (servers_of D) k = Some v.


(** ** The [validate] and [remove] commands *)

(** A file of one of the adapter's scopes holds a valid entry. *)
Definition valid_somewhere (a : adapter) (d : PlatformDetector) (σ : fs) : Prop :=
  ∃ p, Some p ∈ scope_paths a d ∧ valid_file a σ p = true.

(** The line the [validate] command is to report for a platform: its
    display name, with [Configured correctly] when a file of its scopes
    holds a valid entry, with a message otherwise. *)
Definition reported_for (d : PlatformDetector) (σ : fs) (name : string)
    (line : log_line) : Prop :=
  ∃ a, platforms name = Some a
       ∧ ((valid_somewhere a d σ
           ∧ line = LogSuccess (getPlatformDisplayName name +:+ ": Configured correctly"))
          ∨ (¬ valid_somewhere a d σ
             ∧ ∃ m, m ≠ "" ∧ line = LogError (getPlatformDisplayName name +:+ ": " +:+ m))).

(** [σ'] holds the entry in no file where [σ] does not hold it. *)
Definition none_configured_anew (σ σ' : fs) : Prop :=
  ∀ q, configured_file σ q = false → configured_file σ' q = false.

(** What a [remove] may do to the file system. *)
Definition only_removes (σ σ' : fs) : Prop :=
  nodes_kept σ σ' ∧ none_configured_anew σ σ'.

(** The names the [remove] command goes over. *)
Definition names_to_remove (d : PlatformDetector) (σ : fs) (given_list : option string) :
    list string :=
  if given given_list && negb (String.eqb (default "" given_list) "all")
  then requested_platforms (default "" given_list)
  else getInstalledPlatforms d σ.

(** The file system once the loop of the [remove] action has gone over
    [names]: the [remove] of each platform of the table has run in turn,
    to its end or to what it throws, on what the names before it have
    left.  The loop ends at a name that is no constructor. *)
Fixpoint removals (d : PlatformDetector) (names : list string) (σ : fs) : fs :=
  match names with
  | [] => σ
  | name :: rest =>
    match platforms_entry name with
    | AdapterClass a => removals d rest (final_fs (remove a d σ))
    | NotAConstructor => σ
    | _ => removals d rest σ
    end
  end.

(** A name the platform table inherits and [new] cannot be applied to,
    such as [__proto__]. *)
Definition no_constructor (name : string) : Prop :=
  platforms_entry name = NotAConstructor.

(** ** The key in a URL *)

(** A key the pattern of [extractApiKeyFromUrl] takes: not empty, with no
    slash and no white space. *)
Definition plain_key (key : string) : Prop :=
  key ≠ "" ∧ ApiValidator.every ApiValidator.key_char key = true.

(** The server takes the key: the key is not blank, and the request
    comes to a response of status 200. *)
Definition key_accepted (server : string → ApiValidator.reply) (key : string) : Prop :=
  key ≠ "" ∧ trim key ≠ ""
  ∧ server (ApiValidator.formatApiUrl key) = ApiValidator.Response 200.

(** ** The results of the setup loop *)

(** The loop of [runSetup] over [names], from the file system [σ] and
    with [i] names behind it, has recorded [rs] and left [σ']: each
    platform's [configure] has run in turn, to its end, on what the
    names before it have left; a [configure] that returned is recorded
    as a success with what it reported, one that threw as a failure with
    the message of the error. *)
Inductive recorded_from (d : PlatformDetector) (apiKey : string) (sc : option scope)
    (clock : nat → N) : nat → fs → list string → list setup_result → fs → Prop :=
| recorded_end i σ : recorded_from d apiKey sc clock i σ [] [] σ
| recorded_success i σ name names a r σ1 rs σ' :
    platforms name = Some a →
    settle (configure a d apiKey sc (clock i) σ) = Done r σ1 →
    recorded_from d apiKey sc clock (S i) σ1 names rs σ' →
    recorded_from d apiKey sc clock i σ (name :: names)
      (SetupResult name true (recorded_updated r) (recorded_others r) None :: rs) σ'
| recorded_failure i σ name names a e σ1 rs σ' :
    platforms name = Some a →
    settle (configure a d apiKey sc (clock i) σ) = Raised e σ1 →
    recorded_from d apiKey sc clock (S i) σ1 names rs σ' →
    recorded_from d apiKey sc clock i σ (name :: names)
      (SetupResult name false (JBool false) false (Some e) :: rs) σ'.

(** * src/client/src/utils/api.js, second file: the version check *)

Module VersionCheck.

(** What the check asks of its host: [process.version], and what
    [execSync] gives for [npx --version] and [npm --version], [None]
    when it throws. *)
Record host : Type := Host {
  process_version : string;
  npx_output : option string;
  npm_output : option string
}.

(** The object [checkVersions] returns; a field is [None] when it is not
    set. *)
Record report : Type := Report {
  valid : bool;
  nodeVersion : option string;
  npxVersion : option string;
  error : option string
}.

(** The longest run of [\d] a string starts with, and what follows it. *)
Fixpoint take_digits (s : string) : string * string :=
  match s with
  | String c rest =>
    if is_digit c then let '(ds, after) := take_digits rest in (String c ds, after)
    else (EmptyString, s)
  | EmptyString => (EmptyString, EmptyString)
  end.

(** The pattern [(\d+)\.(\d+)\.(\d+)] tried where [s] starts: the text of
    its first group.  A group is followed by a dot or by anything, so it
    takes the whole run of digits. *)
Definition first_of_three (s : string) : option string :=
  let '(major, after) := take_digits s in
  if String.eqb major "" then None
  else
    match after with
    | String "." after =>
      let '(minor, after) := take_digits after in
      if String.eqb minor "" then None
      else
        match after with
        | String "." after =>
          let '(patch, _) := take_digits after in
          if String.eqb patch "" then None else Some major
        | _ => None
        end
    | _ => None
    end.

(** [parseInt] on a string of digits. *)
Definition digit_value (c : ascii) : N := N.of_nat (nat_of_ascii c - 48).
Fixpoint parse_digits (acc : N) (s : string) : N :=
  match s with
  | String c rest => parse_digits (10 * acc + digit_value c) rest
  | EmptyString => acc
  end.
Definition parseInt (s : string) : N := parse_digits 0 s.

(** [nodeVersion.match(/^v(\d+)\.(\d+)\.(\d+)/)], its first group. *)
Definition nodeMatch (nodeVersion : string) : option string :=
  match nodeVersion with
  | String "v" rest => first_of_three rest
  | _ => None
  end.

Definition checkVersions (h : host) : report :=
  let nodeVersion := process_version h in
  match nodeMatch nodeVersion with
  | None => Report false (Some nodeVersion) None (Some "Unable to parse Node.js version")
  | Some major =>
    let nodeMajor := parseInt major in
    if (nodeMajor <? 18)%N then
      Report false (Some nodeVersion) None
        (Some ("Node.js " +:+ nodeVersion +:+
               " is too old. Please update to Node.js 18.0.0 or higher "
               +:+ "(required for TransformStream API)"))
    else
      let found :=
        match npx_output h with
        | Some out => Some (trim out)
        | None =>
          match npm_output h with
          | Some out => Some ("npm " +:+ trim out +:+ " (includes npx)")
          | None => None
          end
        end in
      match found with
      | None =>
        Report false None None
          (Some ("Unable to check versions. "
                 +:+ "Please ensure Node.js and npm are properly installed"))
      | Some npxVersion =>
        match first_of_three npxVersion with
        | Some major =>
          if (parseInt major <? 7)%N then
            Report false (Some nodeVersion) (Some npxVersion)
              (Some ("npx version " +:+ npxVersion +:+
                     " is too old. Please update to npx 7.0.0 or higher"))
          else Report true (Some nodeVersion) (Some npxVersion) None
        | None => Report true (Some nodeVersion) (Some npxVersion) None
        end
      end
  end.

(** [ensureVersions(exitOnError)] *)
Definition ensureVersions (exitOnError : bool) (h : host) : prog report :=
  let result := checkVersions h in
  if negb (valid result) && exitOnError then process_exit 1 else ret result.

End VersionCheck.

(** The text of a version: [major.minor.patch]. *)
Definition version_text (major minor patch : N) : string :=
  pretty major +:+ "." +:+ pretty minor +:+ "." +:+ pretty patch.

(** A host with Node 20.11.1, where [npx --version] prints 10.2.4. *)
Definition node20_host : VersionCheck.host :=
  VersionCheck.Host "v20.11.1" (Some ("10.2.4" +:+ String "010" "")) (Some "10.2.4").
(** * Properties *)

(** ** The monad *)

Section Monad.
Context {A B : Type}.

Lemma settle_bind_res (r : res A) (f : A → prog B) :
    settle (bind_res r f) = bind_res (settle r) (λ a σ, settle (f a σ)).
  Proof. induction r; simpl; auto. Qed.

Lemma settle_bind (m : prog A) (f : A → prog B) σ :
    settle (bind m f σ) = bind_res (settle (m σ)) (λ a σ', settle (f a σ')).
  Proof. apply settle_bind_res. Qed.

Lemma settle_catch_res (r : res A) (h : string → prog A) :
    settle (catch_res r h) = catch_res (settle r) (λ e σ, settle (h e σ)).
  Proof. induction r; simpl; auto. Qed.

Lemma settle_try_catch (m : prog A) (h : string → prog A) σ :
    settle (try_catch m h σ) = catch_res (settle (m σ)) (λ e σ', settle (h e σ')).
  Proof. apply settle_catch_res. Qed.

Lemma settle_await (m : prog A) σ : settle (await m σ) = settle (m σ).
  Proof. unfold await. destruct (m σ); reflexivity. Qed.

Lemma settle_settled (r : res A) : settle (settle r) = settle r.
  Proof. induction r; simpl; auto. Qed.

Lemma settle_not_paused (r : res A) σ rest : settle r ≠ Paused σ rest.
  Proof. induction r; simpl; auto; discriminate. Qed.

Lemma final_fs_settle (r : res A) : final_fs (settle r) = final_fs r.
  Proof. induction r; simpl; auto. Qed.

End Monad.

(** ** Numbers through [JSON.parse] and [JSON.stringify] *)

Section Numbers.
#[local] Open Scope Z_scope.

Lemma round_to_53_small m : 0 ≤ m < 2 ^ 53 → round_to_53 m = m.
Proof.
  intros [H0 H]. unfold round_to_53.
  destruct (decide (m = 0)) as [->|Hm]; [done|].
  assert (Z.log2 m < 53) as Hlog by (apply Z.log2_lt_pow2; lia).
  by rewrite (proj2 (Z.ltb_lt _ _) Hlog).
Qed.

(** The shape of a rounded integer of 54 bits or more. *)
Lemma round_to_53_large m :
  2 ^ 53 ≤ m →
  ∃ e q, 53 ≤ e ∧ Z.log2 m = e ∧ 2 ^ 52 ≤ q ≤ 2 ^ 53 ∧ round_to_53 m = q * 2 ^ (e - 52).
Proof.
  intros Hm. assert (0 < m) as Hpos by (pose proof (Z.pow_pos_nonneg 2 53); lia).
  assert (53 ≤ Z.log2 m) as He by (apply Z.log2_le_pow2; lia).
  exists (Z.log2 m), (if (2 ^ (Z.log2 m - 52) <? 2 * (m mod 2 ^ (Z.log2 m - 52)))
                         || ((2 ^ (Z.log2 m - 52) =? 2 * (m mod 2 ^ (Z.log2 m - 52)))
                             && Z.odd (m / 2 ^ (Z.log2 m - 52)))
                      then m / 2 ^ (Z.log2 m - 52) + 1 else m / 2 ^ (Z.log2 m - 52)).
  split; [done|]. split; [done|].
  destruct (Z.log2_spec m Hpos) as [Hlo Hhi].
  set (e := Z.log2 m) in *. set (u := 2 ^ (e - 52)).
  assert (0 < u) as Hu by (apply Z.pow_pos_nonneg; lia).
  assert (2 ^ e = 2 ^ 52 * u) as E1.
  { unfold u. rewrite <- Z.pow_add_r by lia. f_equal. lia. }
  assert (2 ^ Z.succ e = 2 ^ 53 * u) as E2.
  { unfold u. rewrite <- Z.pow_add_r by lia. f_equal. lia. }
  assert (2 ^ 52 ≤ m / u) as Hq1 by (apply Z.div_le_lower_bound; lia).
  assert (m / u < 2 ^ 53) as Hq2 by (apply Z.div_lt_upper_bound; lia).
  split.
  - destruct (_ || _); lia.
  - unfold round_to_53. fold e. rewrite (proj2 (Z.ltb_ge _ _) He). by fold u.
Qed.

Lemma round_to_53_idem m : 0 ≤ m → round_to_53 (round_to_53 m) = round_to_53 m.
Proof.
  intros H0. destruct (decide (m < 2 ^ 53)) as [Hs|Hl].
  { rewrite (round_to_53_small m) by lia. apply round_to_53_small. lia. }
  destruct (round_to_53_large m ltac:(lia)) as (e & q & He & _ & Hq & ->).
  set (u := 2 ^ (e - 52)).
  assert (0 < u) as Hu by (apply Z.pow_pos_nonneg; lia).
  assert (2 ^ e = 2 ^ 52 * u) as E1.
  { unfold u. rewrite <- Z.pow_add_r by lia. f_equal. lia. }
  destruct (decide (q = 2 ^ 53)) as [->|Hq'].
  - (* a power of two *)
    assert (2 ^ 53 * u = 2 ^ (e + 1)) as E.
    { unfold u. rewrite <- Z.pow_add_r by lia. f_equal. lia. }
    rewrite E. unfold round_to_53. rewrite Z.log2_pow2 by lia.
    rewrite (proj2 (Z.ltb_ge _ _)) by lia.
    replace (e + 1 - 52) with (e - 51) by lia.
    assert (2 ^ (e + 1) = 2 ^ 52 * 2 ^ (e - 51)) as E3.
    { rewrite <- Z.pow_add_r by lia. f_equal. lia. }
    assert (0 < 2 ^ (e - 51)) as Hu' by (apply Z.pow_pos_nonneg; lia).
    rewrite E3, Z.div_mul, Z.mod_mul by lia.
    rewrite (proj2 (Z.ltb_ge _ _)) by lia.
    rewrite (proj2 (Z.eqb_neq _ _)) by lia. done.
  - assert (Z.log2 (q * u) = e) as Hlog.
    { apply Z.log2_unique; [lia|]. split; [nia|].
      replace (2 ^ Z.succ e) with (2 ^ 53 * u); [nia|].
      unfold u. rewrite <- Z.pow_add_r by lia. f_equal. lia. }
    unfold round_to_53. rewrite Hlog. rewrite (proj2 (Z.ltb_ge _ _)) by lia.
    fold u. rewrite Z.div_mul, Z.mod_mul by lia.
    rewrite (proj2 (Z.ltb_ge _ _)) by lia.
    rewrite (proj2 (Z.eqb_neq _ _)) by lia. done.
Qed.

Lemma round_to_53_nonneg m : 0 ≤ m → 0 ≤ round_to_53 m.
Proof.
  intros H0. destruct (decide (m < 2 ^ 53)) as [Hs|Hl].
  { rewrite round_to_53_small; lia. }
  destruct (round_to_53_large m ltac:(lia)) as (e & q & He & _ & Hq & ->).
  assert (0 < 2 ^ (e - 52)) by (apply Z.pow_pos_nonneg; lia). nia.
Qed.

Lemma round_to_53_bound m : 2 ^ 53 ≤ m → 2 ^ 53 ≤ round_to_53 m.
Proof.
  intros Hm. destruct (round_to_53_large m Hm) as (e & q & He & _ & Hq & ->).
  assert (2 ^ 53 ≤ 2 ^ e) by (apply Z.pow_le_mono_r; lia).
  assert (2 ^ e = 2 ^ 52 * 2 ^ (e - 52)) as E1.
  { rewrite <- Z.pow_add_r by lia. f_equal. lia. }
  assert (0 < 2 ^ (e - 52)) by (apply Z.pow_pos_nonneg; lia). nia.
Qed.

Lemma round_to_53_zero m : 0 ≤ m → round_to_53 m = 0 → m = 0.
Proof.
  intros H0 E. destruct (decide (m < 2 ^ 53)) as [Hs|Hl].
  { by rewrite round_to_53_small in E by lia. }
  pose proof (round_to_53_bound m ltac:(lia)). lia.
Qed.

Lemma to_double_zero n : to_double n = 0 ↔ n = 0.
Proof.
  split; [|by intros ->]. unfold to_double. intros E.
  pose proof (round_to_53_nonneg (Z.abs n) (Z.abs_nonneg n)) as Hr.
  pose proof (round_to_53_zero (Z.abs n) (Z.abs_nonneg n)) as Hz.
  assert (0 < INFINITY) by done.
  destruct (INFINITY <=? round_to_53 (Z.abs n)) eqn:Hinf; lia.
Qed.

Lemma to_double_small n : Z.abs n < 2 ^ 53 → to_double n = n.
Proof.
  intros H. unfold to_double.
  rewrite round_to_53_small by lia.
  assert (Z.abs n < INFINITY) by (unfold INFINITY; assert (2 ^ 53 < 2 ^ 1024) by done; lia).
  rewrite (proj2 (Z.leb_gt _ _)) by lia. lia.
Qed.

Lemma to_double_big n : 2 ^ 53 ≤ n → 2 ^ 53 ≤ to_double n.
Proof.
  intros H. unfold to_double.
  pose proof (round_to_53_bound (Z.abs n) ltac:(lia)).
  assert (2 ^ 53 < INFINITY) by done.
  destruct (INFINITY <=? round_to_53 (Z.abs n)); lia.
Qed.

Lemma to_double_idem n : to_double (to_double n) = to_double n.
Proof.
  unfold to_double at 2 3.
  pose proof (round_to_53_nonneg (Z.abs n) (Z.abs_nonneg n)) as Hr.
  pose proof (round_to_53_zero (Z.abs n) (Z.abs_nonneg n)) as Hz.
  assert (0 < INFINITY) as Hinf by done.
  destruct (decide (n = 0)) as [->|Hn]; [done|].
  assert (∀ x, 0 < x → round_to_53 x = x → to_double (Z.sgn n * x) = Z.sgn n * (if INFINITY <=? x then INFINITY else x)) as Hgen.
  { intros x Hx Ex. unfold to_double.
    replace (Z.abs (Z.sgn n * x)) with x by lia.
    replace (Z.sgn (Z.sgn n * x)) with (Z.sgn n) by lia. rewrite Ex. reflexivity. }
  destruct (INFINITY <=? round_to_53 (Z.abs n)) eqn:Hi.
  - rewrite Hgen; [by rewrite Z.leb_refl|lia|]. by vm_compute.
  - rewrite Hgen; [by rewrite Hi|lia|]. by apply round_to_53_idem, Z.abs_nonneg.
Qed.

Lemma shortest_from_fits v fuel : ∀ s best,
  to_double best = v → to_double (shortest_from v fuel s best) = v.
Proof.
  induction fuel as [|fuel IH]; intros s best Hbest; cbn [shortest_from]; [done|].
  cbv zeta.
  destruct (to_double (v / s * s) =? v) eqn:Hlo; cbn [andb].
  - destruct (negb _ || _ || _).
    + apply IH. by apply Z.eqb_eq.
    + destruct (to_double (v / s * s + s) =? v) eqn:Hhi; [|done].
      apply IH. by apply Z.eqb_eq.
  - destruct (to_double (v / s * s + s) =? v) eqn:Hhi; [|done].
    apply IH. by apply Z.eqb_eq.
Qed.

Lemma shortest_fits v : to_double v = v → to_double (shortest v) = v.
Proof.
  intros Hv. unfold shortest. destruct (Z.eqb_spec v 0) as [->|_]; [done|].
  by apply shortest_from_fits.
Qed.

Lemma fits_small v c : 0 ≤ v < 2 ^ 53 → 0 ≤ c → to_double c = v → c = v.
Proof.
  intros Hv Hc E. destruct (decide (c < 2 ^ 53)) as [Hs|Hl].
  - by rewrite to_double_small in E by lia.
  - pose proof (to_double_big c ltac:(lia)). lia.
Qed.

Lemma shortest_from_small v fuel : 0 ≤ v < 2 ^ 53 → ∀ s best,
  0 < s → best = v → shortest_from v fuel s best = v.
Proof.
  intros Hv. induction fuel as [|fuel IH]; intros s best Hs Hbest; cbn [shortest_from]; [done|].
  cbv zeta.
  assert (0 ≤ v / s) as Hq by (apply Z.div_pos; lia).
  assert (0 ≤ v / s * s) as Hlo0 by nia.
  destruct (to_double (v / s * s) =? v) eqn:Hlo; cbn [andb].
  - apply Z.eqb_eq in Hlo. apply (fits_small v) in Hlo; [|done|done].
    destruct (negb _ || _ || _).
    + apply IH; [lia|done].
    + destruct (to_double (v / s * s + s) =? v) eqn:Hhi; [|done].
      apply Z.eqb_eq in Hhi. apply (fits_small v) in Hhi; [|done|lia]. lia.
  - destruct (to_double (v / s * s + s) =? v) eqn:Hhi; [|done].
    apply Z.eqb_eq in Hhi. apply (fits_small v) in Hhi; [|done|lia].
    apply IH; [lia|done].
Qed.

Lemma number_text_small v : Z.abs v < 2 ^ 53 → number_text v = Some v.
Proof.
  intros H. unfold number_text.
  assert (2 ^ 53 < INFINITY) by done.
  rewrite (proj2 (Z.leb_gt _ _)) by lia. f_equal.
  unfold shortest. destruct (Z.eqb_spec (Z.abs v) 0) as [E|_]; [lia|].
  rewrite shortest_from_small; lia.
Qed.

Lemma to_double_sgn v x : v ≠ 0 → to_double (Z.sgn v * x) = Z.sgn v * to_double x.
Proof.
  intros Hv. unfold to_double.
  replace (Z.abs (Z.sgn v * x)) with (Z.abs x) by lia.
  replace (Z.sgn (Z.sgn v * x)) with (Z.sgn v * Z.sgn x) by lia.
  by rewrite Z.mul_assoc.
Qed.

(** Reading back what was printed for a double. *)
Lemma number_text_fits v t : to_double v = v → number_text v = Some t → to_double t = v.
Proof.
  unfold number_text. intros Hv. destruct (INFINITY <=? Z.abs v) eqn:Hi; [done|].
  intros [= <-].
  destruct (decide (v = 0)) as [->|Hn]; [done|].
  rewrite to_double_sgn by done.
  assert (to_double (Z.abs v) = Z.abs v) as Habs.
  { replace (Z.abs v) with (Z.sgn v * v) by lia.
    rewrite to_double_sgn, Hv by done. done. }
  rewrite (shortest_fits _ Habs). lia.
Qed.

Lemma number_text_none v : number_text v = None → INFINITY ≤ Z.abs v.
Proof.
  unfold number_text. destruct (INFINITY <=? Z.abs v) eqn:Hi; [|done].
  intros _. by apply Z.leb_le.
Qed.

End Numbers.

(** ** JSON values *)

Lemma size_elem (l : list json) e :
  e ∈ l → json_size e ≤ foldr (λ e acc, json_size e + acc) 0 l.
Proof.
  induction l as [|x l IH]; [by intros ?%elem_of_nil|].
  intros [->|Hin]%elem_of_cons; simpl; [lia|]. specialize (IH Hin). lia.
Qed.

Lemma size_field (m : gmap string json) k e :
  m !! k = Some e → json_size e ≤ map_fold (λ _ e acc, json_size e + acc) 0 m.
Proof.
  intros Hk. rewrite <- (insert_delete_id m k e Hk).
  rewrite map_fold_insert_L.
  - lia.
  - intros. lia.
  - apply lookup_delete_eq.
Qed.

Lemma json_induction (P : json → Prop) :
  P JNull → (∀ b, P (JBool b)) → (∀ n, P (JNum n)) → (∀ s, P (JStr s)) →
  (∀ elems, Forall P elems → P (JArr elems)) →
  (∀ fields, map_Forall (λ _, P) fields → P (JObj fields)) →
  ∀ j, P j.
Proof.
  intros Hnull Hbool Hnum Hstr Harr Hobj j.
  remember (json_size j) as size eqn:Esize. revert j Esize.
  induction (lt_wf size) as [size _ IH]. intros j ->.
  assert (∀ j', json_size j' < json_size j → P j') as IH'.
  { intros j' Hlt. by apply (IH (json_size j')). }
  destruct j as [| | | |elems|fields]; auto.
  - apply Harr, Forall_forall. intros e He. apply IH'. simpl.
    pose proof (size_elem _ _ He). lia.
  - apply Hobj. intros k e He. apply IH'. simpl.
    pose proof (size_field _ _ _ He). lia.
Qed.

Lemma prop_jmap f j k : prop (jmap f j) k = jmap f <$> prop j k.
Proof.
  destruct j as [| |n| |elems|fields]; try done.
  - cbn. by destruct (f n).
  - unfold prop, lget. cbn. by rewrite lookup_fmap.
Qed.

Lemma truthy_parsed j : truthy (parsed j) = truthy j.
Proof.
  destruct j as [| |n| |elems|fields]; try done. cbn. f_equal.
  destruct (Z.eqb_spec (to_double n) 0) as [E|E], (Z.eqb_spec n 0) as [E'|E']; try done.
  - destruct E'. by apply to_double_zero.
  - destruct E. by apply to_double_zero.
Qed.

Lemma truthy_opt_parsed o : truthy_opt (parsed <$> o) = truthy_opt o.
Proof. destruct o; [apply truthy_parsed|done]. Qed.

Lemma jmap_entry f apiKey : jmap f (spectator_entry apiKey) = spectator_entry apiKey.
Proof.
  unfold spectator_entry. cbn [jmap]. by f_equal.
Qed.

Lemma parsed_idem j : parsed (parsed j) = parsed j.
Proof.
  induction j as [| |n| |elems IH|fields IH] using json_induction; try done.
  - cbn. by rewrite to_double_idem.
  - cbn. f_equal. rewrite <- list_fmap_compose. apply Forall_fmap_ext_1.
    eapply Forall_impl; [exact IH|]. by intros j Hj.
  - cbn. f_equal. rewrite <- map_fmap_compose. apply map_eq. intros k.
    rewrite !lookup_fmap. destruct (fields !! k) as [e|] eqn:E; [|done].
    cbn. f_equal. by apply (IH k e).
Qed.

(** What is printed for a value that was read is printed again when it
    is read and printed once more. *)
Lemma reprinted j : parsed j = j → printed (parsed (printed j)) = printed j.
Proof.
  induction j as [| |v| |elems IH|fields IH] using json_induction; try done.
  - intros [= Hv]. cbn. destruct (number_text v) as [t|] eqn:Et; [|done].
    cbn. by rewrite (number_text_fits v t Hv Et), Et.
  - intros [= Hl]. cbn. f_equal. rewrite <- !list_fmap_compose.
    apply Forall_fmap_ext_1. rewrite Forall_forall in IH. apply Forall_forall.
    intros e He. apply IH; [done|].
    apply list_elem_of_lookup in He as [i Hi].
    apply (f_equal (λ l, l !! i)) in Hl. rewrite list_lookup_fmap, Hi in Hl.
    by injection Hl.
  - intros [= Hm]. cbn. f_equal. rewrite <- !map_fmap_compose. apply map_eq. intros k.
    rewrite !lookup_fmap. destruct (fields !! k) as [e|] eqn:E; [|done].
    cbn. f_equal. apply (IH k e E).
    apply (f_equal (λ m, m !! k)) in Hm. rewrite lookup_fmap, E in Hm.
    by injection Hm.
Qed.

Lemma rewritten_idem D : rewritten (rewritten D) = rewritten D.
Proof. unfold rewritten. apply reprinted, parsed_idem. Qed.

(** ** Paths *)

Lemma add_suffix_length p s : p ≠ [] → length (add_suffix p s) = length p.
Proof.
  induction p as [|x [|y p] IH]; intros Hp; simpl in *; try done.
  f_equal. apply IH. done.
Qed.

Lemma string_app_length (s t : string) :
  String.length (s +:+ t) = String.length s + String.length t.
Proof. induction s; simpl; auto. Qed.

Lemma add_suffix_ne p s : s ≠ "" → add_suffix p s ≠ p.
Proof.
  intros Hs. induction p as [|x [|y p] IH]; simpl.
  - discriminate.
  - intros [= H]. apply (f_equal String.length) in H.
    rewrite string_app_length in H.
    destruct s; [done|]. simpl in H. lia.
  - intros [= H]. apply IH. exact H.
Qed.

Lemma dirname_add_suffix p s : p ≠ [] → dirname (add_suffix p s) = dirname p.
Proof.
  unfold dirname. induction p as [|x [|y p] IH]; intros Hp; try done.
  change (add_suffix (x :: y :: p) s) with (x :: add_suffix (y :: p) s).
  change (removelast (x :: y :: p)) with (x :: removelast (y :: p)).
  rewrite <- IH by done.
  destruct (add_suffix (y :: p) s) eqn:E; [|reflexivity].
  apply (f_equal length) in E. rewrite add_suffix_length in E; done.
Qed.

Lemma dirname_length p : p ≠ [] → length p = S (length (dirname p)).
Proof.
  unfold dirname. induction p as [|x [|y p] IH]; intros Hp; try done.
  change (removelast (x :: y :: p)) with (x :: removelast (y :: p)).
  change (length (x :: y :: p)) with (S (length (y :: p))).
  rewrite IH by done. reflexivity.
Qed.

Lemma backup_suffix_nonempty (now : N) : ".backup." +:+ pretty now ≠ "".
Proof. discriminate. Qed.

Lemma not_prefix_of_dirname p : p ≠ [] → ¬ p `prefix_of` dirname p.
Proof.
  intros Hp Hpre. apply prefix_length in Hpre.
  rewrite (dirname_length p Hp) in Hpre. lia.
Qed.

Lemma backup_not_prefix_of_dirname p s :
  p ≠ [] → ¬ add_suffix p s `prefix_of` dirname p.
Proof.
  intros Hp Hpre. apply prefix_length in Hpre.
  rewrite add_suffix_length, (dirname_length p Hp) in Hpre by done. lia.
Qed.

Lemma mkdir_from_settled base rest σ :
  (∃ σ', mkdir_from base rest σ = Done () σ') ∨
  (∃ e σ', mkdir_from base rest σ = Raised e σ').
Proof.
  revert base σ. induction rest as [|seg rest IH]; intros base σ; simpl.
  - left. eauto.
  - destruct (σ !! (base ++ [seg])) as [[c|]|]; eauto.
Qed.

Lemma mkdir_from_frame base rest σ q :
  ¬ q `prefix_of` (base ++ rest) →
  final_fs (mkdir_from base rest σ) !! q = σ !! q.
Proof.
  revert base σ. induction rest as [|seg rest IH]; intros base σ Hq; simpl; [done|].
  assert (Hd : base ++ [seg] ≠ q).
  { intros <-. apply Hq. rewrite (cons_middle seg base rest), (assoc_L (++)).
    apply prefix_app_r. done. }
  assert (Hq' : ¬ q `prefix_of` ((base ++ [seg]) ++ rest)).
  { by rewrite <- (assoc_L (++)). }
  destruct (σ !! (base ++ [seg])) as [[c|]|] eqn:E; simpl; try done.
  - rewrite IH by done. by rewrite lookup_insert_ne.
  - rewrite IH by done. by rewrite lookup_insert_ne.
Qed.

Lemma mkdir_from_dirs base rest σ q :
  final_fs (mkdir_from base rest σ) !! q = σ !! q ∨
  (final_fs (mkdir_from base rest σ) !! q = Some Dir ∧ ∀ c, σ !! q ≠ Some (File c)).
Proof.
  revert base σ. induction rest as [|seg rest IH]; intros base σ; simpl; [by left|].
  destruct (σ !! (base ++ [seg])) as [[c|]|] eqn:E; simpl; try by left.
  - destruct (IH (base ++ [seg]) (<[base ++ [seg] := Dir]> σ)) as [H|[H Hc]].
    + rewrite H. destruct (decide (base ++ [seg] = q)) as [<-|Hne].
      * rewrite lookup_insert_eq. right. split; [done|]. intros c. by rewrite E.
      * rewrite lookup_insert_ne by done. by left.
    + right. split; [done|]. intros c. specialize (Hc c).
      destruct (decide (base ++ [seg] = q)) as [<-|Hne]; [by rewrite E|].
      by rewrite lookup_insert_ne in Hc.
  - destruct (IH (base ++ [seg]) (<[base ++ [seg] := Dir]> σ)) as [H|[H Hc]].
    + rewrite H. destruct (decide (base ++ [seg] = q)) as [<-|Hne].
      * rewrite lookup_insert_eq. right. split; [done|]. intros c. by rewrite E.
      * rewrite lookup_insert_ne by done. by left.
    + right. split; [done|]. intros c. specialize (Hc c).
      destruct (decide (base ++ [seg] = q)) as [<-|Hne]; [by rewrite E|].
      by rewrite lookup_insert_ne in Hc.
Qed.

Lemma mkdir_from_ok base rest σ :
  (∀ q c, q `prefix_of` (base ++ rest) → σ !! q ≠ Some (File c)) →
  ∃ σ', mkdir_from base rest σ = Done () σ' ∧
        (rest ≠ [] → σ' !! (base ++ rest) = Some Dir).
Proof.
  revert base σ. induction rest as [|seg rest IH]; intros base σ Hfree; simpl.
  - eexists; split; [reflexivity|done].
  - assert (Hd : σ !! (base ++ [seg]) ≠ Some (File Blank) ∧ ∀ c, σ !! (base ++ [seg]) ≠ Some (File c)).
    { split; [|intros c]; apply Hfree; rewrite (cons_middle seg base rest), (assoc_L (++));
        by apply prefix_app_r. }
    destruct Hd as [_ Hd].
    destruct (IH (base ++ [seg]) (<[base ++ [seg] := Dir]> σ)) as (σ' & Hrun & Hdir).
    { intros q c Hq. destruct (decide (base ++ [seg] = q)) as [<-|Hne].
      - by rewrite lookup_insert_eq.
      - rewrite lookup_insert_ne by done. apply Hfree.
        by rewrite (cons_middle seg base rest), (assoc_L (++)). }
    destruct (σ !! (base ++ [seg])) as [[c|]|] eqn:E.
    + by destruct (Hd c).
    + exists σ'. split; [done|]. intros _.
      rewrite (cons_middle seg base rest), (assoc_L (++)).
      destruct rest as [|s2 rest]; [|by apply Hdir].
      simpl in Hrun. injection Hrun as <-. rewrite app_nil_r. by rewrite lookup_insert_eq.
    + exists σ'. split; [done|]. intros _.
      rewrite (cons_middle seg base rest), (assoc_L (++)).
      destruct rest as [|s2 rest]; [|by apply Hdir].
      simpl in Hrun. injection Hrun as <-. rewrite app_nil_r. by rewrite lookup_insert_eq.
Qed.

Lemma node_at_nonempty σ p : p ≠ [] → node_at σ p = σ !! p.
Proof. by destruct p. Qed.

(** [readConfig] as a function of the node at the path. *)
Lemma readConfig_eq p σ :
  BasePlatform.readConfig p σ =
  match node_at σ p with
  | None => Done JNull σ
  | Some (File c) =>
    match JSON_parse c with
    | Ok j => Done j σ
    | Err m => Raised ("Failed to read config from " +:+ path_str p +:+ ": " +:+ m) σ
    end
  | Some Dir =>
    Raised ("Failed to read config from " +:+ path_str p +:+ ": "
            +:+ "EISDIR: illegal operation on a directory, read") σ
  end.
Proof.
  unfold BasePlatform.readConfig, bind, try_catch, fs_existsSync, fs_readFileSync,
    existsSync, readFileSync, lift, ret, throw.
  destruct (node_at σ p) as [[c|]|] eqn:E; simpl; rewrite ?E; simpl; try done.
  destruct (JSON_parse c); done.
Qed.

Lemma backupConfig_eq p now σ :
  BasePlatform.backupConfig p now σ =
  match node_at σ p with
  | None => Done None σ
  | Some (File c) =>
    let bp := add_suffix p (".backup." +:+ pretty now) in
    match writeFileSync σ bp c with
    | Ok σ' => Done (Some bp) σ'
    | Err m => Raised m σ
    end
  | Some Dir => Raised "EISDIR: illegal operation on a directory, read" σ
  end.
Proof.
  unfold BasePlatform.backupConfig, bind, fs_existsSync, fs_copyFileSync,
    existsSync, copyFileSync, readFileSync, ret.
  destruct (node_at σ p) as [[c|]|] eqn:E; simpl; rewrite ?E; simpl; try done.
  destruct (writeFileSync _ _ _); done.
Qed.

Lemma writeConfig_eq p config σ :
  BasePlatform.writeConfig p config σ =
  match (if existsSync σ (dirname p) then Done () σ else mkdir_from [] (dirname p) σ) with
  | Done _ σ1 =>
    match writeFileSync σ1 p (JSON_stringify config) with
    | Ok σ2 => Done () σ2
    | Err m => Raised (write_error p m) σ1
    end
  | Raised m σ1 => Raised (write_error p m) σ1
  | r => r
  end.
Proof.
  unfold BasePlatform.writeConfig, bind, try_catch, fs_existsSync, fs_mkdirSync,
    fs_writeFileSync, ret, throw, write_error.
  destruct (existsSync σ (dirname p)) eqn:E; simpl; rewrite ?E; simpl.
  - destruct (writeFileSync _ _ _); done.
  - destruct (mkdir_from_settled [] (dirname p) σ) as [(σ' & ->)|(e & σ' & ->)]; simpl.
    + destruct (writeFileSync _ _ _); done.
    + done.
Qed.

Lemma writeFileSync_eq σ p c : p ≠ [] →
  writeFileSync σ p c =
  match σ !! p with
  | Some Dir => Err ("EISDIR: illegal operation on a directory, open '" +:+ path_str p +:+ "'")
  | _ =>
    match node_at σ (dirname p) with
    | Some Dir => Ok (<[p := File c]> σ)
    | Some (File _) => Err ("ENOTDIR: not a directory, open '" +:+ path_str p +:+ "'")
    | None => Err ("ENOENT: no such file or directory, open '" +:+ path_str p +:+ "'")
    end
  end.
Proof. intros Hp. unfold writeFileSync. by rewrite node_at_nonempty. Qed.

Lemma dirs_made_refl σ p : dirs_made σ σ p.
Proof. split; [done|]. intros q. by left. Qed.

Lemma mkdir_dirs_made σ p : dirs_made σ (final_fs (mkdir_from [] (dirname p) σ)) p.
Proof.
  split; intros q.
  - apply (mkdir_from_frame [] (dirname p) σ q).
  - apply (mkdir_from_dirs [] (dirname p) σ q).
Qed.

(** What [writeConfig] does to the file system: directories may appear
    above the file, then the file is written, or an error is thrown and
    the file is as before. *)
Lemma writeConfig_spec p config σ : p ≠ [] →
  ∃ σ1,
    dirs_made σ σ1 p ∧
    ((BasePlatform.writeConfig p config σ
        = Done () (<[p := File (JSON_stringify config)]> σ1)
      ∧ node_at σ1 (dirname p) = Some Dir ∧ σ1 !! p ≠ Some Dir)
     ∨ (∃ e, BasePlatform.writeConfig p config σ = Raised e σ1)).
Proof.
  intros Hp. rewrite writeConfig_eq.
  destruct (existsSync σ (dirname p)) eqn:Hex.
  - exists σ. split; [apply dirs_made_refl|].
    rewrite writeFileSync_eq by done.
    destruct (σ !! p) as [[c|]|] eqn:E; try (right; eauto; fail);
      destruct (node_at σ (dirname p)) as [[c'|]|] eqn:E'; try (right; eauto; fail);
      left; done.
  - pose proof (mkdir_dirs_made σ p) as Hdirs.
    destruct (mkdir_from_settled [] (dirname p) σ) as [(σ1 & Hrun)|(e & σ1 & Hrun)];
      rewrite Hrun in *; simpl in Hdirs; exists σ1;
      (split; [done|]); [|right; eauto].
    rewrite writeFileSync_eq by done.
    destruct (σ1 !! p) as [[c|]|] eqn:E; try (right; eauto; fail);
      destruct (node_at σ1 (dirname p)) as [[c'|]|] eqn:E'; try (right; eauto; fail);
      left; done.
Qed.

Lemma writeConfig_ok p config σ : p ≠ [] → writable σ p →
  ∃ σ1,
    dirs_made σ σ1 p ∧
    BasePlatform.writeConfig p config σ
      = Done () (<[p := File (JSON_stringify config)]> σ1)
    ∧ node_at σ1 (dirname p) = Some Dir.
Proof.
  intros Hp [Hnd Hfree]. rewrite writeConfig_eq.
  destruct (existsSync σ (dirname p)) eqn:Hex.
  - exists σ. split; [apply dirs_made_refl|].
    rewrite writeFileSync_eq by done.
    assert (Hd : node_at σ (dirname p) = Some Dir).
    { unfold existsSync in Hex. destruct (dirname p) as [|x l] eqn:Ed; [done|].
      simpl in *. destruct (σ !! (x :: l)) as [[c|]|] eqn:E; try done.
      by destruct (Hfree (x :: l) c). }
    rewrite Hd. destruct (σ !! p) as [[c|]|]; done.
  - destruct (mkdir_from_ok [] (dirname p) σ) as (σ1 & Hrun & Hdir); [done|].
    pose proof (mkdir_dirs_made σ p) as Hdirs.
    rewrite Hrun in *. simpl in Hdirs. exists σ1.
    split; [done|].
    assert (Hd : node_at σ1 (dirname p) = Some Dir).
    { destruct (dirname p) as [|x l] eqn:Ed; [done|]. simpl. by apply Hdir. }
    rewrite writeFileSync_eq, Hd by done.
    destruct Hdirs as [Hframe _].
    rewrite (Hframe p) by (by apply not_prefix_of_dirname).
    destruct (σ !! p) as [[c|]|]; done.
Qed.

Lemma backupConfig_spec p now σ : p ≠ [] →
  let bp := add_suffix p (".backup." +:+ pretty now) in
  (σ !! p = None ∧ BasePlatform.backupConfig p now σ = Done None σ)
  ∨ (∃ c, σ !! p = Some (File c) ∧ node_at σ (dirname p) = Some Dir ∧ σ !! bp ≠ Some Dir
          ∧ BasePlatform.backupConfig p now σ = Done (Some bp) (<[bp := File c]> σ))
  ∨ (∃ e, BasePlatform.backupConfig p now σ = Raised e σ
          ∧ (σ !! p = Some Dir ∨ node_at σ (dirname p) ≠ Some Dir ∨ σ !! bp = Some Dir)).
Proof.
  intros Hp bp. rewrite backupConfig_eq, node_at_nonempty by done.
  assert (Hbp : bp ≠ []).
  { intros E. apply (f_equal length) in E. unfold bp in E.
    rewrite add_suffix_length in E by done. by destruct p. }
  destruct (σ !! p) as [[c|]|] eqn:E.
  - cbv zeta. fold bp. rewrite writeFileSync_eq by done.
    assert (Hdn : dirname bp = dirname p) by (by apply dirname_add_suffix).
    rewrite Hdn.
    destruct (σ !! bp) as [[c'|]|] eqn:E';
      destruct (node_at σ (dirname p)) as [[c''|]|] eqn:E'';
      try (right; right; eexists; split; [reflexivity|]; eauto; fail);
      right; left; exists c; done.
  - right; right. eauto.
  - by left.
Qed.

Section MonadFinal.
Context {A B : Type}.
Lemma final_fs_bind (m : prog A) (f : A → prog B) σ :
    final_fs (bind m f σ) =
    match settle (m σ) with
    | Done a σ' => final_fs (f a σ')
    | Raised _ σ' | Exited _ σ' => σ'
    | Paused σ' _ => σ'
    end.
  Proof. unfold bind. induction (m σ); simpl; auto. Qed.
End MonadFinal.

Lemma same_but_entry_refl D : same_but_entry D D.
Proof. done. Qed.

#[local] Opaque MCP_SERVERS SPECTATOR spectator_entry.

Lemma prop_falsy j k : truthy j = false → prop j k = None.
Proof. by destruct j. Qed.

(** What the in-memory steps of a [configure] make of the value read. *)
Lemma upsert_same_but_entry read apiKey config :
  ensure_mcpServers (live_of (or_else (Some read) (JObj ∅))) = Ok config →
  same_but_entry read
    (shown (store_back config MCP_SERVERS
              (Object_assign (alias config MCP_SERVERS)
                             (BasePlatform.getMcpServerConfig apiKey)))).
Proof.
  unfold ensure_mcpServers, or_else, BasePlatform.getMcpServerConfig.
  intros H. destruct (truthy read) eqn:T.
  - destruct read as [|b|n|s|elems|fs]; try discriminate T.
    + (* a truthy boolean *) discriminate H.
    + (* a truthy number *) discriminate H.
    + (* a truthy string *) discriminate H.
    + (* an array: what is stored on it is not printed *)
      unfold lget, lset, live_of in H. simpl in H.
      rewrite lookup_empty in H. cbn in H. injection H as <-. done.
    + (* an object *)
      unfold lget, lset, live_of in H. simpl in H.
      destruct (fs !! MCP_SERVERS) as [ms|] eqn:E; cbn in H.
      * destruct (truthy ms) eqn:Tm; cbn in H; injection H as <-.
        -- unfold alias, store_back, Object_assign, lget, live_of.
           simpl. rewrite E. simpl.
           unfold same_but_entry, servers_of, prop, lget, live_of. simpl.
           rewrite E.
           destruct ms; simpl; split; intros k Hk; simpl_map; try done.
           simpl. rewrite lookup_union_r; [done|]. by rewrite lookup_singleton_ne.
        -- unfold alias, store_back, Object_assign, lget, live_of.
           simpl. simpl_map. simpl.
           unfold same_but_entry, servers_of, prop, lget, live_of. simpl.
           rewrite E. split; intros k Hk; simpl_map; [done|].
           simpl. rewrite (right_id_L ∅ (∪)), lookup_singleton_ne by done.
           symmetry. by apply prop_falsy.
      * injection H as <-.
        unfold alias, store_back, Object_assign, lget, live_of.
        simpl. simpl_map. simpl.
        unfold same_but_entry, servers_of, prop, lget, live_of. simpl.
        rewrite E. split; intros k Hk; simpl_map; [done|].
        simpl. by rewrite (right_id_L ∅ (∪)), lookup_singleton_ne by done.
  - (* null, false, 0, "": the document starts as the empty object *)
    unfold lget, lset, live_of in H. simpl in H.
    rewrite lookup_empty in H. cbn in H. injection H as <-.
    unfold alias, store_back, Object_assign, lget, live_of.
    simpl. simpl_map. simpl.
    unfold same_but_entry, servers_of, prop, lget, live_of. simpl.
    split; intros k Hk; simpl_map.
    + by destruct read.
    + simpl. rewrite (right_id_L ∅ (∪)), lookup_singleton_ne by done.
      by destruct read.
Qed.

(** *** The base methods return or throw, and never wait *)

Lemma returns_or_throws_settled {A} (r : res A) : returns_or_throws r → settle r = r.
Proof. by intros [(a & σ & ->)|(e & σ & ->)]. Qed.

Lemma readConfig_returns p σ : returns_or_throws (BasePlatform.readConfig p σ).
Proof.
  rewrite readConfig_eq. unfold returns_or_throws.
  destruct (node_at σ p) as [[c|]|]; eauto.
  destruct (JSON_parse c); eauto.
Qed.

Lemma backupConfig_returns p now σ : returns_or_throws (BasePlatform.backupConfig p now σ).
Proof.
  rewrite backupConfig_eq. unfold returns_or_throws.
  destruct (node_at σ p) as [[c|]|]; eauto.
  cbv zeta. destruct (writeFileSync _ _ _); eauto.
Qed.

Lemma writeConfig_returns p config σ :
  returns_or_throws (BasePlatform.writeConfig p config σ).
Proof.
  rewrite writeConfig_eq. unfold returns_or_throws.
  destruct (existsSync σ (dirname p)).
  - destruct (writeFileSync _ _ _); eauto.
  - destruct (mkdir_from_settled [] (dirname p) σ) as [(σ' & ->)|(e & σ' & ->)]; eauto.
    destruct (writeFileSync _ _ _); eauto.
Qed.

(** *** The two shapes of [configure] over [BasePlatform] *)

Lemma configure_eq a d apiKey s now :
  configure a d apiKey s now =
  match a with
  | ClaudeCodeAdapter => ClaudeCode.configure d apiKey s now
  | _ =>
    match config_path a d s with
    | None => throw (no_path_message a)
    | Some p =>
      if checks_entry a then configure_checked p apiKey now
      else configure_backup_first p apiKey now
    end
  end.
Proof. destruct a; reflexivity. Qed.

Lemma configure_checked_run p apiKey now σ :
  settle (configure_checked p apiKey now σ) =
  bind_res (BasePlatform.readConfig p σ) (λ read σ,
  bind_res (lift (upserted read apiKey) σ) (λ '(already, servers, config) σ,
  bind_res (if truthy_opt already then BasePlatform.backupConfig p now σ
            else Done None σ) (λ _ σ,
  bind_res (BasePlatform.writeConfig p config σ) (λ _ σ,
  Done (Report already (bool_decide (1 < length (Object_keys servers))) None) σ)))).
Proof.
  unfold configure_checked.
  rewrite settle_bind, settle_await.
  destruct (readConfig_returns p σ) as [(read & σ1 & ->)|(e & σ1 & ->)]; simpl; [|done].
  rewrite settle_bind. unfold upserted, lift.
  destruct (ensure_mcpServers _) as [config|m]; simpl; [|done].
  rewrite settle_bind.
  destruct (truthy_opt _) eqn:T; simpl.
  - rewrite settle_bind, settle_await.
    destruct (backupConfig_returns p now σ1) as [(x & σ2 & ->)|(e & σ2 & ->)]; simpl; [|done].
    rewrite settle_bind, settle_await.
    by destruct (writeConfig_returns p
      (store_back config MCP_SERVERS
         (Object_assign (alias config MCP_SERVERS) (BasePlatform.getMcpServerConfig apiKey)))
      σ2) as [(y & σ3 & ->)|(e & σ3 & ->)].
  - rewrite settle_bind, settle_await.
    by destruct (writeConfig_returns p
      (store_back config MCP_SERVERS
         (Object_assign (alias config MCP_SERVERS) (BasePlatform.getMcpServerConfig apiKey)))
      σ1) as [(y & σ3 & ->)|(e & σ3 & ->)].
Qed.

Lemma configure_backup_first_run p apiKey now σ :
  settle (configure_backup_first p apiKey now σ) =
  bind_res (BasePlatform.backupConfig p now σ) (λ _ σ,
  bind_res (BasePlatform.readConfig p σ) (λ read σ,
  bind_res (lift (upserted read apiKey) σ) (λ '(_, _, config) σ,
  bind_res (BasePlatform.writeConfig p config σ) (λ _ σ,
  Done ReturnedTrue σ)))).
Proof.
  unfold configure_backup_first.
  rewrite settle_bind, settle_await.
  destruct (backupConfig_returns p now σ) as [(x & σ1 & ->)|(e & σ1 & ->)]; simpl; [|done].
  rewrite settle_bind, settle_await.
  destruct (readConfig_returns p σ1) as [(read & σ2 & ->)|(e & σ2 & ->)]; simpl; [|done].
  rewrite settle_bind. unfold upserted, lift.
  destruct (ensure_mcpServers _) as [config|m]; simpl; [|done].
  rewrite settle_bind, settle_await.
  by destruct (writeConfig_returns p
    (store_back config MCP_SERVERS
       (Object_assign (alias config MCP_SERVERS) (BasePlatform.getMcpServerConfig apiKey)))
    σ2) as [(y & σ3 & ->)|(e & σ3 & ->)].
Qed.

(** *** [ClaudeCode.configure], step by step *)

Lemma claudecode_configure_run d apiKey s now σ :
  let p := ClaudeCode.getConfigPath d in
  ClaudeCode.configure d apiKey s now σ =
  bind_res (if existsSync σ (dirname p) then Done () σ else mkdir_from [] (dirname p) σ)
    (λ _ σ,
  bind_res (lift (claudecode_read σ p) σ) (λ read σ,
  bind_res (lift (claudecode_upserted read apiKey) σ) (λ '(others, isUpdated, config) σ,
  bind_res (fs_writeFileSync p (JSON_stringify config) σ) (λ _ σ,
  Done (Report (Some (JBool isUpdated)) others (Some p)) σ)))).
Proof.
  intros p. unfold ClaudeCode.configure. fold p.
  unfold bind, fs_existsSync, fs_mkdirSync, fs_readFileSync, lift, ret,
    claudecode_read, claudecode_upserted.
  cbn [bind_res].
  destruct (existsSync σ (dirname p)) eqn:Hex; cbn [negb bind_res].
  2: destruct (mkdir_from_settled [] (dirname p) σ) as [(σ1 & ->)|(e & σ1 & ->)];
       cbn [bind_res]; [|done].
  all: destruct (existsSync _ p) eqn:Hp; cbn [bind_res].
  all: try (destruct (readFileSync _ p) as [c|m]; cbn [bind_res]; [|done];
            destruct (is_blank c); cbn [negb bind_res];
            [|destruct (JSON_parse c) as [read|m]; cbn [bind_res]; [|done]]).
  all: destruct (member _ _) as [found|m]; cbn [bind_res]; [|done].
  all: destruct (if negb (truthy_opt found) then _ else _) as [config|m];
         cbn [bind_res]; [|done].
  all: destruct (lset _ _ _) as [servers'|m]; cbn [bind_res]; done.
Qed.

Lemma app_nonempty_r {A} (l1 l2 : list A) : l2 ≠ [] → l1 ++ l2 ≠ [].
Proof. intros H E. by apply app_eq_nil in E as [_ ?]. Qed.

Lemma getConfigPath_nonempty d name type p : getConfigPath d name type = Some p → p ≠ [].
Proof.
  unfold getConfigPath, per_os.
  repeat case_decide; destruct (platform d); try destruct type; intros [= <-];
    by apply app_nonempty_r.
Qed.

Lemma config_path_nonempty a d s p : config_path a d s = Some p → p ≠ [].
Proof.
  destruct a; simpl; try apply getConfigPath_nonempty.
  intros [= <-]. by apply app_nonempty_r.
Qed.

Lemma claudecode_upserted_same_but_entry read apiKey others isUpdated config :
  claudecode_upserted read apiKey = Ok (others, isUpdated, config) →
  same_but_entry read (shown config).
Proof.
  unfold claudecode_upserted, member. intros H.
  destruct read as [|b|n|s|elems|fs]; try discriminate H.
  - (* an array *)
    unfold prop, lget, lset, live_of in H. simpl in H.
    rewrite lookup_empty in H. simpl in H.
    unfold alias, store_back, lset, lget, live_of in H. simpl in H.
    rewrite lookup_insert_eq in H. simpl in H. injection H as _ _ <-. done.
  - (* an object *)
    unfold prop, lget, lset, live_of in H. simpl in H.
    destruct (fs !! MCP_SERVERS) as [ms|] eqn:E; simpl in H.
    + destruct (truthy ms) eqn:Tm; simpl in H.
      * unfold alias, store_back, lset, lget, live_of in H. simpl in H.
        rewrite E in H. simpl in H.
        destruct ms; try discriminate H; simpl in H; injection H as _ _ <-;
          unfold same_but_entry, servers_of, prop, lget, live_of; simpl; rewrite E;
          split; intros k Hk; simpl_map; simpl; simpl_map; done.
      * unfold alias, store_back, lset, lget, live_of in H. simpl in H.
        rewrite lookup_insert_eq in H. simpl in H. injection H as _ _ <-.
        unfold same_but_entry, servers_of, prop, lget, live_of; simpl; rewrite E.
        split; intros k Hk; simpl_map; [done|]. simpl. simpl_map.
        by destruct ms.
    + unfold alias, store_back, lset, lget, live_of in H. simpl in H.
      rewrite lookup_insert_eq in H. simpl in H. injection H as _ _ <-.
      unfold same_but_entry, servers_of, prop, lget, live_of; simpl; rewrite E.
      split; intros k Hk; simpl_map; simpl; simpl_map; done.
Qed.

Lemma upserted_same_but_entry read apiKey already servers config :
  upserted read apiKey = Ok (already, servers, config) →
  same_but_entry read (shown config).
Proof.
  unfold upserted. destruct (ensure_mcpServers _) as [c|m] eqn:E; [|done].
  intros [= _ _ <-]. by apply upsert_same_but_entry.
Qed.

Lemma elements_jmap f j : elements (jmap f j) = jmap f <$> elements j.
Proof. destruct j; simpl; try done. by destruct (f n). Qed.

Lemma servers_of_jmap f j : servers_of (jmap f j) = jmap f (servers_of j).
Proof. unfold servers_of. rewrite prop_jmap. by destruct (prop j MCP_SERVERS). Qed.

(** What is printed of a value that is the value read but for the entry. *)
Lemma rest_rewritten_printed D X : same_rest (parsed D) X → rest_rewritten D (printed X).
Proof.
  intros ((H1 & H2) & H3 & H4). unfold rest_rewritten, rewritten, printed, parsed in *.
  split; [|split; [|split]].
  - intros k Hk. rewrite prop_jmap, H1, prop_jmap by done. by destruct (prop D k).
  - intros k Hk. rewrite servers_of_jmap, prop_jmap, H2, servers_of_jmap, prop_jmap by done.
    by destruct (prop (servers_of D) k).
  - rewrite elements_jmap, H3, elements_jmap, <- list_fmap_compose. done.
  - rewrite servers_of_jmap, elements_jmap, H4, servers_of_jmap, elements_jmap,
      <- list_fmap_compose. done.
Qed.

Lemma upsert_elements read apiKey config :
  ensure_mcpServers (live_of (or_else (Some read) (JObj ∅))) = Ok config →
  let X := shown (store_back config MCP_SERVERS
                    (Object_assign (alias config MCP_SERVERS)
                                   (BasePlatform.getMcpServerConfig apiKey))) in
  elements X = elements read ∧ elements (servers_of X) = elements (servers_of read).
Proof.
  unfold ensure_mcpServers, or_else, BasePlatform.getMcpServerConfig.
  intros H. destruct (truthy read) eqn:T.
  - destruct read as [|b|n|s|elems|fs]; try discriminate T; try discriminate H.
    + unfold lget, lset, live_of in H. simpl in H.
      rewrite lookup_empty in H. cbn in H. injection H as <-. done.
    + unfold lget, lset, live_of in H. simpl in H.
      destruct (fs !! MCP_SERVERS) as [ms|] eqn:E; cbn in H.
      * destruct (truthy ms) eqn:Tm; cbn in H; injection H as <-.
        -- unfold alias, store_back, Object_assign, lget, live_of.
           simpl. rewrite E. simpl.
           unfold servers_of, prop, lget, live_of. simpl. rewrite E.
           destruct ms; simpl; simpl_map; done.
        -- unfold alias, store_back, Object_assign, lget, live_of.
           simpl. simpl_map. simpl.
           unfold servers_of, prop, lget, live_of. simpl. rewrite E. simpl_map.
           by destruct ms.
      * injection H as <-.
        unfold alias, store_back, Object_assign, lget, live_of.
        simpl. simpl_map. simpl.
        unfold servers_of, prop, lget, live_of. simpl. rewrite E. by simpl_map.
  - unfold lget, lset, live_of in H. simpl in H.
    rewrite lookup_empty in H. cbn in H. injection H as <-.
    unfold alias, store_back, Object_assign, lget, live_of.
    simpl. simpl_map. simpl.
    unfold servers_of, prop, lget, live_of. simpl. simpl_map.
    by destruct read.
Qed.

Lemma claudecode_upserted_elements read apiKey others isUpdated config :
  claudecode_upserted read apiKey = Ok (others, isUpdated, config) →
  elements (shown config) = elements read
  ∧ elements (servers_of (shown config)) = elements (servers_of read).
Proof.
  unfold claudecode_upserted, member. intros H.
  destruct read as [|b|n|s|elems|fs]; try discriminate H.
  - unfold prop, lget, lset, live_of in H. simpl in H.
    rewrite lookup_empty in H. simpl in H.
    unfold alias, store_back, lset, lget, live_of in H. simpl in H.
    rewrite lookup_insert_eq in H. simpl in H. injection H as _ _ <-. done.
  - unfold prop, lget, lset, live_of in H. simpl in H.
    destruct (fs !! MCP_SERVERS) as [ms|] eqn:E; simpl in H.
    + destruct (truthy ms) eqn:Tm; simpl in H.
      * unfold alias, store_back, lset, lget, live_of in H. simpl in H.
        rewrite E in H. simpl in H.
        destruct ms; try discriminate H; simpl in H; injection H as _ _ <-;
          unfold servers_of, prop, lget, live_of; simpl; rewrite E; simpl_map; done.
      * unfold alias, store_back, lset, lget, live_of in H. simpl in H.
        rewrite lookup_insert_eq in H. simpl in H. injection H as _ _ <-.
        unfold servers_of, prop, lget, live_of; simpl; rewrite E. simpl_map.
        by destruct ms.
    + unfold alias, store_back, lset, lget, live_of in H. simpl in H.
      rewrite lookup_insert_eq in H. simpl in H. injection H as _ _ <-.
      unfold servers_of, prop, lget, live_of; simpl; rewrite E. by simpl_map.
Qed.

Lemma upserted_same_rest read apiKey already servers config :
  upserted read apiKey = Ok (already, servers, config) →
  same_rest read (shown config).
Proof.
  intros H. split; [by eapply upserted_same_but_entry|].
  revert H. unfold upserted. destruct (ensure_mcpServers _) as [c|m] eqn:E; [|done].
  intros [= _ _ <-]. by apply upsert_elements.
Qed.

Lemma claudecode_upserted_same_rest read apiKey others isUpdated config :
  claudecode_upserted read apiKey = Ok (others, isUpdated, config) →
  same_rest read (shown config).
Proof.
  intros H. split; [by eapply claudecode_upserted_same_but_entry|].
  by eapply claudecode_upserted_elements.
Qed.

Lemma backup_keeps p now σ : p ≠ [] →
  final_fs (BasePlatform.backupConfig p now σ) !! p = σ !! p.
Proof.
  intros Hp.
  destruct (backupConfig_spec p now σ Hp) as [(_ & ->)|[(c & _ & _ & _ & ->)|(e & -> & _)]];
    simpl; try done.
  rewrite lookup_insert_ne; [done|]. apply add_suffix_ne, backup_suffix_nonempty.
Qed.

(** The file a [writeConfig] that returns has written. *)
Lemma writeConfig_returned p config σ y σ' : p ≠ [] →
  BasePlatform.writeConfig p config σ = Done y σ' →
  σ' !! p = Some (File (JsonText (printed (shown config)))).
Proof.
  intros Hp Hr.
  destruct (writeConfig_spec p config σ Hp) as (σ1 & _ & [(E & _)|(e & E)]);
    rewrite E in Hr; [|done].
  injection Hr as _ <-. by rewrite lookup_insert_eq.
Qed.

Lemma configure_checked_keeps p apiKey now σ D r σ' : p ≠ [] →
  σ !! p = Some (File (JsonText D)) →
  settle (configure_checked p apiKey now σ) = Done r σ' →
  ∃ D', σ' !! p = Some (File (JsonText D')) ∧ rest_rewritten D D'.
Proof.
  intros Hp Hfile.
  rewrite configure_checked_run, readConfig_eq, node_at_nonempty, Hfile by done.
  simpl. unfold lift.
  destruct (upserted (parsed D) apiKey) as [[[already servers] config]|m] eqn:Eu; simpl;
    [|done].
  apply upserted_same_rest, rest_rewritten_printed in Eu.
  assert (Hw : ∀ σ1, bind_res (BasePlatform.writeConfig p config σ1)
      (λ _ σ2, Done (Report already (bool_decide (1 < length (Object_keys servers))) None) σ2)
      = Done r σ' →
    ∃ D', σ' !! p = Some (File (JsonText D')) ∧ rest_rewritten D D').
  { intros σ1.
    destruct (writeConfig_returns p config σ1) as [(y & σ2 & Hr)|(e & σ2 & Hr)];
      rewrite Hr; simpl; [|done].
    intros [= _ <-]. exists (printed (shown config)).
    split; [by eapply writeConfig_returned|done]. }
  destruct (truthy_opt already); simpl; [|by apply Hw].
  destruct (backupConfig_returns p now σ) as [(x & σ1 & Hr)|(e & σ1 & Hr)];
    rewrite Hr; simpl; [by apply Hw|done].
Qed.

Lemma configure_backup_first_keeps p apiKey now σ D r σ' : p ≠ [] →
  σ !! p = Some (File (JsonText D)) →
  settle (configure_backup_first p apiKey now σ) = Done r σ' →
  ∃ D', σ' !! p = Some (File (JsonText D')) ∧ rest_rewritten D D'.
Proof.
  intros Hp Hfile.
  rewrite configure_backup_first_run.
  pose proof (backup_keeps p now σ Hp) as Hb.
  destruct (backupConfig_returns p now σ) as [(x & σ1 & Hr)|(e & σ1 & Hr)];
    rewrite Hr in *; simpl in *; [|done].
  rewrite Hfile in Hb.
  rewrite readConfig_eq, node_at_nonempty, Hb by done. simpl. unfold lift.
  destruct (upserted (parsed D) apiKey) as [[[already servers] config]|m] eqn:Eu; simpl;
    [|done].
  apply upserted_same_rest, rest_rewritten_printed in Eu.
  destruct (writeConfig_returns p config σ1) as [(y & σ2 & Hr')|(e & σ2 & Hr')];
    rewrite Hr'; simpl; [|done].
  intros [= _ <-]. exists (printed (shown config)).
  split; [by eapply writeConfig_returned|done].
Qed.

Lemma claudecode_configure_keeps d apiKey s now σ D r σ' :
  σ !! ClaudeCode.getConfigPath d = Some (File (JsonText D)) →
  settle (ClaudeCode.configure d apiKey s now σ) = Done r σ' →
  ∃ D', σ' !! ClaudeCode.getConfigPath d = Some (File (JsonText D')) ∧ rest_rewritten D D'.
Proof.
  intros Hfile. rewrite claudecode_configure_run. cbv zeta.
  set (p := ClaudeCode.getConfigPath d) in *.
  assert (Hp : p ≠ []) by (by apply app_nonempty_r).
  assert (Hdirs : ∃ σ1, σ1 !! p = σ !! p ∧
    ((if existsSync σ (dirname p) then Done () σ else mkdir_from [] (dirname p) σ) = Done () σ1
     ∨ ∃ e, (if existsSync σ (dirname p) then Done () σ else mkdir_from [] (dirname p) σ)
            = Raised e σ1)).
  { destruct (existsSync σ (dirname p)); [by eauto|].
    pose proof (mkdir_from_frame [] (dirname p) σ p (not_prefix_of_dirname p Hp)) as Hf.
    destruct (mkdir_from_settled [] (dirname p) σ) as [(σ1 & Hr)|(e & σ1 & Hr)];
      rewrite Hr in *; simpl in Hf; eauto. }
  destruct Hdirs as (σ1 & Hσ1 & [->|(e & ->)]); simpl; [|done].
  rewrite Hfile in Hσ1.
  unfold claudecode_read, existsSync, readFileSync. rewrite node_at_nonempty, Hσ1 by done.
  simpl.
  destruct (claudecode_upserted (parsed D) apiKey) as [[[others isUpdated] config]|m] eqn:Eu;
    simpl; [|done].
  apply claudecode_upserted_same_rest, rest_rewritten_printed in Eu.
  unfold fs_writeFileSync. rewrite writeFileSync_eq by done.
  rewrite Hσ1. destruct (node_at σ1 (dirname p)) as [[c|]|]; simpl; try done.
  intros [= _ <-]. exists (printed (shown config)). by rewrite lookup_insert_eq.
Qed.

Lemma configure_keeps a d apiKey s now σ p D r σ' :
  config_path a d s = Some p →
  σ !! p = Some (File (JsonText D)) →
  settle (configure a d apiKey s now σ) = Done r σ' →
  ∃ D', σ' !! p = Some (File (JsonText D')) ∧ rest_rewritten D D'.
Proof.
  intros Hpath Hfile. pose proof (config_path_nonempty a d s p Hpath) as Hp.
  rewrite configure_eq.
  destruct a; rewrite ?Hpath; simpl checks_entry; cbv iota;
    try (by apply configure_checked_keeps);
    try (by apply configure_backup_first_keeps).
  simpl in Hpath. injection Hpath as <-. by apply claudecode_configure_keeps.
Qed.

(** A number that a double holds, and that [Number.prototype.toString]
    prints digit for digit, comes back as it was. *)
Lemma rewritten_small n : (Z.abs n < 2 ^ 53)%Z → rewritten (JNum n) = JNum n.
Proof.
  intros Hn. unfold rewritten, parsed, printed. simpl.
  by rewrite to_double_small, number_text_small.
Qed.

(** C1, counterexample.  Cursor's [configure] on
    [{ "id": 12345678901234567890, "limit": 1e400 }] writes
    [{ "id": 12345678901234567000, "limit": null, "mcpServers": ... }]:
    the two fields beside [mcpServers] are not as they were. *)
Lemma configure_rewrites_numbers : ¬ keeps_the_rest_as_stated.
Proof.
  intros H.
  destruct (H Cursor linux_host "abc123xyz" None 17%N cursor_with_big_numbers cursor_file
              big_number_document (Report None false None)
              (<[cursor_file := File (JsonText
                   (JObj (<["id" := JNum 12345678901234567000]>
                          (<["limit" := JNull]>
                           (<[MCP_SERVERS := JObj {[SPECTATOR := spectator_entry "abc123xyz"]}]>
                            ∅)))))]> cursor_with_big_numbers))
    as (D' & HD' & Hfields & _).
  - reflexivity.
  - vm_compute. reflexivity.
  - vm_compute. reflexivity.
  - rewrite lookup_insert_eq in HD'. injection HD' as <-.
    specialize (Hfields "limit"). vm_compute in Hfields. by discriminate Hfields.
Qed.

(** C1, amended.  When a [configure] returns, the file holds a document
    where every top-level field beside [mcpServers], every entry of
    [mcpServers] beside the tool's, and every element of a document or
    of an [mcpServers] that is an array, is what [JSON.parse] and then
    [JSON.stringify] make of the one found: the same value, its numbers
    printed as the doubles they were read as.  A field whose text comes
    back from the two as it is, such as an integer below 2^53, is
    unchanged. *)
Theorem configure_keeps_the_rest a d apiKey s now σ p D r σ' :
  config_path a d s = Some p →
  σ !! p = Some (File (JsonText D)) →
  settle (configure a d apiKey s now σ) = Done r σ' →
  ∃ D', σ' !! p = Some (File (JsonText D'))
        ∧ (∀ k, k ≠ MCP_SERVERS → prop D' k = rewritten <$> prop D k)
        ∧ (∀ k, k ≠ SPECTATOR →
             prop (servers_of D') k = rewritten <$> prop (servers_of D) k)
        ∧ elements D' = rewritten <$> elements D
        ∧ elements (servers_of D') = rewritten <$> elements (servers_of D)
        ∧ (∀ k v, k ≠ MCP_SERVERS → prop D k = Some v → rewritten v = v →
             prop D' k = Some v)
        ∧ (∀ k v, k ≠ SPECTATOR → prop (servers_of D) k = Some v → rewritten v = v →
             prop (servers_of D') k = Some v)
        ∧ (∀ n, (Z.abs n < 2 ^ 53)%Z → rewritten (JNum n) = JNum n).
Proof.
  intros Hpath Hfile Hr.
  destruct (configure_keeps a d apiKey s now σ p D r σ' Hpath Hfile Hr)
    as (D' & HD' & H1 & H2 & H3 & H4).
  exists D'. repeat split; try done.
  - intros k v Hk Hv Hsame. rewrite H1, Hv by done. simpl. by rewrite Hsame.
  - intros k v Hk Hv Hsame. rewrite H2, Hv by done. simpl. by rewrite Hsame.
  - apply rewritten_small.
Qed.

Lemma configure_keeps_the_rest_witness :
  ∃ D', final_fs (configure Cursor linux_host "abc123xyz" None 17%N cursor_with_other_tool)
          !! cursor_file = Some (File (JsonText D'))
        ∧ (∀ k, k ≠ MCP_SERVERS → prop D' k = rewritten <$> prop other_tool_document k)
        ∧ (∀ k, k ≠ SPECTATOR →
             prop (servers_of D') k = rewritten <$> prop (servers_of other_tool_document) k)
        ∧ elements D' = rewritten <$> elements other_tool_document
        ∧ elements (servers_of D') = rewritten <$> elements (servers_of other_tool_document)
        ∧ (∀ k v, k ≠ MCP_SERVERS → prop other_tool_document k = Some v → rewritten v = v →
             prop D' k = Some v)
        ∧ (∀ k v, k ≠ SPECTATOR → prop (servers_of other_tool_document) k = Some v →
             rewritten v = v → prop (servers_of D') k = Some v)
        ∧ (∀ n, (Z.abs n < 2 ^ 53)%Z → rewritten (JNum n) = JNum n).
Proof.
  apply (configure_keeps_the_rest Cursor linux_host "abc123xyz" None 17%N
           cursor_with_other_tool cursor_file other_tool_document
           (Report None true None)).
  - reflexivity.
  - vm_compute. reflexivity.
  - vm_compute. reflexivity.
Defined.

(** ** [validate] *)

Lemma settle_raw {A} (r : res A) a σ : r = Done a σ → settle r = Done a σ.
Proof. by intros ->. Qed.

Lemma check_cursor_missing σ o s results :
  (∀ p, o = Some p → existsSync σ p = false) →
  CursorPlatform.check o s results σ = Done results σ.
Proof.
  intros H. destruct o as [p|]; [|done].
  unfold CursorPlatform.check, bind, fs_existsSync. simpl.
  by rewrite (H p eq_refl).
Qed.

Lemma check_vscode_missing σ o s results :
  (∀ p, o = Some p → existsSync σ p = false) →
  VSCodePlatform.check o s results σ = Done results σ.
Proof.
  intros H. destruct o as [p|]; [|done].
  unfold VSCodePlatform.check, bind, fs_existsSync. simpl.
  by rewrite (H p eq_refl).
Qed.

(** C7.  With no configuration file in any scope, [validate] returns
    [{ valid: false, error }] with a message, and does not throw. *)
Theorem validate_without_file a d σ :
  (∀ p, Some p ∈ scope_paths a d → existsSync σ p = false) →
  ∃ message,
    settle (validate a d σ) = Done (Validation None false (Some message)) σ
    ∧ message ≠ "".
Proof.
  intros Hnone.
  assert (Hin : ∀ o p, o ∈ scope_paths a d → o = Some p → existsSync σ p = false).
  { intros o p Ho ->. by apply Hnone. }
  destruct a; simpl in Hin |- *.
  - (* Claude Desktop *)
    unfold ClaudePlatform.validate.
    destruct (getConfigPath d "claude" global) as [p|] eqn:E.
    + exists "Configuration file not found". split; [|done].
      unfold bind, fs_existsSync. simpl.
      rewrite (Hin (Some p) p); [done| |done]. apply list_elem_of_here.
    + by exists "Configuration file not found".
  - (* Claude Code *)
    exists "Configuration file not found". split; [|done].
    unfold ClaudeCode.validate, bind, fs_existsSync. simpl.
    rewrite (Hin _ _ (list_elem_of_here _ _) eq_refl). done.
  - (* Cursor *)
    exists "No configuration found". split; [|done].
    unfold CursorPlatform.validate.
    rewrite settle_bind, check_cursor_missing.
    2: { intros p E. apply (Hin _ p (list_elem_of_here _ _) E). }
    cbn [bind_res settle].
    rewrite settle_bind, check_cursor_missing; [done|].
    intros p E. apply (Hin (getConfigPath d "cursor" project) p); [|done].
    apply list_elem_of_further, list_elem_of_here.
  - (* Windsurf *)
    unfold WindsurfPlatform.validate.
    destruct (getConfigPath d "windsurf" global) as [p|] eqn:E.
    + exists "Configuration file not found". split; [|done].
      unfold bind, fs_existsSync. simpl.
      rewrite (Hin (Some p) p); [done| |done]. apply list_elem_of_here.
    + by exists "Configuration file not found".
  - (* VS Code *)
    exists "No configuration found". split; [|done].
    unfold VSCodePlatform.validate.
    rewrite settle_bind, check_vscode_missing.
    2: { intros p E. apply (Hin _ p (list_elem_of_here _ _) E). }
    cbn [bind_res settle].
    rewrite settle_bind, check_vscode_missing; [done|].
    intros p E. apply (Hin (getConfigPath d "vscode" project) p); [|done].
    apply list_elem_of_further, list_elem_of_here.
  - (* Cline *)
    unfold ClinePlatform.validate.
    destruct (getConfigPath d "cline" global) as [p|] eqn:E.
    + exists "Configuration file not found. Cline extension may not be installed.".
      split; [|done].
      unfold bind, fs_existsSync. simpl.
      rewrite (Hin (Some p) p); [done| |done]. apply list_elem_of_here.
    + by exists "Configuration file not found. Cline extension may not be installed.".
  - (* the earlier Windsurf *)
    unfold WindsurfPlatformOld.validate, WindsurfPlatform.validate.
    destruct (getConfigPath d "windsurf" global) as [p|] eqn:E.
    + exists "Configuration file not found". split; [|done].
      unfold bind, fs_existsSync. simpl.
      rewrite (Hin (Some p) p); [done| |done]. apply list_elem_of_here.
    + by exists "Configuration file not found".
Qed.


Lemma validate_without_file_witness :
  ∃ message,
    settle (validate Cursor linux_host ∅) = Done (Validation None false (Some message)) ∅
    ∧ message ≠ "".
Proof.
  apply (validate_without_file Cursor linux_host ∅).
  intros p Hp. apply list_elem_of_In in Hp. simpl in Hp.
  destruct Hp as [[= <-]|[[= <-]|[]]]; reflexivity.
Defined.

(** ** [readConfig] *)

Lemma readConfig_missing_is_null :
  settle (BasePlatform.readConfig ["home"; "u"; ".cursor"; "mcp.json"] ∅) = Done JNull ∅.
Proof. reflexivity. Qed.

(** C3, counterexample.  For a missing file [readConfig] returns [null],
    which is not the empty document. *)
Lemma readConfig_not_as_stated : ¬ readConfig_as_stated.
Proof.
  intros H.
  destruct (H ∅ ["home"; "u"; ".cursor"; "mcp.json"]) as [Hmissing _].
  specialize (Hmissing eq_refl). rewrite readConfig_missing_is_null in Hmissing.
  discriminate Hmissing.
Qed.

(** C3, amended.  For a missing file [readConfig] returns [null] and does
    not throw, and the [|| {}] of every [configure] makes the empty
    document of it.  For a file that is not JSON it throws an error whose
    message names the path, and leaves the file system as it was. *)
Theorem readConfig_missing_or_malformed (σ : fs) (p : path) :
  (existsSync σ p = false →
   settle (BasePlatform.readConfig p σ) = Done JNull σ
   ∧ or_else (Some JNull) (JObj ∅) = JObj ∅)
  ∧ (∀ c m, p ≠ [] → σ !! p = Some (File c) → JSON_parse c = Err m →
     settle (BasePlatform.readConfig p σ)
     = Raised ("Failed to read config from " +:+ path_str p +:+ ": " +:+ m) σ).
Proof.
  split.
  - intros Hex. rewrite readConfig_eq. unfold existsSync in Hex.
    destruct (node_at σ p); [discriminate|done].
  - intros c m Hp Hfile Hparse.
    by rewrite readConfig_eq, node_at_nonempty, Hfile, Hparse.
Qed.

Lemma readConfig_missing_or_malformed_witness :
  settle (BasePlatform.readConfig cursor_file cursor_with_broken_file)
  = Raised ("Failed to read config from " +:+ path_str cursor_file +:+ ": "
            +:+ "Unexpected token in JSON: { mcpServers: ")
           cursor_with_broken_file.
Proof.
  apply (proj2 (readConfig_missing_or_malformed cursor_with_broken_file cursor_file)
           (Garbage "{ mcpServers: ")).
  - discriminate.
  - vm_compute. reflexivity.
  - reflexivity.
Defined.

(** ** A first [configure] *)

Lemma upserted_fresh read apiKey :
  truthy read = false →
  upserted read apiKey
  = Ok (None, Live (JObj {[SPECTATOR := spectator_entry apiKey]}) ∅,
        Live (fresh_document apiKey) ∅).
Proof.
  intros T. unfold upserted, ensure_mcpServers, or_else. rewrite T.
  unfold lget, lset, live_of. simpl. rewrite lookup_empty. simpl.
  unfold alias, store_back, Object_assign, lget, live_of,
    BasePlatform.getMcpServerConfig, fresh_document. simpl.
  rewrite lookup_insert_eq. simpl.
  rewrite lookup_empty, (right_id_L ∅ (∪)), insert_insert_eq. done.
Qed.

Lemma claudecode_upserted_fresh apiKey :
  claudecode_upserted (JObj ∅) apiKey
  = Ok (false, false, Live (fresh_document apiKey) ∅).
Proof.
  unfold claudecode_upserted, member, prop, lget, lset, live_of. simpl.
  rewrite lookup_empty. simpl.
  unfold alias, store_back, lget, lset, live_of, Object_keys, fresh_document. simpl.
  rewrite lookup_insert_eq. simpl.
  rewrite lookup_empty, map_to_list_empty, insert_insert_eq. done.
Qed.

Lemma singleton_keys (k : string) (v : json) :
  (map_to_list ({[k := v]} : gmap string json)).*1 = [k].
Proof. by rewrite map_to_list_singleton. Qed.

Lemma node_at_dir_of_exists σ p :
  existsSync σ p = true → (∀ c, node_at σ p ≠ Some (File c)) → node_at σ p = Some Dir.
Proof.
  unfold existsSync. destruct (node_at σ p) as [[c|]|]; try done.
  intros _ H. by destruct (H c).
Qed.

Lemma writable_dir σ p c : writable σ p → node_at σ (dirname p) ≠ Some (File c).
Proof.
  intros [_ H]. destruct (dirname p) as [|x l] eqn:E; [done|].
  simpl. by apply H.
Qed.

(** What a first [configure] does, adapter by adapter. *)
Lemma first_configure_result a d apiKey s now σ p :
  config_path a d s = Some p → σ !! p = None → writable σ p →
  ∃ σ',
    settle (configure a d apiKey s now σ) = Done (first_result a p) σ'
    ∧ σ' !! p = Some (File (JsonText (fresh_document apiKey)))
    ∧ node_at σ' (dirname p) = Some Dir.
Proof.
  intros Hpath Hnone Hw. pose proof (config_path_nonempty a d s p Hpath) as Hp.
  rewrite configure_eq.
  destruct (decide (a = ClaudeCodeAdapter)) as [->|Ha].
  - (* Claude Code *)
    simpl in Hpath. injection Hpath as Hpath.
    rewrite claudecode_configure_run. cbv zeta. rewrite Hpath. simpl first_result.
    assert (Hdirs : ∃ σ1, σ1 !! p = None ∧ node_at σ1 (dirname p) = Some Dir ∧
      (if existsSync σ (dirname p) then Done () σ else mkdir_from [] (dirname p) σ)
      = Done () σ1).
    { destruct (existsSync σ (dirname p)) eqn:Hex.
      - exists σ. split; [done|]. split; [|done].
        apply node_at_dir_of_exists; [done|]. intros c. by apply writable_dir.
      - destruct Hw as [_ Hfree].
        destruct (mkdir_from_ok [] (dirname p) σ Hfree) as (σ1 & Hrun & Hdir).
        pose proof (mkdir_from_frame [] (dirname p) σ p (not_prefix_of_dirname p Hp)) as Hf.
        rewrite Hrun in Hf. simpl in Hf. exists σ1.
        split; [congruence|]. split; [|done].
        destruct (dirname p) as [|x l] eqn:E; [done|]. simpl. by apply Hdir. }
    destruct Hdirs as (σ1 & Hσ1 & Hdir & ->). simpl.
    unfold claudecode_read, existsSync. rewrite node_at_nonempty, Hσ1 by done. simpl.
    rewrite claudecode_upserted_fresh. simpl.
    unfold fs_writeFileSync. rewrite writeFileSync_eq, Hσ1, Hdir by done. simpl.
    eexists. split; [reflexivity|]. split; [by rewrite lookup_insert_eq|].
    destruct (dirname p) as [|x l] eqn:E; [done|]. simpl in *.
    rewrite lookup_insert_ne; [done|].
    intros Eq. apply (f_equal length) in Eq. rewrite (dirname_length p Hp), E in Eq.
    simpl in Eq. lia.
  - (* the adapters over BasePlatform *)
    assert (Hrun : ∃ σ',
      settle ((if checks_entry a then configure_checked p apiKey now
               else configure_backup_first p apiKey now) σ)
      = Done (first_result a p) σ'
      ∧ σ' !! p = Some (File (JsonText (fresh_document apiKey)))
      ∧ node_at σ' (dirname p) = Some Dir).
    { destruct (writeConfig_ok p (Live (fresh_document apiKey) ∅) σ Hp Hw)
        as (σ1 & Hdirs & Hwrite & Hdir).
      exists (<[p := File (JSON_stringify (Live (fresh_document apiKey) ∅))]> σ1).
      split; [|split; [by rewrite lookup_insert_eq|]].
      - destruct (checks_entry a) eqn:Hc.
        + rewrite configure_checked_run, readConfig_eq, node_at_nonempty, Hnone by done.
          simpl. rewrite upserted_fresh by done. simpl. rewrite Hwrite. simpl.
          unfold Object_keys. simpl. rewrite singleton_keys. simpl.
          by destruct a.
        + rewrite configure_backup_first_run, backupConfig_eq, node_at_nonempty, Hnone by done.
          simpl. rewrite readConfig_eq, node_at_nonempty, Hnone by done.
          simpl. rewrite upserted_fresh by done. simpl. rewrite Hwrite. simpl.
          by destruct a.
      - destruct (dirname p) as [|x l] eqn:E; [done|]. simpl in *.
        rewrite lookup_insert_ne; [done|].
        intros Eq. apply (f_equal length) in Eq. rewrite (dirname_length p Hp), E in Eq.
        simpl in Eq. lia. }
    destruct a; try done; rewrite Hpath; exact Hrun.
Qed.

(** C4, counterexample.  VS Code's [configure] returns [true], which has
    no [updated] field. *)
Lemma first_configure_not_as_stated : ¬ first_configure_as_stated.
Proof.
  intros H.
  assert (Hw : writable (∅ : fs) ["work"; ".vscode"; "mcp.json"]).
  { split; [by rewrite lookup_empty|]. intros q c _. by rewrite lookup_empty. }
  destruct (H VSCode linux_host "abc123xyz" None 17%N ∅ ["work"; ".vscode"; "mcp.json"]
              eq_refl (lookup_empty _) Hw) as (others & cp & σ' & Hrun & _).
  destruct (first_configure_result VSCode linux_host "abc123xyz" None 17%N ∅
              ["work"; ".vscode"; "mcp.json"] eq_refl (lookup_empty _) Hw)
    as (σ'' & Hrun' & _).
  rewrite Hrun' in Hrun. discriminate Hrun.
Qed.

(** C4, amended.  On a platform whose file does not exist yet, every
    adapter's [configure] creates the missing directory and writes a
    document whose only content is the canonical entry, the key being
    the end of the URL in [args].  What it returns has no truthy
    [updated]: [{ updated: false }] from Claude Code, [{ updated:
    undefined }] from Cursor and Windsurf, a bare [true] from Claude
    Desktop, VS Code and Cline; the setup command records [updated:
    false] for each. *)
Theorem first_configure a d apiKey s now σ p :
  config_path a d s = Some p → σ !! p = None → writable σ p →
  ∃ σ',
    settle (configure a d apiKey s now σ) = Done (first_result a p) σ'
    ∧ recorded_updated (first_result a p) = JBool false
    ∧ node_at σ' (dirname p) = Some Dir
    ∧ σ' !! p = Some (File (JsonText
        (JObj {[MCP_SERVERS := JObj {[SPECTATOR := spectator_entry apiKey]}]})))
    ∧ spectator_entry apiKey
      = JObj (<["command" := JStr "npx"]>
              (<["args" := JArr [JStr "-y"; JStr "mcp-remote";
                   JStr ("https://spectatorcontext.com/mcp-server/mcp/" +:+ apiKey)]]> ∅)).
Proof.
  intros Hpath Hnone Hw.
  destruct (first_configure_result a d apiKey s now σ p Hpath Hnone Hw)
    as (σ' & Hrun & Hfile & Hdir).
  exists σ'. split; [done|]. split; [by destruct a|]. split; [done|]. split; [done|].
  reflexivity.
Qed.

Lemma first_configure_witness :
  ∃ σ',
    settle (configure Cursor linux_host "abc123xyz" (Some global) 17%N empty_home)
    = Done (first_result Cursor ["home"; "u"; ".cursor"; "mcp.json"]) σ'
    ∧ recorded_updated (first_result Cursor ["home"; "u"; ".cursor"; "mcp.json"]) = JBool false
    ∧ node_at σ' (dirname ["home"; "u"; ".cursor"; "mcp.json"]) = Some Dir
    ∧ σ' !! ["home"; "u"; ".cursor"; "mcp.json"] = Some (File (JsonText
        (JObj {[MCP_SERVERS := JObj {[SPECTATOR := spectator_entry "abc123xyz"]}]})))
    ∧ spectator_entry "abc123xyz"
      = JObj (<["command" := JStr "npx"]>
              (<["args" := JArr [JStr "-y"; JStr "mcp-remote";
                   JStr ("https://spectatorcontext.com/mcp-server/mcp/" +:+ "abc123xyz")]]> ∅)).
Proof.
  apply (first_configure Cursor linux_host "abc123xyz" (Some global) 17%N empty_home
           ["home"; "u"; ".cursor"; "mcp.json"]).
  - reflexivity.
  - vm_compute. reflexivity.
  - split.
    + vm_compute. discriminate.
    + intros q c [k Hk].
      destruct q as [|x1 [|x2 [|x3 [|x4 q]]]]; simplify_eq/=; vm_compute; discriminate.
Defined.

(** ** Backups *)

Lemma final_fs_bind_done {A B} (r : res A) (g : A → B) :
  final_fs (bind_res r (λ a σ, Done (g a) σ)) = final_fs r.
Proof. induction r; simpl; auto. Qed.

Lemma touched_refl σ p : touched σ σ p.
Proof. exists σ. split; [apply dirs_made_refl|by left]. Qed.

Lemma writeConfig_touched p config σ : p ≠ [] →
  touched σ (final_fs (BasePlatform.writeConfig p config σ)) p.
Proof.
  intros Hp.
  destruct (writeConfig_spec p config σ Hp) as (σ1 & Hdirs & [(-> & _)|(e & ->)]);
    exists σ1; (split; [done|]); simpl; eauto.
Qed.

Lemma touched_other σ σ' p q :
  touched σ σ' p → q ≠ p → ¬ q `prefix_of` dirname p → σ' !! q = σ !! q.
Proof.
  intros (σ1 & [Hframe _] & [->|(c & ->)]) Hq Hpre; [by apply Hframe|].
  rewrite lookup_insert_ne by done. by apply Hframe.
Qed.

Lemma touched_new σ σ' p q :
  touched σ σ' p → σ !! q = None → is_Some (σ' !! q) → q = p ∨ q `prefix_of` dirname p.
Proof.
  intros Ht Hnone Hsome.
  destruct (decide (q = p)) as [|Hq]; [by left|].
  destruct (decide (q `prefix_of` dirname p)) as [|Hpre]; [by right|].
  rewrite (touched_other σ σ' p q Ht Hq Hpre), Hnone in Hsome. by destruct Hsome.
Qed.

(** A file stays a file, whatever is written elsewhere. *)
Lemma touched_file σ σ' p q c :
  touched σ σ' p → q ≠ p → σ !! q = Some (File c) → σ' !! q = Some (File c).
Proof.
  intros (σ1 & [_ Hdirs] & Hend) Hq Hfile.
  assert (H1 : σ1 !! q = Some (File c)).
  { destruct (Hdirs q) as [->|[_ Hc]]; [done|]. by destruct (Hc c). }
  destruct Hend as [->|(x & ->)]; [done|]. by rewrite lookup_insert_ne.
Qed.

Lemma JSON_parse_ok c j : JSON_parse c = Ok j → ∃ text, c = JsonText text ∧ j = parsed text.
Proof. destruct c; simpl; try done. intros [= <-]. eauto. Qed.

Lemma configured_parsed D : configured (parsed D) = configured D.
Proof.
  unfold configured, parsed. rewrite servers_of_jmap, prop_jmap.
  apply truthy_opt_parsed.
Qed.

Lemma upserted_already read apiKey already servers config :
  upserted read apiKey = Ok (already, servers, config) →
  already = prop (servers_of read) SPECTATOR.
Proof.
  unfold upserted, ensure_mcpServers, or_else, servers_of, prop.
  destruct (truthy read) eqn:T.
  - destruct read as [|b|n|s|elems|fs]; try discriminate T; try discriminate.
    + unfold lget, lset, live_of. simpl. rewrite lookup_empty. simpl.
      intros [= <- _ _]. unfold alias, lget, live_of. simpl.
      by rewrite lookup_insert_eq, lookup_empty.
    + unfold lget, lset, live_of. simpl.
      destruct (fs !! MCP_SERVERS) as [ms|] eqn:E; simpl.
      * destruct (truthy ms) eqn:Tm; simpl; intros [= <- _ _];
          unfold alias, lget, live_of; simpl.
        -- by rewrite E.
        -- rewrite lookup_insert_eq. simpl. rewrite lookup_empty.
           symmetry. by apply (prop_falsy ms).
      * intros [= <- _ _]. unfold alias, lget, live_of. simpl.
        by rewrite lookup_insert_eq.
  - unfold lget, lset, live_of. simpl. rewrite lookup_empty. simpl.
    intros [= <- _ _]. unfold alias, lget, live_of. simpl.
    rewrite lookup_insert_eq. simpl. rewrite lookup_empty.
    by destruct read.
Qed.

Lemma upserted_configured D apiKey :
  configured D = true →
  ∃ servers config,
    upserted D apiKey = Ok (prop (servers_of D) SPECTATOR, servers, config).
Proof.
  unfold configured, servers_of, prop, lget, live_of. simpl.
  destruct D as [|b|n|s|elems|fs]; simpl; rewrite ?lookup_empty; try done.
  destruct (fs !! MCP_SERVERS) as [ms|] eqn:E; simpl; [|done].
  destruct ms as [|b|n|s|elems|m]; simpl; rewrite ?lookup_empty; try done.
  intros Hm. unfold upserted, ensure_mcpServers, or_else, lget, live_of. simpl.
  rewrite E. simpl. unfold alias, lget, live_of. simpl. rewrite E. simpl. eauto.
Qed.

Lemma backup_path_ne p now : backup_path p now ≠ p.
Proof. apply add_suffix_ne, backup_suffix_nonempty. Qed.

Lemma backup_path_not_prefix p now : p ≠ [] → ¬ backup_path p now `prefix_of` dirname p.
Proof. apply backup_not_prefix_of_dirname. Qed.

(** What [backupConfig] leaves at the backup path, on a file system
    where that path is free and the file, if any, lies in a directory. *)
Lemma backup_final_lookup p now σ :
  p ≠ [] → σ !! backup_path p now = None →
  (σ !! p ≠ None → node_at σ (dirname p) = Some Dir) →
  final_fs (BasePlatform.backupConfig p now σ) !! backup_path p now
  = match σ !! p with Some (File c) => Some (File c) | _ => None end.
Proof.
  intros Hp Hfree Hdir. fold (backup_path p now).
  destruct (backupConfig_spec p now σ Hp) as
    [(Hnone & ->)|[(c & Hfile & _ & _ & ->)|(e & -> & Hwhy)]]; simpl.
  - by rewrite Hnone.
  - rewrite Hfile. apply lookup_insert_eq.
  - destruct (σ !! p) as [[c|]|] eqn:E; try done.
    destruct Hwhy as [?|[Hd|Hb]]; try done.
    + destruct Hd. by apply Hdir.
    + unfold backup_path in Hfree. congruence.
Qed.

Lemma configure_checked_touched p apiKey now σ : p ≠ [] →
  touched (if configured_file σ p then final_fs (BasePlatform.backupConfig p now σ) else σ)
          (final_fs (configure_checked p apiKey now σ)) p.
Proof.
  intros Hp. unfold configured_file.
  rewrite <- (final_fs_settle (configure_checked _ _ _ _)), configure_checked_run,
    readConfig_eq, node_at_nonempty by done.
  destruct (σ !! p) as [[c|]|] eqn:Hfile; simpl; try apply touched_refl.
  - destruct (JSON_parse c) as [D|m] eqn:Hparse; simpl.
    2: { destruct c; try apply touched_refl. discriminate Hparse. }
    apply JSON_parse_ok in Hparse as (text & -> & ->). unfold lift.
    rewrite <- (configured_parsed text). set (D := parsed text).
    destruct (upserted D apiKey) as [[[already servers] config]|m] eqn:Eu; simpl.
    + rewrite (upserted_already _ _ _ _ _ Eu). fold (configured D).
      destruct (configured D); simpl.
      * destruct (backupConfig_returns p now σ) as [(x & σ1 & ->)|(e & σ1 & ->)]; simpl;
          [|apply touched_refl].
        rewrite final_fs_bind_done. by apply writeConfig_touched.
      * rewrite final_fs_bind_done. by apply writeConfig_touched.
    + destruct (configured D) eqn:Hc; [|apply touched_refl].
      destruct (upserted_configured D apiKey Hc) as (? & ? & Eu'). congruence.
  - rewrite upserted_fresh by done. simpl. rewrite final_fs_bind_done. by apply writeConfig_touched.
Qed.

Lemma configure_backup_first_touched p apiKey now σ : p ≠ [] →
  touched (final_fs (BasePlatform.backupConfig p now σ))
          (final_fs (configure_backup_first p apiKey now σ)) p.
Proof.
  intros Hp.
  rewrite <- (final_fs_settle (configure_backup_first _ _ _ _)), configure_backup_first_run.
  destruct (backupConfig_returns p now σ) as [(x & σ1 & ->)|(e & σ1 & ->)]; simpl;
    [|apply touched_refl].
  destruct (readConfig_returns p σ1) as [(read & σ2 & Hr)|(e & σ2 & Hr)].
  2: { rewrite Hr. simpl. rewrite readConfig_eq in Hr.
       destruct (node_at σ1 p) as [[c|]|]; try destruct (JSON_parse c);
         simplify_eq; apply touched_refl. }
  assert (σ2 = σ1) as ->.
  { rewrite readConfig_eq in Hr.
    destruct (node_at σ1 p) as [[c|]|]; try destruct (JSON_parse c); by simplify_eq. }
  rewrite Hr. simpl. unfold lift.
  destruct (upserted read apiKey) as [[[already servers] config]|m]; simpl;
    [|apply touched_refl].
  rewrite final_fs_bind_done. by apply writeConfig_touched.
Qed.

Lemma claudecode_configure_touched d apiKey s now σ :
  touched σ (final_fs (ClaudeCode.configure d apiKey s now σ)) (ClaudeCode.getConfigPath d).
Proof.
  rewrite claudecode_configure_run. cbv zeta.
  set (p := ClaudeCode.getConfigPath d) in *.
  assert (Hp : p ≠ []) by (by apply app_nonempty_r).
  assert (Hdirs : ∃ σ1, dirs_made σ σ1 p ∧
    ((if existsSync σ (dirname p) then Done () σ else mkdir_from [] (dirname p) σ) = Done () σ1
     ∨ ∃ e, (if existsSync σ (dirname p) then Done () σ else mkdir_from [] (dirname p) σ)
            = Raised e σ1)).
  { destruct (existsSync σ (dirname p)).
    - exists σ. split; [apply dirs_made_refl|by left].
    - pose proof (mkdir_dirs_made σ p) as Hd.
      destruct (mkdir_from_settled [] (dirname p) σ) as [(σ1 & Hr)|(e & σ1 & Hr)];
        rewrite Hr in *; simpl in Hd; eauto. }
  destruct Hdirs as (σ1 & Hd & [->|(e & ->)]); simpl.
  2: { exists σ1. split; [done|by left]. }
  exists σ1. split; [done|].
  unfold lift. destruct (claudecode_read σ1 p) as [read|m]; simpl; [|by left].
  destruct (claudecode_upserted read apiKey) as [[[others isUpdated] config]|m]; simpl;
    [|by left].
  unfold fs_writeFileSync. rewrite writeFileSync_eq by done.
  destruct (σ1 !! p) as [[c|]|]; simpl; try (by left);
    destruct (node_at σ1 (dirname p)) as [[c'|]|]; simpl; try (by left); right; eauto.
Qed.

(** What a [configure] leaves at the backup path. *)
Lemma configure_backup_lookup a d apiKey s now σ p :
  config_path a d s = Some p →
  σ !! backup_path p now = None →
  (σ !! p ≠ None → node_at σ (dirname p) = Some Dir) →
  final_fs (configure a d apiKey s now σ) !! backup_path p now
  = match a with
    | ClaudeCodeAdapter => None
    | Cursor | Windsurf =>
      if configured_file σ p then σ !! p else None
    | _ => match σ !! p with Some (File c) => Some (File c) | _ => None end
    end.
Proof.
  intros Hpath Hfree Hdir. pose proof (config_path_nonempty a d s p Hpath) as Hp.
  pose proof (backup_path_ne p now) as Hne.
  pose proof (backup_path_not_prefix p now Hp) as Hpre.
  pose proof (backup_final_lookup p now σ Hp Hfree Hdir) as Hb.
  assert (Hchecked :
    final_fs (configure_checked p apiKey now σ) !! backup_path p now
    = if configured_file σ p then σ !! p else None).
  { rewrite (touched_other _ _ p _ (configure_checked_touched p apiKey now σ Hp) Hne Hpre).
    unfold configured_file in *.
    destruct (σ !! p) as [[[|D|]|]|]; try done. destruct (configured D); done. }
  assert (Hfirst :
    final_fs (configure_backup_first p apiKey now σ) !! backup_path p now
    = match σ !! p with Some (File c) => Some (File c) | _ => None end).
  { by rewrite (touched_other _ _ p _ (configure_backup_first_touched p apiKey now σ Hp)
                 Hne Hpre). }
  rewrite configure_eq.
  destruct a; rewrite ?Hpath; simpl checks_entry; cbv iota; try done.
  simpl in Hpath. injection Hpath as <-.
  by rewrite (touched_other _ _ _ _ (claudecode_configure_touched d apiKey s now σ) Hne Hpre).
Qed.

(** What a [configure] can have created when the file was not there. *)
Lemma configure_first_touched a d apiKey s now σ p :
  config_path a d s = Some p → σ !! p = None →
  touched σ (final_fs (configure a d apiKey s now σ)) p.
Proof.
  intros Hpath Hnone. pose proof (config_path_nonempty a d s p Hpath) as Hp.
  assert (Hb : final_fs (BasePlatform.backupConfig p now σ) = σ).
  { by rewrite backupConfig_eq, node_at_nonempty, Hnone. }
  pose proof (configure_checked_touched p apiKey now σ Hp) as H1.
  pose proof (configure_backup_first_touched p apiKey now σ Hp) as H2.
  unfold configured_file in H1. rewrite Hnone in H1. rewrite Hb in H2.
  rewrite configure_eq.
  destruct a; rewrite ?Hpath; simpl checks_entry; cbv iota; try done.
  simpl in Hpath. injection Hpath as <-. apply claudecode_configure_touched.
Qed.

(** C2, counterexample.  VS Code's [configure] backs up a file that does
    not hold the entry. *)
Lemma backup_not_as_stated : ¬ backup_as_stated.
Proof.
  intros H.
  destruct (H VSCode linux_host "abc123xyz" None 17%N vscode_project vscode_file) as [Hto _].
  - reflexivity.
  - vm_compute. reflexivity.
  - intros _. vm_compute. reflexivity.
  - assert (Hno : configured_file vscode_project vscode_file = false)
      by (vm_compute; reflexivity).
    rewrite Hto in Hno; [discriminate|].
    rewrite (configure_backup_lookup VSCode linux_host "abc123xyz" None 17%N
               vscode_project vscode_file).
    + vm_compute. eauto.
    + reflexivity.
    + vm_compute. reflexivity.
    + intros _. vm_compute. reflexivity.
Qed.

(** C2, amended.  On a file system where the backup path is free and the
    file, if there is one, lies in a directory: Cursor's and Windsurf's
    [configure] leave a backup exactly when the file holds the entry;
    Claude Desktop's, VS Code's and Cline's (and the earlier Windsurf's)
    exactly when the file exists, entry or not.  In every adapter a backup
    holds what the file held before the write, and a [configure] that
    finds no file creates nothing but the file and the directories above
    it. *)
Theorem backup_policy a d apiKey s now σ p :
  config_path a d s = Some p →
  σ !! backup_path p now = None →
  (σ !! p ≠ None → node_at σ (dirname p) = Some Dir) →
  (a ≠ ClaudeCodeAdapter →
   (is_Some (final_fs (configure a d apiKey s now σ) !! backup_path p now)
    ↔ backs_up a σ p))
  ∧ (∀ n, final_fs (configure a d apiKey s now σ) !! backup_path p now = Some n →
          σ !! p = Some n)
  ∧ (σ !! p = None →
     ∀ q, σ !! q = None → is_Some (final_fs (configure a d apiKey s now σ) !! q) →
          q = p ∨ q `prefix_of` dirname p).
Proof.
  intros Hpath Hfree Hdir.
  pose proof (configure_backup_lookup a d apiKey s now σ p Hpath Hfree Hdir) as Hb.
  split; [|split].
  - intros Ha. rewrite Hb. unfold backs_up, configured_file.
    destruct a; try done;
      destruct (σ !! p) as [[[|D|]|]|]; try destruct (configured D);
      split; try done; try (intros [? ?]; done); try (intros [? [=]]); eauto.
  - intros n. rewrite Hb. unfold configured_file.
    destruct a; try done;
      destruct (σ !! p) as [[[|D|]|]|]; try destruct (configured D); done.
  - intros Hnone q Hq Hsome.
    by apply (touched_new σ _ p q (configure_first_touched a d apiKey s now σ p Hpath Hnone)).
Qed.

(** ** The two computations of [hasOtherServers] *)

Lemma pretty_N_char_digit x : is_digit (pretty_N_char x) = true.
Proof. unfold pretty_N_char. repeat case_match; reflexivity. Qed.

Lemma pretty_N_go_digits x s : all_digits s = true → all_digits (pretty_N_go x s) = true.
Proof.
  revert s. induction (N.lt_wf_0 x) as [x _ IH]. intros s Hs.
  destruct (decide (x = 0)%N) as [->|Hx]; [by rewrite pretty_N_go_0|].
  rewrite pretty_N_go_step by lia. apply IH.
  - apply N.div_lt; lia.
  - simpl. by rewrite pretty_N_char_digit.
Qed.

Lemma pretty_nat_digits (i : nat) : all_digits (pretty i) = true.
Proof.
  unfold pretty, pretty_nat, pretty, pretty_N.
  case_decide; [reflexivity|]. by apply pretty_N_go_digits.
Qed.

(** No array index is the name of the tool's entry. *)
Lemma index_not_spectator (i : nat) : pretty i ≠ SPECTATOR.
Proof.
  intros E. pose proof (pretty_nat_digits i) as H. rewrite E in H.
  vm_compute in H. discriminate H.
Qed.

Lemma filter_all {A} (P : A → Prop) `{∀ x, Decision (P x)} (l : list A) :
  Forall P l → filter P l = l.
Proof.
  induction 1 as [|x l Hx Hl IH]; [done|].
  rewrite filter_cons_True by done. by rewrite IH.
Qed.

Lemma filter_indices n :
  filter (λ k, k ≠ SPECTATOR) (pretty <$> seq 0 n) = pretty <$> seq 0 n.
Proof.
  apply filter_all, Forall_fmap, Forall_forall. intros i _. apply index_not_spectator.
Qed.

Lemma filter_other_length (l : list string) x :
  NoDup l →
  length (filter (λ k, k ≠ x) l) = length l - (if decide (x ∈ l) then 1 else 0).
Proof.
  induction 1 as [|y l Hy Hl IH]; [done|].
  destruct (decide (y = x)) as [->|Hne].
  - rewrite filter_cons_False by (intros H; by apply H).
    rewrite decide_True by apply list_elem_of_here.
    rewrite IH, decide_False by done. simpl. lia.
  - rewrite filter_cons_True by done. simpl. rewrite IH.
    destruct (decide (x ∈ l)) as [Hin|Hin].
    + rewrite decide_True by (by apply list_elem_of_further).
      destruct l; [by apply elem_of_nil in Hin|simpl; lia].
    + rewrite decide_False; [lia|].
      intros [?|?]%elem_of_cons; congruence.
Qed.

Lemma keys_length (m : gmap string json) : length (map_to_list m).*1 = size m.
Proof. by rewrite length_fmap, length_map_to_list. Qed.

(** On a map: more than one key once the entry is in, exactly when
    there was a key other than the entry's. *)
Lemma more_than_one_key (m : gmap string json) (E : json) :
  bool_decide (1 < length (map_to_list ({[SPECTATOR := E]} ∪ m)).*1)
  = bool_decide (0 < length (filter (λ k, k ≠ SPECTATOR) (map_to_list m).*1)).
Proof.
  rewrite <- insert_union_singleton_l, keys_length.
  rewrite filter_other_length by apply NoDup_fst_map_to_list.
  rewrite keys_length.
  apply bool_decide_ext.
  destruct (m !! SPECTATOR) as [v|] eqn:Hm.
  - rewrite map_size_insert_Some by eauto.
    rewrite decide_True; [lia|].
    apply list_elem_of_fmap. exists (SPECTATOR, v). split; [done|].
    by apply elem_of_map_to_list.
  - rewrite map_size_insert_None by done.
    rewrite decide_False; [lia|].
    intros [[k v] [Hk Hin]]%list_elem_of_fmap. apply elem_of_map_to_list in Hin.
    simpl in Hk. subst k. congruence.
Qed.

(** The flag Cursor and Windsurf compute after the insertion is the flag
    Claude Code computes before it. *)
Lemma flags_agree D key1 key2 already servers config others isUpdated config' :
  upserted D key1 = Ok (already, servers, config) →
  claudecode_upserted D key2 = Ok (others, isUpdated, config') →
  bool_decide (1 < length (Object_keys servers)) = others.
Proof.
  unfold upserted, claudecode_upserted, ensure_mcpServers, or_else, member.
  intros H1 H2.
  (* on null and on a primitive, Claude Code throws *)
  destruct D as [|b|n|s|elems|fs]; try discriminate H2.
  - (* an array: both see the empty object stored on it *)
    revert H1 H2.
    unfold prop, lget, lset, live_of. simpl. rewrite lookup_empty. simpl.
    unfold alias, lget, lset, live_of, Object_assign, Object_keys. simpl.
    rewrite !lookup_insert_eq. simpl.
    intros [= _ <- _] [= <- _ _]. unfold BasePlatform.getMcpServerConfig. simpl.
    rewrite (right_id_L ∅ (∪)), map_to_list_singleton, map_to_list_empty. done.
  - (* an object *)
    revert H1 H2.
    unfold prop, lget, lset, live_of. simpl.
    destruct (fs !! MCP_SERVERS) as [ms|] eqn:E; simpl.
    + destruct (truthy ms) eqn:Tm; simpl.
      * unfold alias, lget, lset, live_of, Object_assign, Object_keys. simpl.
        rewrite E. simpl.
        destruct ms as [|b|n|s|elems|m]; simpl; try discriminate.
        -- (* an array of servers *)
           intros [= _ <- _] [= <- _ _]. unfold BasePlatform.getMcpServerConfig. simpl.
           rewrite (right_id_L ∅ (∪)), map_to_list_singleton, map_to_list_empty.
           rewrite !app_nil_r, filter_indices.
           rewrite length_app, !length_fmap, length_seq. simpl.
           apply bool_decide_ext. lia.
        -- (* a mapping of servers *)
           intros [= _ <- _] [= <- _ _]. unfold BasePlatform.getMcpServerConfig. simpl.
           apply more_than_one_key.
      * unfold alias, lget, lset, live_of, Object_assign, Object_keys. simpl.
        rewrite !lookup_insert_eq. simpl.
        intros [= _ <- _] [= <- _ _]. unfold BasePlatform.getMcpServerConfig. simpl.
        rewrite (right_id_L ∅ (∪)), map_to_list_singleton, map_to_list_empty. done.
    + unfold alias, lget, lset, live_of, Object_assign, Object_keys. simpl.
      rewrite !lookup_insert_eq. simpl.
      intros [= _ <- _] [= <- _ _]. unfold BasePlatform.getMcpServerConfig. simpl.
      rewrite (right_id_L ∅ (∪)), map_to_list_singleton, map_to_list_empty. done.
Qed.

Lemma backup_policy_witness :
  (VSCode ≠ ClaudeCodeAdapter →
   (is_Some (final_fs (configure VSCode linux_host "abc123xyz" None 17%N vscode_project)
             !! backup_path vscode_file 17%N)
    ↔ backs_up VSCode vscode_project vscode_file))
  ∧ (∀ n, final_fs (configure VSCode linux_host "abc123xyz" None 17%N vscode_project)
          !! backup_path vscode_file 17%N = Some n →
          vscode_project !! vscode_file = Some n)
  ∧ (vscode_project !! vscode_file = None →
     ∀ q, vscode_project !! q = None →
          is_Some (final_fs (configure VSCode linux_host "abc123xyz" None 17%N vscode_project)
                   !! q) →
          q = vscode_file ∨ q `prefix_of` dirname vscode_file).
Proof.
  apply (backup_policy VSCode linux_host "abc123xyz" None 17%N vscode_project vscode_file).
  - reflexivity.
  - vm_compute. reflexivity.
  - intros _. vm_compute. reflexivity.
Defined.

(** ** What a [configure] that returns has written *)

Lemma returned_done {A} (r : res A) a : returned r = Some a → ∃ σ', settle r = Done a σ'.
Proof. unfold returned. destruct (settle r); naive_solver. Qed.

Lemma write_returns p config σ x σ' : p ≠ [] →
  BasePlatform.writeConfig p config σ = Done x σ' →
  σ' !! p = Some (File (JsonText (printed (shown config)))) ∧ touched σ σ' p.
Proof.
  intros Hp Hrun.
  destruct (writeConfig_spec p config σ Hp) as (σ1 & Hdirs & [(H & _)|(e & H)]);
    rewrite H in Hrun; [|discriminate].
  injection Hrun as _ <-. split; [by rewrite lookup_insert_eq|].
  exists σ1. split; [done|]. right. eauto.
Qed.

Lemma configure_checked_report p apiKey now σ D r σ' : p ≠ [] →
  σ !! p = Some (File (JsonText D)) →
  settle (configure_checked p apiKey now σ) = Done r σ' →
  ∃ already servers config,
    upserted (parsed D) apiKey = Ok (already, servers, config)
    ∧ r = Report already (bool_decide (1 < length (Object_keys servers))) None
    ∧ σ' !! p = Some (File (JsonText (printed (shown config)))).
Proof.
  intros Hp Hfile.
  rewrite configure_checked_run, readConfig_eq, node_at_nonempty, Hfile by done.
  simpl. unfold lift.
  destruct (upserted (parsed D) apiKey) as [[[already servers] config]|m]; simpl; [|done].
  intros Hrun. exists already, servers, config. split; [done|].
  destruct (truthy_opt already); simpl in Hrun.
  - destruct (backupConfig_returns p now σ) as [(x & σ1 & Hr)|(e & σ1 & Hr)];
      rewrite Hr in Hrun; simpl in Hrun; [|done].
    destruct (writeConfig_returns p config σ1) as [(y & σ2 & Hr')|(e & σ2 & Hr')];
      rewrite Hr' in Hrun; simpl in Hrun; [|done].
    injection Hrun as <- <-. split; [done|]. by apply (write_returns p config σ1 y σ2).
  - destruct (writeConfig_returns p config σ) as [(y & σ2 & Hr')|(e & σ2 & Hr')];
      rewrite Hr' in Hrun; simpl in Hrun; [|done].
    injection Hrun as <- <-. split; [done|]. by apply (write_returns p config σ y σ2).
Qed.

Lemma configure_backup_first_report p apiKey now σ D r σ' : p ≠ [] →
  σ !! p = Some (File (JsonText D)) →
  settle (configure_backup_first p apiKey now σ) = Done r σ' →
  ∃ already servers config,
    upserted (parsed D) apiKey = Ok (already, servers, config)
    ∧ r = ReturnedTrue
    ∧ σ' !! p = Some (File (JsonText (printed (shown config)))).
Proof.
  intros Hp Hfile.
  rewrite configure_backup_first_run.
  pose proof (backup_keeps p now σ Hp) as Hb.
  destruct (backupConfig_returns p now σ) as [(x & σ1 & Hr)|(e & σ1 & Hr)];
    rewrite Hr in *; simpl in *; [|done].
  rewrite Hfile in Hb.
  rewrite readConfig_eq, node_at_nonempty, Hb by done. simpl. unfold lift.
  destruct (upserted (parsed D) apiKey) as [[[already servers] config]|m]; simpl; [|done].
  intros Hrun. exists already, servers, config. split; [done|].
  destruct (writeConfig_returns p config σ1) as [(y & σ2 & Hr')|(e & σ2 & Hr')];
    rewrite Hr' in Hrun; simpl in Hrun; [|done].
  injection Hrun as <- <-. split; [done|]. by apply (write_returns p config σ1 y σ2).
Qed.

Lemma claudecode_configure_report d apiKey s now σ D r σ' :
  σ !! ClaudeCode.getConfigPath d = Some (File (JsonText D)) →
  settle (ClaudeCode.configure d apiKey s now σ) = Done r σ' →
  ∃ others isUpdated config,
    claudecode_upserted (parsed D) apiKey = Ok (others, isUpdated, config)
    ∧ r = Report (Some (JBool isUpdated)) others (Some (ClaudeCode.getConfigPath d))
    ∧ σ' !! ClaudeCode.getConfigPath d = Some (File (JsonText (printed (shown config)))).
Proof.
  intros Hfile. rewrite claudecode_configure_run. cbv zeta.
  set (p := ClaudeCode.getConfigPath d) in *.
  assert (Hp : p ≠ []) by (by apply app_nonempty_r).
  assert (Hdirs : ∃ σ1, σ1 !! p = σ !! p ∧
    ((if existsSync σ (dirname p) then Done () σ else mkdir_from [] (dirname p) σ) = Done () σ1
     ∨ ∃ e, (if existsSync σ (dirname p) then Done () σ else mkdir_from [] (dirname p) σ)
            = Raised e σ1)).
  { destruct (existsSync σ (dirname p)); [by eauto|].
    pose proof (mkdir_from_frame [] (dirname p) σ p (not_prefix_of_dirname p Hp)) as Hf.
    destruct (mkdir_from_settled [] (dirname p) σ) as [(σ1 & Hr)|(e & σ1 & Hr)];
      rewrite Hr in *; simpl in Hf; eauto. }
  destruct Hdirs as (σ1 & Hσ1 & [->|(e & ->)]); simpl; [|done].
  rewrite Hfile in Hσ1.
  unfold claudecode_read, existsSync, readFileSync. rewrite node_at_nonempty, Hσ1 by done.
  simpl.
  destruct (claudecode_upserted (parsed D) apiKey) as [[[others isUpdated] config]|m]; simpl; [|done].
  unfold fs_writeFileSync. rewrite writeFileSync_eq by done.
  rewrite Hσ1. destruct (node_at σ1 (dirname p)) as [[c|]|]; simpl; try done.
  intros [= <- <-]. exists others, isUpdated, config. by rewrite lookup_insert_eq.
Qed.

(** The two flags are those of the two [configure]. *)
Lemma others_after_insert_upserted read apiKey already servers config :
  upserted read apiKey = Ok (already, servers, config) →
  others_after_insert read apiKey = Ok (bool_decide (1 < length (Object_keys servers))).
Proof. unfold others_after_insert. by intros ->. Qed.

Lemma others_before_insert_upserted read apiKey others isUpdated config :
  claudecode_upserted read apiKey = Ok (others, isUpdated, config) →
  others_before_insert read = Ok others.
Proof.
  unfold claudecode_upserted, others_before_insert.
  destruct (member read MCP_SERVERS) as [found|m]; [|done].
  destruct (if negb (truthy_opt found) then _ else _) as [config0|m]; [|done].
  destruct (lset _ _ _) as [servers'|m]; [|done]. by intros [= <- _ _].
Qed.

(** On [{ "mcpServers": "a" }] Cursor's [configure] returns, and reports
    no other server: [Object.assign] leaves the string as it is, and its
    one key is the index [0].  Claude Code's [configure] has computed
    [true], for that key, when its assignment to the string throws. *)
Lemma string_servers_runs :
  settle (configure Cursor linux_host "abc123xyz" None 17%N cursor_with_string_servers)
  = Done (Report None false None) cursor_with_string_servers
  ∧ others_before_insert (parsed string_servers_document) = Ok true
  ∧ settle (ClaudeCode.configure linux_host "abc123xyz" None 17%N
              claudecode_with_string_servers)
    = Raised "Cannot create property 'spectator-voice-memory' on string 'a'"
             claudecode_with_string_servers.
Proof. vm_compute. repeat split; reflexivity. Qed.

(** C10, counterexample.  On [{ "mcpServers": "a" }] the flag computed
    after the insert is [false], the flag computed before it is [true]. *)
Lemma hasOtherServers_not_as_stated : ¬ hasOtherServers_as_stated.
Proof.
  intros H.
  assert (E : false = true); [|discriminate E].
  apply (H string_servers_document "abc123xyz"); vm_compute; reflexivity.
Qed.

(** C10, amended.  Cursor's and Windsurf's [configure] count the keys of
    [mcpServers] after the insert and report more than one; Claude
    Code's counts, before the insert, the keys other than the tool's and
    reports at least one.  Run on the same document, whenever both
    return, they report the same [hasOtherServers]. *)
Theorem hasOtherServers_agree a d1 key1 s1 now1 σ1 p1 d2 key2 s2 now2 σ2 D r1 r2 :
  checks_entry a = true →
  config_path a d1 s1 = Some p1 →
  σ1 !! p1 = Some (File (JsonText D)) →
  σ2 !! ClaudeCode.getConfigPath d2 = Some (File (JsonText D)) →
  returned (configure a d1 key1 s1 now1 σ1) = Some r1 →
  returned (ClaudeCode.configure d2 key2 s2 now2 σ2) = Some r2 →
  ∃ updated1 updated2 others,
    r1 = Report updated1 others None
    ∧ r2 = Report updated2 others (Some (ClaudeCode.getConfigPath d2)).
Proof.
  intros Ha Hpath Hfile1 Hfile2 Hr1 Hr2.
  pose proof (config_path_nonempty a d1 s1 p1 Hpath) as Hp.
  apply returned_done in Hr1 as (σ1' & Hr1). apply returned_done in Hr2 as (σ2' & Hr2).
  assert (Hrun : settle (configure_checked p1 key1 now1 σ1) = Done r1 σ1').
  { rewrite configure_eq in Hr1. destruct a; try discriminate Ha; by rewrite Hpath in Hr1. }
  destruct (configure_checked_report p1 key1 now1 σ1 D r1 σ1' Hp Hfile1 Hrun)
    as (already & servers & config & Hu1 & -> & _).
  destruct (claudecode_configure_report d2 key2 s2 now2 σ2 D r2 σ2' Hfile2 Hr2)
    as (others & isUpdated & config' & Hu2 & -> & _).
  rewrite (flags_agree (parsed D) key1 key2 already servers config others isUpdated config'
             Hu1 Hu2).
  eauto.
Qed.

Lemma hasOtherServers_agree_witness :
  ∃ updated1 updated2 others,
    Report None true None = Report updated1 others None
    ∧ Report (Some (JBool false)) true (Some claudecode_file)
      = Report updated2 others (Some (ClaudeCode.getConfigPath linux_host)).
Proof.
  apply (hasOtherServers_agree Cursor linux_host "abc123xyz" None 17%N cursor_with_other_tool
           cursor_file linux_host "abc123xyz" None 17%N claudecode_with_other_tool
           other_tool_document).
  - reflexivity.
  - reflexivity.
  - vm_compute. reflexivity.
  - vm_compute. reflexivity.
  - vm_compute. reflexivity.
  - vm_compute. reflexivity.
Defined.

(** ** [remove] *)

Lemma configured_inv D :
  configured D = true →
  ∃ fs m v, D = JObj fs ∧ fs !! MCP_SERVERS = Some (JObj m)
            ∧ m !! SPECTATOR = Some v ∧ truthy v = true.
Proof.
  unfold configured, servers_of, prop, lget, live_of. simpl.
  destruct D as [|b|n|s|elems|fs]; simpl; rewrite ?lookup_empty; try done.
  destruct (fs !! MCP_SERVERS) as [ms|] eqn:E; simpl; [|done].
  destruct ms as [|b|n|s|elems|m]; simpl; rewrite ?lookup_empty; try done.
  destruct (m !! SPECTATOR) as [v|] eqn:Ev; simpl; [|done]. eauto 10.
Qed.

Lemma has_entry_configured D : D ≠ JNull → has_entry D = Ok (configured D).
Proof.
  intros HD. unfold has_entry, member, configured, servers_of.
  destruct D; try done;
    destruct (prop _ MCP_SERVERS) as [ms|]; simpl; try done;
    destruct (truthy ms) eqn:T; simpl; try done;
    by rewrite (prop_falsy ms).
Qed.

Lemma configured_falsy D : truthy D = false → configured D = false.
Proof.
  intros T. destruct (configured D) eqn:E; [|done].
  apply configured_inv in E as (fs & m & v & -> & _). done.
Qed.

Lemma guarded_has_entry D σ :
  (if truthy D then lift (has_entry D) else ret false) σ = Done (configured D) σ.
Proof.
  destruct (truthy D) eqn:T.
  - rewrite has_entry_configured; [done|]. by destruct D.
  - by rewrite configured_falsy.
Qed.

Lemma single_condition D :
  (if negb (truthy D) || negb (truthy_opt (prop D MCP_SERVERS)) then false
   else truthy_opt (prop (default JNull (prop D MCP_SERVERS)) SPECTATOR))
  = configured D.
Proof.
  unfold configured, servers_of.
  destruct (truthy D) eqn:T; simpl.
  - destruct (prop D MCP_SERVERS) as [ms|]; simpl; [|done].
    destruct (truthy ms) eqn:Tm; simpl; [done|]. by rewrite (prop_falsy ms).
  - rewrite (prop_falsy D) by done. done.
Qed.

Lemma remove_scope_run q removed σ : q ≠ [] →
  settle (remove_scope (Some q) removed σ) =
  match σ !! q with
  | None => Done removed σ
  | Some _ =>
    bind_res (BasePlatform.readConfig q σ) (λ D σ,
      if configured D
      then bind_res (BasePlatform.writeConfig q (delete_entry (live_of D)) σ)
                    (λ _ σ, Done true σ)
      else Done removed σ)
  end.
Proof.
  intros Hq. unfold remove_scope. rewrite settle_bind.
  unfold fs_existsSync, existsSync. rewrite node_at_nonempty by done.
  destruct (σ !! q) as [n|]; simpl; [|done].
  rewrite settle_bind, settle_await.
  destruct (readConfig_returns q σ) as [(D & σ1 & ->)|(e & σ1 & ->)]; simpl; [|done].
  rewrite settle_bind, guarded_has_entry. simpl.
  destruct (configured D); simpl; [|done].
  rewrite settle_bind, settle_await.
  by destruct (writeConfig_returns q (delete_entry (live_of D)) σ1)
    as [(y & σ2 & ->)|(e & σ2 & ->)].
Qed.

Lemma remove_single_run q σ :
  settle (remove_single q σ) =
  bind_res (BasePlatform.readConfig q σ) (λ D σ,
    if configured D
    then bind_res (BasePlatform.writeConfig q (delete_entry (live_of D)) σ)
                  (λ _ σ, Done (Some true) σ)
    else Done (Some false) σ).
Proof.
  unfold remove_single. rewrite settle_bind, settle_await.
  destruct (readConfig_returns q σ) as [(D & σ1 & ->)|(e & σ1 & ->)]; simpl; [|done].
  rewrite <- (single_condition D).
  destruct (negb (truthy D) || negb (truthy_opt (prop D MCP_SERVERS))); simpl; [done|].
  destruct (truthy_opt (prop (default JNull (prop D MCP_SERVERS)) SPECTATOR)); simpl; [|done].
  rewrite settle_bind, settle_await.
  by destruct (writeConfig_returns q (delete_entry (live_of D)) σ1)
    as [(y & σ2 & ->)|(e & σ2 & ->)].
Qed.

Lemma remove_eq a d :
  remove a d =
  match a with
  | ClaudeCodeAdapter => ClaudeCode.remove d
  | Cursor => remove_two (getConfigPath d "cursor" global) (getConfigPath d "cursor" project)
  | VSCode => remove_two (getConfigPath d "vscode" global) (getConfigPath d "vscode" project)
  | _ =>
    match config_path a d None with
    | None => throw (no_path_to_remove a)
    | Some p => remove_single p
    end
  end.
Proof. destruct a; reflexivity. Qed.

Lemma claudecode_remove_run d σ :
  let p := ClaudeCode.getConfigPath d in
  ClaudeCode.remove d σ =
  match σ !! p with
  | None => Done None σ
  | Some Dir => Raised (remove_error "EISDIR: illegal operation on a directory, read") σ
  | Some (File c) =>
    match JSON_parse c with
    | Err m => Raised (remove_error m) σ
    | Ok D =>
      match has_entry D with
      | Err m => Raised (remove_error m) σ
      | Ok ok =>
        if ok then
          match writeFileSync σ p (JsonText (printed (claudecode_without_entry D))) with
          | Ok σ' => Done None σ'
          | Err m => Raised (remove_error m) σ
          end
        else Done None σ
      end
    end
  end.
Proof.
  intros p. assert (Hp : p ≠ []) by (by apply app_nonempty_r).
  unfold ClaudeCode.remove. fold p.
  unfold bind, try_catch, fs_existsSync, fs_readFileSync, fs_writeFileSync, existsSync,
    readFileSync, lift, ret, throw, remove_error.
  rewrite node_at_nonempty by done.
  destruct (σ !! p) as [[c|]|] eqn:E; simpl; rewrite ?node_at_nonempty, ?E by done; simpl;
    try done.
  destruct (JSON_parse c) as [D|m]; simpl; [|done].
  destruct (has_entry D) as [ok|m] eqn:Eh; simpl; [|done].
  destruct ok; simpl; [|done].
  assert (Hc : configured D = true).
  { destruct D; try discriminate Eh; rewrite has_entry_configured in Eh by done; congruence. }
  unfold claudecode_without_entry, JSON_stringify. rewrite Hc. cbv zeta.
  by destruct (writeFileSync _ _ _).
Qed.

(** *** Each step of a [remove]: what it touches, what it leaves in the
    file, and when it does nothing *)

Lemma readConfig_cases q σ :
  (∃ D, BasePlatform.readConfig q σ = Done D σ)
  ∨ (∃ e, BasePlatform.readConfig q σ = Raised e σ).
Proof.
  rewrite readConfig_eq.
  destruct (node_at σ q) as [[c|]|]; try destruct (JSON_parse c); eauto.
Qed.

Lemma remove_scope_touched q removed σ : q ≠ [] →
  touched σ (final_fs (remove_scope (Some q) removed σ)) q.
Proof.
  intros Hq. rewrite <- final_fs_settle, remove_scope_run by done.
  destruct (σ !! q) as [n|]; [|apply touched_refl].
  destruct (readConfig_cases q σ) as [(D & ->)|(e & ->)]; simpl; [|apply touched_refl].
  destruct (configured D); [|apply touched_refl].
  rewrite final_fs_bind_done. by apply writeConfig_touched.
Qed.

Lemma remove_scope_doc q removed σ D x σ' : q ≠ [] →
  σ !! q = Some (File (JsonText D)) →
  settle (remove_scope (Some q) removed σ) = Done x σ' →
  σ' !! q = Some (File (JsonText (text_after_remove Cursor D))).
Proof.
  intros Hq Hfile.
  rewrite remove_scope_run, Hfile, readConfig_eq, node_at_nonempty, Hfile by done. simpl.
  unfold text_after_remove, doc_after_remove, without_entry. rewrite configured_parsed.
  destruct (configured D).
  - destruct (writeConfig_returns q (delete_entry (live_of (parsed D))) σ)
      as [(y & σ2 & Hr)|(e & σ2 & Hr)]; rewrite Hr; simpl; [|done].
    intros [= _ <-]. by apply (write_returns q _ σ y σ2).
  - by intros [= _ <-].
Qed.

Lemma remove_scope_quiet q removed σ : q ≠ [] →
  (σ !! q = None ∨ ∃ D, σ !! q = Some (File (JsonText D)) ∧ configured D = false) →
  settle (remove_scope (Some q) removed σ) = Done removed σ.
Proof.
  intros Hq [Hnone|(D & Hfile & Hc)]; rewrite remove_scope_run by done.
  - by rewrite Hnone.
  - rewrite Hfile, readConfig_eq, node_at_nonempty, Hfile by done. simpl.
    by rewrite configured_parsed, Hc.
Qed.

Lemma remove_single_touched q σ : q ≠ [] →
  touched σ (final_fs (remove_single q σ)) q.
Proof.
  intros Hq. rewrite <- final_fs_settle, remove_single_run.
  destruct (readConfig_cases q σ) as [(D & ->)|(e & ->)]; simpl; [|apply touched_refl].
  destruct (configured D); [|apply touched_refl].
  rewrite final_fs_bind_done. by apply writeConfig_touched.
Qed.

Lemma remove_single_doc q σ D x σ' : q ≠ [] →
  σ !! q = Some (File (JsonText D)) →
  settle (remove_single q σ) = Done x σ' →
  σ' !! q = Some (File (JsonText (text_after_remove Cursor D))).
Proof.
  intros Hq Hfile.
  rewrite remove_single_run, readConfig_eq, node_at_nonempty, Hfile by done. simpl.
  unfold text_after_remove, doc_after_remove, without_entry. rewrite configured_parsed.
  destruct (configured D).
  - destruct (writeConfig_returns q (delete_entry (live_of (parsed D))) σ)
      as [(y & σ2 & Hr)|(e & σ2 & Hr)]; rewrite Hr; simpl; [|done].
    intros [= _ <-]. by apply (write_returns q _ σ y σ2).
  - by intros [= _ <-].
Qed.

Lemma remove_single_quiet q σ : q ≠ [] →
  (σ !! q = None ∨ ∃ D, σ !! q = Some (File (JsonText D)) ∧ configured D = false) →
  settle (remove_single q σ) = Done (Some false) σ.
Proof.
  intros Hq [Hnone|(D & Hfile & Hc)];
    rewrite remove_single_run, readConfig_eq, node_at_nonempty by done.
  - by rewrite Hnone.
  - rewrite Hfile. simpl. by rewrite configured_parsed, Hc.
Qed.

Lemma claudecode_remove_settled d σ :
  settle (ClaudeCode.remove d σ) = ClaudeCode.remove d σ.
Proof.
  rewrite claudecode_remove_run. cbv zeta.
  destruct (σ !! _) as [[c|]|]; try done.
  destruct (JSON_parse c) as [D|m]; [|done].
  destruct (has_entry D) as [[|]|m]; try done.
  by destruct (writeFileSync _ _ _).
Qed.

Lemma claudecode_remove_touched d σ :
  touched σ (final_fs (ClaudeCode.remove d σ)) (ClaudeCode.getConfigPath d).
Proof.
  rewrite claudecode_remove_run. cbv zeta.
  set (p := ClaudeCode.getConfigPath d).
  assert (Hp : p ≠ []) by (by apply app_nonempty_r).
  destruct (σ !! p) as [[c|]|] eqn:E; try apply touched_refl.
  destruct (JSON_parse c) as [D|m]; [|apply touched_refl].
  destruct (has_entry D) as [[|]|m]; try apply touched_refl.
  rewrite writeFileSync_eq, E by done.
  destruct (node_at σ (dirname p)) as [[c'|]|]; try apply touched_refl.
  exists σ. split; [apply dirs_made_refl|]. right. eauto.
Qed.

Lemma claudecode_remove_doc d σ D x σ' :
  σ !! ClaudeCode.getConfigPath d = Some (File (JsonText D)) →
  settle (ClaudeCode.remove d σ) = Done x σ' →
  σ' !! ClaudeCode.getConfigPath d
  = Some (File (JsonText (text_after_remove ClaudeCodeAdapter D))).
Proof.
  intros Hfile. rewrite claudecode_remove_settled, claudecode_remove_run. cbv zeta.
  set (p := ClaudeCode.getConfigPath d) in *.
  assert (Hp : p ≠ []) by (by apply app_nonempty_r).
  rewrite Hfile. simpl. unfold text_after_remove, doc_after_remove.
  rewrite <- (configured_parsed D).
  destruct (has_entry (parsed D)) as [[|]|m] eqn:Eh; try done.
  - assert (Hc : configured (parsed D) = true).
    { destruct (parsed D); try discriminate Eh;
        rewrite has_entry_configured in Eh by done; congruence. }
    rewrite Hc, writeFileSync_eq, Hfile by done.
    destruct (node_at σ (dirname p)) as [[c'|]|]; try done.
    intros [= _ <-]. by rewrite lookup_insert_eq.
  - intros [= _ <-].
    assert (Hc : configured (parsed D) = false).
    { destruct (parsed D); try discriminate Eh;
        rewrite has_entry_configured in Eh by done; congruence. }
    by rewrite Hc.
Qed.

Lemma claudecode_remove_quiet d σ :
  (σ !! ClaudeCode.getConfigPath d = None
   ∨ ∃ D, σ !! ClaudeCode.getConfigPath d = Some (File (JsonText D))
          ∧ configured D = false ∧ D ≠ JNull) →
  settle (ClaudeCode.remove d σ) = Done None σ.
Proof.
  rewrite claudecode_remove_settled, claudecode_remove_run. cbv zeta.
  intros [->|(D & -> & Hc & HD)]; [done|]. simpl.
  rewrite has_entry_configured, configured_parsed, Hc; [done|]. by destruct D.
Qed.

(** *** The document a [remove] leaves *)

Lemma entry_truthy apiKey : truthy (spectator_entry apiKey) = true.
Proof. by vm_compute. Qed.

Lemma delete_entry_obj fs m :
  fs !! MCP_SERVERS = Some (JObj m) →
  delete_entry (live_of (JObj fs))
  = Live (JObj (<[MCP_SERVERS := JObj (delete SPECTATOR m)]> fs)) ∅.
Proof.
  intros E. unfold delete_entry, store_back, ldelete, alias, lget, live_of. simpl.
  rewrite E. done.
Qed.

Lemma configured_without_entry D : configured (without_entry D) = false.
Proof.
  unfold without_entry. destruct (configured D) eqn:Hc; [|done].
  apply configured_inv in Hc as (fs & m & v & -> & E & _ & _).
  rewrite (delete_entry_obj fs m E).
  unfold configured, servers_of, prop, lget, live_of. simpl.
  rewrite lookup_insert_eq. simpl. by rewrite lookup_delete_eq.
Qed.

Lemma without_entry_idem D : without_entry (without_entry D) = without_entry D.
Proof.
  unfold without_entry at 1. by rewrite configured_without_entry.
Qed.

Lemma configured_jmap_none f X :
  prop (servers_of X) SPECTATOR = None → configured (jmap f X) = false.
Proof.
  intros H. unfold configured. by rewrite servers_of_jmap, prop_jmap, H.
Qed.

Lemma without_entry_none X :
  configured X = true → prop (servers_of (without_entry X)) SPECTATOR = None.
Proof.
  intros Hc. unfold without_entry. rewrite Hc.
  apply configured_inv in Hc as (fs & m & v & -> & E & _ & _).
  rewrite (delete_entry_obj fs m E).
  unfold servers_of, prop, lget, live_of. simpl.
  rewrite lookup_insert_eq. simpl. by rewrite lookup_delete_eq.
Qed.


Lemma entry_removed_without D0 D1 :
  same_but_entry D0 D1 →
  prop (servers_of D1) SPECTATOR = None ∨ configured D1 = true →
  entry_removed D0 (without_entry D1).
Proof.
  intros [Hfields Hservers] Hentry. unfold without_entry.
  destruct (configured D1) eqn:Hc.
  - apply configured_inv in Hc as (fs & m & v & -> & E & _ & _).
    rewrite (delete_entry_obj fs m E). split; intros k.
    + intros Hk. rewrite <- Hfields by done.
      unfold prop, lget, live_of. simpl. by simpl_map.
    + unfold servers_of at 1. unfold prop at 2. unfold lget, live_of. simpl. simpl_map. simpl.
      unfold prop at 1. unfold lget, live_of. simpl.
      case_decide as Hk; [subst k; by simpl_map|].
      rewrite <- Hservers by done. simpl_map.
      unfold servers_of, prop, lget, live_of. simpl. by rewrite E.
  - destruct Hentry as [Hnone|?]; [|congruence].
    split; [done|]. intros k. case_decide as Hk; [by subst k|]. by apply Hservers.
Qed.

Lemma entry_removed_claudecode_without D0 D1 :
  same_but_entry D0 D1 →
  prop (servers_of D1) SPECTATOR = None ∨ configured D1 = true →
  entry_removed D0 (claudecode_without_entry D1).
Proof.
  intros [Hfields Hservers] Hentry. unfold claudecode_without_entry.
  destruct (configured D1) eqn:Hc.
  - apply configured_inv in Hc as (fs & m & v & -> & E & _ & _).
    cbv zeta. rewrite (delete_entry_obj fs m E).
    assert (Hm : ∀ k, k ≠ SPECTATOR → prop (servers_of D0) k = m !! k).
    { intros k Hk. rewrite <- Hservers by done.
      unfold servers_of, prop, lget, live_of. simpl. by rewrite E. }
    unfold alias, Object_keys, ldelete, lget, live_of. simpl. simpl_map. simpl.
    case_bool_decide as Hlen.
    + (* no entry is left: [mcpServers] goes *)
      simpl. rewrite length_fmap, length_map_to_list in Hlen.
      apply map_size_empty_iff in Hlen.
      split; intros k.
      * intros Hk. rewrite <- Hfields by done.
        unfold prop, lget, live_of. simpl. by simpl_map.
      * unfold servers_of at 1. unfold prop at 2. unfold lget, live_of. simpl. simpl_map. simpl.
        case_decide as Hk; [done|].
        rewrite Hm by done. rewrite <- (lookup_delete_ne m SPECTATOR k) by done.
        by rewrite Hlen.
    + split; intros k.
      * intros Hk. rewrite <- Hfields by done.
        unfold prop, lget, live_of. simpl. by simpl_map.
      * unfold servers_of at 1. unfold prop at 2. unfold lget, live_of. simpl. simpl_map. simpl.
        unfold prop at 1. unfold lget, live_of. simpl.
        case_decide as Hk; [subst k; by simpl_map|].
        rewrite Hm by done. by simpl_map.
  - destruct Hentry as [Hnone|?]; [|congruence].
    split; [done|]. intros k. case_decide as Hk; [by subst k|]. by apply Hservers.
Qed.

Lemma entry_removed_after a D D1 :
  same_but_entry D D1 →
  prop (servers_of D1) SPECTATOR = None ∨ configured D1 = true →
  entry_removed D (doc_after_remove a D1).
Proof.
  intros Hsame Hentry.
  destruct a; simpl;
    by (apply entry_removed_without || apply entry_removed_claudecode_without).
Qed.

Lemma configured_text_after_remove a D : configured (text_after_remove a D) = false.
Proof.
  unfold text_after_remove. destruct (configured D) eqn:Hc; [|done].
  apply configured_jmap_none.
  destruct (entry_removed_after a (parsed D) (parsed D)) as [_ H].
  { apply same_but_entry_refl. }
  { right. by rewrite configured_parsed. }
  specialize (H SPECTATOR). by rewrite decide_True in H.
Qed.

Lemma text_after_remove_idem a D :
  text_after_remove a (text_after_remove a D) = text_after_remove a D.
Proof.
  unfold text_after_remove at 1. by rewrite configured_text_after_remove.
Qed.

Lemma upsert_entry read apiKey config :
  ensure_mcpServers (live_of (or_else (Some read) (JObj ∅))) = Ok config →
  let D' := shown (store_back config MCP_SERVERS
                     (Object_assign (alias config MCP_SERVERS)
                                    (BasePlatform.getMcpServerConfig apiKey))) in
  prop (servers_of D') SPECTATOR = None
  ∨ prop (servers_of D') SPECTATOR = Some (spectator_entry apiKey).
Proof.
  unfold ensure_mcpServers, or_else, BasePlatform.getMcpServerConfig.
  pose proof (entry_truthy apiKey) as Ht.
  intros H. destruct (truthy read) eqn:T.
  - destruct read as [|b|n|s|elems|fs]; try discriminate T; try discriminate H.
    + unfold lget, lset, live_of in H. simpl in H.
      rewrite lookup_empty in H. cbn in H. injection H as <-. by left.
    + unfold lget, lset, live_of in H. simpl in H.
      destruct (fs !! MCP_SERVERS) as [ms|] eqn:E; cbn in H.
      * destruct (truthy ms) eqn:Tm; cbn in H; injection H as <-.
        -- unfold alias, store_back, Object_assign, lget, live_of.
           simpl. rewrite E. simpl.
           unfold configured, servers_of, prop, lget, live_of.
           destruct ms; simpl; simpl_map; simpl; try (by left).
           right. by rewrite lookup_union_l', lookup_singleton_eq by (by simpl_map).
        -- unfold alias, store_back, Object_assign, lget, live_of.
           simpl. simpl_map. simpl.
           unfold configured, servers_of, prop, lget, live_of. simpl. simpl_map. simpl.
           right. by rewrite (right_id_L ∅ (∪)), lookup_singleton_eq.
      * injection H as <-.
        unfold alias, store_back, Object_assign, lget, live_of.
        simpl. simpl_map. simpl.
        unfold configured, servers_of, prop, lget, live_of. simpl. simpl_map. simpl.
        right. by rewrite (right_id_L ∅ (∪)), lookup_singleton_eq.
  - unfold lget, lset, live_of in H. simpl in H.
    rewrite lookup_empty in H. cbn in H. injection H as <-.
    unfold alias, store_back, Object_assign, lget, live_of.
    simpl. simpl_map. simpl.
    unfold configured, servers_of, prop, lget, live_of. simpl. simpl_map. simpl.
    right. by rewrite (right_id_L ∅ (∪)), lookup_singleton_eq.
Qed.

Lemma upserted_entry D apiKey already servers config :
  upserted D apiKey = Ok (already, servers, config) →
  prop (servers_of (shown config)) SPECTATOR = None
  ∨ prop (servers_of (shown config)) SPECTATOR = Some (spectator_entry apiKey).
Proof.
  unfold upserted. destruct (ensure_mcpServers _) as [c|m] eqn:E; [|done].
  intros [= _ _ <-]. exact (upsert_entry D apiKey c E).
Qed.

Lemma claudecode_upserted_entry D apiKey others isUpdated config :
  claudecode_upserted D apiKey = Ok (others, isUpdated, config) →
  prop (servers_of (shown config)) SPECTATOR = None
  ∨ prop (servers_of (shown config)) SPECTATOR = Some (spectator_entry apiKey).
Proof.
  unfold claudecode_upserted, member. intros H.
  pose proof (entry_truthy apiKey) as Ht.
  destruct D as [|b|n|s|elems|fs]; try discriminate H.
  - unfold prop, lget, lset, live_of in H. simpl in H.
    rewrite lookup_empty in H. simpl in H.
    unfold alias, store_back, lset, lget, live_of in H. simpl in H.
    rewrite lookup_insert_eq in H. simpl in H. injection H as _ _ <-. by left.
  - unfold prop, lget, lset, live_of in H. simpl in H.
    destruct (fs !! MCP_SERVERS) as [ms|] eqn:E; simpl in H.
    + destruct (truthy ms) eqn:Tm; simpl in H.
      * unfold alias, store_back, lset, lget, live_of in H. simpl in H.
        rewrite E in H. simpl in H.
        destruct ms; try discriminate H; simpl in H; injection H as _ _ <-;
          unfold configured, servers_of, prop, lget, live_of; simpl; simpl_map; simpl;
          simpl_map; simpl; auto.
      * unfold alias, store_back, lset, lget, live_of in H. simpl in H.
        rewrite lookup_insert_eq in H. simpl in H. injection H as _ _ <-.
        unfold configured, servers_of, prop, lget, live_of; simpl; simpl_map; simpl;
          simpl_map; simpl; auto.
    + unfold alias, store_back, lset, lget, live_of in H. simpl in H.
      rewrite lookup_insert_eq in H. simpl in H. injection H as _ _ <-.
      unfold configured, servers_of, prop, lget, live_of; simpl; simpl_map; simpl;
        simpl_map; simpl; auto.
Qed.

(** *** [remove] as a whole *)

Lemma nodes_kept_refl σ : nodes_kept σ σ.
Proof. intros q. split; eauto. Qed.

Lemma nodes_kept_trans σ1 σ2 σ3 : nodes_kept σ1 σ2 → nodes_kept σ2 σ3 → nodes_kept σ1 σ3.
Proof.
  intros H12 H23 q. destruct (H12 q) as [Ha Hb]. destruct (H23 q) as [Hc Hd].
  split; [auto|]. intros c Hfile. destruct (Hb c Hfile) as (c' & Hfile'). eauto.
Qed.

Lemma touched_nodes_kept σ σ' p : touched σ σ' p → nodes_kept σ σ'.
Proof.
  intros (σ1 & [_ Hdirs] & Hend) q.
  assert (H1 : (is_Some (σ !! q) → is_Some (σ1 !! q))
               ∧ (∀ c, σ !! q = Some (File c) → σ1 !! q = Some (File c))).
  { destruct (Hdirs q) as [->|[Hd Hc]]; [done|]. rewrite Hd. split; [eauto|].
    intros c Hfile. by destruct (Hc c). }
  destruct H1 as [Hsome Hfile].
  destruct Hend as [->|(x & ->)]; [split; eauto|].
  destruct (decide (q = p)) as [->|Hq].
  - rewrite lookup_insert_eq. split; eauto.
  - rewrite lookup_insert_ne by done. split; eauto.
Qed.

Lemma bind_nodes_kept {A B} (m : prog A) (f : A → prog B) σ :
  nodes_kept σ (final_fs (m σ)) →
  (∀ a σ1, nodes_kept σ1 (final_fs (f a σ1))) →
  nodes_kept σ (final_fs (bind m f σ)).
Proof.
  intros Hm Hf. unfold bind. induction (m σ) as [a σ1|e σ1|c σ1|σ1 rest IH]; simpl in *; auto.
  by apply (nodes_kept_trans σ σ1).
Qed.

Lemma remove_scope_nodes_kept o removed σ :
  (∀ q, o = Some q → q ≠ []) →
  nodes_kept σ (final_fs (remove_scope o removed σ)).
Proof.
  intros Ho. destruct o as [q|]; [|apply nodes_kept_refl].
  apply (touched_nodes_kept _ _ q), remove_scope_touched. by apply Ho.
Qed.

Lemma remove_two_nodes_kept o1 o2 σ :
  (∀ q, o1 = Some q → q ≠ []) → (∀ q, o2 = Some q → q ≠ []) →
  nodes_kept σ (final_fs (remove_two o1 o2 σ)).
Proof.
  intros H1 H2. unfold remove_two.
  apply bind_nodes_kept; [by apply remove_scope_nodes_kept|].
  intros removed σ1. apply bind_nodes_kept; [by apply remove_scope_nodes_kept|].
  intros removed' σ2. apply nodes_kept_refl.
Qed.

Lemma remove_nodes_kept a d σ : nodes_kept σ (final_fs (remove a d σ)).
Proof.
  rewrite remove_eq.
  assert (Hsingle : ∀ o : option path, (∀ q, o = Some q → q ≠ []) →
    nodes_kept σ (final_fs (match o with
                            | None => throw (no_path_to_remove a)
                            | Some p => remove_single p
                            end σ))).
  { intros [q|] Ho; [|apply nodes_kept_refl].
    apply (touched_nodes_kept _ _ q), remove_single_touched. by apply Ho. }
  destruct a;
    try (apply Hsingle; intros q; apply config_path_nonempty);
    try (apply remove_two_nodes_kept; intros q; apply getConfigPath_nonempty).
  apply (touched_nodes_kept _ _ (ClaudeCode.getConfigPath d)), claudecode_remove_touched.
Qed.

Lemma settled_final {A} (r : res A) x σ' : settle r = Done x σ' → final_fs r = σ'.
Proof. intros H. by rewrite <- final_fs_settle, H. Qed.

Lemma remove_scope_doc_any o removed σ p D x σ' :
  (∀ q, o = Some q → q ≠ []) →
  σ !! p = Some (File (JsonText D)) →
  settle (remove_scope o removed σ) = Done x σ' →
  σ' !! p = Some (File (JsonText (if decide (o = Some p) then text_after_remove Cursor D
                                  else D))).
Proof.
  intros Ho Hfile Hrun. case_decide as Hop.
  - subst o. apply (remove_scope_doc p removed σ D x σ'); auto.
  - destruct o as [q|]; [|by injection Hrun as _ <-].
    apply (touched_file σ σ' q p); [|congruence|done].
    rewrite <- (settled_final _ _ _ Hrun). apply remove_scope_touched. by apply Ho.
Qed.

Lemma remove_two_doc o1 o2 σ p D r σ' :
  (∀ q, o1 = Some q → q ≠ []) → (∀ q, o2 = Some q → q ≠ []) →
  o1 = Some p ∨ o2 = Some p →
  σ !! p = Some (File (JsonText D)) →
  settle (remove_two o1 o2 σ) = Done r σ' →
  σ' !! p = Some (File (JsonText (text_after_remove Cursor D))).
Proof.
  intros H1 H2 Hp Hfile. unfold remove_two. rewrite settle_bind.
  destruct (settle (remove_scope o1 false σ)) as [x1 σ1| | |] eqn:E1; try done. simpl.
  rewrite settle_bind.
  destruct (settle (remove_scope o2 x1 σ1)) as [x2 σ2| | |] eqn:E2; try done. simpl.
  intros [= _ <-].
  pose proof (remove_scope_doc_any o1 false σ p D x1 σ1 H1 Hfile E1) as Hfile1.
  pose proof (remove_scope_doc_any o2 x1 σ1 p _ x2 σ2 H2 Hfile1 E2) as Hfile2.
  rewrite Hfile2. repeat case_decide; try done; try (by rewrite text_after_remove_idem).
  by destruct Hp.
Qed.

Lemma config_path_in_scope a d s p :
  config_path a d s = Some p → Some p ∈ scope_paths a d.
Proof.
  intros <-. destruct a, s as [[|]|]; simpl; rewrite ?elem_of_cons; auto.
Qed.

Lemma scope_path_nonempty a d p : Some p ∈ scope_paths a d → p ≠ [].
Proof.
  assert (Hg : ∀ name type, Some p = getConfigPath d name type → p ≠ []).
  { intros name type H. by apply (getConfigPath_nonempty d name type). }
  destruct a; simpl; rewrite ?elem_of_cons, ?elem_of_nil; intros H;
    repeat (destruct H as [H|H]); try done; try (by apply Hg in H).
  injection H as ->. by apply app_nonempty_r.
Qed.

(** The document [remove] leaves in a file of one of its scopes. *)
Lemma remove_doc a d σ p D r σ' :
  Some p ∈ scope_paths a d →
  σ !! p = Some (File (JsonText D)) →
  settle (remove a d σ) = Done r σ' →
  σ' !! p = Some (File (JsonText (text_after_remove a D))).
Proof.
  intros Hin Hfile. rewrite remove_eq.
  assert (Hsingle : ∀ o : option path, o = Some p →
    settle (match o with
            | None => throw (no_path_to_remove a)
            | Some p => remove_single p
            end σ) = Done r σ' →
    σ' !! p = Some (File (JsonText (text_after_remove Cursor D)))).
  { intros o -> Hrun. apply (remove_single_doc p σ D r σ'); try done.
    by apply (scope_path_nonempty a d). }
  destruct a; unfold scope_paths in Hin; rewrite ?elem_of_cons, ?elem_of_nil in Hin;
    unfold config_path; cbv iota;
    try (apply Hsingle; by destruct Hin as [Hin|[]]).
  - destruct Hin as [[= ->]|[]]. apply claudecode_remove_doc; done.
  - apply remove_two_doc; try (intros q; apply getConfigPath_nonempty); try done.
    destruct Hin as [Hin|[Hin|[]]]; auto.
  - apply remove_two_doc; try (intros q; apply getConfigPath_nonempty); try done.
    destruct Hin as [Hin|[Hin|[]]]; auto.
Qed.

Lemma remove_two_quiet o1 o2 σ :
  (∀ q, o1 = Some q → q ≠ []) → (∀ q, o2 = Some q → q ≠ []) →
  (∀ o, o ∈ [o1; o2] → ∃ q, o = Some q ∧
     (σ !! q = None ∨ ∃ D, σ !! q = Some (File (JsonText D)) ∧ configured D = false)) →
  settle (remove_two o1 o2 σ) = Done (Some false) σ.
Proof.
  intros H1 H2 Hall.
  destruct (Hall o1) as (q1 & -> & Hq1); [rewrite elem_of_cons; auto|].
  destruct (Hall o2) as (q2 & -> & Hq2); [rewrite !elem_of_cons; auto|].
  unfold remove_two.
  rewrite settle_bind, remove_scope_quiet by auto. cbn [bind_res].
  rewrite settle_bind, remove_scope_quiet by auto. done.
Qed.

(** With nothing to remove, [remove] returns and writes nothing. *)
Lemma remove_quiet a d σ :
  (∀ o, o ∈ scope_paths a d → ∃ q, o = Some q ∧ unconfigured_at a σ q) →
  settle (remove a d σ) = Done (nothing_removed a) σ.
Proof.
  intros Hall. rewrite remove_eq.
  assert (Hweak : ∀ o, o ∈ scope_paths a d → ∃ q, o = Some q ∧
     (σ !! q = None ∨ ∃ D, σ !! q = Some (File (JsonText D)) ∧ configured D = false)).
  { intros o Ho. destruct (Hall o Ho) as (q & -> & [Hnone|(D & Hfile & Hc & _)]); eauto 10. }
  assert (Hsingle : ∀ o : option path, (∀ q, o = Some q → q ≠ []) →
    scope_paths a d = [o] →
    settle (match o with
            | None => throw (no_path_to_remove a)
            | Some p => remove_single p
            end σ) = Done (Some false) σ).
  { intros o Ho Hsc. destruct (Hweak o) as (q & -> & Hq); [rewrite Hsc, elem_of_cons; auto|].
    apply remove_single_quiet; auto. }
  destruct a; simpl nothing_removed;
    try (apply Hsingle; [intros q; apply config_path_nonempty|done]);
    try (apply remove_two_quiet; try (intros q; apply getConfigPath_nonempty); done).
  destruct (Hall (Some (ClaudeCode.getConfigPath d))) as (q & [= <-] & Hq);
    [simpl; rewrite elem_of_cons; auto|].
  apply claudecode_remove_quiet.
  destruct Hq as [Hnone|(D & Hfile & Hc & HD)]; eauto 10.
Qed.

(** What a [configure] that returns has left in the file. *)
Lemma configure_written a d apiKey s now σ p D r σ' :
  config_path a d s = Some p →
  σ !! p = Some (File (JsonText D)) →
  settle (configure a d apiKey s now σ) = Done r σ' →
  ∃ D1, σ' !! p = Some (File (JsonText D1)) ∧ rest_rewritten D D1
        ∧ (prop (servers_of D1) SPECTATOR = None ∨ configured D1 = true).
Proof.
  intros Hpath Hfile. pose proof (config_path_nonempty a d s p Hpath) as Hp.
  assert (Hprinted : ∀ X,
    prop (servers_of X) SPECTATOR = None
    ∨ prop (servers_of X) SPECTATOR = Some (spectator_entry apiKey) →
    prop (servers_of (printed X)) SPECTATOR = None ∨ configured (printed X) = true).
  { intros X HX. unfold configured, printed. rewrite servers_of_jmap, prop_jmap.
    destruct HX as [->| ->]; [by left|right]. simpl. by rewrite jmap_entry, entry_truthy. }
  rewrite configure_eq.
  destruct (decide (a = ClaudeCodeAdapter)) as [->|Ha].
  - simpl in Hpath. injection Hpath as <-. intros Hrun.
    destruct (claudecode_configure_report d apiKey s now σ D r σ' Hfile Hrun)
      as (others & isUpdated & config & Hu & _ & Hfile').
    exists (printed (shown config)). split; [done|].
    split; [by apply rest_rewritten_printed, (claudecode_upserted_same_rest _ apiKey others
                                                isUpdated)
           |by apply Hprinted; apply claudecode_upserted_entry in Hu].
  - assert (Hrun : settle ((if checks_entry a then configure_checked p apiKey now
                            else configure_backup_first p apiKey now) σ) = Done r σ' →
      ∃ already servers config,
        upserted (parsed D) apiKey = Ok (already, servers, config)
        ∧ σ' !! p = Some (File (JsonText (printed (shown config))))).
    { destruct (checks_entry a); intros Hrun.
      - destruct (configure_checked_report p apiKey now σ D r σ' Hp Hfile Hrun)
          as (already & servers & config & Hu & _ & Hfile'). eauto.
      - destruct (configure_backup_first_report p apiKey now σ D r σ' Hp Hfile Hrun)
          as (already & servers & config & Hu & _ & Hfile'). eauto. }
    intros Hdone.
    destruct Hrun as (already & servers & config & Hu & Hfile').
    { destruct a; try done; by rewrite Hpath in Hdone. }
    exists (printed (shown config)). split; [done|].
    split; [by apply rest_rewritten_printed, (upserted_same_rest _ apiKey already servers)
           |by apply Hprinted; apply upserted_entry in Hu].
Qed.

Lemma rewritten_twice (o : option json) :
  rewritten <$> (rewritten <$> o) = rewritten <$> o.
Proof. destruct o as [j|]; [|done]. simpl. by rewrite rewritten_idem. Qed.

(** The text a [remove] writes, against the text it read. *)
Lemma text_after_remove_spec a D :
  configured D = true → entry_removed_rewritten D (text_after_remove a D).
Proof.
  intros Hc. unfold text_after_remove. rewrite Hc.
  destruct (entry_removed_after a (parsed D) (parsed D)) as [Hfields Hservers].
  { apply same_but_entry_refl. }
  { right. by rewrite configured_parsed. }
  unfold printed. split.
  - intros k Hk. rewrite prop_jmap, Hfields by done. unfold parsed. rewrite prop_jmap.
    by destruct (prop D k).
  - intros k. rewrite servers_of_jmap, prop_jmap, Hservers. case_decide; [done|].
    unfold parsed. rewrite servers_of_jmap, prop_jmap.
    by destruct (prop (servers_of D) k).
Qed.

(** After a [configure], then a [remove]. *)
Lemma round_trip_text a D D1 :
  rest_rewritten D D1 →
  prop (servers_of D1) SPECTATOR = None ∨ configured D1 = true →
  entry_removed_rewritten D (text_after_remove a D1).
Proof.
  intros (Hfields & Hservers & _) Hentry.
  destruct (configured D1) eqn:Hc.
  - destruct (text_after_remove_spec a D1 Hc) as [Hf Hs]. split.
    + intros k Hk. by rewrite Hf, Hfields, rewritten_twice.
    + intros k. rewrite Hs. case_decide; [done|]. by rewrite Hservers, rewritten_twice.
  - unfold text_after_remove. rewrite Hc.
    destruct Hentry as [Hnone|?]; [|congruence].
    split; [done|]. intros k. case_decide as Hk; [by subst k|]. by apply Hservers.
Qed.

Lemma doc_after_remove_shape a Y :
  configured Y = true →
  elements (doc_after_remove a Y) = []
  ∧ elements (servers_of (doc_after_remove a Y)) = [].
Proof.
  intros Hc. pose proof Hc as Hc'.
  apply configured_inv in Hc' as (fs & m & v & -> & E & _ & _).
  destruct a; simpl; unfold without_entry, claudecode_without_entry; rewrite Hc; cbv zeta;
    rewrite (delete_entry_obj fs m E);
    try (unfold servers_of, prop, lget, live_of; simpl; by simpl_map).
  unfold alias, Object_keys, ldelete, lget, live_of. simpl. simpl_map. simpl.
  case_bool_decide; simpl; unfold servers_of, prop, lget, live_of; simpl; by simpl_map.
Qed.

Lemma round_trip_elements a D D1 :
  rest_rewritten D D1 →
  elements (text_after_remove a D1) = rewritten <$> elements D
  ∧ elements (servers_of (text_after_remove a D1)) = rewritten <$> elements (servers_of D).
Proof.
  intros (_ & _ & Helems & Hservers). unfold text_after_remove.
  destruct (configured D1) eqn:Hc; [|done].
  destruct (doc_after_remove_shape a (parsed D1)) as [H1 H2];
    [by rewrite configured_parsed|].
  unfold printed. rewrite servers_of_jmap, !elements_jmap, H1, H2.
  rewrite <- Helems, <- Hservers.
  apply configured_inv in Hc as (fs & m & v & -> & E & _ & _).
  unfold servers_of, prop, lget, live_of. simpl. by rewrite E.
Qed.

(** C6, counterexample.  Cursor's [configure], then its [remove], on the
    empty document [{}] leave [{ "mcpServers": {} }]. *)
Lemma round_trip_not_as_stated : ¬ round_trip_as_stated.
Proof.
  intros H.
  specialize (H Cursor linux_host "abc123xyz" None 17%N cursor_with_empty_document
                cursor_file (JObj ∅) (Some true)).
  assert (Hfinal :
    final_fs (round_trip Cursor linux_host "abc123xyz" None 17%N cursor_with_empty_document)
      !! cursor_file = Some (File (JsonText (JObj {[MCP_SERVERS := JObj ∅]})))).
  { vm_compute. reflexivity. }
  rewrite Hfinal in H.
  assert (Hne : JObj {[MCP_SERVERS := JObj ∅]} ≠ JObj ∅).
  { intros E. apply (f_equal (λ j, prop j MCP_SERVERS)) in E.
    vm_compute in E. discriminate E. }
  apply Hne.
  assert (E : Some (File (JsonText (JObj {[MCP_SERVERS := JObj ∅]})))
              = Some (File (JsonText (JObj ∅)))).
  { apply H; vm_compute; reflexivity. }
  by injection E.
Qed.

(** C6, amended.  When [configure] and then [remove] both return, the
    file holds a document with the top-level fields of the one that was
    there, [mcpServers] apart, and in [mcpServers] (none counts as empty)
    the entries that were there beside the tool's, and the elements of a
    document or of an [mcpServers] that is an array, each of them as
    [JSON.parse] and then [JSON.stringify] make it: a field or entry
    whose text comes back from the two as it is, is unchanged.  The
    tool's entry is gone, whether [configure] created or replaced it. *)
Theorem round_trip_document a d apiKey s now σ p D r :
  config_path a d s = Some p →
  σ !! p = Some (File (JsonText D)) →
  returned (round_trip a d apiKey s now σ) = Some r →
  ∃ D2, final_fs (round_trip a d apiKey s now σ) !! p = Some (File (JsonText D2))
        ∧ (∀ k, k ≠ MCP_SERVERS → prop D2 k = rewritten <$> prop D k)
        ∧ (∀ k, prop (servers_of D2) k
                = if decide (k = SPECTATOR) then None
                  else rewritten <$> prop (servers_of D) k)
        ∧ elements D2 = rewritten <$> elements D
        ∧ elements (servers_of D2) = rewritten <$> elements (servers_of D)
        ∧ (∀ k v, k ≠ MCP_SERVERS → prop D k = Some v → rewritten v = v →
             prop D2 k = Some v)
        ∧ (∀ k v, k ≠ SPECTATOR → prop (servers_of D) k = Some v → rewritten v = v →
             prop (servers_of D2) k = Some v).
Proof.
  intros Hpath Hfile Hret.
  apply returned_done in Hret as (σ2 & Hrun).
  rewrite (settled_final _ _ _ Hrun).
  unfold round_trip in Hrun. rewrite settle_bind in Hrun.
  destruct (settle (configure a d apiKey s now σ)) as [r1 σ1| | |] eqn:Hconf; try done.
  simpl in Hrun.
  destruct (configure_written a d apiKey s now σ p D r1 σ1 Hpath Hfile Hconf)
    as (D1 & Hfile1 & Hsame & Hentry).
  destruct (round_trip_text a D D1 Hsame Hentry) as [Hfields Hservers].
  destruct (round_trip_elements a D D1 Hsame) as [Helems Helems'].
  exists (text_after_remove a D1). split.
  { apply (remove_doc a d σ1 p D1 r σ2); [by apply (config_path_in_scope a d s)|done..]. }
  split; [done|]. split; [done|]. split; [done|]. split; [done|]. split.
  - intros k v Hk Hv Hsame'. rewrite Hfields, Hv by done. simpl. by rewrite Hsame'.
  - intros k v Hk Hv Hsame'. rewrite Hservers, Hv, decide_False by done. simpl.
    by rewrite Hsame'.
Qed.

Lemma round_trip_document_witness :
  ∃ D2, final_fs (round_trip Cursor linux_host "abc123xyz" None 17%N cursor_with_other_tool)
          !! cursor_file = Some (File (JsonText D2))
        ∧ (∀ k, k ≠ MCP_SERVERS → prop D2 k = rewritten <$> prop other_tool_document k)
        ∧ (∀ k, prop (servers_of D2) k
                = if decide (k = SPECTATOR) then None
                  else rewritten <$> prop (servers_of other_tool_document) k)
        ∧ elements D2 = rewritten <$> elements other_tool_document
        ∧ elements (servers_of D2) = rewritten <$> elements (servers_of other_tool_document)
        ∧ (∀ k v, k ≠ MCP_SERVERS → prop other_tool_document k = Some v →
             rewritten v = v → prop D2 k = Some v)
        ∧ (∀ k v, k ≠ SPECTATOR → prop (servers_of other_tool_document) k = Some v →
             rewritten v = v → prop (servers_of D2) k = Some v).
Proof.
  apply (round_trip_document Cursor linux_host "abc123xyz" None 17%N cursor_with_other_tool
           cursor_file other_tool_document (Some true)).
  - reflexivity.
  - vm_compute. reflexivity.
  - vm_compute. reflexivity.
Defined.

(** ** [configure], twice *)

Lemma upserted_again key1 key2 :
  upserted (fresh_document key1) key2
  = Ok (Some (spectator_entry key1),
        Live (JObj {[SPECTATOR := spectator_entry key2]}) ∅,
        Live (fresh_document key2) ∅).
Proof.
  unfold upserted, ensure_mcpServers, or_else, fresh_document. simpl.
  unfold lget, lset, live_of. simpl. rewrite lookup_singleton_eq. simpl.
  unfold alias, store_back, Object_assign, lget, live_of,
    BasePlatform.getMcpServerConfig. simpl.
  rewrite lookup_singleton_eq. simpl. rewrite lookup_singleton_eq.
  rewrite <- insert_union_singleton_l, !insert_singleton_eq. done.
Qed.

Lemma claudecode_upserted_again key1 key2 :
  claudecode_upserted (fresh_document key1) key2
  = Ok (false, true, Live (fresh_document key2) ∅).
Proof.
  unfold claudecode_upserted, member, prop, lget, lset, live_of, fresh_document. simpl.
  rewrite lookup_singleton_eq. simpl.
  unfold alias, store_back, lget, lset, live_of, Object_keys. simpl.
  rewrite lookup_singleton_eq. simpl.
  rewrite lookup_singleton_eq, map_to_list_singleton, !insert_singleton_eq. simpl.
  rewrite entry_truthy. rewrite filter_cons_False by (simpl; auto). done.
Qed.

Lemma node_at_insert_ne σ p q n : p ≠ q → node_at (<[q := n]> σ) p = node_at σ p.
Proof. intros Hpq. destruct p; [done|]. simpl. by rewrite lookup_insert_ne. Qed.

Lemma dirname_ne_backup p now : p ≠ [] → dirname p ≠ backup_path p now.
Proof.
  intros Hp E. apply (f_equal length) in E. unfold backup_path in E.
  rewrite add_suffix_length in E by done. rewrite (dirname_length p Hp) in E. lia.
Qed.

(** A backup of a file in a directory, to a path that is free. *)
Lemma backupConfig_ok p now σ c : p ≠ [] →
  σ !! p = Some (File c) → node_at σ (dirname p) = Some Dir →
  σ !! backup_path p now = None →
  BasePlatform.backupConfig p now σ
  = Done (Some (backup_path p now)) (<[backup_path p now := File c]> σ).
Proof.
  intros Hp Hfile Hdir Hfree.
  destruct (backupConfig_spec p now σ Hp) as
    [(Hnone & _)|[(c' & Hfile' & _ & _ & ->)|(e & _ & Hwhy)]].
  - congruence.
  - unfold backup_path. congruence.
  - destruct Hwhy as [?|[?|Hb]]; try congruence. unfold backup_path in Hfree. congruence.
Qed.

Lemma jmap_fresh f key : jmap f (fresh_document key) = fresh_document key.
Proof.
  unfold fresh_document. cbn [jmap]. rewrite !map_fmap_singleton. cbn [jmap].
  rewrite !map_fmap_singleton. by rewrite jmap_entry.
Qed.

(** Writing over a file in a directory. *)
Lemma writeConfig_over p config σ c : p ≠ [] →
  σ !! p = Some (File c) → node_at σ (dirname p) = Some Dir →
  BasePlatform.writeConfig p config σ = Done () (<[p := File (JSON_stringify config)]> σ).
Proof.
  intros Hp Hfile Hdir. rewrite writeConfig_eq. unfold existsSync. rewrite Hdir.
  by rewrite writeFileSync_eq, Hfile, Hdir.
Qed.

(** The second [configure], on what the first has created. *)
Lemma configure_checked_again p key1 key2 now σ : p ≠ [] →
  σ !! p = Some (File (JsonText (fresh_document key1))) →
  node_at σ (dirname p) = Some Dir →
  σ !! backup_path p now = None →
  settle (configure_checked p key2 now σ)
  = Done (Report (Some (spectator_entry key1)) false None)
         (<[p := File (JsonText (fresh_document key2))]>
            (<[backup_path p now := File (JsonText (fresh_document key1))]> σ)).
Proof.
  intros Hp Hfile Hdir Hfree.
  rewrite configure_checked_run, readConfig_eq, node_at_nonempty, Hfile by done. simpl.
  unfold parsed. rewrite jmap_fresh, upserted_again. simpl. rewrite entry_truthy.
  rewrite (backupConfig_ok p now σ _ Hp Hfile Hdir Hfree). simpl.
  rewrite (writeConfig_over p _ _ (JsonText (fresh_document key1))); try done.
  - rewrite lookup_insert_ne; [done|]. apply backup_path_ne.
  - rewrite node_at_insert_ne; [done|]. by apply dirname_ne_backup.
Qed.

Lemma configure_backup_first_again p key1 key2 now σ : p ≠ [] →
  σ !! p = Some (File (JsonText (fresh_document key1))) →
  node_at σ (dirname p) = Some Dir →
  σ !! backup_path p now = None →
  settle (configure_backup_first p key2 now σ)
  = Done ReturnedTrue
         (<[p := File (JsonText (fresh_document key2))]>
            (<[backup_path p now := File (JsonText (fresh_document key1))]> σ)).
Proof.
  intros Hp Hfile Hdir Hfree.
  assert (Hfile' : <[backup_path p now := File (JsonText (fresh_document key1))]> σ !! p
                   = Some (File (JsonText (fresh_document key1)))).
  { rewrite lookup_insert_ne; [done|]. apply backup_path_ne. }
  rewrite configure_backup_first_run.
  rewrite (backupConfig_ok p now σ _ Hp Hfile Hdir Hfree). simpl.
  rewrite readConfig_eq, node_at_nonempty, Hfile' by done. simpl.
  unfold parsed. rewrite jmap_fresh, upserted_again. simpl.
  rewrite (writeConfig_over p _ _ (JsonText (fresh_document key1))); try done.
  rewrite node_at_insert_ne; [done|]. by apply dirname_ne_backup.
Qed.

Lemma claudecode_configure_again d key1 key2 s now σ :
  let p := ClaudeCode.getConfigPath d in
  σ !! p = Some (File (JsonText (fresh_document key1))) →
  node_at σ (dirname p) = Some Dir →
  settle (ClaudeCode.configure d key2 s now σ)
  = Done (Report (Some (JBool true)) false (Some p))
         (<[p := File (JsonText (fresh_document key2))]> σ).
Proof.
  intros p Hfile Hdir. assert (Hp : p ≠ []) by (by apply app_nonempty_r).
  rewrite claudecode_configure_run. cbv zeta. fold p.
  unfold existsSync at 1. rewrite Hdir. simpl.
  unfold claudecode_read, existsSync, readFileSync. rewrite node_at_nonempty, Hfile by done.
  simpl. unfold parsed. rewrite jmap_fresh, claudecode_upserted_again. simpl.
  unfold fs_writeFileSync, JSON_stringify. simpl shown.
  by rewrite (jmap_fresh number_text key2 : printed _ = _), writeFileSync_eq, Hfile, Hdir.
Qed.

(** C5.  Run twice with two keys on a platform whose file does not exist
    yet, every adapter's [configure] returns both times and leaves in the
    file the document whose only content is the entry of the second key:
    the entry is replaced as a whole, and nothing of the first key is
    left.  Before the second write every adapter but Claude Code's copies
    the file, which then holds the first key's document, to a backup that
    was not there; Claude Code's [configure] makes no backup, and its
    second run changes nothing but the file. *)
Theorem configure_twice a d key1 key2 s now1 now2 σ p :
  config_path a d s = Some p → σ !! p = None → writable σ p →
  σ !! backup_path p now2 = None →
  ∃ σ1 σ2,
    settle (configure a d key1 s now1 σ) = Done (first_result a p) σ1
    ∧ settle (configure a d key2 s now2 σ1) = Done (second_result a key1 p) σ2
    ∧ σ2 !! p = Some (File (JsonText (fresh_document key2)))
    ∧ σ1 !! backup_path p now2 = None
    ∧ σ2 !! backup_path p now2 = second_backup a key1
    ∧ (a = ClaudeCodeAdapter → ∀ q, q ≠ p → σ2 !! q = σ1 !! q).
Proof.
  intros Hpath Hnone Hw Hfree. pose proof (config_path_nonempty a d s p Hpath) as Hp.
  destruct (first_configure_result a d key1 s now1 σ p Hpath Hnone Hw)
    as (σ1 & Hrun1 & Hfile1 & Hdir1).
  pose proof (configure_first_touched a d key1 s now1 σ p Hpath Hnone) as Ht.
  rewrite (settled_final _ _ _ Hrun1) in Ht.
  assert (Hfree1 : σ1 !! backup_path p now2 = None).
  { rewrite (touched_other σ σ1 p _ Ht); [done|apply backup_path_ne|].
    by apply backup_path_not_prefix. }
  exists σ1.
  destruct (decide (a = ClaudeCodeAdapter)) as [->|Ha].
  - simpl in Hpath. injection Hpath as Hpath.
    exists (<[p := File (JsonText (fresh_document key2))]> σ1).
    split; [done|]. split.
    { simpl. subst p. by apply (claudecode_configure_again d key1). }
    split; [by rewrite lookup_insert_eq|]. split; [done|]. split.
    + simpl. rewrite lookup_insert_ne; [done|]. intros E. by apply (backup_path_ne p now2).
    + intros _ q Hq. by rewrite lookup_insert_ne.
  - exists (<[p := File (JsonText (fresh_document key2))]>
              (<[backup_path p now2 := File (JsonText (fresh_document key1))]> σ1)).
    split; [done|]. split.
    { rewrite configure_eq.
      destruct a; try done; rewrite Hpath; simpl;
        by (apply (configure_checked_again p key1)
            || apply (configure_backup_first_again p key1)). }
    split; [by rewrite lookup_insert_eq|]. split; [done|]. split; [|done].
    rewrite lookup_insert_ne by (intros E; by apply (backup_path_ne p now2)).
    rewrite lookup_insert_eq. by destruct a.
Qed.

Lemma configure_twice_witness :
  ∃ σ1 σ2,
    settle (configure Cursor linux_host "key-one-1111" (Some global) 17%N empty_home)
    = Done (first_result Cursor cursor_file) σ1
    ∧ settle (configure Cursor linux_host "key-two-2222" (Some global) 18%N σ1)
      = Done (second_result Cursor "key-one-1111" cursor_file) σ2
    ∧ σ2 !! cursor_file = Some (File (JsonText (fresh_document "key-two-2222")))
    ∧ σ1 !! backup_path cursor_file 18%N = None
    ∧ σ2 !! backup_path cursor_file 18%N = second_backup Cursor "key-one-1111"
    ∧ (Cursor = ClaudeCodeAdapter → ∀ q, q ≠ cursor_file → σ2 !! q = σ1 !! q).
Proof.
  apply (configure_twice Cursor linux_host "key-one-1111" "key-two-2222" (Some global)
           17%N 18%N empty_home cursor_file).
  - reflexivity.
  - vm_compute. reflexivity.
  - split.
    + vm_compute. discriminate.
    + intros q c [k Hk].
      destruct q as [|x1 [|x2 [|x3 [|x4 q]]]]; simplify_eq/=; vm_compute; discriminate.
  - vm_compute. reflexivity.
Defined.

(** Claude Code's [configure], run twice with two keys in a home
    directory that has nothing of Claude Code: in the end the file holds
    the second key's document, and the file system has two nodes more
    than before, the file and the directory [.claudecode] it is in.
    There is no backup. *)
Lemma claudecode_twice_no_backup :
  let σ2 :=
    final_fs ((ClaudeCode.configure linux_host "key-one-1111" None 17%N;;
               ClaudeCode.configure linux_host "key-two-2222" None 18%N)%prog empty_home) in
  σ2 !! claudecode_file = Some (File (JsonText (fresh_document "key-two-2222")))
  ∧ σ2 !! ["home"; "u"; ".claudecode"] = Some Dir
  ∧ size empty_home = 2
  ∧ size σ2 = 4.
Proof. vm_compute. repeat split; reflexivity. Qed.

(** Claude Code's [configure], whatever it finds and however it ends,
    changes nothing but its file and the directories above it: it
    leaves no backup. *)
Theorem claudecode_configure_no_backup d apiKey s now σ q :
  q ≠ ClaudeCode.getConfigPath d →
  ¬ q `prefix_of` dirname (ClaudeCode.getConfigPath d) →
  final_fs (ClaudeCode.configure d apiKey s now σ) !! q = σ !! q.
Proof.
  intros Hq Hpre.
  by apply (touched_other σ _ (ClaudeCode.getConfigPath d) q
              (claudecode_configure_touched d apiKey s now σ)).
Qed.

Lemma claudecode_configure_no_backup_witness :
  final_fs (ClaudeCode.configure linux_host "abc123xyz" None 17%N claudecode_with_other_tool)
    !! backup_path claudecode_file 17%N
  = claudecode_with_other_tool !! backup_path claudecode_file 17%N.
Proof.
  apply (claudecode_configure_no_backup linux_host "abc123xyz" None 17%N
           claudecode_with_other_tool (backup_path claudecode_file 17%N)).
  - vm_compute. discriminate.
  - intros [k Hk]. vm_compute in Hk. discriminate Hk.
Defined.

(** ** The setup command *)

Lemma bind_res_returns_or_throws {A B} (r : res A) (f : A → prog B) :
  returns_or_throws r → (∀ a σ, returns_or_throws (f a σ)) →
  returns_or_throws (bind_res r f).
Proof.
  intros [(a & σ & ->)|(e & σ & ->)] Hf; simpl; [apply Hf|].
  right. eauto.
Qed.

Lemma lift_returns_or_throws {A} (o : outcome A) σ : returns_or_throws (lift o σ).
Proof. destruct o; [left|right]; simpl; eauto. Qed.

Lemma done_returns_or_throws {A} (a : A) σ : returns_or_throws (Done a σ).
Proof. left. eauto. Qed.

Create HintDb returns.
#[local] Hint Resolve readConfig_returns backupConfig_returns writeConfig_returns
  lift_returns_or_throws done_returns_or_throws : returns.

(** A [configure] returns or throws: it never ends the process. *)
Lemma configure_settles a d apiKey s now σ :
  returns_or_throws (settle (configure a d apiKey s now σ)).
Proof.
  rewrite configure_eq.
  assert (Hchecked : ∀ p, returns_or_throws (settle (configure_checked p apiKey now σ))).
  { intros p. rewrite configure_checked_run.
    apply bind_res_returns_or_throws; [auto with returns|]. intros read σ1.
    apply bind_res_returns_or_throws; [auto with returns|]. intros [[already servers] config] σ2.
    apply bind_res_returns_or_throws; [destruct (truthy_opt already); auto with returns|].
    intros _ σ3.
    apply bind_res_returns_or_throws; auto with returns. }
  assert (Hfirst : ∀ p, returns_or_throws (settle (configure_backup_first p apiKey now σ))).
  { intros p. rewrite configure_backup_first_run.
    apply bind_res_returns_or_throws; [auto with returns|]. intros _ σ1.
    apply bind_res_returns_or_throws; [auto with returns|]. intros read σ2.
    apply bind_res_returns_or_throws; [auto with returns|]. intros [[already servers] config] σ3.
    apply bind_res_returns_or_throws; auto with returns. }
  assert (Hthrow : returns_or_throws (settle (throw (A := configure_result)
                                                (no_path_message a) σ))).
  { right. simpl. eauto. }
  destruct a; try (destruct (config_path _ d s); simpl; auto; fail).
  rewrite claudecode_configure_run. cbv zeta.
  assert (Hsettled : ∀ r : res configure_result, returns_or_throws r →
            returns_or_throws (settle r)).
  { intros r Hr. by rewrite returns_or_throws_settled. }
  apply Hsettled.
  apply bind_res_returns_or_throws.
  { destruct (existsSync σ _); [auto with returns|].
    destruct (mkdir_from_settled [] (dirname (ClaudeCode.getConfigPath d)) σ)
      as [(σ1 & ->)|(e & σ1 & ->)]; [left|right]; eauto. }
  intros _ σ1.
  apply bind_res_returns_or_throws; [auto with returns|]. intros read σ2.
  apply bind_res_returns_or_throws; [auto with returns|]. intros [[others isUpdated] config] σ3.
  apply bind_res_returns_or_throws; [|auto with returns].
  unfold fs_writeFileSync. destruct (writeFileSync _ _ _); [left|right]; eauto.
Qed.

(** The loop over the platforms comes to its end, with its results. *)
Lemma configure_each_returns d apiKey sc clock names : ∀ i results σ,
  ∃ rs σ', settle (configure_each d apiKey sc clock i names results σ) = Done rs σ'.
Proof.
  induction names as [|name names IH]; intros i results σ; simpl; [eauto|].
  destruct (platforms name) as [a|]; [|apply IH].
  rewrite settle_bind, settle_try_catch, settle_bind, settle_await.
  destruct (configure_settles a d apiKey sc (clock i) σ) as [(r & σ1 & ->)|(e & σ1 & ->)];
    simpl; apply IH.
Qed.

Lemma filter_nonempty {A} (P : A → Prop) `{∀ x, Decision (P x)} (l : list A) :
  0 < length (filter P l) ↔ ∃ x, x ∈ l ∧ P x.
Proof.
  split.
  - destruct (filter P l) as [|x l'] eqn:E; simpl; [lia|]. intros _.
    assert (Hin : x ∈ filter P l) by (rewrite E; left).
    apply list_elem_of_filter in Hin as [HP Hx]. eauto.
  - intros (x & Hx & HP).
    assert (Hin : x ∈ filter P l) by (by apply list_elem_of_filter).
    destruct (filter P l); [by apply elem_of_nil in Hin|simpl; lia].
Qed.

Lemma length_zero {A} (l : list A) : length l = 0 ↔ l = [].
Proof. by destruct l. Qed.

Lemma key_step_settle answer options σ :
  settle ((if negb (given (opt_apiKey options)) then await (ret answer)
           else ret (default "" (opt_apiKey options))) σ)
  = Done (the_key answer options) σ.
Proof. unfold the_key. by destruct (given (opt_apiKey options)). Qed.



Lemma exit_status_settle {A} (r : res A) : exit_status (settle r) = exit_status r.
Proof. unfold exit_status. by rewrite settle_settled. Qed.

(** With a key that is not empty nothing is awaited before the throw:
    the process has ended when [runSetup] comes back to the script. *)
Lemma run_inferred_eq d answer clock key σ :
  run_inferred d answer clock key σ = Exited (if String.eqb key "" then 0 else 1)%Z σ.
Proof.
  unfold run_inferred, runSetup, try_catch, bind, given. cbn [opt_apiKey].
  by destruct (String.eqb key "").
Qed.




(** A [configure] of any adapter, awaited to its end, returns or throws,
    whatever the file system: it does not end the process.  So the loop
    of [runSetup] over the platforms reaches its end. *)
Theorem setup_loop_ends d apiKey sc clock names i results σ :
  (∀ a now, returns_or_throws (settle (configure a d apiKey sc now σ)))
  ∧ ∃ rs σ', settle (configure_each d apiKey sc clock i names results σ) = Done rs σ'.
Proof.
  split; [intros a now; apply configure_settles|apply configure_each_returns].
Qed.

(** *** The short-hand with the bare key *)

Lemma installed_known d σ name :
  name ∈ getInstalledPlatforms d σ → is_Some (platforms name).
Proof.
  unfold getInstalledPlatforms. rewrite list_elem_of_filter. intros [_ Hin].
  repeat (apply elem_of_cons in Hin as [->|Hin]; [by eexists|]).
  by apply elem_of_nil in Hin.
Qed.

Lemma await_paused {A} (m : prog A) σ :
  returns_or_throws (settle (m σ)) → is_paused (await m σ).
Proof.
  unfold await. destruct (m σ); simpl; try done.
  intros [(a & σ' & [=])|(e & σ' & [=])].
Qed.

Lemma bind_res_paused {A B} (r : res A) (f : A → prog B) :
  is_paused r → is_paused (bind_res r f).
Proof. by destruct r. Qed.

Lemma catch_res_paused {A} (r : res A) (h : string → prog A) :
  is_paused r → is_paused (catch_res r h).
Proof. by destruct r. Qed.

(** The loop is suspended at the first [configure]. *)
Lemma configure_each_paused d apiKey sc clock i name names results σ :
  is_Some (platforms name) →
  is_paused (configure_each d apiKey sc clock i (name :: names) results σ).
Proof.
  intros [a Ha]. simpl. rewrite Ha.
  apply bind_res_paused, catch_res_paused, bind_res_paused, await_paused, configure_settles.
Qed.

(** The short-hand of client/bin/spectator-mcp.js.  It is taken when
    the command line is one word that does not start with a dash and is
    no command name.  [runSetup] is called with the word as the key and
    not awaited: with a word that is not empty it ends the process with
    status 1 at its first [logger.step]; with the empty word it is
    suspended at the prompt and the [process.exit(0)] of the script ends
    the process.  Nothing is written. *)
Theorem run_inferred_status d answer clock args key σ :
  inferredApiKey args = Some key →
  args = [key] ∧ String.prefix "-" key = false ∧ (key ∉ KNOWN_COMMANDS)
  ∧ run_inferred d answer clock key σ
    = Exited (if String.eqb key "" then 0 else 1)%Z σ.
Proof.
  intros Hargs. split; [|split; [|split; [|apply run_inferred_eq]]].
  - destruct args as [|a [|a' rest]]; try done. simpl in Hargs.
    destruct (negb (String.prefix "-" a) && _); [|done]. by injection Hargs as ->.
  - destruct args as [|a [|a' rest]]; try done. simpl in Hargs.
    destruct (String.prefix "-" a) eqn:E; [done|]. simpl in Hargs.
    destruct (negb _); [|done]. by injection Hargs as <-.
  - destruct args as [|a [|a' rest]]; try done. simpl in Hargs.
    destruct (negb (String.prefix "-" a)); [|done]. simpl in Hargs.
    case_bool_decide as Hin; [done|]. simpl in Hargs. by injection Hargs as <-.
Qed.

Lemma run_inferred_status_witness :
  ["abc123xyz0"] = ["abc123xyz0"] ∧ String.prefix "-" "abc123xyz0" = false
  ∧ ("abc123xyz0" ∉ KNOWN_COMMANDS)
  ∧ run_inferred linux_host "" still "abc123xyz0" cursor_home = Exited 1%Z cursor_home.
Proof.
  apply (run_inferred_status linux_host "" still ["abc123xyz0"] "abc123xyz0" cursor_home).
  reflexivity.
Defined.

(** ** [validate] on files that exist *)

Lemma validate_eq a d :
  validate a d =
  match a with
  | ClaudeCodeAdapter => ClaudeCode.validate d
  | Cursor => validate_two (getConfigPath d "cursor" global) (getConfigPath d "cursor" project)
  | VSCode => validate_two (getConfigPath d "vscode" global) (getConfigPath d "vscode" project)
  | _ => validate_single (config_path a d None) (not_found_message a)
  end.
Proof. destruct a; reflexivity. Qed.

Lemma has_entry_cases D :
  (D = JNull ∧ ∃ m, has_entry D = Err m ∧ m ≠ "") ∨ has_entry D = Ok (configured D).
Proof.
  destruct D; try (right; by apply has_entry_configured).
  left. split; [done|]. eexists. split; [reflexivity|]. vm_compute. discriminate.
Qed.

Lemma read_error_nonempty p m : "Failed to read config from " +:+ path_str p +:+ ": " +:+ m ≠ "".
Proof. discriminate. Qed.

(** [validate] of Claude Desktop, Windsurf and Cline. *)
Lemma validate_single_report p not_found σ : p ≠ [] → not_found ≠ "" →
  ∃ v, settle (validate_single (Some p) not_found σ) = Done v σ
       ∧ (valid v = true ↔ configured_file σ p = true)
       ∧ (valid v = false → ∃ m, error v = Some m ∧ m ≠ "").
Proof.
  intros Hp Hnf. unfold validate_single, configured_file.
  rewrite settle_bind. unfold fs_existsSync, existsSync. rewrite node_at_nonempty by done.
  destruct (σ !! p) as [n|] eqn:E; cbn [settle bind_res negb].
  2: { eexists. split; [reflexivity|]. split; [done|]. eauto. }
  rewrite settle_try_catch, settle_bind, settle_await, readConfig_eq, node_at_nonempty, E
    by done.
  destruct n as [[|D|raw]|]; simpl;
    try (eexists; split; [reflexivity|]; split; [done|]; intros _; eexists;
         split; [reflexivity|discriminate]).
  rewrite settle_bind. unfold lift.
  rewrite <- (configured_parsed D). generalize (parsed D). clear E D. intros D.
  destruct (has_entry_cases D) as [(HD & m & Hh & Hm)|Hh]; rewrite Hh; simpl.
  - subst D. eexists. split; [reflexivity|]. split; [done|]. eauto.
  - destruct (configured D); simpl; eexists; (split; [reflexivity|]); split; try done.
    intros _. eexists. split; [reflexivity|discriminate].
Qed.

(** One scope of the [validate] of Cursor and VS Code. *)
Lemma check_scope_report p s results σ : p ≠ [] →
  ∃ more, settle (check_scope (Some p) s results σ) = Done (results ++ more) σ
          ∧ (∀ v, v ∈ more → valid v = true → configured_file σ p = true)
          ∧ (configured_file σ p = true → ∃ v, v ∈ more ∧ valid v = true)
          ∧ (∀ v, v ∈ more → valid v = false → ∃ m, error v = Some m ∧ m ≠ "").
Proof.
  intros Hp. unfold check_scope, configured_file.
  rewrite settle_bind. unfold fs_existsSync, existsSync. rewrite node_at_nonempty by done.
  assert (Hnothing : ∀ b : bool, b = false →
    ∃ more : list validation, Done (A := list validation) results σ = Done (results ++ more) σ
      ∧ (∀ v, v ∈ more → valid v = true → b = true)
      ∧ (b = true → ∃ v, v ∈ more ∧ valid v = true)
      ∧ (∀ v, v ∈ more → valid v = false → ∃ m, error v = Some m ∧ m ≠ "")).
  { intros b ->. exists []. rewrite app_nil_r. split; [done|].
    split; [by intros v Hv%elem_of_nil|]. split; [done|]. by intros v Hv%elem_of_nil. }
  assert (Hfailed : ∀ (b : bool) m, b = false → m ≠ "" →
    ∃ more : list validation,
      Done (A := list validation) (results ++ [Validation (Some s) false (Some m)]) σ
      = Done (results ++ more) σ
      ∧ (∀ v, v ∈ more → valid v = true → b = true)
      ∧ (b = true → ∃ v, v ∈ more ∧ valid v = true)
      ∧ (∀ v, v ∈ more → valid v = false → ∃ m, error v = Some m ∧ m ≠ "")).
  { intros b m -> Hm. eexists. split; [reflexivity|].
    split; [by intros v ->%list_elem_of_singleton|]. split; [done|].
    intros v ->%list_elem_of_singleton _. eauto. }
  destruct (σ !! p) as [n|] eqn:E; cbn [settle bind_res negb]; [|by apply Hnothing].
  rewrite settle_try_catch, settle_bind, settle_await, readConfig_eq, node_at_nonempty, E
    by done.
  destruct n as [[|D|raw]|]; simpl; try (by apply Hfailed).
  rewrite settle_bind. unfold lift.
  rewrite <- (configured_parsed D). generalize (parsed D). clear E D. intros D.
  destruct (has_entry_cases D) as [(HD & m & Hh & Hm)|Hh]; rewrite Hh; simpl;
    [subst D; by apply Hfailed|].
  destruct (configured D); simpl; [|by apply Hnothing].
  eexists. split; [reflexivity|]. split; [done|].
  split; [intros _; eexists; split; [by apply list_elem_of_singleton|done]|].
  by intros v ->%list_elem_of_singleton.
Qed.

Lemma check_scope_report_opt o s results σ : (∀ p, o = Some p → p ≠ []) →
  ∃ more, settle (check_scope o s results σ) = Done (results ++ more) σ
          ∧ (∀ v, v ∈ more → valid v = true → ∃ p, o = Some p ∧ configured_file σ p = true)
          ∧ (∀ p, o = Some p → configured_file σ p = true → ∃ v, v ∈ more ∧ valid v = true)
          ∧ (∀ v, v ∈ more → valid v = false → ∃ m, error v = Some m ∧ m ≠ "").
Proof.
  intros Ho. destruct o as [p|].
  - destruct (check_scope_report p s results σ (Ho p eq_refl))
      as (more & Hrun & Hvalid & Hfound & Herror).
    exists more. split; [done|]. split; [eauto|]. split; [|done].
    intros p' [= <-]. done.
  - exists []. rewrite app_nil_r. split; [done|].
    split; [by intros v Hv%elem_of_nil|]. split; [done|]. by intros v Hv%elem_of_nil.
Qed.

Lemma find_valid_some (l : list validation) v : find valid l = Some v → v ∈ l ∧ valid v = true.
Proof. intros H. apply find_some in H as [Hin Hv]. by apply list_elem_of_In in Hin. Qed.

Lemma find_valid_none (l : list validation) v : find valid l = None → v ∈ l → valid v = false.
Proof. intros H Hin. apply list_elem_of_In in Hin. by apply (find_none valid l H). Qed.

(** [validate] of Cursor and VS Code. *)
Lemma validate_two_report o1 o2 σ :
  (∀ p, o1 = Some p → p ≠ []) → (∀ p, o2 = Some p → p ≠ []) →
  ∃ v, settle (validate_two o1 o2 σ) = Done v σ
       ∧ (valid v = true ↔ ∃ p, (o1 = Some p ∨ o2 = Some p) ∧ configured_file σ p = true)
       ∧ (valid v = false → ∃ m, error v = Some m ∧ m ≠ "").
Proof.
  intros H1 H2. unfold validate_two. rewrite settle_bind.
  destruct (check_scope_report_opt o1 global [] σ H1) as (m1 & -> & Hv1 & Hf1 & He1).
  cbn [bind_res app]. rewrite settle_bind.
  destruct (check_scope_report_opt o2 project m1 σ H2) as (m2 & -> & Hv2 & Hf2 & He2).
  cbn [bind_res].
  assert (Hvalid : ∀ v, v ∈ m1 ++ m2 → valid v = true →
            ∃ p, (o1 = Some p ∨ o2 = Some p) ∧ configured_file σ p = true).
  { intros v [Hin|Hin]%elem_of_app Hv.
    - destruct (Hv1 v Hin Hv) as (p & ? & ?). eauto.
    - destruct (Hv2 v Hin Hv) as (p & ? & ?). eauto. }
  assert (Hfound : (∃ p, (o1 = Some p ∨ o2 = Some p) ∧ configured_file σ p = true) →
            ∃ v, v ∈ m1 ++ m2 ∧ valid v = true).
  { intros (p & [Ho|Ho] & Hc).
    - destruct (Hf1 p Ho Hc) as (v & Hin & Hv). exists v. rewrite elem_of_app. auto.
    - destruct (Hf2 p Ho Hc) as (v & Hin & Hv). exists v. rewrite elem_of_app. auto. }
  assert (Herror : ∀ v, v ∈ m1 ++ m2 → valid v = false → ∃ m, error v = Some m ∧ m ≠ "").
  { intros v [Hin|Hin]%elem_of_app; auto. }
  remember (m1 ++ m2) as results eqn:E. clear E Hv1 Hv2 Hf1 Hf2 He1 He2.
  destruct results as [|first rest].
  - eexists. split; [reflexivity|]. split.
    + split; [done|]. intros Hp. destruct (Hfound Hp) as (v & Hin & _).
      by apply elem_of_nil in Hin.
    + intros _. eexists. split; [reflexivity|discriminate].
  - destruct (find valid (first :: rest)) as [v|] eqn:Efind; cbn [default ret settle].
    + apply find_valid_some in Efind as [Hin Hv].
      exists v. split; [done|]. split; [|congruence].
      split; [intros _; by apply (Hvalid v)|done].
    + exists first. split; [done|].
      assert (Hfirst : valid first = false).
      { apply (find_valid_none _ _ Efind). left. }
      split.
      * split; [congruence|]. intros Hp. destruct (Hfound Hp) as (v & Hin & Hv).
        rewrite (find_valid_none _ _ Efind Hin) in Hv. discriminate.
      * intros _. apply Herror; [left|done].
Qed.

(** [validate] of Claude Code. *)
Lemma well_formed_entry_parsed D : well_formed_entry (parsed D) = well_formed_entry D.
Proof.
  unfold well_formed_entry, parsed.
  assert (H : default JNull (prop (servers_of (jmap (λ n, Some (to_double n)) D)) SPECTATOR)
              = jmap (λ n, Some (to_double n)) (default JNull (prop (servers_of D) SPECTATOR))).
  { rewrite servers_of_jmap, prop_jmap. by destruct (prop (servers_of D) SPECTATOR). }
  rewrite H, !prop_jmap.
  by rewrite !(truthy_opt_parsed (prop _ _)).
Qed.

Lemma claudecode_validate_report d σ :
  ∃ v, settle (ClaudeCode.validate d σ) = Done v σ
       ∧ (valid v = true
          ↔ valid_file ClaudeCodeAdapter σ (ClaudeCode.getConfigPath d) = true)
       ∧ (valid v = false → ∃ m, error v = Some m ∧ m ≠ "").
Proof.
  set (p := ClaudeCode.getConfigPath d).
  assert (Hp : p ≠ []) by (by apply app_nonempty_r).
  unfold ClaudeCode.validate, valid_file, valid_document. fold p.
  unfold bind, try_catch, fs_existsSync, fs_readFileSync, existsSync, readFileSync,
    lift, ret.
  rewrite node_at_nonempty by done.
  destruct (σ !! p) as [[[|D|raw]|]|] eqn:E; simpl; rewrite ?node_at_nonempty, ?E by done;
    simpl;
    try (eexists; split; [reflexivity|]; split; [done|]; intros _; eexists;
         split; [reflexivity|discriminate]).
  rewrite <- (configured_parsed D), <- (well_formed_entry_parsed D).
  generalize (parsed D). clear E D. intros D.
  destruct (has_entry_cases D) as [(HD & m & Hh & Hm)|Hh]; rewrite Hh; simpl.
  - subst D. eexists. split; [reflexivity|]. split; [done|].
    intros _. eexists. split; [reflexivity|discriminate].
  - destruct (configured D); simpl.
    + unfold well_formed_entry, servers_of. cbv zeta.
      destruct (negb _ || negb _) eqn:Eb; simpl; eexists; (split; [reflexivity|]); simpl.
      * split; [|intros _; eexists; split; [reflexivity|discriminate]].
        split; [done|]. intros Hw. apply andb_true_iff in Hw as [Hc Ha].
        rewrite Hc, Ha in Eb. discriminate Eb.
      * split; [|done]. split; [|done]. intros _. apply orb_false_iff in Eb as [Hc Ha].
        apply negb_false_iff in Hc, Ha. by rewrite Hc, Ha.
    + eexists. split; [reflexivity|]. split; [done|].
      intros _. eexists. split; [reflexivity|discriminate].
Qed.

Lemma valid_file_configured a σ p :
  a ≠ ClaudeCodeAdapter → valid_file a σ p = configured_file σ p.
Proof.
  intros Ha. unfold valid_file, configured_file, valid_document.
  destruct (σ !! p) as [[[|D|raw]|]|]; try done.
  destruct a; try done; apply andb_true_r.
Qed.

(** What [validate] returns, whatever it finds. *)
Lemma validate_settle a d σ :
  ∃ v, settle (validate a d σ) = Done v σ
       ∧ (valid v = true ↔ ∃ p, Some p ∈ scope_paths a d ∧ valid_file a σ p = true)
       ∧ (valid v = false → ∃ m, error v = Some m ∧ m ≠ "").
Proof.
  rewrite validate_eq.
  assert (Hsingle : a ≠ ClaudeCodeAdapter → scope_paths a d = [config_path a d None] →
    ∃ v, settle (validate_single (config_path a d None) (not_found_message a) σ) = Done v σ
         ∧ (valid v = true ↔ ∃ p, Some p ∈ scope_paths a d ∧ valid_file a σ p = true)
         ∧ (valid v = false → ∃ m, error v = Some m ∧ m ≠ "")).
  { intros Ha ->. destruct (config_path a d None) as [p|] eqn:Epath.
    - destruct (validate_single_report p (not_found_message a) σ) as (v & Hrun & Hv & He).
      { by apply (config_path_nonempty a d None). }
      { by destruct a. }
      exists v. split; [done|]. split; [|done]. rewrite Hv. split.
      + intros Hc. exists p. rewrite valid_file_configured by done.
        split; [apply list_elem_of_here|done].
      + intros (q & Hq%list_elem_of_singleton & Hc). injection Hq as ->.
        by rewrite valid_file_configured in Hc.
    - eexists. split; [reflexivity|]. split.
      + split; [done|]. by intros (q & Hq%list_elem_of_singleton & _).
      + intros _. eexists. split; [reflexivity|]. by destruct a. }
  assert (Htwo : a ≠ ClaudeCodeAdapter → ∀ o1 o2, scope_paths a d = [o1; o2] →
    (∀ p, o1 = Some p → p ≠ []) → (∀ p, o2 = Some p → p ≠ []) →
    ∃ v, settle (validate_two o1 o2 σ) = Done v σ
         ∧ (valid v = true ↔ ∃ p, Some p ∈ scope_paths a d ∧ valid_file a σ p = true)
         ∧ (valid v = false → ∃ m, error v = Some m ∧ m ≠ "")).
  { intros Ha o1 o2 -> H1 H2.
    destruct (validate_two_report o1 o2 σ H1 H2) as (v & Hrun & Hv & He).
    exists v. split; [done|]. split; [|done]. rewrite Hv. split.
    - intros (p & Ho & Hc). exists p. rewrite valid_file_configured by done.
      split; [|done]. rewrite !elem_of_cons. destruct Ho as [->| ->]; auto.
    - intros (p & Hin & Hc). exists p. rewrite valid_file_configured in Hc by done.
      split; [|done]. rewrite !elem_of_cons, elem_of_nil in Hin.
      destruct Hin as [?|[?|[]]]; auto. }
  destruct a; try (by apply Hsingle);
    try (apply Htwo; [done|done|intros p; apply getConfigPath_nonempty..]).
  destruct (claudecode_validate_report d σ) as (v & Hrun & Hv & He).
  exists v. split; [done|]. split; [|done]. rewrite Hv. simpl. split.
  - intros Hc. eexists. split; [apply list_elem_of_here|done].
  - by intros (p & [= ->]%list_elem_of_singleton & Hc).
Qed.

(** ** Where [configure] stores the entry, and where it does not *)

Lemma upsert_takes read apiKey config :
  ensure_mcpServers (live_of (or_else (Some read) (JObj ∅))) = Ok config →
  let D' := shown (store_back config MCP_SERVERS
                     (Object_assign (alias config MCP_SERVERS)
                                    (BasePlatform.getMcpServerConfig apiKey))) in
  if takes_entry read
  then prop (servers_of D') SPECTATOR = Some (spectator_entry apiKey)
  else D' = read ∧ configured read = false.
Proof.
  unfold ensure_mcpServers, or_else, BasePlatform.getMcpServerConfig, takes_entry.
  intros H. destruct (truthy read) eqn:T.
  - destruct read as [|b|n|s|elems|fs]; try discriminate T; try discriminate H.
    + unfold lget, lset, live_of in H. simpl in H.
      rewrite lookup_empty in H. cbn in H. injection H as <-. done.
    + unfold lget, lset, live_of in H. simpl in H.
      destruct (fs !! MCP_SERVERS) as [ms|] eqn:E; cbn in H.
      * destruct (truthy ms) eqn:Tm; cbn in H; injection H as <-.
        -- unfold alias, store_back, Object_assign, lget, live_of.
           simpl. rewrite E. simpl.
           unfold configured, servers_of, prop, lget, live_of.
           destruct ms; simpl; simpl_map; simpl; try discriminate Tm;
             rewrite ?E; simpl; rewrite ?lookup_empty;
             try (split; [by rewrite insert_id|done]).
           by rewrite lookup_union_l', lookup_singleton_eq by (by simpl_map).
        -- unfold alias, store_back, Object_assign, lget, live_of.
           simpl. simpl_map. simpl.
           assert (Hthen : prop (servers_of (JObj (<[MCP_SERVERS :=
                     JObj ({[SPECTATOR := spectator_entry apiKey]} ∪ ∅)]>
                     (<[MCP_SERVERS := JObj ∅]> fs)))) SPECTATOR
                   = Some (spectator_entry apiKey)).
           { unfold servers_of, prop, lget, live_of. simpl. simpl_map. simpl.
             by rewrite (right_id_L ∅ (∪)), lookup_singleton_eq. }
           by destruct ms.
      * injection H as <-.
        unfold alias, store_back, Object_assign, lget, live_of.
        simpl. simpl_map. simpl.
        unfold servers_of, prop, lget, live_of. simpl. simpl_map. simpl.
        by rewrite (right_id_L ∅ (∪)), lookup_singleton_eq.
  - unfold lget, lset, live_of in H. simpl in H.
    rewrite lookup_empty in H. cbn in H. injection H as <-.
    unfold alias, store_back, Object_assign, lget, live_of.
    simpl. simpl_map. simpl.
    assert (Hthen : prop (servers_of (JObj (<[MCP_SERVERS :=
              JObj ({[SPECTATOR := spectator_entry apiKey]} ∪ ∅)]> ∅))) SPECTATOR
            = Some (spectator_entry apiKey)).
    { unfold servers_of, prop, lget, live_of. simpl. simpl_map. simpl.
      by rewrite (right_id_L ∅ (∪)), lookup_singleton_eq. }
    destruct read; try done; simpl in T; by rewrite T.
Qed.

Lemma upserted_takes D apiKey already servers config :
  upserted D apiKey = Ok (already, servers, config) →
  if takes_entry D
  then prop (servers_of (shown config)) SPECTATOR = Some (spectator_entry apiKey)
  else shown config = D ∧ configured D = false.
Proof.
  unfold upserted. destruct (ensure_mcpServers _) as [c|m] eqn:E; [|done].
  intros [= _ _ <-]. exact (upsert_takes D apiKey c E).
Qed.

Lemma claudecode_upserted_takes D apiKey others isUpdated config :
  claudecode_upserted D apiKey = Ok (others, isUpdated, config) →
  if takes_entry D
  then prop (servers_of (shown config)) SPECTATOR = Some (spectator_entry apiKey)
  else shown config = D ∧ configured D = false.
Proof.
  unfold claudecode_upserted, member, takes_entry. intros H.
  destruct D as [|b|n|s|elems|fs]; try discriminate H.
  - unfold prop, lget, lset, live_of in H. simpl in H.
    rewrite lookup_empty in H. simpl in H.
    unfold alias, store_back, lset, lget, live_of in H. simpl in H.
    rewrite lookup_insert_eq in H. simpl in H. injection H as _ _ <-. done.
  - unfold prop, lget, lset, live_of in H. simpl in H.
    destruct (fs !! MCP_SERVERS) as [ms|] eqn:E; simpl in H.
    + destruct (truthy ms) eqn:Tm; simpl in H.
      * unfold alias, store_back, lset, lget, live_of in H. simpl in H.
        rewrite E in H. simpl in H.
        destruct ms; try discriminate H; simpl in H; injection H as _ _ <-;
          unfold configured, servers_of, prop, lget, live_of; simpl; simpl_map; simpl;
          simpl_map; simpl; rewrite ?E; simpl; rewrite ?lookup_empty; try done.
        split; [by rewrite insert_id|done].
      * unfold alias, store_back, lset, lget, live_of in H. simpl in H.
        rewrite lookup_insert_eq in H. simpl in H. injection H as _ _ <-.
        assert (Hthen : prop (servers_of (JObj (<[MCP_SERVERS :=
                  JObj (<[SPECTATOR := spectator_entry apiKey]> ∅)]>
                  (<[MCP_SERVERS := JObj ∅]> fs)))) SPECTATOR
                = Some (spectator_entry apiKey)).
        { unfold servers_of, prop, lget, live_of. simpl. simpl_map. simpl. by simpl_map. }
        by destruct ms.
    + unfold alias, store_back, lset, lget, live_of in H. simpl in H.
      rewrite lookup_insert_eq in H. simpl in H. injection H as _ _ <-.
      unfold servers_of, prop, lget, live_of; simpl; simpl_map; simpl. by simpl_map.
Qed.

(** ** What a [configure] that returns has read, and written *)

Lemma readConfig_done p σ D σ' : p ≠ [] →
  BasePlatform.readConfig p σ = Done D σ' → σ' = σ ∧ read_doc (σ !! p) = Some D.
Proof.
  intros Hp. rewrite readConfig_eq, node_at_nonempty by done.
  destruct (σ !! p) as [[[|D'|raw]|]|]; simpl; try done; by intros [= -> ->].
Qed.

Lemma configure_checked_returns p apiKey now σ r σ' : p ≠ [] →
  settle (configure_checked p apiKey now σ) = Done r σ' →
  ∃ D already servers config,
    read_doc (σ !! p) = Some D
    ∧ upserted D apiKey = Ok (already, servers, config)
    ∧ r = Report already (bool_decide (1 < length (Object_keys servers))) None
    ∧ σ' !! p = Some (File (JsonText (printed (shown config)))).
Proof.
  intros Hp. rewrite configure_checked_run.
  destruct (BasePlatform.readConfig p σ) as [D σ0| | |] eqn:Hread; try done.
  apply readConfig_done in Hread as [-> HD]; [|done]. simpl. unfold lift.
  destruct (upserted D apiKey) as [[[already servers] config]|m] eqn:Hu; simpl; [|done].
  intros Hrun. exists D, already, servers, config. split; [done|]. split; [done|].
  destruct (truthy_opt already); simpl in Hrun.
  - destruct (backupConfig_returns p now σ) as [(x & σ1 & Hr)|(e & σ1 & Hr)];
      rewrite Hr in Hrun; simpl in Hrun; [|done].
    destruct (writeConfig_returns p config σ1) as [(y & σ2 & Hr')|(e & σ2 & Hr')];
      rewrite Hr' in Hrun; simpl in Hrun; [|done].
    injection Hrun as <- <-. split; [done|]. by apply (write_returns p config σ1 y σ2).
  - destruct (writeConfig_returns p config σ) as [(y & σ2 & Hr')|(e & σ2 & Hr')];
      rewrite Hr' in Hrun; simpl in Hrun; [|done].
    injection Hrun as <- <-. split; [done|]. by apply (write_returns p config σ y σ2).
Qed.

Lemma configure_backup_first_returns p apiKey now σ r σ' : p ≠ [] →
  settle (configure_backup_first p apiKey now σ) = Done r σ' →
  ∃ D already servers config,
    read_doc (σ !! p) = Some D
    ∧ upserted D apiKey = Ok (already, servers, config)
    ∧ r = ReturnedTrue
    ∧ σ' !! p = Some (File (JsonText (printed (shown config)))).
Proof.
  intros Hp. rewrite configure_backup_first_run.
  pose proof (backup_keeps p now σ Hp) as Hb.
  destruct (backupConfig_returns p now σ) as [(x & σ1 & Hr)|(e & σ1 & Hr)];
    rewrite Hr in *; simpl in *; [|done].
  destruct (BasePlatform.readConfig p σ1) as [D σ0| | |] eqn:Hread; try done.
  apply readConfig_done in Hread as [-> HD]; [|done]. simpl. unfold lift.
  destruct (upserted D apiKey) as [[[already servers] config]|m] eqn:Hu; simpl; [|done].
  intros Hrun. exists D, already, servers, config. rewrite <- Hb. split; [done|].
  split; [done|].
  destruct (writeConfig_returns p config σ1) as [(y & σ2 & Hr')|(e & σ2 & Hr')];
    rewrite Hr' in Hrun; simpl in Hrun; [|done].
  injection Hrun as <- <-. split; [done|]. by apply (write_returns p config σ1 y σ2).
Qed.

Lemma claudecode_read_ok σ p D : p ≠ [] →
  claudecode_read σ p = Ok D → claudecode_read_doc (σ !! p) = Some D.
Proof.
  intros Hp. unfold claudecode_read, existsSync, readFileSync.
  rewrite node_at_nonempty by done.
  destruct (σ !! p) as [[[|D'|raw]|]|]; simpl; congruence.
Qed.

Lemma claudecode_configure_returns d apiKey s now σ r σ' :
  settle (ClaudeCode.configure d apiKey s now σ) = Done r σ' →
  ∃ D others isUpdated config,
    claudecode_read_doc (σ !! ClaudeCode.getConfigPath d) = Some D
    ∧ claudecode_upserted D apiKey = Ok (others, isUpdated, config)
    ∧ r = Report (Some (JBool isUpdated)) others (Some (ClaudeCode.getConfigPath d))
    ∧ σ' !! ClaudeCode.getConfigPath d = Some (File (JsonText (printed (shown config)))).
Proof.
  rewrite claudecode_configure_run. cbv zeta.
  set (p := ClaudeCode.getConfigPath d) in *.
  assert (Hp : p ≠ []) by (by apply app_nonempty_r).
  assert (Hdirs : ∃ σ1, σ1 !! p = σ !! p ∧
    ((if existsSync σ (dirname p) then Done () σ else mkdir_from [] (dirname p) σ) = Done () σ1
     ∨ ∃ e, (if existsSync σ (dirname p) then Done () σ else mkdir_from [] (dirname p) σ)
            = Raised e σ1)).
  { destruct (existsSync σ (dirname p)); [by eauto|].
    pose proof (mkdir_from_frame [] (dirname p) σ p (not_prefix_of_dirname p Hp)) as Hf.
    destruct (mkdir_from_settled [] (dirname p) σ) as [(σ1 & Hr)|(e & σ1 & Hr)];
      rewrite Hr in *; simpl in Hf; eauto. }
  destruct Hdirs as (σ1 & Hσ1 & [->|(e & ->)]); cbn [bind_res]; [|done].
  rewrite <- Hσ1. unfold lift at 1.
  destruct (claudecode_read σ1 p) as [D|m] eqn:Hread; cbn [bind_res]; [|done].
  apply claudecode_read_ok in Hread; [|done].
  unfold lift.
  destruct (claudecode_upserted D apiKey) as [[[others isUpdated] config]|m] eqn:Hu;
    cbn [bind_res]; [|done].
  unfold fs_writeFileSync. rewrite writeFileSync_eq by done.
  destruct (σ1 !! p) as [[c|]|] eqn:E; try done;
    destruct (node_at σ1 (dirname p)) as [[c'|]|]; simpl; try done;
    intros [= <- <-]; exists D, others, isUpdated, config;
    by rewrite lookup_insert_eq.
Qed.

(** What any adapter's [configure] has read and written when it returns. *)
Lemma configure_returns a d apiKey s now σ p r σ1 :
  config_path a d s = Some p →
  settle (configure a d apiKey s now σ) = Done r σ1 →
  ∃ D D1, input_doc a (σ !! p) = Some D
          ∧ upsert_doc a D apiKey = Some D1
          ∧ σ1 !! p = Some (File (JsonText (printed D1))).
Proof.
  intros Hpath. pose proof (config_path_nonempty a d s p Hpath) as Hp.
  rewrite configure_eq.
  destruct (decide (a = ClaudeCodeAdapter)) as [->|Ha].
  - simpl in Hpath. injection Hpath as <-. intros Hrun.
    destruct (claudecode_configure_returns d apiKey s now σ r σ1 Hrun)
      as (D & others & isUpdated & config & HD & Hu & _ & Hfile).
    exists D, (shown config). simpl. by rewrite Hu.
  - assert (Hrun : settle ((if checks_entry a then configure_checked p apiKey now
                            else configure_backup_first p apiKey now) σ) = Done r σ1 →
      ∃ D already servers config,
        read_doc (σ !! p) = Some D
        ∧ upserted D apiKey = Ok (already, servers, config)
        ∧ σ1 !! p = Some (File (JsonText (printed (shown config))))).
    { destruct (checks_entry a); intros Hrun.
      - destruct (configure_checked_returns p apiKey now σ r σ1 Hp Hrun)
          as (D & already & servers & config & HD & Hu & _ & Hfile). eauto 10.
      - destruct (configure_backup_first_returns p apiKey now σ r σ1 Hp Hrun)
          as (D & already & servers & config & HD & Hu & _ & Hfile). eauto 10. }
    intros Hdone.
    destruct Hrun as (D & already & servers & config & HD & Hu & Hfile).
    { destruct a; try done; by rewrite Hpath in Hdone. }
    exists D, (shown config).
    split; [by destruct a|]. split; [|done].
    destruct a; try done; simpl; by rewrite Hu.
Qed.

Lemma upsert_doc_takes a D apiKey D1 :
  upsert_doc a D apiKey = Some D1 →
  if takes_entry D
  then prop (servers_of D1) SPECTATOR = Some (spectator_entry apiKey)
  else D1 = D ∧ configured D = false.
Proof.
  assert (Hbase : match upserted D apiKey with
                  | Ok (_, _, config) => Some (shown config)
                  | Err _ => None
                  end = Some D1 →
    if takes_entry D
    then prop (servers_of D1) SPECTATOR = Some (spectator_entry apiKey)
    else D1 = D ∧ configured D = false).
  { destruct (upserted D apiKey) as [[[already servers] config]|m] eqn:Hu; [|done].
    intros [= <-]. by apply (upserted_takes D apiKey already servers config). }
  destruct a; simpl; try exact Hbase.
  destruct (claudecode_upserted D apiKey) as [[[others isUpdated] config]|m] eqn:Hu; [|done].
  intros [= <-]. by apply (claudecode_upserted_takes D apiKey others isUpdated config).
Qed.

Lemma upsert_doc_same_but_entry a D apiKey D1 :
  upsert_doc a D apiKey = Some D1 → same_but_entry D D1.
Proof.
  assert (Hbase : match upserted D apiKey with
                  | Ok (_, _, config) => Some (shown config)
                  | Err _ => None
                  end = Some D1 → same_but_entry D D1).
  { destruct (upserted D apiKey) as [[[already servers] config]|m] eqn:Hu; [|done].
    intros [= <-]. by apply (upserted_same_but_entry D apiKey already servers config). }
  destruct a; simpl; try exact Hbase.
  destruct (claudecode_upserted D apiKey) as [[[others isUpdated] config]|m] eqn:Hu; [|done].
  intros [= <-].
  by apply (claudecode_upserted_same_but_entry D apiKey others isUpdated config).
Qed.

(** The shape of a document that has taken the entry. *)
Lemma upsert_shape read apiKey config :
  ensure_mcpServers (live_of (or_else (Some read) (JObj ∅))) = Ok config →
  takes_entry read = true →
  ∃ fs m, shown (store_back config MCP_SERVERS
                   (Object_assign (alias config MCP_SERVERS)
                                  (BasePlatform.getMcpServerConfig apiKey)))
          = JObj (<[MCP_SERVERS := JObj (<[SPECTATOR := spectator_entry apiKey]> m)]> fs).
Proof.
  unfold ensure_mcpServers, or_else, BasePlatform.getMcpServerConfig, takes_entry.
  intros H Ht. destruct (truthy read) eqn:T.
  - destruct read as [|b|n|s|elems|fs]; try discriminate T; try discriminate H;
      try discriminate Ht.
    unfold lget, lset, live_of in H. simpl in H.
    destruct (fs !! MCP_SERVERS) as [ms|] eqn:E; cbn in H.
    + destruct (truthy ms) eqn:Tm; cbn in H; injection H as <-.
      * destruct ms; try discriminate Ht; try discriminate Tm.
        unfold alias, store_back, Object_assign, lget, live_of.
        simpl. rewrite E. simpl. rewrite <- insert_union_singleton_l. eauto.
      * unfold alias, store_back, Object_assign, lget, live_of.
        simpl. simpl_map. simpl. rewrite <- insert_union_singleton_l. eauto.
    + injection H as <-.
      unfold alias, store_back, Object_assign, lget, live_of.
      simpl. simpl_map. simpl. rewrite <- insert_union_singleton_l. eauto.
  - unfold lget, lset, live_of in H. simpl in H.
    rewrite lookup_empty in H. cbn in H. injection H as <-.
    unfold alias, store_back, Object_assign, lget, live_of.
    simpl. simpl_map. simpl. rewrite <- insert_union_singleton_l. eauto.
Qed.

Lemma claudecode_upserted_shape D apiKey others isUpdated config :
  claudecode_upserted D apiKey = Ok (others, isUpdated, config) →
  takes_entry D = true →
  ∃ fs m, shown config
          = JObj (<[MCP_SERVERS := JObj (<[SPECTATOR := spectator_entry apiKey]> m)]> fs).
Proof.
  unfold claudecode_upserted, member, takes_entry. intros H Ht.
  destruct D as [|b|n|s|elems|fs]; try discriminate H; try discriminate Ht.
  unfold prop, lget, lset, live_of in H. simpl in H.
  destruct (fs !! MCP_SERVERS) as [ms|] eqn:E; simpl in H.
  - destruct (truthy ms) eqn:Tm; simpl in H.
    + unfold alias, store_back, lset, lget, live_of in H. simpl in H.
      rewrite E in H. simpl in H.
      destruct ms; try discriminate H; try discriminate Ht; simpl in H.
      injection H as _ _ <-. simpl. eauto.
    + unfold alias, store_back, lset, lget, live_of in H. simpl in H.
      rewrite lookup_insert_eq in H. simpl in H. injection H as _ _ <-. simpl. eauto.
  - unfold alias, store_back, lset, lget, live_of in H. simpl in H.
    rewrite lookup_insert_eq in H. simpl in H. injection H as _ _ <-. simpl. eauto.
Qed.

(** A document that holds the entry of a key is left as it is by the
    in-memory steps of a [configure] with that key. *)
Lemma upsert_doc_settled a apiKey fs m :
  let D := JObj (<[MCP_SERVERS := JObj (<[SPECTATOR := spectator_entry apiKey]> m)]> fs) in
  upsert_doc a D apiKey = Some D.
Proof.
  intros D.
  assert (Hbase : match upserted D apiKey with
                  | Ok (_, _, config) => Some (shown config)
                  | Err _ => None
                  end = Some D).
  { unfold D, upserted, ensure_mcpServers, or_else. simpl.
    unfold lget, lset, live_of. simpl. rewrite lookup_insert_eq. simpl.
    unfold alias, store_back, Object_assign, lget, live_of,
      BasePlatform.getMcpServerConfig. simpl.
    rewrite lookup_insert_eq. simpl.
    by rewrite <- insert_union_singleton_l, !insert_insert_eq. }
  destruct a; simpl; try exact Hbase.
  unfold D, claudecode_upserted, member, prop, lget, lset, live_of. simpl.
  rewrite lookup_insert_eq. simpl.
  unfold alias, store_back, lget, lset, live_of. simpl.
  rewrite lookup_insert_eq. simpl.
  by rewrite !insert_insert_eq.
Qed.

Lemma upsert_doc_shape a D apiKey D1 :
  takes_entry D = true → upsert_doc a D apiKey = Some D1 →
  ∃ fs m,
    D1 = JObj (<[MCP_SERVERS := JObj (<[SPECTATOR := spectator_entry apiKey]> m)]> fs).
Proof.
  intros Et Hu.
  assert (Hbase : match upserted D apiKey with
                  | Ok (_, _, config) => Some (shown config)
                  | Err _ => None
                  end = Some D1 →
    ∃ fs m, D1 = JObj (<[MCP_SERVERS :=
                         JObj (<[SPECTATOR := spectator_entry apiKey]> m)]> fs)).
  { unfold upserted.
    destruct (ensure_mcpServers _) as [c|e] eqn:E; [|done].
    intros [= <-]. by apply (upsert_shape D apiKey c E). }
  destruct a; simpl in Hu; try (by apply Hbase).
  destruct (claudecode_upserted D apiKey) as [[[others isUpdated] config]|e] eqn:E;
    [|done].
  injection Hu as <-. by apply (claudecode_upserted_shape D apiKey others isUpdated).
Qed.

Lemma upsert_doc_idem a D apiKey D1 :
  upsert_doc a D apiKey = Some D1 → upsert_doc a D1 apiKey = Some D1.
Proof.
  intros Hu. pose proof (upsert_doc_takes a D apiKey D1 Hu) as Ht.
  destruct (takes_entry D) eqn:Et; [|destruct Ht as [-> _]; done].
  assert (Hshape : ∃ fs m,
    D1 = JObj (<[MCP_SERVERS := JObj (<[SPECTATOR := spectator_entry apiKey]> m)]> fs)).
  { assert (Hbase : match upserted D apiKey with
                    | Ok (_, _, config) => Some (shown config)
                    | Err _ => None
                    end = Some D1 →
      ∃ fs m, D1 = JObj (<[MCP_SERVERS :=
                           JObj (<[SPECTATOR := spectator_entry apiKey]> m)]> fs)).
    { unfold upserted.
      destruct (ensure_mcpServers _) as [c|e] eqn:E; [|done].
      intros [= <-]. by apply (upsert_shape D apiKey c E). }
    destruct a; simpl in Hu; try (by apply Hbase).
    destruct (claudecode_upserted D apiKey) as [[[others isUpdated] config]|e] eqn:E;
      [|done].
    injection Hu as <-. by apply (claudecode_upserted_shape D apiKey others isUpdated). }
  destruct Hshape as (fs & m & ->). apply upsert_doc_settled.
Qed.

Lemma returned_settled {A} (r : res A) a : returned r = Some a → settle r = Done a (final_fs r).
Proof.
  intros H. destruct (returned_done r a H) as (σ' & Hs).
  by rewrite (settled_final r a σ' Hs).
Qed.

Lemma input_doc_file (a : adapter) (D : json) (σ : fs) (p : path) :
  σ !! p = Some (File (JsonText D)) → input_doc a (σ !! p) = Some (parsed D).
Proof. intros ->. by destruct a. Qed.

Lemma entry_printed D1 apiKey :
  prop (servers_of D1) SPECTATOR = Some (spectator_entry apiKey) →
  prop (servers_of (printed D1)) SPECTATOR = Some (spectator_entry apiKey).
Proof.
  intros H. unfold printed. rewrite servers_of_jmap, prop_jmap, H. simpl.
  by rewrite jmap_entry.
Qed.

Lemma falsy_printed j : truthy j = false → truthy (printed j) = false.
Proof.
  destruct j as [|b|n|s|elems|fs]; simpl; try done.
  intros Hn. apply negb_false_iff, Z.eqb_eq in Hn. subst n. by vm_compute.
Qed.

Lemma unconfigured_printed D : configured D = false → configured (printed D) = false.
Proof.
  unfold configured, printed. rewrite servers_of_jmap, prop_jmap.
  destruct (prop (servers_of D) SPECTATOR) as [j|]; [|done]. apply falsy_printed.
Qed.

(** A value that came out of [JSON.parse] holds such values. *)
Lemma value_prop D k v : parsed D = D → prop D k = Some v → parsed v = v.
Proof.
  intros HD Hv. pose proof (prop_jmap (λ n, Some (to_double n)) D k) as H.
  fold (parsed D) in H. rewrite HD, Hv in H. simpl in H. by injection H.
Qed.

Lemma value_servers D : parsed D = D → parsed (servers_of D) = servers_of D.
Proof.
  intros HD. unfold servers_of.
  destruct (prop D MCP_SERVERS) as [ms|] eqn:E; [|done]. by apply (value_prop D MCP_SERVERS).
Qed.

Lemma input_doc_value a n D : input_doc a n = Some D → parsed D = D.
Proof.
  destruct a, n as [[[|text|raw]|]|]; simpl; intros [= <-];
    try done; apply parsed_idem.
Qed.

(** A document that has taken the entry is again a value of the
    program when the one it was made of is. *)
Lemma upsert_doc_value a D apiKey D1 :
  parsed D = D → takes_entry D = true → upsert_doc a D apiKey = Some D1 → parsed D1 = D1.
Proof.
  intros HD Ht Hu.
  destruct (upsert_doc_same_but_entry a D apiKey D1 Hu) as [Hfields Hservers].
  destruct (upsert_doc_shape a D apiKey D1 Ht Hu) as (fs & m & ->).
  unfold parsed. cbn [jmap]. f_equal. apply map_eq. intros k. rewrite lookup_fmap.
  destruct (decide (k = MCP_SERVERS)) as [->|Hk].
  - rewrite !lookup_insert_eq. cbn [fmap option_fmap option_map jmap]. do 2 f_equal.
    apply map_eq. intros k'. rewrite lookup_fmap.
    destruct (decide (k' = SPECTATOR)) as [->|Hk'].
    + rewrite !lookup_insert_eq. simpl. by rewrite jmap_entry.
    + specialize (Hservers k' Hk').
      unfold servers_of at 1 in Hservers. unfold prop at 2 in Hservers.
      unfold lget, live_of in Hservers. simpl in Hservers.
      rewrite lookup_insert_eq in Hservers. simpl in Hservers.
      unfold prop at 1 in Hservers. unfold lget, live_of in Hservers. simpl in Hservers.
      rewrite lookup_insert_ne in Hservers by done.
      rewrite lookup_insert_ne by done.
      destruct (m !! k') as [v|] eqn:Ev; [|done]. simpl. f_equal.
      apply (value_prop (servers_of D) k'); [by apply value_servers|done].
  - specialize (Hfields k Hk). unfold prop at 1 in Hfields.
    unfold lget, live_of in Hfields. simpl in Hfields.
    rewrite lookup_insert_ne in Hfields by done.
    rewrite lookup_insert_ne by done.
    destruct (fs !! k) as [v|] eqn:Ev; [|done]. simpl. f_equal.
    by apply (value_prop D k).
Qed.

(** [validate] never throws and writes nothing.  It reports [valid: true]
    exactly when a file of its scopes is a JSON document with a truthy
    entry of the tool (for Claude Code, an entry with a truthy [command]
    and truthy [args]); otherwise it reports an error message. *)
Theorem validate_report a d σ :
  ∃ v, settle (validate a d σ) = Done v σ
       ∧ (valid v = true ↔ ∃ p, Some p ∈ scope_paths a d ∧ valid_file a σ p = true)
       ∧ (valid v = false → ∃ m, error v = Some m ∧ m ≠ "").
Proof. apply validate_settle. Qed.

(** Whatever stood under the tool's name, a [configure] that returns has
    put the entry of its key there, whole: nothing of an entry edited by
    hand is left. *)
Theorem configure_stores_entry a d apiKey s now σ p D r :
  config_path a d s = Some p →
  input_doc a (σ !! p) = Some D →
  takes_entry D = true →
  returned (configure a d apiKey s now σ) = Some r →
  ∃ D1, final_fs (configure a d apiKey s now σ) !! p = Some (File (JsonText D1))
        ∧ prop (servers_of D1) SPECTATOR = Some (spectator_entry apiKey).
Proof.
  intros Hpath HD Ht Hret. apply returned_settled in Hret.
  destruct (configure_returns a d apiKey s now σ p r _ Hpath Hret)
    as (D' & D1 & HD' & Hu & Hfile).
  assert (D' = D) as -> by congruence.
  exists (printed D1). split; [done|].
  pose proof (upsert_doc_takes a D apiKey D1 Hu) as H. rewrite Ht in H.
  by apply entry_printed.
Qed.

Lemma configure_stores_entry_witness :
  ∃ D1, final_fs (configure VSCode linux_host "abc123xyz" None 17%N vscode_project_edited)
          !! vscode_file = Some (File (JsonText D1))
        ∧ prop (servers_of D1) SPECTATOR = Some (spectator_entry "abc123xyz").
Proof.
  apply (configure_stores_entry VSCode linux_host "abc123xyz" None 17%N
           vscode_project_edited vscode_file edited_document ReturnedTrue).
  - reflexivity.
  - vm_compute. reflexivity.
  - vm_compute. reflexivity.
  - vm_compute. reflexivity.
Defined.

(** A [configure] that finds a JSON array, or an object whose
    [mcpServers] is an array or a truthy primitive, and returns, has
    written back the value it read, [D], as [JSON.stringify] prints it:
    it reports success, and the entry is not in the file. *)
Theorem configure_skips_unfit_document a d apiKey s now σ p D r :
  config_path a d s = Some p →
  input_doc a (σ !! p) = Some D →
  takes_entry D = false →
  returned (configure a d apiKey s now σ) = Some r →
  final_fs (configure a d apiKey s now σ) !! p = Some (File (JsonText (printed D)))
  ∧ configured D = false
  ∧ valid_file a (final_fs (configure a d apiKey s now σ)) p = false.
Proof.
  intros Hpath HD Ht Hret. apply returned_settled in Hret.
  destruct (configure_returns a d apiKey s now σ p r _ Hpath Hret)
    as (D' & D1 & HD' & Hu & Hfile).
  assert (D' = D) as -> by congruence.
  pose proof (upsert_doc_takes a D apiKey D1 Hu) as H. rewrite Ht in H.
  destruct H as [-> Hc]. split; [done|]. split; [done|].
  unfold valid_file, valid_document. by rewrite Hfile, (unconfigured_printed D Hc).
Qed.

Lemma configure_skips_unfit_document_witness :
  final_fs (configure Cursor linux_host "abc123xyz" None 17%N cursor_with_array)
    !! cursor_file = Some (File (JsonText (printed (JArr [JNum 1; JNum 2]))))
  ∧ configured (JArr [JNum 1; JNum 2]) = false
  ∧ valid_file Cursor
      (final_fs (configure Cursor linux_host "abc123xyz" None 17%N cursor_with_array))
      cursor_file = false.
Proof.
  apply (configure_skips_unfit_document Cursor linux_host "abc123xyz" None 17%N
           cursor_with_array cursor_file (JArr [JNum 1; JNum 2]) (Report None false None)).
  - reflexivity.
  - vm_compute. reflexivity.
  - reflexivity.
  - vm_compute. reflexivity.
Defined.

(** A second [configure] can change the file of the first.  On
    [{ "mcpServers": 1e400 }] the first reads [Infinity], which is truthy
    and takes no entry, and prints it as [null]; the second reads
    [null], and stores the entry. *)
Lemma configure_twice_on_infinity :
  let σ1 := final_fs (configure Cursor linux_host "abc123xyz" None 17%N
                        cursor_with_infinite_servers) in
  let σ2 := final_fs (configure Cursor linux_host "abc123xyz" None 18%N σ1) in
  takes_entry (parsed infinite_servers_document) = false
  ∧ σ1 !! cursor_file = Some (File (JsonText (JObj {[MCP_SERVERS := JNull]})))
  ∧ σ2 !! cursor_file = Some (File (JsonText (fresh_document "abc123xyz"))).
Proof. vm_compute. repeat split; reflexivity. Qed.

(** After a [configure] that found a document which takes the entry,
    and returned, a second one with the same key that returns leaves the
    file with the content it had. *)
Theorem configure_idempotent a d apiKey s now1 now2 σ p D r1 r2 :
  config_path a d s = Some p →
  input_doc a (σ !! p) = Some D →
  takes_entry D = true →
  returned (configure a d apiKey s now1 σ) = Some r1 →
  returned (configure a d apiKey s now2 (final_fs (configure a d apiKey s now1 σ))) = Some r2 →
  final_fs (configure a d apiKey s now2 (final_fs (configure a d apiKey s now1 σ))) !! p
  = final_fs (configure a d apiKey s now1 σ) !! p.
Proof.
  intros Hpath HD0 Ht Hret1 Hret2. apply returned_settled in Hret1, Hret2.
  set (σ1 := final_fs (configure a d apiKey s now1 σ)) in *.
  destruct (configure_returns a d apiKey s now1 σ p r1 σ1 Hpath Hret1)
    as (D0 & D1 & HD & Hu & Hfile).
  assert (D0 = D) as -> by congruence.
  destruct (configure_returns a d apiKey s now2 σ1 p r2 _ Hpath Hret2)
    as (D' & D2 & HD' & Hu' & Hfile').
  rewrite (input_doc_file a (printed D1) σ1 p Hfile) in HD'. injection HD' as <-.
  pose proof (upsert_doc_value a D apiKey D1 (input_doc_value a _ D HD) Ht Hu) as Hvalue.
  assert (Hagain : upsert_doc a (parsed (printed D1)) apiKey = Some (parsed (printed D1))).
  { destruct (upsert_doc_shape a D apiKey D1 Ht Hu) as (fs & m & ->).
    unfold printed, parsed. cbn [jmap]. rewrite !fmap_insert. cbn [jmap].
    rewrite !fmap_insert, !jmap_entry. apply upsert_doc_settled. }
  rewrite Hagain in Hu'. injection Hu' as <-.
  by rewrite Hfile, Hfile', (reprinted D1 Hvalue).
Qed.

Lemma configure_idempotent_witness :
  final_fs (configure Cursor linux_host "abc123xyz" None 18%N
              (final_fs (configure Cursor linux_host "abc123xyz" None 17%N
                           cursor_with_other_tool))) !! cursor_file
  = final_fs (configure Cursor linux_host "abc123xyz" None 17%N cursor_with_other_tool)
      !! cursor_file.
Proof.
  apply (configure_idempotent Cursor linux_host "abc123xyz" None 17%N 18%N
           cursor_with_other_tool cursor_file other_tool_document (Report None true None)
           (Report (Some (spectator_entry "abc123xyz")) true None)).
  - reflexivity.
  - vm_compute. reflexivity.
  - vm_compute. reflexivity.
  - vm_compute. reflexivity.
  - vm_compute. reflexivity.
Defined.

(** A [configure] that found a document which takes the entry, and
    returned, is followed by a [validate] that reports [valid: true]. *)
Theorem configure_then_validate a d apiKey s now σ p D r :
  config_path a d s = Some p →
  input_doc a (σ !! p) = Some D →
  takes_entry D = true →
  returned (configure a d apiKey s now σ) = Some r →
  ∃ v, settle (validate a d (final_fs (configure a d apiKey s now σ)))
       = Done v (final_fs (configure a d apiKey s now σ))
       ∧ valid v = true.
Proof.
  intros Hpath HD Ht Hret. apply returned_settled in Hret.
  set (σ1 := final_fs (configure a d apiKey s now σ)) in *.
  destruct (configure_returns a d apiKey s now σ p r σ1 Hpath Hret)
    as (D' & D1 & HD' & Hu & Hfile).
  assert (D' = D) as -> by congruence.
  pose proof (upsert_doc_takes a D apiKey D1 Hu) as Hentry. rewrite Ht in Hentry.
  destruct (validate_settle a d σ1) as (v & Hrun & Hvalid & _).
  exists v. split; [done|]. apply Hvalid. exists p.
  split; [by apply (config_path_in_scope a d s)|].
  apply (entry_printed D1 apiKey) in Hentry.
  unfold valid_file, valid_document, configured, well_formed_entry.
  rewrite Hfile, Hentry. cbv zeta. simpl. rewrite entry_truthy.
  by destruct a.
Qed.

Lemma configure_then_validate_witness :
  ∃ v, settle (validate ClaudeCodeAdapter linux_host
                 (final_fs (configure ClaudeCodeAdapter linux_host "abc123xyz" None 17%N
                              empty_home)))
       = Done v (final_fs (configure ClaudeCodeAdapter linux_host "abc123xyz" None 17%N
                             empty_home))
       ∧ valid v = true.
Proof.
  apply (configure_then_validate ClaudeCodeAdapter linux_host "abc123xyz" None 17%N
           empty_home claudecode_file (JObj ∅)
           (Report (Some (JBool false)) false (Some claudecode_file))).
  - reflexivity.
  - vm_compute. reflexivity.
  - vm_compute. reflexivity.
  - vm_compute. reflexivity.
Defined.

(** ** [remove], then [validate] *)

Lemma configured_claudecode_without_entry D :
  configured (claudecode_without_entry D) = false.
Proof.
  unfold claudecode_without_entry. destruct (configured D) eqn:Hc; [|done].
  apply configured_inv in Hc as (fs & m & v & -> & E & _ & _).
  cbv zeta. rewrite (delete_entry_obj fs m E).
  unfold alias, Object_keys, ldelete, lget, live_of. simpl. simpl_map. simpl.
  case_bool_decide; simpl.
  - unfold configured, servers_of, prop, lget, live_of. simpl. by simpl_map.
  - unfold configured, servers_of, prop, lget, live_of. simpl.
    rewrite lookup_insert_eq. simpl. by rewrite lookup_delete_eq.
Qed.

Lemma configured_file_doc (σ : fs) (p : path) (D : json) :
  σ !! p = Some (File (JsonText D)) → configured_file σ p = configured D.
Proof. unfold configured_file. by intros ->. Qed.

Lemma touched_unconfigured σ σ' q p :
  touched σ σ' q → p ≠ q → configured_file σ p = false → configured_file σ' p = false.
Proof.
  intros (σ1 & [_ Hdirs] & Hend) Hpq Hc.
  assert (H1 : configured_file σ1 p = false).
  { unfold configured_file in *. destruct (Hdirs p) as [->|[-> _]]; done. }
  destruct Hend as [->|(c & ->)]; [done|].
  unfold configured_file in *. by rewrite lookup_insert_ne.
Qed.

Lemma remove_scope_unconfigures q removed σ x σ' : q ≠ [] →
  settle (remove_scope (Some q) removed σ) = Done x σ' → configured_file σ' q = false.
Proof.
  intros Hq Hrun.
  destruct (σ !! q) as [[[|D|raw]|]|] eqn:E.
  - rewrite remove_scope_run, E, readConfig_eq, node_at_nonempty, E in Hrun by done.
    discriminate Hrun.
  - rewrite (configured_file_doc σ' q (text_after_remove Cursor D)).
    + apply configured_text_after_remove.
    + by apply (remove_scope_doc q removed σ D x σ').
  - rewrite remove_scope_run, E, readConfig_eq, node_at_nonempty, E in Hrun by done.
    discriminate Hrun.
  - rewrite remove_scope_run, E, readConfig_eq, node_at_nonempty, E in Hrun by done.
    discriminate Hrun.
  - rewrite remove_scope_run, E in Hrun by done. injection Hrun as _ <-.
    unfold configured_file. by rewrite E.
Qed.

Lemma remove_scope_keeps_unconfigured o removed σ x σ' p :
  (∀ q, o = Some q → q ≠ []) →
  settle (remove_scope o removed σ) = Done x σ' →
  configured_file σ p = false → configured_file σ' p = false.
Proof.
  intros Ho Hrun Hc. destruct o as [q|]; [|by injection Hrun as _ <-].
  destruct (decide (p = q)) as [->|Hpq].
  - apply (remove_scope_unconfigures q removed σ x σ'); auto.
  - apply (touched_unconfigured σ σ' q p); try done.
    rewrite <- (settled_final _ _ _ Hrun). apply remove_scope_touched. by apply Ho.
Qed.

Lemma remove_two_unconfigures o1 o2 σ r σ' p :
  (∀ q, o1 = Some q → q ≠ []) → (∀ q, o2 = Some q → q ≠ []) →
  o1 = Some p ∨ o2 = Some p →
  settle (remove_two o1 o2 σ) = Done r σ' → configured_file σ' p = false.
Proof.
  intros H1 H2 Hp. unfold remove_two. rewrite settle_bind.
  destruct (settle (remove_scope o1 false σ)) as [x1 σ1| | |] eqn:E1; try done. simpl.
  rewrite settle_bind.
  destruct (settle (remove_scope o2 x1 σ1)) as [x2 σ2| | |] eqn:E2; try done. simpl.
  intros [= _ <-]. destruct Hp as [->| ->].
  - apply (remove_scope_keeps_unconfigured o2 x1 σ1 x2 σ2 p H2 E2).
    apply (remove_scope_unconfigures p false σ x1 σ1); auto.
  - apply (remove_scope_unconfigures p x1 σ1 x2 σ2); auto.
Qed.

Lemma remove_single_unconfigures q σ x σ' : q ≠ [] →
  settle (remove_single q σ) = Done x σ' → configured_file σ' q = false.
Proof.
  intros Hq Hrun.
  destruct (σ !! q) as [[[|D|raw]|]|] eqn:E.
  - rewrite remove_single_run, readConfig_eq, node_at_nonempty, E in Hrun by done.
    discriminate Hrun.
  - rewrite (configured_file_doc σ' q (text_after_remove Cursor D)).
    + apply configured_text_after_remove.
    + by apply (remove_single_doc q σ D x σ').
  - rewrite remove_single_run, readConfig_eq, node_at_nonempty, E in Hrun by done.
    discriminate Hrun.
  - rewrite remove_single_run, readConfig_eq, node_at_nonempty, E in Hrun by done.
    discriminate Hrun.
  - rewrite remove_single_run, readConfig_eq, node_at_nonempty, E in Hrun by done.
    simpl in Hrun. injection Hrun as _ <-.
    unfold configured_file. by rewrite E.
Qed.

Lemma claudecode_remove_unconfigures d σ x σ' :
  settle (ClaudeCode.remove d σ) = Done x σ' →
  configured_file σ' (ClaudeCode.getConfigPath d) = false.
Proof.
  intros Hrun. set (p := ClaudeCode.getConfigPath d) in *.
  destruct (σ !! p) as [[[|D|raw]|]|] eqn:E.
  - rewrite claudecode_remove_settled, claudecode_remove_run in Hrun. cbv zeta in Hrun.
    fold p in Hrun. rewrite E in Hrun. discriminate Hrun.
  - rewrite (configured_file_doc σ' p (text_after_remove ClaudeCodeAdapter D)).
    + apply configured_text_after_remove.
    + by apply (claudecode_remove_doc d σ D x σ').
  - rewrite claudecode_remove_settled, claudecode_remove_run in Hrun. cbv zeta in Hrun.
    fold p in Hrun. rewrite E in Hrun. discriminate Hrun.
  - rewrite claudecode_remove_settled, claudecode_remove_run in Hrun. cbv zeta in Hrun.
    fold p in Hrun. rewrite E in Hrun. discriminate Hrun.
  - rewrite claudecode_remove_settled, claudecode_remove_run in Hrun. cbv zeta in Hrun.
    fold p in Hrun. rewrite E in Hrun. injection Hrun as _ <-.
    unfold configured_file. by rewrite E.
Qed.

(** After a [remove] that returned, no file of its scopes holds the entry. *)
Lemma remove_leaves_unconfigured a d σ r σ' p :
  settle (remove a d σ) = Done r σ' →
  Some p ∈ scope_paths a d → configured_file σ' p = false.
Proof.
  rewrite remove_eq. intros Hrun Hin.
  pose proof (scope_path_nonempty a d p Hin) as Hp.
  assert (Hsingle : ∀ o : option path, o = Some p →
    settle (match o with
            | None => throw (no_path_to_remove a)
            | Some p => remove_single p
            end σ) = Done r σ' → configured_file σ' p = false).
  { intros o -> Hrun'. by apply (remove_single_unconfigures p σ r σ'). }
  destruct a; unfold scope_paths in Hin; rewrite ?elem_of_cons, ?elem_of_nil in Hin;
    unfold config_path in Hrun; cbv iota in Hrun;
    try (match type of Hrun with
         | settle (match ?o with Some _ => _ | None => _ end _) = _ =>
           apply (Hsingle o); [by destruct Hin as [Hin|[]]|exact Hrun]
         end).
  - destruct Hin as [[= ->]|[]]. by apply (claudecode_remove_unconfigures d σ r σ').
  - refine (remove_two_unconfigures _ _ σ r σ' p _ _ _ Hrun);
      try (intros q; apply getConfigPath_nonempty).
    destruct Hin as [Hin|[Hin|[]]]; auto.
  - refine (remove_two_unconfigures _ _ σ r σ' p _ _ _ Hrun);
      try (intros q; apply getConfigPath_nonempty).
    destruct Hin as [Hin|[Hin|[]]]; auto.
Qed.

Lemma valid_file_le a σ p : valid_file a σ p = true → configured_file σ p = true.
Proof.
  unfold valid_file, configured_file, valid_document.
  destruct (σ !! p) as [[[|D|raw]|]|]; try done. by intros [? _]%andb_true_iff.
Qed.

(** After a [remove] that returned, [validate] reports [valid: false],
    with a message. *)
Theorem remove_then_validate a d σ r :
  returned (remove a d σ) = Some r →
  ∃ v m, settle (validate a d (final_fs (remove a d σ)))
         = Done v (final_fs (remove a d σ))
         ∧ valid v = false ∧ error v = Some m ∧ m ≠ "".
Proof.
  intros Hret. apply returned_settled in Hret.
  set (σ' := final_fs (remove a d σ)) in *.
  destruct (validate_settle a d σ') as (v & Hrun & Hvalid & Herror).
  assert (Hv : valid v = false).
  { destruct (valid v) eqn:Ev; [|done].
    destruct (proj1 Hvalid eq_refl) as (p & Hin & Hfile).
    apply valid_file_le in Hfile.
    by rewrite (remove_leaves_unconfigured a d σ r σ' p Hret Hin) in Hfile. }
  destruct (Herror Hv) as (m & Hm & Hne). by exists v, m.
Qed.

Lemma remove_then_validate_witness :
  ∃ v m, settle (validate Cursor linux_host
                   (final_fs (remove Cursor linux_host
                      (final_fs (configure Cursor linux_host "abc123xyz" None 17%N
                                   cursor_with_other_tool)))))
         = Done v (final_fs (remove Cursor linux_host
                     (final_fs (configure Cursor linux_host "abc123xyz" None 17%N
                                  cursor_with_other_tool))))
         ∧ valid v = false ∧ error v = Some m ∧ m ≠ "".
Proof.
  apply (remove_then_validate Cursor linux_host
           (final_fs (configure Cursor linux_host "abc123xyz" None 17%N
                        cursor_with_other_tool)) (Some true)).
  vm_compute. reflexivity.
Defined.

(** ** What the report of a [configure] says *)

Lemma other_key_iff (m : gmap string json) :
  0 < length (filter (λ k, k ≠ SPECTATOR) (map_to_list m).*1)
  ↔ ∃ k v, k ≠ SPECTATOR ∧ m !! k = Some v.
Proof.
  rewrite filter_nonempty. split.
  - intros (k & [[k' v] [Hk Hin]]%list_elem_of_fmap & Hne). simpl in Hk. subst k'.
    apply elem_of_map_to_list in Hin. eauto.
  - intros (k & v & Hne & Hin). exists k. split; [|done].
    apply list_elem_of_fmap. exists (k, v). split; [done|]. by apply elem_of_map_to_list.
Qed.

Lemma claudecode_upserted_flags D apiKey others isUpdated config :
  claudecode_upserted D apiKey = Ok (others, isUpdated, config) →
  isUpdated = configured D
  ∧ (takes_entry D = true → (others = true ↔ other_server D)).
Proof.
  unfold claudecode_upserted, member, takes_entry, other_server, configured, servers_of.
  intros H.
  destruct D as [|b|n|s|elems|fs]; try discriminate H.
  - unfold prop, lget, lset, live_of in H. simpl in H.
    rewrite lookup_empty in H. simpl in H.
    unfold alias, store_back, lset, lget, live_of in H. simpl in H.
    rewrite lookup_insert_eq in H. simpl in H. injection H as _ <- _.
    split; [by rewrite lookup_empty|done].
  - unfold prop, lget, lset, live_of in *. simpl in *.
    destruct (fs !! MCP_SERVERS) as [ms|] eqn:E; simpl in H.
    + destruct (truthy ms) eqn:Tm; simpl in H.
      * unfold alias, store_back, lset, lget, live_of, Object_keys in H. simpl in H.
        rewrite E in H. simpl in H.
        destruct ms as [|b|n|s|elems|m]; try discriminate H; simpl in H;
          injection H as <- <- _; simpl.
        -- split; [by rewrite lookup_empty|done].
        -- split; [done|]. intros _. rewrite bool_decide_eq_true. apply other_key_iff.
      * unfold alias, store_back, lset, lget, live_of, Object_keys in H. simpl in H.
        rewrite lookup_insert_eq in H. simpl in H.
        rewrite lookup_empty, map_to_list_empty in H. simpl in H.
        injection H as <- <- _.
        pose proof (prop_falsy ms) as Hf. unfold prop, lget, live_of in Hf. simpl in Hf.
        split; [by rewrite Hf|]. intros _. split; [done|].
        intros (k & v & _ & Hk). by rewrite Hf in Hk.
    + unfold alias, store_back, lset, lget, live_of, Object_keys in H. simpl in H.
      rewrite lookup_insert_eq in H. simpl in H.
      rewrite lookup_empty, map_to_list_empty in H. simpl in H.
      injection H as <- <- _. simpl. split; [done|]. intros _. split; [done|].
      by intros (k & v & _ & Hk).
Qed.

Lemma claudecode_upserted_ok fs apiKey :
  takes_entry (JObj fs) = true →
  ∃ others isUpdated config,
    claudecode_upserted (JObj fs) apiKey = Ok (others, isUpdated, config).
Proof.
  unfold claudecode_upserted, member, takes_entry, prop, lget, lset, live_of. simpl.
  destruct (fs !! MCP_SERVERS) as [ms|] eqn:E; simpl.
  - destruct (truthy ms) eqn:Tm; simpl.
    + unfold alias, lget, lset, live_of. simpl. rewrite E. simpl.
      destruct ms; try discriminate; try discriminate Tm; simpl; eauto.
    + unfold alias, lget, lset, live_of. simpl. rewrite lookup_insert_eq. simpl. eauto.
  - unfold alias, lget, lset, live_of. simpl. rewrite lookup_insert_eq. simpl. eauto.
Qed.

Lemma upserted_flags D apiKey already servers config :
  upserted D apiKey = Ok (already, servers, config) →
  truthy_opt already = configured D
  ∧ (takes_entry D = true →
     (bool_decide (1 < length (Object_keys servers)) = true ↔ other_server D)).
Proof.
  intros Hu. split.
  { by rewrite (upserted_already D apiKey already servers config Hu). }
  intros Ht. destruct (truthy D) eqn:T.
  - destruct D as [|b|n|s|elems|fs]; try discriminate T; try discriminate Ht;
      try discriminate Hu;
      try (unfold takes_entry in Ht; rewrite T in Ht; discriminate Ht).
    destruct (claudecode_upserted_ok fs apiKey Ht) as (others & isUpdated & config' & Hc).
    rewrite (flags_agree _ _ _ _ _ _ _ _ _ Hu Hc).
    by apply (claudecode_upserted_flags _ _ _ _ _ Hc).
  - rewrite upserted_fresh in Hu by done. injection Hu as _ <- _.
    unfold Object_keys. simpl. rewrite singleton_keys. simpl.
    split; [done|]. unfold other_server, servers_of.
    intros (k & v & _ & Hk). rewrite (prop_falsy D) in Hk by done. done.
Qed.

(** What a [configure] returns, beside what it has read. *)
Lemma configure_returns_report a d apiKey s now σ p r σ1 :
  config_path a d s = Some p →
  settle (configure a d apiKey s now σ) = Done r σ1 →
  ∃ D, input_doc a (σ !! p) = Some D
       ∧ if reports a
         then ∃ updated others configPath,
                r = Report updated others configPath
                ∧ truthy_opt updated = configured D
                ∧ (takes_entry D = true → (others = true ↔ other_server D))
         else r = ReturnedTrue.
Proof.
  intros Hpath. pose proof (config_path_nonempty a d s p Hpath) as Hp.
  rewrite configure_eq.
  destruct (decide (a = ClaudeCodeAdapter)) as [->|Ha].
  - simpl in Hpath. injection Hpath as <-. intros Hrun.
    destruct (claudecode_configure_returns d apiKey s now σ r σ1 Hrun)
      as (D & others & isUpdated & config & HD & Hu & -> & Hfile).
    exists D. split; [done|]. simpl.
    destruct (claudecode_upserted_flags D apiKey others isUpdated config Hu) as [-> Ho].
    eexists _, _, _. split; [reflexivity|]. split; [|done]. simpl. by destruct (configured D).
  - destruct (checks_entry a) eqn:Hc.
    + assert (Hr : reports a = true) by (by destruct a).
      rewrite Hr. intros Hrun.
      assert (Hrun' : settle (configure_checked p apiKey now σ) = Done r σ1).
      { destruct a; try done; by rewrite Hpath in Hrun. }
      destruct (configure_checked_returns p apiKey now σ r σ1 Hp Hrun')
        as (D & already & servers & config & HD & Hu & -> & Hfile).
      exists D. split; [by destruct a|].
      destruct (upserted_flags D apiKey already servers config Hu) as [Hup Ho].
      eexists _, _, _. split; [reflexivity|]. done.
    + assert (Hr : reports a = false) by (by destruct a).
      rewrite Hr. intros Hrun.
      assert (Hrun' : settle (configure_backup_first p apiKey now σ) = Done r σ1).
      { destruct a; try done; by rewrite Hpath in Hrun. }
      destruct (configure_backup_first_returns p apiKey now σ r σ1 Hp Hrun')
        as (D & already & servers & config & HD & Hu & -> & Hfile).
      exists D. split; [by destruct a|done].
Qed.

(** The report of a [configure] that returns.  Claude Desktop, VS Code
    and Cline return [true], whatever they found.  Cursor, Windsurf and
    Claude Code report [updated] truthy exactly when the document held
    a truthy entry of the tool, and, for a document that takes the
    entry, [hasOtherServers] exactly when [mcpServers] held an entry
    under another name. *)
Theorem configure_report a d apiKey s now σ p D r :
  config_path a d s = Some p →
  input_doc a (σ !! p) = Some D →
  returned (configure a d apiKey s now σ) = Some r →
  if reports a
  then truthy (recorded_updated r) = configured D
       ∧ (takes_entry D = true → (recorded_others r = true ↔ other_server D))
  else r = ReturnedTrue.
Proof.
  intros Hpath HD Hret. apply returned_settled in Hret.
  destruct (configure_returns_report a d apiKey s now σ p r _ Hpath Hret) as (D' & HD' & H).
  assert (D' = D) as -> by congruence.
  destruct (reports a); [|done].
  destruct H as (updated & others & configPath & -> & Hup & Ho). split; [|done].
  simpl. rewrite <- Hup. unfold or_else. destruct updated as [j|]; [|done].
  simpl. by destruct (truthy j) eqn:Tj.
Qed.

Lemma configure_report_witness :
  truthy (recorded_updated (Report None true None)) = configured other_tool_document
  ∧ (takes_entry other_tool_document = true →
     (recorded_others (Report None true None) = true ↔ other_server other_tool_document)).
Proof.
  apply (configure_report Cursor linux_host "abc123xyz" None 17%N cursor_with_other_tool
           cursor_file other_tool_document (Report None true None)).
  - reflexivity.
  - vm_compute. reflexivity.
  - vm_compute. reflexivity.
Defined.

(** ** The methods of [BasePlatform] *)

Lemma dirname_ne p : p ≠ [] → dirname p ≠ p.
Proof.
  intros Hp E. apply (f_equal length) in E. rewrite (dirname_length p Hp) in E. lia.
Qed.

Lemma number_round_trip v :
  finite_double v → ∃ t, number_text v = Some t ∧ to_double t = v.
Proof.
  intros [Hv Hfin]. destruct (number_text v) as [t|] eqn:E.
  - exists t. split; [done|]. by apply (number_text_fits v t).
  - unfold number_text in E. destruct (INFINITY <=? Z.abs v)%Z eqn:Hle; [|done].
    apply Z.leb_le in Hle. lia.
Qed.

(** What is printed of a value whose numbers are finite doubles is
    parsed to that value. *)
Lemma parsed_printed j : numbers_all finite_double j → parsed (printed j) = j.
Proof.
  unfold parsed, printed. induction 1 as [|b|n Hn|s|elems _ IH|fields _ IH]; cbn [jmap];
    try done.
  - destruct (number_round_trip n Hn) as (t & -> & Ht). cbn [jmap]. by rewrite Ht.
  - f_equal. rewrite <- list_fmap_compose.
    transitivity (id <$> elems); [|apply list_fmap_id].
    apply list_fmap_ext. intros i e He. apply IH. by apply (list_elem_of_lookup_2 _ i).
  - f_equal. apply map_eq. intros k. rewrite !lookup_fmap.
    destruct (fields !! k) as [v|] eqn:Ev; [|done]. simpl. f_equal. by apply (IH k).
Qed.

(** [readConfig] reads what [writeConfig] has written: the value that
    was given, as [JSON.stringify] prints it and [JSON.parse] reads it
    again.  That is the value itself when the numbers in it are finite
    doubles (an infinity is printed as [null]).  The file then lies in a
    directory. *)
Theorem write_then_read p config σ x :
  p ≠ [] →
  returned (BasePlatform.writeConfig p config σ) = Some x →
  let σ' := final_fs (BasePlatform.writeConfig p config σ) in
  settle (BasePlatform.readConfig p σ') = Done (parsed (printed (shown config))) σ'
  ∧ (numbers_all finite_double (shown config) →
     settle (BasePlatform.readConfig p σ') = Done (shown config) σ')
  ∧ node_at σ' (dirname p) = Some Dir.
Proof.
  intros Hp Hret σ'. apply returned_settled in Hret. fold σ' in Hret.
  destruct (writeConfig_spec p config σ Hp) as (σ1 & Hdirs & [(Hrun & Hdir & _)|(e & Hrun)]).
  - assert (Hσ' : σ' = <[p := File (JSON_stringify config)]> σ1).
    { unfold σ'. by rewrite Hrun. }
    assert (Hread : settle (BasePlatform.readConfig p σ')
                    = Done (parsed (printed (shown config))) σ').
    { rewrite readConfig_eq, node_at_nonempty, Hσ', lookup_insert_eq by done. done. }
    split; [done|]. split.
    + intros Hfinite. by rewrite Hread, (parsed_printed _ Hfinite).
    + rewrite Hσ', node_at_insert_ne; [done|]. by apply dirname_ne.
  - rewrite Hrun in Hret. discriminate Hret.
Qed.

Lemma write_then_read_witness :
  let σ' := final_fs (BasePlatform.writeConfig cursor_file (live_of other_tool_document)
                        empty_home) in
  settle (BasePlatform.readConfig cursor_file σ')
  = Done (parsed (printed (shown (live_of other_tool_document)))) σ'
  ∧ (numbers_all finite_double (shown (live_of other_tool_document)) →
     settle (BasePlatform.readConfig cursor_file σ')
     = Done (shown (live_of other_tool_document)) σ')
  ∧ node_at σ' (dirname cursor_file) = Some Dir.
Proof.
  apply (write_then_read cursor_file (live_of other_tool_document) empty_home ()).
  - discriminate.
  - vm_compute. reflexivity.
Defined.



(** [backupConfig] returns [null] and does nothing when there is no
    file.  When it returns a path, that is the path of the file with
    [.backup.] and the time, the copy holds what the file holds, and
    nothing else has changed: the file itself is as it was. *)
Theorem backup_is_a_copy p now σ r :
  p ≠ [] →
  returned (BasePlatform.backupConfig p now σ) = Some r →
  let σ' := final_fs (BasePlatform.backupConfig p now σ) in
  match r with
  | None => σ !! p = None ∧ σ' = σ
  | Some bp =>
    bp = backup_path p now ∧ bp ≠ p
    ∧ ∃ c, σ !! p = Some (File c) ∧ σ' !! p = Some (File c)
           ∧ σ' = <[bp := File c]> σ
  end.
Proof.
  intros Hp Hret σ'. apply returned_settled in Hret. fold σ' in Hret.
  destruct (backupConfig_spec p now σ Hp)
    as [(Hnone & Hrun)|[(c & Hfile & _ & _ & Hrun)|(e & Hrun & _)]].
  - assert (σ' = σ) as Hσ' by (unfold σ'; by rewrite Hrun).
    rewrite Hrun in Hret. by injection Hret as <- _.
  - assert (σ' = <[backup_path p now := File c]> σ) as Hσ'
      by (unfold σ'; by rewrite Hrun).
    rewrite Hrun in Hret. injection Hret as <- _.
    split; [done|]. split; [apply backup_path_ne|].
    exists c. split; [done|]. split; [|done].
    rewrite Hσ', lookup_insert_ne; [done|]. apply backup_path_ne.
  - rewrite Hrun in Hret. discriminate Hret.
Qed.

Lemma backup_is_a_copy_witness :
  let σ' := final_fs (BasePlatform.backupConfig cursor_file 17%N cursor_with_other_tool) in
  backup_path cursor_file 17%N = backup_path cursor_file 17%N
  ∧ backup_path cursor_file 17%N ≠ cursor_file
  ∧ ∃ c, cursor_with_other_tool !! cursor_file = Some (File c)
         ∧ σ' !! cursor_file = Some (File c)
         ∧ σ' = <[backup_path cursor_file 17%N := File c]> cursor_with_other_tool.
Proof.
  apply (backup_is_a_copy cursor_file 17%N cursor_with_other_tool
           (Some (backup_path cursor_file 17%N))).
  - discriminate.
  - vm_compute. reflexivity.
Defined.

(** ** The [validate] command *)

Lemma validate_each_settle d σ names : ∀ results,
  (∀ name, name ∈ names → is_Some (platforms name)) →
  ∃ vs, settle (validate_each d names results σ) = Done (results ++ vs) σ
        ∧ Forall2 (reported_for d σ) names (result_line <$> vs).
Proof.
  induction names as [|name names IH]; intros results Hknown; simpl.
  { exists []. by rewrite app_nil_r. }
  destruct (Hknown name) as [a Ha]; [apply list_elem_of_here|]. rewrite Ha.
  rewrite settle_bind, settle_await.
  destruct (validate_settle a d σ) as (v & -> & Hvalid & Herror). cbn [bind_res].
  destruct (IH (results ++ [(name, v)])) as (vs & -> & Hvs).
  { intros n Hn. apply Hknown. by apply list_elem_of_further. }
  exists ((name, v) :: vs). split; [by rewrite <- app_assoc|].
  rewrite fmap_cons. constructor; [|done].
  exists a. split; [done|]. unfold result_line, valid_somewhere. cbn [fst snd].
  destruct (valid v) eqn:Ev.
  - left. split; [by apply Hvalid|done].
  - right. split.
    + intros H. apply Hvalid in H. congruence.
    + destruct (Herror eq_refl) as (m & -> & Hm). exists m. split; [done|].
      assert (given (Some m) = true) as ->; [|done].
      unfold given. destruct (String.eqb_spec m ""); [done|done].
Qed.

(** The [validate] command never ends the process and changes nothing.
    With no platform detected it reports a warning; otherwise it reports
    one line for each detected platform, in the detector's order: a
    success when a file of the platform's scopes holds a valid entry, an
    error with a message when none does. *)
Theorem validate_command_report d σ :
  ∃ lines, settle (validate_command d σ) = Done lines σ
    ∧ if decide (getInstalledPlatforms d σ = [])
      then lines = [LogHeader "Validating Spectator MCP Configurations";
                    LogWarning "No supported platforms detected."]
      else ∃ body,
          lines = [LogHeader "Validating Spectator MCP Configurations";
                   LogSection "Validation Results:"] ++ body
          ∧ Forall2 (reported_for d σ) (getInstalledPlatforms d σ) body.
Proof.
  unfold validate_command. rewrite settle_try_catch, settle_bind. cbn [settle bind_res].
  destruct (decide (getInstalledPlatforms d σ = [])) as [Hnone|Hsome].
  - rewrite bool_decide_true by (by rewrite Hnone). by eexists.
  - rewrite bool_decide_false by (by rewrite length_zero).
    rewrite settle_bind.
    destruct (validate_each_settle d σ (getInstalledPlatforms d σ) [])
      as (vs & -> & Hvs); [apply installed_known|].
    cbn. eexists. split; [done|]. by eexists.
Qed.

(** ** The [remove] command *)

Lemma writeConfig_lookup p config σ q : p ≠ [] →
  let σ' := final_fs (BasePlatform.writeConfig p config σ) in
  σ' !! q = σ !! q ∨ σ' !! q = Some Dir
  ∨ (q = p ∧ σ' !! q = Some (File (JSON_stringify config))).
Proof.
  intros Hp σ'. unfold σ'.
  destruct (writeConfig_spec p config σ Hp) as (σ1 & [_ Hdirs] & [(-> & _)|(e & ->)]);
    cbn [final_fs].
  - destruct (decide (q = p)) as [->|Hq].
    + right; right. by rewrite lookup_insert_eq.
    + rewrite lookup_insert_ne by done. destruct (Hdirs q) as [->|[-> _]]; auto.
  - destruct (Hdirs q) as [->|[-> _]]; auto.
Qed.

Lemma only_removes_refl σ : only_removes σ σ.
Proof. split; [apply nodes_kept_refl|by intros q]. Qed.

Lemma only_removes_trans σ1 σ2 σ3 :
  only_removes σ1 σ2 → only_removes σ2 σ3 → only_removes σ1 σ3.
Proof.
  intros [Hk1 Hc1] [Hk2 Hc2]. split; [by apply (nodes_kept_trans σ1 σ2)|].
  intros q Hq. by apply Hc2, Hc1.
Qed.

Lemma writeConfig_none_anew p config σ : p ≠ [] → configured (shown config) = false →
  none_configured_anew σ (final_fs (BasePlatform.writeConfig p config σ)).
Proof.
  intros Hp Hc q Hq. unfold configured_file in *.
  destruct (writeConfig_lookup p config σ q Hp) as [->|[->|[-> ->]]]; try done.
  by apply unconfigured_printed.
Qed.

Lemma deleted_unconfigured D :
  configured D = true → configured (shown (delete_entry (live_of D))) = false.
Proof.
  intros Hc. pose proof (configured_without_entry D) as H.
  unfold without_entry in H. by rewrite Hc in H.
Qed.

Lemma remove_single_only_removes q σ : q ≠ [] →
  only_removes σ (final_fs (remove_single q σ)).
Proof.
  intros Hq. split; [by apply (touched_nodes_kept _ _ q), remove_single_touched|].
  rewrite <- final_fs_settle, remove_single_run.
  destruct (readConfig_cases q σ) as [(D & ->)|(e & ->)]; simpl; [|by intros ?].
  destruct (configured D) eqn:Hc; [|by intros ?].
  rewrite final_fs_bind_done. apply writeConfig_none_anew; [done|].
  by apply deleted_unconfigured.
Qed.

Lemma remove_scope_only_removes o removed σ : (∀ q, o = Some q → q ≠ []) →
  only_removes σ (final_fs (remove_scope o removed σ)).
Proof.
  intros Ho. split; [by apply remove_scope_nodes_kept|].
  destruct o as [q|]; [|by intros ?]. assert (Hq : q ≠ []) by (by apply Ho).
  rewrite <- final_fs_settle, remove_scope_run by done.
  destruct (σ !! q) as [n|]; [|by intros ?].
  destruct (readConfig_cases q σ) as [(D & ->)|(e & ->)]; simpl; [|by intros ?].
  destruct (configured D) eqn:Hc; [|by intros ?].
  rewrite final_fs_bind_done. apply writeConfig_none_anew; [done|].
  by apply deleted_unconfigured.
Qed.

Lemma bind_only_removes {A B} (m : prog A) (f : A → prog B) σ :
  only_removes σ (final_fs (m σ)) →
  (∀ a σ1, only_removes σ1 (final_fs (f a σ1))) →
  only_removes σ (final_fs (bind m f σ)).
Proof.
  intros Hm Hf. unfold bind.
  induction (m σ) as [a σ1|e σ1|c σ1|σ1 rest IH]; simpl in *; auto.
  by apply (only_removes_trans σ σ1).
Qed.

Lemma claudecode_remove_only_removes d σ :
  only_removes σ (final_fs (ClaudeCode.remove d σ)).
Proof.
  split.
  { apply (touched_nodes_kept _ _ (ClaudeCode.getConfigPath d)), claudecode_remove_touched. }
  rewrite claudecode_remove_run. cbv zeta.
  set (p := ClaudeCode.getConfigPath d).
  assert (Hp : p ≠ []) by (by apply app_nonempty_r).
  destruct (σ !! p) as [[c|]|] eqn:E; try (by intros ?).
  destruct (JSON_parse c) as [D|m]; [|by intros ?].
  destruct (has_entry D) as [[|]|m]; try (by intros ?).
  rewrite writeFileSync_eq, E by done.
  destruct (node_at σ (dirname p)) as [[c'|]|]; try (by intros ?).
  intros q Hq. cbn [final_fs]. unfold configured_file in *.
  destruct (decide (q = p)) as [->|Hne].
  - rewrite lookup_insert_eq. apply unconfigured_printed, configured_claudecode_without_entry.
  - by rewrite lookup_insert_ne.
Qed.

Lemma remove_only_removes a d σ : only_removes σ (final_fs (remove a d σ)).
Proof.
  rewrite remove_eq.
  assert (Hsingle : ∀ o : option path, (∀ q, o = Some q → q ≠ []) →
    only_removes σ (final_fs (match o with
                              | None => throw (no_path_to_remove a)
                              | Some p => remove_single p
                              end σ))).
  { intros [q|] Ho; [|apply only_removes_refl].
    apply remove_single_only_removes. by apply Ho. }
  assert (Htwo : ∀ o1 o2 : option path,
    (∀ q, o1 = Some q → q ≠ []) → (∀ q, o2 = Some q → q ≠ []) →
    only_removes σ (final_fs (remove_two o1 o2 σ))).
  { intros o1 o2 H1 H2. unfold remove_two.
    apply bind_only_removes; [by apply remove_scope_only_removes|].
    intros removed σ1. apply bind_only_removes; [by apply remove_scope_only_removes|].
    intros removed' σ2. apply only_removes_refl. }
  destruct a;
    try (apply Hsingle; intros q; apply config_path_nonempty);
    try (apply Htwo; intros q; apply getConfigPath_nonempty).
  apply claudecode_remove_only_removes.
Qed.

Lemma remove_scope_settles o removed σ : (∀ q, o = Some q → q ≠ []) →
  returns_or_throws (settle (remove_scope o removed σ)).
Proof.
  intros Ho. destruct o as [q|]; [|left; by eexists _, _].
  rewrite remove_scope_run by (by apply Ho).
  destruct (σ !! q) as [n|]; [|left; by eexists _, _].
  destruct (readConfig_returns q σ) as [(D & σ1 & ->)|(e & σ1 & ->)]; simpl;
    [|right; by eexists _, _].
  destruct (configured D); [|left; by eexists _, _].
  destruct (writeConfig_returns q (delete_entry (live_of D)) σ1)
    as [(y & σ2 & ->)|(e & σ2 & ->)]; simpl; [left|right]; by eexists _, _.
Qed.

Lemma remove_settles a d σ : returns_or_throws (settle (remove a d σ)).
Proof.
  rewrite remove_eq.
  assert (Hsingle : ∀ o : option path,
    returns_or_throws (settle (match o with
                               | None => throw (no_path_to_remove a)
                               | Some p => remove_single p
                               end σ))).
  { intros [q|]; [|right; by eexists _, _].
    rewrite remove_single_run.
    destruct (readConfig_returns q σ) as [(D & σ1 & ->)|(e & σ1 & ->)]; simpl;
      [|right; by eexists _, _].
    destruct (configured D); [|left; by eexists _, _].
    destruct (writeConfig_returns q (delete_entry (live_of D)) σ1)
      as [(y & σ2 & ->)|(e & σ2 & ->)]; simpl; [left|right]; by eexists _, _. }
  assert (Htwo : ∀ o1 o2 : option path,
    (∀ q, o1 = Some q → q ≠ []) → (∀ q, o2 = Some q → q ≠ []) →
    returns_or_throws (settle (remove_two o1 o2 σ))).
  { intros o1 o2 H1 H2. unfold remove_two. rewrite settle_bind.
    destruct (remove_scope_settles o1 false σ H1) as [(x1 & σ1 & ->)|(e & σ1 & ->)];
      simpl; [|right; by eexists _, _].
    rewrite settle_bind.
    destruct (remove_scope_settles o2 x1 σ1 H2) as [(x2 & σ2 & ->)|(e & σ2 & ->)];
      simpl; [left|right]; by eexists _, _. }
  destruct a; try apply Hsingle;
    try (apply Htwo; intros q; apply getConfigPath_nonempty).
  rewrite claudecode_remove_settled, claudecode_remove_run. cbv zeta.
  destruct (σ !! _) as [[c|]|]; try (left; by eexists _, _); try (right; by eexists _, _).
  destruct (JSON_parse c) as [D|m]; [|right; by eexists _, _].
  destruct (has_entry D) as [[|]|m];
    try (left; by eexists _, _); try (right; by eexists _, _).
  destruct (writeFileSync _ _ _); [left|right]; by eexists _, _.
Qed.

(** C8, counterexample.  On an operating system the path table does not
    list, with nothing on disk, Claude Desktop's [remove] throws. *)
Lemma remove_not_as_stated : ¬ remove_as_stated.
Proof.
  intros H. destruct (H Claude other_host ∅) as (r & Hrun & _).
  - intros q Hq. simpl in Hq. rewrite elem_of_cons, elem_of_nil in Hq.
    by destruct Hq.
  - vm_compute in Hrun. discriminate Hrun.
Qed.

Lemma touched_node σ σ' p q n :
  touched σ σ' p → q ≠ p → σ !! q = Some n → σ' !! q = Some n.
Proof.
  intros (σ1 & [_ Hdirs] & Hend) Hq Hnode.
  assert (H1 : σ1 !! q = Some n).
  { destruct (Hdirs q) as [->|[Hd Hc]]; [done|].
    destruct n as [c|]; [by destruct (Hc c)|done]. }
  destruct Hend as [->|(x & ->)]; [done|]. by rewrite lookup_insert_ne.
Qed.

Lemma readConfig_unreadable q σ : q ≠ [] →
  unreadable σ q → ∃ e, BasePlatform.readConfig q σ = Raised e σ.
Proof.
  intros Hq [Hd|(c & m & Hf & Hm)]; rewrite readConfig_eq, node_at_nonempty by done.
  - rewrite Hd. eauto.
  - rewrite Hf, Hm. eauto.
Qed.

Lemma remove_scope_unreadable q removed σ : q ≠ [] →
  unreadable σ q → ∃ e, settle (remove_scope (Some q) removed σ) = Raised e σ.
Proof.
  intros Hq Hu. rewrite remove_scope_run by done.
  destruct (readConfig_unreadable q σ Hq Hu) as (e & He). rewrite He.
  destruct Hu as [->|(c & m & -> & _)]; simpl; eauto.
Qed.

Lemma remove_two_unreadable o1 o2 σ q :
  (∀ q, o1 = Some q → q ≠ []) → (∀ q, o2 = Some q → q ≠ []) →
  o1 = Some q ∨ o2 = Some q → unreadable σ q →
  ∃ e σ', settle (remove_two o1 o2 σ) = Raised e σ'.
Proof.
  intros H1 H2 Hq Hu. unfold remove_two. rewrite settle_bind.
  destruct (decide (o1 = Some q)) as [->|Hne].
  { destruct (remove_scope_unreadable q false σ (H1 q eq_refl) Hu) as (e & ->).
    simpl. eauto. }
  destruct Hq as [?|Hq]; [done|]. subst o2.
  destruct (remove_scope_settles o1 false σ H1) as [(x1 & σ1 & E1)|(e & σ1 & E1)];
    rewrite E1; cbn [bind_res]; [|eauto].
  assert (Hu1 : unreadable σ1 q).
  { destruct o1 as [q1|]; [|by injection E1 as _ <-].
    assert (Ht : touched σ σ1 q1).
    { rewrite <- (settled_final _ _ _ E1). apply remove_scope_touched. by apply H1. }
    assert (Hq1 : q ≠ q1) by congruence.
    destruct Hu as [Hd|(c & m & Hf & Hm)]; [left|right].
    - by apply (touched_node σ σ1 q1 q Dir).
    - exists c, m. split; [by apply (touched_node σ σ1 q1 q (File c))|done]. }
  rewrite settle_bind.
  destruct (remove_scope_unreadable q x1 σ1 (H2 q eq_refl) Hu1) as (e & ->).
  cbn [bind_res]. eauto.
Qed.

(** A [remove] that finds a directory, or a file that is not JSON, in one
    of its scopes throws. *)
Lemma remove_unreadable a d σ q :
  Some q ∈ scope_paths a d → unreadable σ q →
  ∃ e σ', settle (remove a d σ) = Raised e σ'.
Proof.
  intros Hin Hu. pose proof (scope_path_nonempty a d q Hin) as Hq. rewrite remove_eq.
  assert (Hsingle : ∀ o : option path, o = Some q →
    ∃ e σ', settle (match o with
                    | None => throw (no_path_to_remove a)
                    | Some p => remove_single p
                    end σ) = Raised e σ').
  { intros o ->. rewrite remove_single_run.
    destruct (readConfig_unreadable q σ Hq Hu) as (e & ->). simpl. eauto. }
  destruct a; unfold scope_paths in Hin; rewrite ?elem_of_cons, ?elem_of_nil in Hin;
    unfold config_path; cbv iota;
    try (apply Hsingle; by destruct Hin as [Hin|[]]).
  - destruct Hin as [[= ->]|[]].
    rewrite claudecode_remove_settled, claudecode_remove_run. cbv zeta.
    destruct Hu as [->|(c & m & -> & ->)]; eauto.
  - apply (remove_two_unreadable _ _ σ q); try (intros q'; apply getConfigPath_nonempty);
      try done.
    destruct Hin as [Hin|[Hin|[]]]; auto.
  - apply (remove_two_unreadable _ _ σ q); try (intros q'; apply getConfigPath_nonempty);
      try done.
    destruct Hin as [Hin|[Hin|[]]]; auto.
Qed.

(** A [remove] whose path the detector does not know throws, and writes
    nothing. *)
Lemma remove_no_path a d σ :
  None ∈ scope_paths a d → settle (remove a d σ) = Raised (no_path_to_remove a) σ.
Proof.
  intros Hin. rewrite remove_eq.
  destruct a; unfold scope_paths in Hin; rewrite ?elem_of_cons, ?elem_of_nil in Hin;
    unfold config_path; cbv iota;
    try (by destruct Hin as [<-|[]]);
    try (by destruct Hin as [Hin|[Hin|[]]]);
    by destruct Hin as [Hin|[]].
Qed.

(** C8, amended.  When every scope's path is known and holds no file, or
    a document without the entry, [remove] returns [false] ([undefined]
    in Claude Code), throws nothing and leaves the file system as it
    was.  Whatever it does, no node of the file system goes and a file
    stays a file.  When it returns, a file of its scopes that held a
    document with the entry holds that document without the entry, each
    field and entry that is left as [JSON.parse] and then
    [JSON.stringify] make it, unchanged when its text comes back from
    the two as it is.  It throws, and writes nothing, when the path is
    not known; it throws when a file of its scopes is a directory or is
    not JSON. *)
Theorem remove_policy a d σ :
  ((∀ o, o ∈ scope_paths a d → ∃ q, o = Some q ∧ unconfigured_at a σ q) →
   settle (remove a d σ) = Done (nothing_removed a) σ)
  ∧ (∀ q, is_Some (σ !! q) → is_Some (final_fs (remove a d σ) !! q))
  ∧ (∀ q c, σ !! q = Some (File c) → ∃ c', final_fs (remove a d σ) !! q = Some (File c'))
  ∧ (∀ p D r σ',
       Some p ∈ scope_paths a d → σ !! p = Some (File (JsonText D)) →
       configured D = true →
       settle (remove a d σ) = Done r σ' →
       ∃ D2, σ' !! p = Some (File (JsonText D2))
             ∧ (∀ k, k ≠ MCP_SERVERS → prop D2 k = rewritten <$> prop D k)
             ∧ (∀ k, prop (servers_of D2) k
                     = if decide (k = SPECTATOR) then None
                       else rewritten <$> prop (servers_of D) k)
             ∧ (∀ k v, k ≠ MCP_SERVERS → prop D k = Some v → rewritten v = v →
                  prop D2 k = Some v)
             ∧ (∀ k v, k ≠ SPECTATOR → prop (servers_of D) k = Some v →
                  rewritten v = v → prop (servers_of D2) k = Some v))
  ∧ (None ∈ scope_paths a d → settle (remove a d σ) = Raised (no_path_to_remove a) σ)
  ∧ (∀ q, Some q ∈ scope_paths a d → unreadable σ q →
       ∃ e σ', settle (remove a d σ) = Raised e σ').
Proof.
  split; [apply remove_quiet|].
  split; [intros q; apply (remove_nodes_kept a d σ q)|].
  split; [intros q; apply (remove_nodes_kept a d σ q)|].
  split; [|split; [apply remove_no_path|apply remove_unreadable]].
  intros p D r σ' Hin Hfile Hc Hrun.
  destruct (text_after_remove_spec a D Hc) as [Hfields Hservers].
  exists (text_after_remove a D). split; [by apply (remove_doc a d σ p D r σ')|].
  split; [done|]. split; [done|]. split.
  - intros k v Hk Hv Hsame. rewrite Hfields, Hv by done. simpl. by rewrite Hsame.
  - intros k v Hk Hv Hsame. rewrite Hservers, Hv, decide_False by done. simpl.
    by rewrite Hsame.
Qed.

Lemma remove_policy_witness :
  settle (remove Cursor linux_host cursor_with_other_tool)
  = Done (nothing_removed Cursor) cursor_with_other_tool.
Proof.
  apply (proj1 (remove_policy Cursor linux_host cursor_with_other_tool)).
  intros o Ho. apply list_elem_of_In in Ho. simpl in Ho.
  destruct Ho as [<-|[<-|[]]].
  - exists cursor_file. split; [reflexivity|]. right.
    exists other_tool_document. split; [vm_compute; reflexivity|].
    split; [vm_compute; reflexivity|discriminate].
  - exists ["work"; ".cursor"; "mcp.json"]. split; [reflexivity|]. left.
    vm_compute. reflexivity.
Defined.

Lemma remove_step_settle a d σ :
  settle (try_catch (_ ← await (remove a d); ret ()) (λ message, ret ()) σ)
  = Done () (final_fs (remove a d σ)).
Proof.
  rewrite settle_try_catch, settle_bind, settle_await, <- (final_fs_settle (remove a d σ)).
  by destruct (remove_settles a d σ) as [(r & σ1 & ->)|(e & σ1 & ->)].
Qed.

Lemma remove_each_settle d names : ∀ σ,
  ∃ σ', only_removes σ σ'
        ∧ ((settle (remove_each d names σ) = Done () σ'
            ∧ Forall (λ name, ¬ no_constructor name) names)
           ∨ (∃ e, settle (remove_each d names σ) = Raised e σ'
                   ∧ Exists no_constructor names)).
Proof.
  induction names as [|name names IH]; intros σ; cbn [remove_each].
  { exists σ. split; [apply only_removes_refl|]. left. by split. }
  destruct (platforms_entry name) as [a| | |] eqn:E.
  - rewrite settle_bind, remove_step_settle. cbn [bind_res].
    destruct (IH (final_fs (remove a d σ))) as (σ' & Hrel & Hend).
    exists σ'. split.
    { apply (only_removes_trans _ (final_fs (remove a d σ))); [|done].
      apply remove_only_removes. }
    destruct Hend as [[-> Hall]|(e & -> & Hex)]; [left|right; eauto].
    split; [done|]. constructor; [|done]. unfold no_constructor. by rewrite E.
  - rewrite settle_bind. cbn.
    destruct (IH σ) as (σ' & Hrel & Hend). exists σ'. split; [done|].
    destruct Hend as [[-> Hall]|(e & -> & Hex)]; [left|right; eauto].
    split; [done|]. constructor; [|done]. unfold no_constructor. by rewrite E.
  - exists σ. split; [apply only_removes_refl|]. right. eexists. split; [done|].
    by constructor.
  - destruct (IH σ) as (σ' & Hrel & Hend). exists σ'. split; [done|].
    destruct Hend as [[-> Hall]|(e & -> & Hex)]; [left|right; eauto].
    split; [done|]. constructor; [|done]. unfold no_constructor. by rewrite E.
Qed.

Lemma remove_action_settle d confirm given_list σ :
  ∃ σ', only_removes σ σ' ∧ (confirm = false → σ' = σ)
    ∧ ((settle (remove_action d confirm given_list σ) = Done () σ'
        ∧ (confirm = true →
           Forall (λ name, ¬ no_constructor name) (names_to_remove d σ given_list)))
       ∨ (settle (remove_action d confirm given_list σ) = Exited 1 σ'
          ∧ confirm = true ∧ Exists no_constructor (names_to_remove d σ given_list))).
Proof.
  unfold remove_action. rewrite settle_try_catch, settle_bind. cbn [settle bind_res].
  rewrite settle_bind, settle_await. cbn [ret settle bind_res].
  fold (names_to_remove d σ given_list).
  destruct confirm; cbn [negb].
  - destruct (remove_each_settle d (names_to_remove d σ given_list) σ)
      as (σ' & Hrel & [[-> Hall]|(e & -> & Hex)]);
      exists σ'; (split; [done|]); (split; [done|]); [left|right]; done.
  - exists σ. split; [apply only_removes_refl|]. split; [done|]. left. done.
Qed.

Lemma remove_each_final d names : ∀ σ, final_fs (remove_each d names σ) = removals d names σ.
Proof.
  induction names as [|name names IH]; intros σ; cbn [remove_each removals]; [done|].
  destruct (platforms_entry name) as [a| | |] eqn:E; try done.
  - rewrite <- final_fs_settle, settle_bind, remove_step_settle. cbn [bind_res].
    by rewrite final_fs_settle.
  - rewrite <- final_fs_settle, settle_bind. cbn. by rewrite final_fs_settle.
Qed.

Lemma remove_action_final d given_list σ :
  final_fs (remove_action d true given_list σ)
  = removals d (names_to_remove d σ given_list) σ.
Proof.
  rewrite <- remove_each_final.
  rewrite <- (final_fs_settle (remove_action _ _ _ _)),
    <- (final_fs_settle (remove_each _ _ _)).
  unfold remove_action. rewrite settle_try_catch, settle_bind. cbn [settle bind_res].
  rewrite settle_bind, settle_await. cbn [ret settle bind_res negb].
  fold (names_to_remove d σ given_list).
  by destruct (remove_each_settle d (names_to_remove d σ given_list) σ)
    as (σ' & _ & [[-> _]|(e & -> & _)]).
Qed.

(** The action of the [remove] command, run on its options.  Answered
    no, it changes nothing.  Answered yes, it goes over the names in
    turn, whether or not a platform's [remove] throws: it leaves the
    file system that the [remove] of each platform named, run one after
    the other, leaves.  It ends with status 0, and with status 1 only at
    a name that the platform table inherits and that is no constructor.
    In every case what was in the file system is still there, files are
    still files, and no file holds the entry that did not hold it. *)
Theorem remove_action_report d confirm given_list σ :
  let run := remove_action d confirm given_list σ in
  let names := names_to_remove d σ given_list in
  (exit_status run = 1%Z ↔ confirm = true ∧ Exists no_constructor names)
  ∧ (exit_status run = 0%Z ∨ exit_status run = 1%Z)
  ∧ (confirm = false → final_fs run = σ)
  ∧ (confirm = true → final_fs run = removals d names σ)
  ∧ nodes_kept σ (final_fs run)
  ∧ none_configured_anew σ (final_fs run).
Proof.
  intros run names.
  assert (Hgone : confirm = true → final_fs run = removals d names σ).
  { intros ->. apply remove_action_final. }
  destruct (remove_action_settle d confirm given_list σ)
    as (σ' & [Hkept Hanew] & Hno & Hend).
  assert (Hfinal : final_fs run = σ').
  { rewrite <- final_fs_settle. unfold run. by destruct Hend as [[-> _]|[-> _]]. }
  split; [|split; [|split; [|split; [done|]]]]; rewrite ?Hfinal; unfold exit_status, run.
  - destruct Hend as [[-> Hall]|[-> [Hc Hex]]]; [|done].
    split; [done|]. intros [Hc Hex]. specialize (Hall Hc).
    apply Exists_exists in Hex as (name & Hin & Hname).
    rewrite Forall_forall in Hall. by destruct (Hall name Hin).
  - destruct Hend as [[-> _]|[-> _]]; auto.
  - done.
  - done.
Qed.

(** ** The detector's [hasExistingConfig] *)

Lemma hasExistingConfig_truthy d σ name type :
  truthy_opt (hasExistingConfig d σ name type)
  = match getConfigPath d name type with
    | Some p => configured_file σ p
    | None => false
    end.
Proof.
  unfold hasExistingConfig.
  destruct (getConfigPath d name type) as [p|] eqn:Ep; [|done].
  assert (Hp : p ≠ []) by (by apply (getConfigPath_nonempty d name type)).
  unfold existsSync, readFileSync, configured_file. rewrite node_at_nonempty by done.
  destruct (σ !! p) as [[[|text|raw]|]|]; try done. cbn.
  rewrite <- (configured_parsed text). generalize (parsed text). intros D.
  unfold configured, servers_of.
  assert (H : member D MCP_SERVERS = Ok (prop D MCP_SERVERS) ∨ D = JNull)
    by (destruct D; auto).
  destruct H as [->| ->]; [|done].
  destruct (prop D MCP_SERVERS) as [ms|]; cbn; [|done].
  destruct (truthy ms) eqn:Hms; [done|]. cbn. by rewrite Hms, prop_falsy.
Qed.

Lemma platforms_inv name a :
  platforms name = Some a →
  (name = "claude" ∧ a = Claude) ∨ (name = "claudecode" ∧ a = ClaudeCodeAdapter)
  ∨ (name = "cursor" ∧ a = Cursor) ∨ (name = "windsurf" ∧ a = Windsurf)
  ∨ (name = "vscode" ∧ a = VSCode) ∨ (name = "cline" ∧ a = Cline).
Proof.
  unfold platforms. intros H.
  repeat (destruct (decide _) as [->|_] in H; [injection H as <-; tauto|]).
  discriminate H.
Qed.

Lemma scope_paths_detector name a d p :
  platforms name = Some a → a ≠ ClaudeCodeAdapter →
  Some p ∈ scope_paths a d ↔ ∃ type, getConfigPath d name type = Some p.
Proof.
  intros Hname Ha.
  destruct (platforms_inv name a Hname)
    as [[-> ->]|[[-> ->]|[[-> ->]|[[-> ->]|[[-> ->]|[-> ->]]]]]]; try done;
    unfold scope_paths; rewrite ?elem_of_cons, ?elem_of_nil; split.
  - intros [H|[]]. by exists global.
  - intros [[|] H]; by left.
  - intros [H|[H|[]]]; [by exists global|by exists project].
  - intros [[|] H]; auto.
  - intros [H|[]]. by exists global.
  - intros [[|] H]; by left.
  - intros [H|[H|[]]]; [by exists global|by exists project].
  - intros [[|] H]; auto.
  - intros [H|[]]. by exists global.
  - intros [[|] H]; by left.
Qed.

(** For every platform of the table but Claude Code, the adapter's
    [validate] reports [valid: true] exactly when the detector's
    [hasExistingConfig] is truthy for one of the two scopes. *)
Theorem validate_agrees_with_detector name a d σ :
  platforms name = Some a → a ≠ ClaudeCodeAdapter →
  ∃ v, settle (validate a d σ) = Done v σ
       ∧ (valid v = true
          ↔ ∃ type, truthy_opt (hasExistingConfig d σ name type) = true).
Proof.
  intros Hname Ha. destruct (validate_settle a d σ) as (v & Hrun & Hvalid & _).
  exists v. split; [done|]. rewrite Hvalid. split.
  - intros (p & Hin & Hfile).
    apply (scope_paths_detector name a d p Hname Ha) in Hin as [type Htype].
    exists type. rewrite hasExistingConfig_truthy, Htype. by apply (valid_file_le a).
  - intros (type & Htruthy). rewrite hasExistingConfig_truthy in Htruthy.
    destruct (getConfigPath d name type) as [p|] eqn:Ep; [|done].
    exists p. split; [apply (scope_paths_detector name a d p Hname Ha); eauto|].
    unfold valid_file, valid_document, configured_file in *.
    destruct (σ !! p) as [[[|D|raw]|]|]; try done. rewrite Htruthy. by destruct a.
Qed.

Lemma validate_agrees_with_detector_witness :
  ∃ v, settle (validate Cursor linux_host cursor_with_other_tool)
       = Done v cursor_with_other_tool
       ∧ (valid v = true
          ↔ ∃ type, truthy_opt (hasExistingConfig linux_host cursor_with_other_tool
                                  "cursor" type) = true).
Proof.
  apply (validate_agrees_with_detector "cursor" Cursor linux_host cursor_with_other_tool).
  - reflexivity.
  - discriminate.
Defined.

(** ** The key in a URL *)

Section ApiKey.
Import ApiValidator.

Lemma string_cons_app c (s t : string) : String c s +:+ t = String c (s +:+ t).
Proof. reflexivity. Qed.

Lemma string_nil_app (t : string) : "" +:+ t = t.
Proof. reflexivity. Qed.

Lemma string_app_assoc (s t u : string) : (s +:+ t) +:+ u = s +:+ t +:+ u.
Proof.
  induction s as [|c s IH]; [done|]. rewrite !string_cons_app. by f_equal.
Qed.

Lemma strip_prefix_spec pre : ∀ s rest, strip_prefix pre s = Some rest ↔ s = pre +:+ rest.
Proof.
  induction pre as [|a pre IH]; intros s rest; cbn [strip_prefix].
  - rewrite string_nil_app. split; [by intros [= ->]|by intros ->].
  - rewrite string_cons_app. destruct s as [|b s]; [done|].
    destruct (Ascii.eqb_spec a b) as [->|Hab].
    + rewrite IH. split; [by intros ->|by intros [= ->]].
    + split; [done|]. intros [= -> _]. done.
Qed.

Lemma every_app f s t : every f (s +:+ t) = every f s && every f t.
Proof.
  induction s as [|c s IH]; [done|].
  rewrite string_cons_app. cbn [every]. by rewrite IH, andb_assoc.
Qed.

Lemma match_at_start_spec s key :
  match_at_start s = Some key ↔ s = "/mcp-server/mcp/" +:+ key ∧ plain_key key.
Proof.
  unfold match_at_start, plain_key.
  destruct (strip_prefix "/mcp-server/mcp/" s) as [rest|] eqn:E.
  - apply strip_prefix_spec in E. subst s.
    destruct (String.eqb_spec rest "") as [->|Hne]; cbn [negb andb].
    + split; [done|]. intros [Heq [? _]].
      apply (inj (String.app "/mcp-server/mcp/")) in Heq. congruence.
    + destruct (every key_char rest) eqn:Hk.
      * split; [by intros [= <-]|]. intros [Heq _].
        apply (inj (String.app "/mcp-server/mcp/")) in Heq. congruence.
      * split; [done|]. intros [Heq [_ ?]].
        apply (inj (String.app "/mcp-server/mcp/")) in Heq. congruence.
  - split; [done|]. intros [Hs _]. apply strip_prefix_spec in Hs. congruence.
Qed.

(** The text after the last slash is determined by the string. *)
Lemma plain_tail_unique a : ∀ b k k',
  a +:+ String "/" k = b +:+ String "/" k' →
  every key_char k = true → every key_char k' = true → k = k'.
Proof.
  induction a as [|c a IH]; intros [|c' b] k k';
    rewrite ?string_cons_app, ?string_nil_app; intros E Hk Hk'.
  - by injection E.
  - injection E as <- ->. rewrite every_app in Hk. cbn in Hk.
    by apply andb_true_iff in Hk as [_ ?].
  - injection E as -> <-. rewrite every_app in Hk'. cbn in Hk'.
    by apply andb_true_iff in Hk' as [_ ?].
  - injection E as _ E. by apply (IH b).
Qed.

Lemma match_first_eq s :
  match_first s
  = match match_at_start s with
    | Some key => Some key
    | None => match s with String _ rest => match_first rest | EmptyString => None end
    end.
Proof. by destruct s. Qed.

Lemma match_first_complete key pre :
  plain_key key → match_first (pre +:+ "/mcp-server/mcp/" +:+ key) = Some key.
Proof.
  intros Hkey. induction pre as [|c pre IH]; rewrite match_first_eq.
  - assert (match_at_start ("" +:+ "/mcp-server/mcp/" +:+ key) = Some key) as ->; [|done].
    by apply match_at_start_spec.
  - destruct (match_at_start _) as [key'|] eqn:E; [|done].
    apply match_at_start_spec in E as [E [_ Hk']]. f_equal.
    change ("/mcp-server/mcp/" +:+ key') with ("/mcp-server/mcp" +:+ String "/" key') in E.
    change (String c pre +:+ "/mcp-server/mcp/" +:+ key)
      with (String c pre +:+ "/mcp-server/mcp" +:+ String "/" key) in E.
    rewrite <- string_app_assoc in E. symmetry.
    apply (plain_tail_unique _ _ _ _ E); [by destruct Hkey|done].
Qed.

Lemma match_first_sound s : ∀ key,
  match_first s = Some key → (∃ pre, s = pre +:+ "/mcp-server/mcp/" +:+ key) ∧ plain_key key.
Proof.
  induction s as [|c s IH]; intros key; rewrite match_first_eq.
  - destruct (match_at_start "") as [k|] eqn:E; [|done].
    intros [= ->]. apply match_at_start_spec in E as [E Hk]. split; [by exists ""|done].
  - destruct (match_at_start (String c s)) as [k|] eqn:E.
    + intros [= ->]. apply match_at_start_spec in E as [E Hk]. split; [by exists ""|done].
    + intros H. apply IH in H as [[pre ->] Hk]. split; [by exists (String c pre)|done].
Qed.

Lemma match_first_spec s key :
  match_first s = Some key
  ↔ (∃ pre, s = pre +:+ "/mcp-server/mcp/" +:+ key) ∧ plain_key key.
Proof.
  split; [apply match_first_sound|]. intros [[pre ->] Hk]. by apply match_first_complete.
Qed.

(** [extractApiKeyFromUrl] answers [key] exactly for the strings that
    end in [/mcp-server/mcp/] and then [key], a key that is not empty
    and has no slash and no white space in it (on ASCII text). *)
Theorem extract_api_key_spec url key :
  extractApiKeyFromUrl url = Some key
  ↔ (∃ pre, url = pre +:+ "/mcp-server/mcp/" +:+ key) ∧ plain_key key.
Proof. apply match_first_spec. Qed.

(** From the URL [formatApiUrl] makes of a key, and from the URL that
    [getMcpServerConfig] stores in the entry, [extractApiKeyFromUrl]
    gets the key back exactly when the key is not empty and has no
    slash and no white space in it. *)
Theorem api_key_round_trip key :
  (extractApiKeyFromUrl (formatApiUrl key) = Some key ↔ plain_key key)
  ∧ (extractApiKeyFromUrl (spectator_url key) = Some key ↔ plain_key key).
Proof.
  unfold extractApiKeyFromUrl. rewrite !match_first_spec. split; split.
  - by intros [_ ?].
  - intros Hk. split; [|done]. by exists baseUrl.
  - by intros [_ ?].
  - intros Hk. split; [|done]. by exists "https://spectatorcontext.com".
Qed.

End ApiKey.

(** ** The key asked of the server, and the script of part_001 *)

Lemma validateApiKey_settle server key σ :
  ∃ v, settle (ApiValidator.validateApiKey server key σ) = Done v σ
       ∧ (valid v = true ↔ key_accepted server key)
       ∧ (valid v = false → is_Some (error v)).
Proof.
  unfold ApiValidator.validateApiKey, key_accepted.
  destruct (String.eqb_spec key "") as [->|Hkey]; cbn [negb orb].
  { eexists. split; [done|]. cbn. split; [|eauto]. split; [done|]. by intros [? _]. }
  destruct (String.eqb_spec (trim key) "") as [Ht|Ht]; cbn [negb].
  { eexists. split; [done|]. cbn. split; [|eauto]. split; [done|]. by intros (_ & ? & _). }
  rewrite settle_bind, settle_await. cbn [ret settle bind_res].
  destruct (server (ApiValidator.formatApiUrl key)) as [status|code message].
  - case_bool_decide as H200.
    + subst status. eexists. split; [done|]. cbn. split; [|done]. done.
    + destruct (bool_decide (status = 401%Z) || bool_decide (status = 403%Z));
        (eexists; split; [done|]); cbn; (split; [|eauto]);
        (split; [done|]); intros (_ & _ & [= ?]); done.
  - destruct (bool_decide (code = Some "ECONNREFUSED") || bool_decide (code = Some "ENOTFOUND"));
      (eexists; split; [done|]); cbn; (split; [|eauto]);
      (split; [done|]); intros (_ & _ & [=]).
Qed.

(** [validateApiKey] never throws, whatever becomes of the request, and
    changes nothing.  It answers [valid: true] exactly when the key is
    not blank and the server responds with status 200; every other
    answer carries an error. *)
Theorem validate_api_key_report server key σ :
  ∃ v, settle (ApiValidator.validateApiKey server key σ) = Done v σ
       ∧ (valid v = true ↔ key_accepted server key)
       ∧ (valid v = false → is_Some (error v)).
Proof. apply validateApiKey_settle. Qed.

Lemma part001_configure_each_returns d apiKey sc clock names : ∀ i results σ,
  ∃ rs σ', settle (Part001.configure_each d apiKey sc clock i names results σ) = Done rs σ'.
Proof.
  induction names as [|name names IH]; intros i results σ; simpl; [eauto|].
  destruct (platforms name) as [a|]; [|apply IH].
  rewrite settle_bind, settle_try_catch, settle_bind, settle_await.
  destruct (configure_settles a d apiKey sc (clock i) σ) as [(r & σ1 & ->)|(e & σ1 & ->)];
    simpl; apply IH.
Qed.

Lemma part001_runSetup_settle d server answer clock options σ :
  let installed := getInstalledPlatforms d σ in
  (∃ σ', settle (Part001.runSetup d server answer clock options σ) = Done () σ'
         ∧ key_accepted server (the_key answer options)
         ∧ installed ≠ [] ∧ ¬ asks_for_unknown installed options)
  ∨ (settle (Part001.runSetup d server answer clock options σ) = Exited 1 σ
     ∧ (¬ key_accepted server (the_key answer options)
        ∨ installed = [] ∨ asks_for_unknown installed options)).
Proof.
  intros installed. unfold Part001.runSetup.
  rewrite settle_try_catch, settle_bind, key_step_settle. cbn [bind_res].
  rewrite settle_bind, settle_await.
  destruct (validateApiKey_settle server (the_key answer options) σ)
    as (v & -> & Hvalid & _). cbn [bind_res].
  destruct (valid v) eqn:Ev; cbn [negb].
  2:{ right. split; [done|]. left. intros H. apply Hvalid in H. congruence. }
  assert (Hkey : key_accepted server (the_key answer options)) by (by apply Hvalid).
  rewrite settle_bind. cbn [settle bind_res]. fold installed.
  case_bool_decide as Hinst.
  { right. split; [done|]. right; left. by apply length_zero. }
  assert (installed ≠ []) by (by rewrite <- length_zero).
  rewrite settle_bind. fold (explicit_list options). fold (requested options).
  unfold asks_for_unknown.
  destruct (explicit_list options) eqn:Hex; cbn [andb].
  - case_bool_decide as Hinv.
    { right. split; [done|]. right; right. split; [done|].
      by apply filter_nonempty in Hinv. }
    cbn [ret settle bind_res]. rewrite settle_bind.
    destruct (part001_configure_each_returns d (the_key answer options) (opt_scope options)
                clock (requested options) 0 [] σ) as (rs & σ' & ->).
    cbn [bind_res ret settle]. left. exists σ'.
    split; [done|]. split; [done|]. split; [done|].
    intros [_ Hp]. by apply (filter_nonempty (λ p, p ∉ installed)) in Hp.
  - cbn [ret settle bind_res]. rewrite settle_bind.
    destruct (part001_configure_each_returns d (the_key answer options) (opt_scope options)
                clock installed 0 [] σ) as (rs & σ' & ->).
    cbn [bind_res ret settle]. left. exists σ'.
    split; [done|]. split; [done|]. split; [done|]. by intros [? _].
Qed.

(** The script of part_001 ends with status 1, having written nothing,
    exactly when the server does not take the key, no platform is
    detected, or a platform asked for is not detected.  Otherwise it
    ends with status 0, whether or not a platform could be configured. *)
Theorem part001_setup_status d server answer clock options σ :
  let run := Part001.runSetup d server answer clock options σ in
  let installed := getInstalledPlatforms d σ in
  (exit_status run = 0%Z ∨ exit_status run = 1%Z)
  ∧ (exit_status run = 1%Z
     ↔ ¬ key_accepted server (the_key answer options)
       ∨ installed = [] ∨ asks_for_unknown installed options)
  ∧ (exit_status run = 1%Z → final_fs run = σ).
Proof.
  intros run installed. unfold exit_status, run.
  rewrite <- (final_fs_settle (Part001.runSetup d server answer clock options σ)).
  destruct (part001_runSetup_settle d server answer clock options σ)
    as [(σ' & -> & Hkey & Hinst & Hlist)|[-> Hwhy]]; fold installed.
  - split; [by left|]. split; [|done]. split; [done|]. intros [?|[?|?]]; done.
  - split; [by right|]. done.
Qed.

(** ** A configured platform is a detected platform *)

Lemma write_returns_dir p config σ x σ' : p ≠ [] →
  BasePlatform.writeConfig p config σ = Done x σ' → node_at σ' (dirname p) = Some Dir.
Proof.
  intros Hp Hrun.
  destruct (writeConfig_spec p config σ Hp) as (σ1 & _ & [(H & Hdir & _)|(e & H)]);
    rewrite H in Hrun; [|done].
  injection Hrun as _ <-. rewrite node_at_insert_ne; [done|]. by apply dirname_ne.
Qed.

Lemma configure_checked_dir p apiKey now σ r σ' : p ≠ [] →
  settle (configure_checked p apiKey now σ) = Done r σ' →
  node_at σ' (dirname p) = Some Dir.
Proof.
  intros Hp. rewrite configure_checked_run.
  destruct (BasePlatform.readConfig p σ) as [D σ0| | |]; try done. simpl. unfold lift.
  destruct (upserted D apiKey) as [[[already servers] config]|m]; simpl; [|done].
  intros Hrun.
  destruct (truthy_opt already); simpl in Hrun.
  - destruct (backupConfig_returns p now σ0) as [(x & σ1 & Hr)|(e & σ1 & Hr)];
      rewrite Hr in Hrun; simpl in Hrun; [|done].
    destruct (writeConfig_returns p config σ1) as [(y & σ2 & Hr')|(e & σ2 & Hr')];
      rewrite Hr' in Hrun; simpl in Hrun; [|done].
    injection Hrun as _ <-. by apply (write_returns_dir p config σ1 y σ2).
  - destruct (writeConfig_returns p config σ0) as [(y & σ2 & Hr')|(e & σ2 & Hr')];
      rewrite Hr' in Hrun; simpl in Hrun; [|done].
    injection Hrun as _ <-. by apply (write_returns_dir p config σ0 y σ2).
Qed.

Lemma configure_backup_first_dir p apiKey now σ r σ' : p ≠ [] →
  settle (configure_backup_first p apiKey now σ) = Done r σ' →
  node_at σ' (dirname p) = Some Dir.
Proof.
  intros Hp. rewrite configure_backup_first_run.
  destruct (backupConfig_returns p now σ) as [(x & σ1 & Hr)|(e & σ1 & Hr)];
    rewrite Hr; simpl; [|done].
  destruct (BasePlatform.readConfig p σ1) as [D σ0| | |]; try done. simpl. unfold lift.
  destruct (upserted D apiKey) as [[[already servers] config]|m]; simpl; [|done].
  intros Hrun.
  destruct (writeConfig_returns p config σ0) as [(y & σ2 & Hr')|(e & σ2 & Hr')];
    rewrite Hr' in Hrun; simpl in Hrun; [|done].
  injection Hrun as _ <-. by apply (write_returns_dir p config σ0 y σ2).
Qed.

Lemma claudecode_configure_dir d apiKey s now σ r σ' :
  settle (ClaudeCode.configure d apiKey s now σ) = Done r σ' →
  node_at σ' (dirname (ClaudeCode.getConfigPath d)) = Some Dir.
Proof.
  rewrite claudecode_configure_run. cbv zeta.
  set (p := ClaudeCode.getConfigPath d) in *.
  assert (Hp : p ≠ []) by (by apply app_nonempty_r).
  assert (Hdirs : ∃ σ1,
    (if existsSync σ (dirname p) then Done () σ else mkdir_from [] (dirname p) σ) = Done () σ1
    ∨ ∃ e, (if existsSync σ (dirname p) then Done () σ else mkdir_from [] (dirname p) σ)
           = Raised e σ1).
  { destruct (existsSync σ (dirname p)); [by eauto|].
    destruct (mkdir_from_settled [] (dirname p) σ) as [(σ1 & Hr)|(e & σ1 & Hr)];
      rewrite Hr; eauto. }
  destruct Hdirs as (σ1 & [->|(e & ->)]); cbn [bind_res]; [|done].
  unfold lift at 1.
  destruct (claudecode_read σ1 p) as [D|m]; cbn [bind_res]; [|done].
  unfold lift.
  destruct (claudecode_upserted D apiKey) as [[[others isUpdated] config]|m];
    cbn [bind_res]; [|done].
  unfold fs_writeFileSync. rewrite writeFileSync_eq by done.
  destruct (σ1 !! p) as [[c|]|] eqn:E; try done;
    destruct (node_at σ1 (dirname p)) as [[c'|]|] eqn:Ed; simpl; try done;
    intros [= _ <-]; rewrite node_at_insert_ne; try done; by apply dirname_ne.
Qed.

Lemma configure_dir a d apiKey s now σ p r σ1 :
  config_path a d s = Some p →
  settle (configure a d apiKey s now σ) = Done r σ1 →
  node_at σ1 (dirname p) = Some Dir.
Proof.
  intros Hpath. pose proof (config_path_nonempty a d s p Hpath) as Hp.
  rewrite configure_eq.
  destruct (decide (a = ClaudeCodeAdapter)) as [->|Ha].
  - simpl in Hpath. injection Hpath as <-. apply claudecode_configure_dir.
  - assert (Hrun : settle ((if checks_entry a then configure_checked p apiKey now
                            else configure_backup_first p apiKey now) σ) = Done r σ1 →
                   node_at σ1 (dirname p) = Some Dir).
    { destruct (checks_entry a);
        [by apply configure_checked_dir|by apply configure_backup_first_dir]. }
    intros Hdone. apply Hrun.
    destruct a; try done; by rewrite Hpath in Hdone.
Qed.

Lemma dirname_app (l : path) (x y : string) : dirname (l ++ [x; y]) = l ++ [x].
Proof.
  unfold dirname. change [x; y] with ([x] ++ [y]). by rewrite app_assoc, removelast_last.
Qed.

Lemma dirname_app3 (l : path) (x y z : string) : dirname (l ++ [x; y; z]) = l ++ [x; y].
Proof.
  unfold dirname. change [x; y; z] with ([x; y] ++ [z]).
  by rewrite app_assoc, removelast_last.
Qed.

Lemma exists_dir σ q : node_at σ q = Some Dir → existsSync σ q = true.
Proof. unfold existsSync. by intros ->. Qed.

(** Once an adapter's [configure] has returned, the detector finds the
    platform: for every platform but VS Code, which is detected by its
    application only, and Cursor configured for a project. *)
Theorem configured_platform_is_detected name a d apiKey s now σ r :
  platforms name = Some a → a ≠ VSCode → (a = Cursor → s ≠ Some project) →
  returned (configure a d apiKey s now σ) = Some r →
  isPlatformInstalled d (final_fs (configure a d apiKey s now σ)) name = true.
Proof.
  intros Hname Hvs Hcur Hret. apply returned_settled in Hret.
  set (σ1 := final_fs (configure a d apiKey s now σ)) in *.
  assert (Hdir : ∀ p, config_path a d s = Some p → existsSync σ1 (dirname p) = true).
  { intros p Hp. by apply exists_dir, (configure_dir a d apiKey s now σ p r σ1). }
  destruct (platforms_inv name a Hname)
    as [[-> ->]|[[-> ->]|[[-> ->]|[[-> ->]|[[-> ->]|[-> ->]]]]]]; try done;
    unfold isPlatformInstalled; cbn [decide]; simpl.
  - destruct (getConfigPath d "claude" global) as [p|] eqn:Ep.
    + unfold config_path in Hdir. rewrite Ep in Hdir. cbn [fmap option_fmap option_map exists_opt].
      rewrite (Hdir p eq_refl). apply orb_true_r.
    + rewrite configure_eq in Hret. unfold config_path in Hret. by rewrite Ep in Hret.
  - specialize (Hdir _ eq_refl). unfold ClaudeCode.getConfigPath in Hdir.
    rewrite dirname_app in Hdir. rewrite Hdir. apply orb_true_r.
  - assert (Hs : default global s = global).
    { destruct s as [[|]|]; try done. by destruct (Hcur eq_refl). }
    unfold config_path in Hdir. rewrite Hs in Hdir. specialize (Hdir _ eq_refl).
    rewrite dirname_app in Hdir. by rewrite Hdir.
  - specialize (Hdir _ eq_refl). by rewrite dirname_app3 in Hdir.
  - destruct (getConfigPath d "cline" global) as [p|] eqn:Ep.
    + unfold config_path in Hdir. rewrite Ep in Hdir. cbn [fmap option_fmap option_map exists_opt].
      by rewrite (Hdir p eq_refl).
    + rewrite configure_eq in Hret. unfold config_path in Hret. by rewrite Ep in Hret.
Qed.

Lemma configured_platform_is_detected_witness :
  isPlatformInstalled linux_host
    (final_fs (configure ClaudeCodeAdapter linux_host "abc123xyz" None 17%N empty_home))
    "claudecode" = true.
Proof.
  apply (configured_platform_is_detected "claudecode" ClaudeCodeAdapter linux_host
           "abc123xyz" None 17%N empty_home
           (Report (Some (JBool false)) false (Some claudecode_file))).
  - reflexivity.
  - discriminate.
  - discriminate.
  - vm_compute. reflexivity.
Defined.

(** ** What the setup loop records, and when nothing is written *)

Lemma configure_each_recorded d apiKey sc clock names : ∀ i results σ,
  (∀ name, name ∈ names → is_Some (platforms name)) →
  ∃ rs σ', settle (configure_each d apiKey sc clock i names results σ)
           = Done (results ++ rs) σ'
           ∧ recorded_from d apiKey sc clock i σ names rs σ'.
Proof.
  induction names as [|name names IH]; intros i results σ Hknown; simpl.
  { exists [], σ. rewrite app_nil_r. split; [done|constructor]. }
  destruct (Hknown name) as [a Ha]; [apply list_elem_of_here|]. rewrite Ha.
  assert (Hrest : ∀ n, n ∈ names → is_Some (platforms n)).
  { intros n Hn. apply Hknown. by apply list_elem_of_further. }
  rewrite settle_bind, settle_try_catch, settle_bind, settle_await.
  destruct (configure_settles a d apiKey sc (clock i) σ) as [(r & σ1 & Hr)|(e & σ1 & Hr)];
    rewrite Hr; cbn [bind_res catch_res ret settle].
  - destruct (IH (S i) (results ++ [SetupResult name true (recorded_updated r)
                                      (recorded_others r) None]) σ1 Hrest)
      as (rs & σ' & -> & Hrs).
    eexists (_ :: rs), σ'. split; [by rewrite <- app_assoc|].
    by apply (recorded_success _ _ _ _ i σ name names a r σ1).
  - destruct (IH (S i) (results ++ [SetupResult name false (JBool false) false (Some e)])
                σ1 Hrest) as (rs & σ' & -> & Hrs).
    eexists (_ :: rs), σ'. split; [by rewrite <- app_assoc|].
    by apply (recorded_failure _ _ _ _ i σ name names a e σ1).
Qed.

(** When every platform asked for is detected, the loop of [runSetup]
    comes to its end with one result for each targeted platform, in
    order.  A platform is recorded as a success exactly when its
    [configure], run on what the platforms before it have left, has
    returned, and then with what it reported; as a failure when it has
    thrown, and then with the message of the error. *)
Theorem setup_results_cover d apiKey clock options σ :
  ¬ asks_for_unknown (getInstalledPlatforms d σ) options →
  let names := targeted (getInstalledPlatforms d σ) options in
  ∃ σ', settle (configure_each d apiKey (opt_scope options) clock 0 names [] σ)
        = Done (setup_results d apiKey clock options σ) σ'
        ∧ recorded_from d apiKey (opt_scope options) clock 0 σ names
            (setup_results d apiKey clock options σ) σ'.
Proof.
  intros Hasks names. unfold setup_results. fold names.
  destruct (configure_each_recorded d apiKey (opt_scope options) clock names 0 [] σ)
    as (rs & σ' & -> & Hrs); [|by exists σ'].
  intros name Hname. unfold names, targeted in Hname.
  destruct (explicit_list options) eqn:Hex; [|by apply (installed_known d σ)].
  apply (installed_known d σ).
  destruct (decide (name ∈ getInstalledPlatforms d σ)) as [|Hout]; [done|].
  destruct Hasks. split; [done|]. by exists name.
Qed.

Lemma setup_results_cover_witness :
  let options := Options (Some "abc123xyz0") None (Some global) in
  let names := targeted (getInstalledPlatforms linux_host cursor_with_other_tool) options in
  ∃ σ', settle (configure_each linux_host "abc123xyz0" (opt_scope options) still 0 names []
                  cursor_with_other_tool)
        = Done (setup_results linux_host "abc123xyz0" still options cursor_with_other_tool) σ'
        ∧ recorded_from linux_host "abc123xyz0" (opt_scope options) still 0
            cursor_with_other_tool names
            (setup_results linux_host "abc123xyz0" still options cursor_with_other_tool) σ'.
Proof.
  apply (setup_results_cover linux_host "abc123xyz0" still
           (Options (Some "abc123xyz0") None (Some global)) cursor_with_other_tool).
  intros [Hex _]. vm_compute in Hex. discriminate Hex.
Defined.



(** ** The version check *)

Section Versions.
Import VersionCheck.

Lemma take_digits_app (ds rest : string) :
  all_digits ds = true →
  (match rest with String c _ => is_digit c = false | EmptyString => True end) →
  take_digits (ds +:+ rest) = (ds, rest).
Proof.
  intros Hds Hrest. induction ds as [|c ds IH].
  - rewrite string_nil_app. destruct rest as [|c rest]; [done|]. cbn. by rewrite Hrest.
  - cbn in Hds. apply andb_true_iff in Hds as [Hc Hds].
    rewrite string_cons_app. cbn [take_digits]. by rewrite Hc, (IH Hds).
Qed.

Lemma pretty_N_digits (n : N) : all_digits (pretty n) = true.
Proof.
  unfold pretty, pretty_N. case_decide; [reflexivity|]. by apply pretty_N_go_digits.
Qed.

Lemma pretty_N_go_app x : ∀ s, pretty_N_go x s = pretty_N_go x "" +:+ s.
Proof.
  induction (N.lt_wf_0 x) as [x _ IH]. intros s.
  destruct (decide (x = 0)%N) as [->|Hx]; [by rewrite !pretty_N_go_0|].
  rewrite (pretty_N_go_step x s), (pretty_N_go_step x "") by lia.
  assert (Hlt : (x `div` 10 < x)%N) by (apply N.div_lt; lia).
  rewrite (IH _ Hlt (String (pretty_N_char (x `mod` 10)) s)),
    (IH _ Hlt (String (pretty_N_char (x `mod` 10)) "")).
  by rewrite string_app_assoc.
Qed.

Lemma parse_digits_snoc s : ∀ acc c,
  parse_digits acc (s +:+ String c "") = (10 * parse_digits acc s + digit_value c)%N.
Proof.
  induction s as [|c' s IH]; intros acc c; [done|].
  rewrite string_cons_app. cbn [parse_digits]. by rewrite IH.
Qed.

Lemma digit_value_char (x : N) : (x < 10)%N → digit_value (pretty_N_char x) = x.
Proof.
  intros Hx.
  assert (x = 0 ∨ x = 1 ∨ x = 2 ∨ x = 3 ∨ x = 4 ∨ x = 5 ∨ x = 6 ∨ x = 7 ∨ x = 8 ∨ x = 9)%N
    as H by lia.
  repeat (destruct H as [->|H]; [reflexivity|]). by subst.
Qed.

Lemma parse_pretty_N_go (x : N) : parse_digits 0 (pretty_N_go x "") = x.
Proof.
  induction (N.lt_wf_0 x) as [x _ IH].
  destruct (decide (x = 0)%N) as [->|Hx]; [by rewrite pretty_N_go_0|].
  rewrite pretty_N_go_step, pretty_N_go_app, parse_digits_snoc by lia.
  rewrite IH by (apply N.div_lt; lia).
  rewrite digit_value_char by (apply N.mod_lt; lia).
  symmetry. apply N.div_mod. lia.
Qed.

Lemma parseInt_pretty (n : N) : parseInt (pretty n) = n.
Proof.
  unfold parseInt, pretty, pretty_N. case_decide as Hn; [by subst|].
  apply parse_pretty_N_go.
Qed.

Lemma pretty_N_nonempty (n : N) : pretty n ≠ "".
Proof.
  unfold pretty, pretty_N. case_decide as Hn; [done|].
  rewrite pretty_N_go_step, pretty_N_go_app by lia.
  destruct (pretty_N_go _ ""); discriminate.
Qed.

Lemma string_app_nil_r (s : string) : s +:+ "" = s.
Proof. induction s as [|c s IH]; [done|]. rewrite string_cons_app. by f_equal. Qed.

Lemma first_of_three_version (a b c : N) :
  first_of_three (version_text a b c) = Some (pretty a).
Proof.
  unfold first_of_three, version_text.
  rewrite (take_digits_app (pretty a)) by (done || apply pretty_N_digits).
  destruct (String.eqb_spec (pretty a) "") as [E|_]; [by apply pretty_N_nonempty in E|].
  change ("." +:+ pretty b +:+ "." +:+ pretty c)
    with (String "." (pretty b +:+ "." +:+ pretty c)).
  cbv iota beta.
  rewrite (take_digits_app (pretty b)) by (done || apply pretty_N_digits).
  destruct (String.eqb_spec (pretty b) "") as [E|_]; [by apply pretty_N_nonempty in E|].
  change ("." +:+ pretty c) with (String "." (pretty c)). cbv iota beta.
  assert (Hc : take_digits (pretty c) = (pretty c, "")).
  { pose proof (take_digits_app (pretty c) "" (pretty_N_digits c) I) as H.
    by rewrite string_app_nil_r in H. }
  rewrite Hc.
  by destruct (String.eqb_spec (pretty c) "") as [E|_]; [apply pretty_N_nonempty in E|].
Qed.

(** What [checkVersions] makes of a Node version [vA.B.C].  When
    [npx --version] answers a version [X.Y.Z], the check passes exactly
    when [A] is at least 18 and [X] at least 7.  When [npx] fails and
    [npm --version] answers, the check passes exactly when [A] is at
    least 18, whatever the version of npm.  When both fail it does not
    pass.  [ensureVersions(true)] ends the process with status 1 exactly
    when the check does not pass. *)
Theorem check_versions_report h A B C :
  process_version h = "v" +:+ version_text A B C →
  match npx_output h, npm_output h with
  | Some out, _ =>
    ∀ X Y Z, trim out = version_text X Y Z →
             (valid (checkVersions h) = true ↔ (18 ≤ A ∧ 7 ≤ X)%N)
  | None, Some _ => valid (checkVersions h) = true ↔ (18 ≤ A)%N
  | None, None => valid (checkVersions h) = false
  end
  ∧ ∀ σ, exit_status (ensureVersions true h σ)
         = if valid (checkVersions h) then 0%Z else 1%Z.
Proof.
  intros Hnode. split.
  - unfold checkVersions. rewrite Hnode.
    change (nodeMatch ("v" +:+ version_text A B C)) with (first_of_three (version_text A B C)).
    rewrite first_of_three_version, parseInt_pretty.
    destruct (npx_output h) as [out|].
    + intros X Y Z ->. rewrite first_of_three_version, parseInt_pretty.
      destruct (N.ltb_spec A 18); cbn; [split; [done|lia]|].
      destruct (N.ltb_spec X 7); cbn; [split; [done|lia]|]. split; [lia|done].
    + destruct (npm_output h) as [out|].
      * destruct (N.ltb_spec A 18); cbn; [split; [done|lia]|]. done.
      * by destruct (N.ltb_spec A 18).
  - intros σ. unfold ensureVersions, exit_status.
    by destruct (valid (checkVersions h)).
Qed.

Lemma check_versions_report_witness :
  (∀ X Y Z, trim ("10.2.4" +:+ String "010" "") = version_text X Y Z →
            (valid (checkVersions node20_host) = true ↔ (18 ≤ 20 ∧ 7 ≤ X)%N))
  ∧ ∀ σ, exit_status (ensureVersions true node20_host σ)
         = if valid (checkVersions node20_host) then 0%Z else 1%Z.
Proof.
  apply (check_versions_report node20_host 20 11 1). vm_compute. reflexivity.
Defined.

End Versions.

(** ** What a confirmed removal has done *)

Lemma platforms_entry_adapter name a :
  platforms name = Some a → platforms_entry name = AdapterClass a.
Proof. unfold platforms_entry. by intros ->. Qed.

Lemma platforms_entry_other name a :
  platforms name = Some a → platforms_entry name ≠ ObjectFunction
  ∧ platforms_entry name ≠ NotAConstructor ∧ platforms_entry name ≠ NoEntry.
Proof. intros H. by rewrite (platforms_entry_adapter name a H). Qed.

Lemma returned_none_or_done {A} (r : res A) :
  returns_or_throws (settle r) →
  (∃ x, settle r = Done x (final_fs r)) ∨ returned r = None.
Proof.
  unfold returned. intros [(x & σ1 & H)|(e & σ1 & H)]; rewrite H.
  - left. exists x. by rewrite (settled_final r x σ1 H).
  - by right.
Qed.

Lemma removals_only_removes d names : ∀ σ, only_removes σ (removals d names σ).
Proof.
  induction names as [|name names IH]; intros σ; cbn [removals];
    [apply only_removes_refl|].
  destruct (platforms_entry name) as [a| | |]; try done; try apply only_removes_refl.
  apply (only_removes_trans σ (final_fs (remove a d σ))); [apply remove_only_removes|done].
Qed.

Lemma removals_app d names1 names2 σ :
  Forall (λ name, ¬ no_constructor name) names1 →
  removals d (names1 ++ names2) σ = removals d names2 (removals d names1 σ).
Proof.
  revert σ. induction names1 as [|name names1 IH]; intros σ Hall; [done|].
  apply Forall_cons in Hall as [Hname Hall]. cbn [app removals].
  unfold no_constructor in Hname.
  destruct (platforms_entry name) as [a| | |]; try done; by apply IH.
Qed.

(** After a removal that was confirmed and ended with status 0, a
    platform of the list whose [remove] returned, when its turn came,
    holds the entry in none of its scopes.  Its turn comes on the file
    system that the names before it have left. *)
Theorem remove_action_unconfigures d given_list σ names1 name names2 a p r :
  names_to_remove d σ given_list = names1 ++ name :: names2 →
  exit_status (remove_action d true given_list σ) = 0%Z →
  platforms name = Some a → Some p ∈ scope_paths a d →
  returned (remove a d (removals d names1 σ)) = Some r →
  configured_file (final_fs (remove_action d true given_list σ)) p = false.
Proof.
  intros Hnames Hstatus Hname Hp Hret.
  pose proof (remove_action_settle d true given_list σ) as (σ' & _ & _ & Hend).
  assert (Hall : Forall (λ name, ¬ no_constructor name) (names1 ++ name :: names2)).
  { rewrite <- Hnames. unfold exit_status in Hstatus.
    destruct Hend as [[_ Hall]|[Hexit _]]; [by apply Hall|by rewrite Hexit in Hstatus]. }
  assert (Hfinal : final_fs (remove_action d true given_list σ)
                   = removals d (names1 ++ name :: names2) σ).
  { rewrite <- Hnames. apply remove_action_final. }
  rewrite Hfinal, removals_app by (by apply Forall_app in Hall as [? _]).
  cbn [removals]. rewrite (platforms_entry_adapter name a Hname).
  apply returned_settled in Hret.
  apply (proj2 (removals_only_removes d names2 _)).
  by apply (remove_leaves_unconfigured a d (removals d names1 σ) r).
Qed.

Lemma remove_action_unconfigures_witness :
  let σ := final_fs (configure Cursor linux_host "abc123xyz" None 17%N
                       cursor_with_other_tool) in
  configured_file (final_fs (remove_action linux_host true (Some "cursor") σ)) cursor_file
  = false.
Proof.
  intros σ.
  apply (remove_action_unconfigures linux_host (Some "cursor") σ [] "cursor" [] Cursor
           cursor_file (Some true)).
  - vm_compute. reflexivity.
  - vm_compute. reflexivity.
  - reflexivity.
  - assert (E : scope_paths Cursor linux_host
                = [Some cursor_file; Some ["work"; ".cursor"; "mcp.json"]])
      by (vm_compute; reflexivity).
    rewrite E. apply list_elem_of_here.
  - vm_compute. reflexivity.
Defined.
